(* ===== verification/_CoqProject ===== *)
-Q . S2P
Prelude.v
Text.v
Json.v
Extern.v
Types.v
Sections.v
Ewf2.v
Parse.v
Source.v
ChunkTable.v
ReaderOpen.v
Resident.v
Path.v
Discover.v
Reader.v
Concurrent.v
OpenSafe.v
LazyOpen.v
Vfs.v
Hex.v
Logical.v
LogicalRead.v
Ltree.v
Anomaly.v
Messages.v
IntegrityV1.v
IntegrityV1Props.v
IntegrityV2.v
Integrity.v
IntegrityProps.v
IntegrityApi.v
Recover.v
RecoverProps.v
EwfCheck.v
EwfCheckProps.v
Report.v
ReportProps.v
Cli.v
CliProps.v
LtreeList.v
ErrorText.v
Values.v
Mcp.v
McpProps.v
Output.v
OutputProps.v
Acquire.v
Stored.v
AcquireRead.v
AcquireCheck.v
AcquireRecover.v
AcquireV2.v
AcquireV2Read.v
AcquireV2Check.v
FuzzTargets.v
Bench.v
BenchProps.v
BenchMain.v
Evidence.v
Fixtures.v
Shell.v
Witnesses.v
CommandWitnesses.v
ToolWitnesses.v
