(* ===== verification/Prelude.v ===== *)
(** * A verification of ewf-forensic

    The repository reads, checks and repairs disk images in the Expert Witness
    formats: EWF v1 (E01, L01), a chain of sections per segment file, and EWF v2
    (Ex01, Lx01), a chain walked backwards.  It has three crates: the reader
    ([src/core]), the integrity analyser with the recovery tool ([src/forensic]) and
    the command [ewf] ([src/cli]).  This library models them file by file and proves
    what they promise about untrusted images.

    ** The program and its model

    A fallible operation is a function to [outcome]: [Ok], [Err] or [Panic], so that
    an index out of range, a capacity overflow and, in a build with overflow checks
    (the class [Profile] of Extern), an arithmetic overflow are visible.  Machine
    integers are values of [Z] with their wrap-around or saturation written out
    ([add64], [mul64], [sat_add], [wrap32]); bytes are [list byte]; a [String] is the
    list of its scalar values ([text]).  A method that mutates behind a lock, or a
    function that pushes on a log, is a state-passing computation.

    - Prelude: [outcome], bytes, slices, little-endian fields, machine integers, the
      hint databases [ewf] and the tactics ([bool_hyps]); Text: the part of [str] the
      program uses; Json: a grammar and a reader of JSON, as the reference for what
      the program prints; Extern: the third-party crates as classes of operations, with
      what they document as classes of laws and reference instances.
    - Sections ([core/src/sections.rs]), Ewf2 ([core/src/ewf2.rs]), Types
      ([error.rs], [types.rs]), Parse ([parse.rs] and the EWF v2 metadata of
      [reader.rs]): the on-disk structures and their parsers.
    - Source ([segment_source.rs], [pread]): the backing stores of a segment and a
      positioned read that survives short reads and interruptions; the class of a
      store that serves its bytes is [served].
    - ChunkTable ([chunk_table.rs]): the flat table and the paged table that parses a
      section on first use behind a bounded cache.  Resident: the memory they keep.
    - ReaderOpen and Reader ([reader.rs]): opening a segment set of either format,
      chunk decoding behind a page cache, positioned and cursor reads, verification.
      Discover: segment discovery and the [open] entry points; OpenSafe: both formats
      opened by path on hostile files; LazyOpen: the paged open against the eager one.
      Vfs ([vfs.rs]): the adapter to the virtual file system.
    - Concurrent ([reader.rs], [chunk_table.rs]): the methods that threads share, each
      as the sequence of its accesses to the two caches under their mutexes, and the
      schedules of a pool of calls as a step relation.
    - Path, Logical, LogicalRead ([logical.rs]): the file tree of a logical container
      and reading a file out of it.  Ltree: the documents that list a forest of files,
      and what the parser makes of them; LtreeList: their listing by the command.
    - Anomaly, Messages, IntegrityV1, IntegrityV2, Integrity ([integrity.rs],
      [integrity_path.rs]): the analyser of either format and its two front ends;
      the theorems are in IntegrityV1Props, IntegrityProps and IntegrityApi.
    - Recover, RecoverProps ([recover.rs]): tolerant recovery to a raw image.
    - EwfCheck, EwfCheckProps, Report, ReportProps ([bin/ewf_check.rs]), Hex: the
      command ewf-check.
    - Cli, CliProps ([handlers.rs]): the handlers of the command ewf over the reader;
      ErrorText: the messages of their errors; Values: the JSON values they build; Mcp,
      McpProps ([mcp.rs]): the server, over a file system ([FileSystem]) that an
      extraction changes; Output, OutputProps ([main.rs]): what is printed, the listing
      of a tree, [main] and its exit codes.
    - Acquire, AcquireRead, AcquireCheck, AcquireRecover, and for EWF v2 AcquireV2,
      AcquireV2Read and AcquireV2Check: writers of well-formed images, which no source
      defines, and the end-to-end theorems about the images they write; Stored: what
      both share, the chunks and the media they hold.  Evidence: the commands on the
      files of such an image in a file system.
    - FuzzTargets ([core/fuzz], [forensic/fuzz], [forensic/examples/validate.rs]): the
      five fuzz targets and the example; Bench, BenchProps, BenchMain
      ([core/examples/bench_table.rs]): the benchmark, the image it writes, and its
      [main].
    - Fixtures, Witnesses, Shell, CommandWitnesses, ToolWitnesses: small images,
      concrete external code, a directory of files and a JSON printer, on which the
      theorems are applied and the findings are shown.

    The components meet at three interfaces.  A segment is read through
    [SegmentSource]: the reader's theorems assume [served], and a loose file, a
    sub-range and a memory buffer are shown to meet it (segment_sources_agree).  A
    chunk table is read through [ChunkTable_get]: the reader's theorems hold for both
    storages because the paged one refines the flat one (lazy_refines_eager).  An
    opened image is the abstract [image] of Reader, a list of chunk pages and a size:
    [presents im pos r] relates it to a reader with its caches and its cursor, and
    each operation is proved against it, so that the command, the logical tree and
    the adapter reason about the media bytes only.

    ** What the theorems show

    - Reading.  open_v1_safe: no segment set makes the EWF v1 open panic, and what it
      returns is a well-formed image; open_paths_safe: no files of either format do in
      a build whose arithmetic wraps (with overflow checks the geometry of an EWF v2
      image can: vast_panics of ToolWitnesses); read_at_spec and
      cursor_reads_media: every read
      returns the bytes of the media, whatever the caches hold; verify_spec:
      verification hashes exactly these bytes; chunk tables: parse_table_section_spec,
      collect_ewf2_spec, lazy_refines_eager, and resident_bounded, the memory the paged
      table promises; open_lazy_agrees: the paged open presents the image the eager one
      presents; vfs_presents_media: the adapter to the virtual file system serves the
      same bytes.
    - Threads.  concurrent_reads: whatever the schedule, a call on a shared reader
      returns what it returns alone; no_deadlock: the threads of a pool take a bounded
      number of steps and all return; parallel_verify: a verification whose batches are
      decoded by threads has the outcome of the sequential one.
    - Analysis.  analyse_ewf1_safe and analyse_ewf2_spec: the analysers return on every
      input; hash_verdict_v1, analyse_contract, path_analysis_spec and
      ewf2_hashing_agrees: a hash verdict is given exactly when the media differ from
      the stored or the given digest, and the front ends and the progress variant
      agree.
    - Recovery.  recover_spec: the output always has the size of the image and equals
      block by block what could be decoded or zeroes; recovered_block_local: a block
      depends on its own chunk only.
    - Logical containers.  parse_entry_tree_wf (the tree is a forest),
      parse_entry_tree_typed (every field is within its machine type),
      ltree_roundtrip (the parser returns the forest a document lists),
      read_entry_spec (a file is the concatenation of its extents), ltree_listed (the
      listing names every file of the document by its path).
    - Commands.  search_complete, extract_spec: the handlers find and copy the media;
      read_shows_media: a hex dump reads back as the media; verify_exit_sound,
      ewf_check_exit: the exit codes; json_output_spec, ls_json_spec: the JSON printed by
      hand is JSON, as far as it is.  mcp_session: the server answers every request once,
      in order; mcp_tools_show_media: its tools answer with the media.
    - Tools.  fuzz_targets_return: the fuzz targets return on every input;
      validate_verdict: the exit code and the lines of the example; bench_image_opens
      and bench_main_runs: the image of the benchmark is a medium of zeros with every
      chunk it was asked for, and its [main] runs through both readers to the end.
    - Formats.  Round trips of descriptors, headers, extents, JSON strings and
      numbers, and bounds of untrusted geometry.
    - End to end.  written_image_reads and written_ex01_reads: an EWF v1 or v2 image
      written by those writers from any media opens and presents exactly that media;
      written_image_clean and written_ex01_clean: it is analysed without an anomaly when
      it has what the analyser asks for beyond the reader, for EWF v1 a power of two of
      sectors per chunk and sectors of 512 or 4096 bytes ([standard_geometry]), for EWF
      v2 a checksum behind every chunk, no padding of the last page, compressed case
      data in the first file and no section of restart data ([acquisition2_checked]);
      images without it are reported (v1_geometry_reported, v2_unchecksummed_reported,
      v2_padding_reported and v2_section_numbers_reported of Witnesses);
      written_image_recovers: an EWF v1 image is recovered in every chunk that is still
      intact, whatever happened to the others.  evidence_commands: on the files of a
      written image, of either format, ewf verify passes and read, search and extract
      show the media, the output of the extraction being none of these files;
      evidence_checked: on those that also have what the analyser asks for, ewf-check
      exits with 0 exactly when the references given are right.

    ** Fuel and bounds

    A loop of the source that is not structural recurs on a fuel computed from its
    input, and no theorem assumes that the fuel suffices: the section walks of
    version 1 take one unit per 76 bytes of the segment, since a descriptor offset
    strictly increases; the walks of version 2 as many, since it strictly decreases;
    the read loops take one unit per byte asked for and the search one per window,
    each of which makes progress.  A thread takes at most twelve steps per chunk that
    its call touches ([call_bound] of Concurrent).
    The safety theorems include that no walk runs out of fuel.
    Lists are bounded by [u64_max] through [total_len] where the code relies on a
    slice fitting in memory.  A written image has at most 4,000,000 chunks in a table
    section, the limit of the reader, and as many in all as 32 bits count.

    ** Not modelled

    - [Debug] output, the texts of std::io and of the decompressor (class [Texts]), the
      help, version and usage texts, and the progress bars.
    - serde_json, clap, indicatif, memmap2, glob and the terminal are outside the program:
      serde_json is a class of operations ([SerdeJson]) on the values of Values, whose
      compact printer is known to print no control character; arguments are those clap
      returns; a write to the standard output succeeds.
    - A file that is being read does not change under the reader, also when an
      extraction is told to write onto its own image.
    - The work stealing of rayon: the parallel map of verification is a parameter
      whose documented contract is [RayonLaws], and in Concurrent a batch of threads
      under any schedule.  The reader's own operations on its caches are atomic once
      the lock is held; memory ordering is that of a mutex.
    - The clocks of the benchmark, its throughputs in bytes per second and the table it
      prints.
    - Tests, build files and the crate roots ([lib.rs]), which declare modules and
      re-export names; most of [core/src/lib.rs], and the ends of the other files that
      the map leaves out, are unit tests. *)

From Stdlib Require Export ZArith Lia.
From Stdlib Require Import Strings.Byte.
From stdpp Require Export prelude.

#[global] Open Scope Z_scope.

(** * Results of fallible code

    A Rust function that returns [Result<A, E>] and may also panic (an index
    out of range, an overflowing operation in a build with overflow checks, an
    allocation above [isize::MAX]) is a value of [outcome E A]. *)
Inductive outcome (E A : Type) : Type :=
| Ok (a : A)
| Err (e : E)
| Panic.
Arguments Ok {E A} a.
Arguments Err {E A} e.
Arguments Panic {E A}.

#[export] Instance outcome_ret E : MRet (outcome E) := fun A a => Ok a.
#[export] Instance outcome_bind E : MBind (outcome E) := fun A B f m =>
  match m with Ok a => f a | Err e => Err e | Panic => Panic end.
#[export] Instance outcome_fmap E : FMap (outcome E) := fun A B f m =>
  match m with Ok a => Ok (f a) | Err e => Err e | Panic => Panic end.

(** [Option::ok_or]. *)
Definition ok_or {E A} (e : E) (o : option A) : outcome E A :=
  match o with Some a => Ok a | None => Err e end.

(** An [Option] whose [None] is a panic: [v[i]], [&v[a..b]]. *)
Definition or_panic {E A} (o : option A) : outcome E A :=
  match o with Some a => Ok a | None => Panic end.

(** [Result::ok]; a panic is not caught. *)
Definition is_ok {E A} (m : outcome E A) : bool :=
  match m with Ok _ => true | _ => false end.

Definition no_panic {E A} (m : outcome E A) : Prop := m <> Panic.

(** * Bytes *)
Abbreviation byte := Byte.byte.

#[export] Instance byte_eq_dec : EqDecision byte := Byte.byte_eq_dec.
#[export] Instance byte_inhabited : Inhabited byte := populate Byte.x00.

Definition byteZ (b : byte) : Z := Z.of_N (Byte.to_N b).

Definition byte_of_Z (z : Z) : byte :=
  default Byte.x00 (Byte.of_N (Z.to_N (z mod 256))).

Definition zlen {A} (l : list A) : Z := Z.of_nat (length l).

(** [vec![0u8; n]] for an [n] that is known to fit in memory. *)
Definition zeros (n : Z) : list byte := replicate (Z.to_nat n) Byte.x00.

(** [u16::from_le_bytes], [u32::from_le_bytes], [u64::from_le_bytes]. *)
Fixpoint le_combine (bs : list byte) : Z :=
  match bs with
  | [] => 0
  | b :: t => byteZ b + 256 * le_combine t
  end.

(** [to_le_bytes] at a width of [n] bytes. *)
Fixpoint le_bytes (n : nat) (z : Z) : list byte :=
  match n with
  | O => []
  | S n => byte_of_Z z :: le_bytes n (z / 256)
  end.

(** * Slices

    [slice l a b] is [l.get(a..b)]; [index_range l a b] is [&l[a..b]], which
    panics out of range; [index l i] is [l[i]]. *)
Definition slice {A} (l : list A) (a b : Z) : option (list A) :=
  if (0 <=? a) && (a <=? b) && (b <=? zlen l)
  then Some (take (Z.to_nat (b - a)) (drop (Z.to_nat a) l))
  else None.

Definition get {A} (l : list A) (i : Z) : option A :=
  if (0 <=? i) && (i <? zlen l) then l !! Z.to_nat i else None.

Definition index_range {E A} (l : list A) (a b : Z) : outcome E (list A) :=
  or_panic (slice l a b).

Definition index {E A} (l : list A) (i : Z) : outcome E A := or_panic (get l i).

Definition ztake {A} (n : Z) (l : list A) : list A := take (Z.to_nat n) l.
Definition zdrop {A} (n : Z) (l : list A) : list A := drop (Z.to_nat n) l.

(** [buf[a..a+src.len()].copy_from_slice(src)]. *)
Definition copy_into {E A} (buf : list A) (a : Z) (src : list A) : outcome E (list A) :=
  if (0 <=? a) && (a + zlen src <=? zlen buf)
  then Ok (ztake a buf ++ src ++ zdrop (a + zlen src) buf)
  else Panic.

(** * Machine integers

    A value of an unsigned type is a [Z] in range; [usize] has 64 bits. *)
Abbreviation u16_max := 65535.
Abbreviation u32_max := 4294967295.
Abbreviation u64_max := 18446744073709551615.
Abbreviation i64_max := 9223372036854775807.

Definition wrap16 (z : Z) : Z := z mod 65536.
Definition wrap32 (z : Z) : Z := z mod 4294967296.
Definition wrap64 (z : Z) : Z := z mod 18446744073709551616.

(** [x as i64] of a [u64], and back. *)
Definition as_i64 (z : Z) : Z := if z <=? i64_max then z else z - 18446744073709551616.

Definition sat_add (x y : Z) : Z := Z.min u64_max (x + y).
Definition sat_sub (x y : Z) : Z := Z.max 0 (x - y).
Definition sat_mul (x y : Z) : Z := Z.min u64_max (x * y).
Definition sat_add32 (x y : Z) : Z := Z.min u32_max (x + y).

Definition checked_add (x y : Z) : option Z :=
  if x + y <=? u64_max then Some (x + y) else None.
Definition checked_sub (x y : Z) : option Z :=
  if y <=? x then Some (x - y) else None.
Definition checked_mul (x y : Z) : option Z :=
  if x * y <=? u64_max then Some (x * y) else None.

(** Whether the build checks plain [+], [-] and [*] for overflow (the [dev] and
    [test] profiles do, [release] does not). *)
Class Profile := overflow_checks : bool.

Section Plain.
Context `{Profile} {E : Type}.

(** A plain operator whose exact result is [z], in a type of range [lo, hi]. *)
Definition plain (lo hi z : Z) : outcome E Z :=
  if (lo <=? z) && (z <=? hi) then Ok z
  else if overflow_checks then Panic else Ok (lo + (z - lo) mod (hi - lo + 1)).

Definition add64 (x y : Z) : outcome E Z := plain 0 u64_max (x + y).
Definition sub64 (x y : Z) : outcome E Z := plain 0 u64_max (x - y).
Definition mul64 (x y : Z) : outcome E Z := plain 0 u64_max (x * y).
Definition add_i64 (x y : Z) : outcome E Z := plain (-9223372036854775808) i64_max (x + y).
End Plain.

(** [vec![0u8; n]] for an untrusted [n]: a capacity above [isize::MAX] panics. *)
Definition vec_zeroed {E} (n : Z) : outcome E (list byte) :=
  if n <=? i64_max then Ok (zeros n) else Panic.

(** * State passing

    Code behind [&self] that mutates a cache: a computation reads and writes a
    state [S] and ends with an [outcome]; the state outlives an error. *)
Definition stateful (S E A : Type) : Type := S -> outcome E A * S.

#[export] Instance stateful_ret S E : MRet (stateful S E) := fun A a s => (Ok a, s).
#[export] Instance stateful_bind S E : MBind (stateful S E) := fun A B f m s =>
  match m s with
  | (Ok a, s') => f a s'
  | (Err e, s') => (Err e, s')
  | (Panic, s') => (Panic, s')
  end.

(** A computation that does not touch the state. *)
Definition lift {S E A} (m : outcome E A) : stateful S E A := fun s => (m, s).

(** Run [f] on the state: its result and the state it leaves. *)
Definition with_state {S E A} (f : S -> A * S) : stateful S E A :=
  fun s => let '(a, s') := f s in (Ok a, s').

(** A computation without an error value inside one with an error type. *)
Definition infallible {E A} (m : outcome Empty_set A) : outcome E A :=
  match m with Ok a => Ok a | Err e => match e with end | Panic => Panic end.

(** * Searches over lists *)

(** [iter().position(p)], counting from [i]. *)
Fixpoint position_from {A} (p : A -> bool) (i : Z) (l : list A) : option Z :=
  match l with
  | [] => None
  | x :: l => if p x then Some i else position_from p (i + 1) l
  end.
Definition position {A} (p : A -> bool) (l : list A) : option Z := position_from p 0 l.

(** [enumerate()], from index [i]. *)
Fixpoint enumerate_from {A} (i : Z) (l : list A) : list (Z * A) :=
  match l with
  | [] => []
  | x :: l => (i, x) :: enumerate_from (i + 1) l
  end.
Definition enumerate {A} (l : list A) : list (Z * A) := enumerate_from 0 l.

(** The indices of [a..b]. *)
Definition range (a b : Z) : list Z := seqZ a (b - a).

(** * Safety of a computation

    [returns Q m]: [m] does not panic, and a value it returns satisfies [Q]. *)
Definition returns {E A} (Q : A -> Prop) (m : outcome E A) : Prop :=
  match m with Ok a => Q a | Err _ => True | Panic => False end.

(** * Automation *)

(** Destruct the test of every [if] and [match] of the goal's innermost
    scrutinee, turning boolean comparisons into facts [lia] reads. *)
Ltac bool_hyps :=
  repeat match goal with
  | H : _ && _ = true |- _ => apply andb_true_iff in H as [? ?]
  | H : _ && _ = false |- _ => apply andb_false_iff in H
  | H : _ || _ = false |- _ => apply orb_false_iff in H as [? ?]
  | H : _ || _ = true |- _ => apply orb_true_iff in H
  | H : negb _ = true |- _ => apply negb_true_iff in H
  | H : negb _ = false |- _ => apply negb_false_iff in H
  | H : (_ <=? _) = true |- _ => apply Z.leb_le in H
  | H : (_ <=? _) = false |- _ => apply Z.leb_gt in H
  | H : (_ <? _) = true |- _ => apply Z.ltb_lt in H
  | H : (_ <? _) = false |- _ => apply Z.ltb_ge in H
  | H : (_ >=? _) = true |- _ => apply Z.geb_le in H
  | H : (_ >=? _) = false |- _ => rewrite Z.geb_leb in H; apply Z.leb_gt in H
  | H : (_ =? _) = true |- _ => apply Z.eqb_eq in H
  | H : (_ =? _) = false |- _ => apply Z.eqb_neq in H
  | H : bool_decide _ = true |- _ => apply bool_decide_eq_true in H
  | H : bool_decide _ = false |- _ => apply bool_decide_eq_false in H
  | H : _ \/ _ |- _ => destruct H
  end.

(** Run an [outcome] computation in a hypothesis: expose each bind. *)
Ltac outcome_inv H :=
  repeat (
    cbn [mbind outcome_bind mret outcome_ret fmap outcome_fmap or_panic ok_or] in H;
    match type of H with
    | (match ?m with _ => _ end) = _ => destruct m eqn:?; try discriminate H
    | Ok _ = Ok _ => injection H as H
    end).

(** Prove a [returns] goal: run the binds, split the tests, close the leaves
    with the hint database.  The facts a step returns are introduced. *)
Ltac returns_step :=
  match goal with
  | |- returns _ (Ok _) => cbn [returns]
  | |- returns _ (Err _) => exact I
  | |- returns _ (mret _) => cbn [returns mret outcome_ret]
  | |- returns _ (if ?b then _ else _) => let E := fresh "E" in destruct b eqn:E
  | |- returns _ (let '(_, _) := ?p in _) => destruct p
  end.

Create HintDb ewf discriminated.
Create Rewrite HintDb ewf.

(** * Lemmas *)

Lemma stateful_bind_run {S E A B} (m : stateful S E A) (f : A -> stateful S E B) s :
  (m ≫= f) s = match m s with
               | (Ok a, s') => f a s'
               | (Err e, s') => (Err e, s')
               | (Panic, s') => (Panic, s')
               end.
Proof. done. Qed.

Lemma stateful_lift_run {S E A B} (m : outcome E A) (f : A -> stateful S E B) s :
  (lift m ≫= f) s = match m with
                    | Ok a => f a s
                    | Err e => (Err e, s)
                    | Panic => (Panic, s)
                    end.
Proof. by destruct m. Qed.

(** Two computations that do the same from every state; [mbind] respects it. *)
Definition same_run {S E A} (m m' : stateful S E A) : Prop := forall s, m s = m' s.

#[export] Instance same_run_equivalence S E A : Equivalence (@same_run S E A).
Proof.
  split; [done|by intros m m' Hm s|]. intros m1 m2 m3 H12 H23 s. by rewrite H12, H23.
Qed.

#[export] Instance same_run_bind S E A B :
  Proper (pointwise_relation A (@same_run S E B) ==> @same_run S E A ==> @same_run S E B) mbind.
Proof.
  intros f f' Hf m m' Hm s. rewrite !stateful_bind_run, Hm. destruct (m' s) as [[a| |] s']; try done.
  apply Hf.
Qed.

Lemma same_run_bind_r {S E A B} (m : stateful S E A) (f f' : A -> stateful S E B) :
  (forall a, same_run (f a) (f' a)) -> same_run (m ≫= f) (m ≫= f').
Proof. intros Hf. by apply same_run_bind. Qed.

Lemma stateful_bind_assoc {S E A B C} (m : stateful S E A) (f : A -> stateful S E B)
    (g : B -> stateful S E C) :
  same_run ((m ≫= f) ≫= g) (a ← m; f a ≫= g).
Proof. intros s. rewrite !stateful_bind_run. by destruct (m s) as [[a| |] s']. Qed.

Lemma stateful_ret_bind {S E A B} (a : A) (f : A -> stateful S E B) : same_run (mret a ≫= f) (f a).
Proof. done. Qed.

Lemma Z_iter_invariant {A} (f : A -> A) (Inv : A -> Prop) n x :
  (forall y, Inv y -> Inv (f y)) -> Inv x -> Inv (Z.iter n f x).
Proof. intros Hf Hx. destruct n as [|n|n]; cbn; [done| |done]. by apply Pos.iter_invariant. Qed.

Lemma outcome_bind_assoc {E A B C} (m : outcome E A) (f : A -> outcome E B) (g : B -> outcome E C) :
  (m ≫= f) ≫= g = (a ← m; f a ≫= g).
Proof. by destruct m. Qed.

Lemma returns_bind {E A B} (P : A -> Prop) (Q : B -> Prop) (m : outcome E A) f :
  returns P m -> (forall a, P a -> returns Q (f a)) -> returns Q (m ≫= f).
Proof. destruct m; cbn; auto. Qed.

Lemma returns_weaken {E A} (P Q : A -> Prop) (m : outcome E A) :
  returns P m -> (forall a, P a -> Q a) -> returns Q m.
Proof. destruct m; cbn; auto. Qed.

Lemma returns_no_panic {E A} (Q : A -> Prop) (m : outcome E A) : returns Q m -> no_panic m.
Proof. by destruct m. Qed.

Lemma returns_Ok {E A} (Q : A -> Prop) (m : outcome E A) a : returns Q m -> m = Ok a -> Q a.
Proof. by intros Hm ->. Qed.

Lemma returns_ok_or {E A} (e : E) (o : option A) : returns (fun a => o = Some a) (ok_or e o).
Proof. by destruct o. Qed.

Lemma returns_mapM {E A B} (P : A -> Prop) (Q : B -> Prop) (f : A -> outcome E B) l :
  (forall a, P a -> returns Q (f a)) -> Forall P l ->
  returns (fun bs => length bs = length l /\ Forall Q bs) (mapM f l).
Proof.
  intros Hf. induction 1 as [|a l Ha _ IH]; [done|]. cbn.
  eapply returns_bind; [by apply Hf|]. intros b Hb.
  eapply returns_bind; [exact IH|]. intros bs [Hl Hbs]. cbn. split; [by rewrite Hl|by constructor].
Qed.


Lemma byteZ_range (b : byte) : 0 <= byteZ b < 256.
Proof.
  unfold byteZ. pose proof (Byte.to_N_bounded b) as Hb. lia.
Qed.

Lemma byteZ_byte_of_Z (z : Z) : byteZ (byte_of_Z z) = z mod 256.
Proof.
  unfold byteZ, byte_of_Z. pose proof (Z.mod_pos_bound z 256 eq_refl).
  destruct (Byte.of_N _) as [b|] eqn:E; cbn.
  - apply Byte.to_of_N in E. rewrite E. lia.
  - apply Byte.of_N_None_iff in E. lia.
Qed.

Lemma byteZ_inj (a b : byte) : byteZ a = byteZ b -> a = b.
Proof.
  unfold byteZ. intros H%N2Z.inj. pose proof (Byte.of_to_N a) as Ha.
  rewrite H, Byte.of_to_N in Ha. congruence.
Qed.

Lemma byte_of_Z_byteZ (b : byte) : byte_of_Z (byteZ b) = b.
Proof.
  apply byteZ_inj. rewrite byteZ_byte_of_Z. apply Z.mod_small, byteZ_range.
Qed.

Lemma zlen_nonneg {A} (l : list A) : 0 <= zlen l.
Proof. unfold zlen. lia. Qed.

Lemma zlen_app {A} (l k : list A) : zlen (l ++ k) = zlen l + zlen k.
Proof. unfold zlen. rewrite length_app. lia. Qed.

Lemma zlen_cons {A} (x : A) l : zlen (x :: l) = 1 + zlen l.
Proof. unfold zlen. cbn. lia. Qed.

Lemma zlen_nil {A} : zlen (@nil A) = 0.
Proof. reflexivity. Qed.

Lemma zlen_zeros n : zlen (zeros n) = Z.max 0 n.
Proof. unfold zlen, zeros. rewrite length_replicate. lia. Qed.

Lemma zlen_ztake {A} n (l : list A) : zlen (ztake n l) = Z.min (Z.max 0 n) (zlen l).
Proof. unfold zlen, ztake. rewrite length_take. lia. Qed.

Lemma zlen_zdrop {A} n (l : list A) : zlen (zdrop n l) = Z.max 0 (zlen l - Z.max 0 n).
Proof. unfold zlen, zdrop. rewrite length_drop. lia. Qed.

Lemma length_le_bytes n z : length (le_bytes n z) = n.
Proof. revert z. induction n; intros; cbn; auto. Qed.

Lemma zlen_le_bytes n z : zlen (le_bytes n z) = Z.of_nat n.
Proof. unfold zlen. by rewrite length_le_bytes. Qed.

Lemma le_combine_le_bytes n z : le_combine (le_bytes n z) = z mod 256 ^ Z.of_nat n.
Proof.
  revert z. induction n as [|n IH]; intros z.
  - cbn. by rewrite Z.mod_1_r.
  - cbn [le_bytes le_combine]. rewrite IH, byteZ_byte_of_Z.
    rewrite Nat2Z.inj_succ, Z.pow_succ_r by lia.
    rewrite Z.rem_mul_r by lia. lia.
Qed.

Lemma le_combine_bound bs : 0 <= le_combine bs < 256 ^ zlen bs.
Proof.
  induction bs as [|b bs IH]; [change (0 <= 0 < 1); lia|].
  rewrite zlen_cons, Z.pow_add_r by (pose proof (zlen_nonneg bs); lia).
  cbn [le_combine]. pose proof (byteZ_range b). lia.
Qed.

Lemma le_bytes_le_combine bs : le_bytes (length bs) (le_combine bs) = bs.
Proof.
  induction bs as [|b bs IH]; [done|]. cbn [le_bytes le_combine length].
  pose proof (byteZ_range b). f_equal.
  - apply byteZ_inj. rewrite byteZ_byte_of_Z, (Z.mul_comm 256), Z.mod_add by lia.
    by apply Z.mod_small.
  - by rewrite (Z.mul_comm 256), Z.div_add, Z.div_small by lia.
Qed.

(** ** Slices *)
Section Slices.
Context {A : Type}.
Implicit Types l : list A.

Lemma slice_spec l a b s :
  slice l a b = Some s <->
  0 <= a <= b /\ b <= zlen l /\ s = ztake (b - a) (zdrop a l).
Proof.
  unfold slice, ztake, zdrop. destruct (_ && _) eqn:E; bool_hyps; split.
  - intros [= <-]. auto.
  - intros (_ & _ & ->). auto.
  - discriminate.
  - intros (? & ? & _). lia.
  - discriminate.
  - intros (? & ? & _). lia.
  - discriminate.
  - intros (? & ? & _). lia.
Qed.

Lemma slice_some l a b :
  0 <= a <= b -> b <= zlen l -> slice l a b = Some (ztake (b - a) (zdrop a l)).
Proof. intros. by apply slice_spec. Qed.

Lemma slice_zlen l a b s : slice l a b = Some s -> zlen s = b - a.
Proof.
  intros (? & ? & ->)%slice_spec. rewrite zlen_ztake, zlen_zdrop. lia.
Qed.

Lemma slice_bounds l a b s : slice l a b = Some s -> 0 <= a <= b /\ b <= zlen l.
Proof. intros (? & ? & _)%slice_spec. auto. Qed.

Lemma slice_none l a b : slice l a b = None <-> ~ (0 <= a <= b /\ b <= zlen l).
Proof.
  destruct (slice l a b) eqn:E.
  - apply slice_bounds in E. split; [done|tauto].
  - split; [|done]. intros _ [? ?]. rewrite slice_some in E; done.
Qed.

Lemma slice_is_some l a b : 0 <= a <= b -> b <= zlen l -> is_Some (slice l a b).
Proof. intros. rewrite slice_some by done. eauto. Qed.

Lemma slice_app_mid l1 m l2 :
  slice (l1 ++ m ++ l2) (zlen l1) (zlen l1 + zlen m) = Some m.
Proof.
  pose proof (zlen_nonneg l1). pose proof (zlen_nonneg m).
  pose proof (zlen_nonneg l2). rewrite slice_some by (rewrite ?zlen_app; lia).
  f_equal. unfold ztake, zdrop, zlen.
  rewrite drop_app_length' by lia. rewrite take_app_length' by lia. done.
Qed.

Lemma slice_all l : slice l 0 (zlen l) = Some l.
Proof.
  pose proof (zlen_nonneg l). rewrite slice_some by lia. f_equal.
  unfold ztake, zdrop, zlen. change (Z.to_nat 0) with O. by rewrite drop_0, take_ge by lia.
Qed.

(** A slice of a slice is a slice of the whole. *)
Lemma slice_slice l a b c d s :
  slice l a b = Some s -> 0 <= c <= d -> d <= b - a ->
  slice s c d = slice l (a + c) (a + d).
Proof.
  intros Hs Hc Hd. pose proof (slice_zlen _ _ _ _ Hs).
  apply slice_spec in Hs as (? & ? & ->).
  rewrite !slice_some by lia. f_equal. unfold ztake, zdrop.
  rewrite skipn_firstn_comm, take_take, drop_drop.
  f_equal; [lia|f_equal; lia].
Qed.

Lemma slice_join l a b c s1 s2 :
  slice l a b = Some s1 -> slice l b c = Some s2 -> slice l a c = Some (s1 ++ s2).
Proof.
  intros Hs1 Hs2. apply slice_spec in Hs1 as (? & ? & ->). apply slice_spec in Hs2 as (? & ? & ->).
  rewrite slice_some by lia. f_equal. unfold ztake, zdrop.
  replace (Z.to_nat b) with (Z.to_nat a + Z.to_nat (b - a))%nat by lia.
  rewrite <-drop_drop, <-(take_drop (Z.to_nat (b - a)) (drop (Z.to_nat a) l)) at 1.
  rewrite firstn_app, take_take, length_take. f_equal; [f_equal; lia|].
  destruct (decide (Z.to_nat (b - a) <= length (drop (Z.to_nat a) l))%nat) as [Hle|Hgt].
  - f_equal. lia.
  - unfold zlen in *. rewrite length_drop in Hgt. lia.
Qed.

Lemma slice_drop l a c d : 0 <= a -> 0 <= c <= d ->
  a <= zlen l -> slice (zdrop a l) c d = slice l (a + c) (a + d).
Proof.
  intros. destruct (decide (d <= zlen l - a)).
  - rewrite !slice_some by (rewrite ?zlen_zdrop; lia). f_equal.
    unfold ztake, zdrop. rewrite drop_drop. f_equal; [lia|f_equal; lia].
  - etransitivity; [|symmetry]; apply slice_none; rewrite ?zlen_zdrop; lia.
Qed.

Lemma ztake_all n l : zlen l <= n -> ztake n l = l.
Proof. unfold ztake, zlen. intros. apply take_ge. lia. Qed.

Lemma ztake_zdrop n l : ztake n l ++ zdrop n l = l.
Proof. apply take_drop. Qed.

Lemma zdrop_0 l : zdrop 0 l = l.
Proof. done. Qed.

Lemma ztake_0 l : ztake 0 l = [].
Proof. done. Qed.

Lemma ztake_app_len n l1 l2 : n = zlen l1 -> ztake n (l1 ++ l2) = l1.
Proof. intros ->. unfold ztake, zlen. apply take_app_length'. lia. Qed.

Lemma zdrop_app_len n l1 l2 : n = zlen l1 -> zdrop n (l1 ++ l2) = l2.
Proof. intros ->. unfold zdrop, zlen. apply drop_app_length'. lia. Qed.

Lemma zdrop_ge n l : zlen l <= n -> zdrop n l = [].
Proof. unfold zdrop, zlen. intros. apply drop_ge. lia. Qed.


Lemma zdrop_zdrop a b l : 0 <= a -> 0 <= b -> zdrop a (zdrop b l) = zdrop (b + a) l.
Proof. intros. unfold zdrop. rewrite drop_drop. f_equal. lia. Qed.


Lemma zdrop_app_le n l1 l2 : n <= zlen l1 -> zdrop n (l1 ++ l2) = zdrop n l1 ++ l2.
Proof. unfold zdrop, zlen. intros. apply drop_app_le. lia. Qed.

Lemma ztake_app_ge n l1 l2 : zlen l1 <= n -> ztake n (l1 ++ l2) = l1 ++ ztake (n - zlen l1) l2.
Proof. unfold ztake, zlen. intros. rewrite take_app_ge by lia. do 2 f_equal. lia. Qed.

Lemma ztake_app_le n l1 l2 : n <= zlen l1 -> ztake n (l1 ++ l2) = ztake n l1.
Proof. unfold ztake, zlen. intros. apply take_app_le. lia. Qed.

Lemma zdrop_app_ge n l1 l2 : zlen l1 <= n -> zdrop n (l1 ++ l2) = zdrop (n - zlen l1) l2.
Proof. unfold zdrop, zlen. intros. rewrite drop_app_ge by lia. f_equal. lia. Qed.

Lemma ztake_ztake a b l : a <= b -> ztake a (ztake b l) = ztake a l.
Proof. unfold ztake. intros. rewrite take_take. f_equal. lia. Qed.

(** A window over two pieces, taken one after the other. *)
Lemma ztake_app_split n l1 l2 :
  0 <= n -> ztake n (l1 ++ l2) = ztake n l1 ++ ztake (n - zlen (ztake n l1)) l2.
Proof.
  intros Hn. rewrite zlen_ztake. pose proof (zlen_nonneg l1). destruct (decide (n <= zlen l1)).
  - rewrite ztake_app_le by lia. replace (n - _) with 0 by lia. rewrite ztake_0. by rewrite app_nil_r.
  - rewrite ztake_app_ge by lia. rewrite (ztake_all n l1) by lia. do 2 f_equal. lia.
Qed.

(** Two adjacent windows make one. *)
Lemma ztake_window a b l : 0 <= a -> 0 <= b -> ztake a l ++ ztake b (zdrop a l) = ztake (a + b) l.
Proof.
  intros. unfold ztake, zdrop. replace (Z.to_nat (a + b)) with (Z.to_nat a + Z.to_nat b)%nat by lia.
  apply take_take_drop.
Qed.

(** The same when the first window may be short. *)
Lemma ztake_short_window a b p l :
  0 <= a -> 0 <= b -> 0 <= p ->
  ztake a (zdrop p l) ++ ztake b (zdrop (p + zlen (ztake a (zdrop p l))) l) =
  ztake (a + b) (zdrop p l).
Proof.
  intros. rewrite <-zdrop_zdrop by (lia || apply zlen_nonneg). set (m := zdrop p l).
  destruct (decide (a <= zlen m)).
  - rewrite zlen_ztake. replace (Z.min _ _) with a by lia. by apply ztake_window.
  - rewrite (ztake_all a m), (zdrop_ge _ m), (ztake_all (a + b)) by lia.
    unfold ztake. by rewrite take_nil, app_nil_r.
Qed.

Lemma get_spec l i x : get l i = Some x <-> 0 <= i /\ l !! Z.to_nat i = Some x.
Proof.
  unfold get, zlen. destruct (_ && _) eqn:E; bool_hyps.
  - naive_solver.
  - split; [done|]. intros [? ?%lookup_lt_Some]. lia.
  - split; [done|]. intros [? ?%lookup_lt_Some]. lia.
Qed.

Lemma get_some l i : 0 <= i < zlen l -> is_Some (get l i).
Proof.
  unfold get, zlen. intros. rewrite (proj2 (andb_true_iff _ _)).
  - apply lookup_lt_is_Some. lia.
  - split; [apply Z.leb_le|apply Z.ltb_lt]; lia.
Qed.

Lemma get_none l i : get l i = None <-> ~ 0 <= i < zlen l.
Proof.
  destruct (get l i) eqn:E; split; try done.
  - apply get_spec in E as [? ?%lookup_lt_Some]. unfold zlen. lia.
  - intros _ Hi. apply get_some in Hi as [? ?]. congruence.
Qed.

Lemma get_bounds l i x : get l i = Some x -> 0 <= i < zlen l.
Proof. intros [? ?%lookup_lt_Some]%get_spec. unfold zlen. lia. Qed.
End Slices.

(** ** Plain arithmetic does what it says when the result fits. *)
Section PlainLemmas.
Context `{Profile} {E : Type}.

Lemma plain_ok lo hi z : lo <= z <= hi -> plain (E:=E) lo hi z = Ok z.
Proof.
  intros. unfold plain. by rewrite (proj2 (Z.leb_le lo z)), (proj2 (Z.leb_le z hi)) by lia.
Qed.

Lemma add64_ok x y : 0 <= x + y <= u64_max -> add64 (E:=E) x y = Ok (x + y).
Proof. apply plain_ok. Qed.
Lemma sub64_ok x y : 0 <= x - y <= u64_max -> sub64 (E:=E) x y = Ok (x - y).
Proof. apply plain_ok. Qed.
Lemma mul64_ok x y : 0 <= x * y <= u64_max -> mul64 (E:=E) x y = Ok (x * y).
Proof. apply plain_ok. Qed.
End PlainLemmas.

Lemma sat_add_range x y : 0 <= x -> 0 <= y -> 0 <= sat_add x y <= u64_max.
Proof. unfold sat_add. lia. Qed.

Lemma checked_add_spec x y z : checked_add x y = Some z <-> z = x + y /\ x + y <= u64_max.
Proof. unfold checked_add. destruct (_ <=? _) eqn:E; bool_hyps; naive_solver lia. Qed.

Lemma enumerate_from_lookup {A} i (l : list A) k :
  enumerate_from i l !! k = (fun x => (i + Z.of_nat k, x)) <$> l !! k.
Proof.
  revert i k. induction l as [|x l IH]; intros i [|k]; cbn; try done.
  - by rewrite Z.add_0_r.
  - rewrite IH. destruct (l !! k); cbn; [|done]. do 2 f_equal. lia.
Qed.

Lemma length_enumerate_from {A} i (l : list A) : length (enumerate_from i l) = length l.
Proof. revert i. induction l; intros; cbn; auto. Qed.

#[export] Hint Resolve zlen_nonneg byteZ_range get_some slice_is_some : ewf.
#[export] Hint Rewrite @zlen_app @zlen_cons @zlen_nil zlen_zeros @zlen_ztake @zlen_zdrop
  zlen_le_bytes : ewf.

(** Reading a field at its place in a layout [l1 ++ m ++ l2]. *)
Lemma slice_at {A} (l1 m l2 l : list A) a b :
  l = l1 ++ m ++ l2 -> a = zlen l1 -> b = a + zlen m -> slice l a b = Some m.
Proof. intros -> -> ->. apply slice_app_mid. Qed.

Lemma get_at {A} (l1 : list A) x l2 l i :
  l = l1 ++ x :: l2 -> i = zlen l1 -> get l i = Some x.
Proof.
  intros -> ->. apply get_spec. split; [apply zlen_nonneg|].
  unfold zlen. by rewrite Nat2Z.id, list_lookup_middle.
Qed.

(** Little-endian reads of a value that fits give it back. *)
Lemma le_combine_le_bytes_small n z :
  0 <= z < 256 ^ Z.of_nat n -> le_combine (le_bytes n z) = z.
Proof. intros. rewrite le_combine_le_bytes. by apply Z.mod_small. Qed.

Lemma mapM_outcome_ok {E A B} (f : A -> outcome E B) (l : list A) ys :
  mapM f l = Ok ys <-> Forall2 (fun x y => f x = Ok y) l ys.
Proof.
  revert ys. induction l as [|x l IH]; intros ys; cbn.
  - split; [intros [= <-]; constructor|by inversion 1].
  - split.
    + destruct (f x) eqn:Ef; cbn; try done. destruct (mapM f l) eqn:Em; cbn; try done.
      intros [= <-]. constructor; [done|]. by apply IH.
    + inversion 1 as [|? y ? ys' Hf Hl]; subst. rewrite Hf. cbn.
      apply IH in Hl. by rewrite Hl.
Qed.

Lemma index_range_ok {E A} (l : list A) a b s :
  index_range (E:=E) l a b = Ok s <-> slice l a b = Some s.
Proof. unfold index_range. destruct (slice l a b); cbn; naive_solver. Qed.

Lemma index_ok {E A} (l : list A) i x : index (E:=E) l i = Ok x <-> get l i = Some x.
Proof. unfold index. destruct (get l i); cbn; naive_solver. Qed.

Lemma Ok_inj {E A} (a b : A) : @Ok E A a = Ok b -> a = b.
Proof. by injection 1. Qed.

Lemma bind_ok {E A B} (m : outcome E A) (f : A -> outcome E B) b :
  m ≫= f = Ok b <-> exists a, m = Ok a /\ f a = Ok b.
Proof. destruct m; cbn; naive_solver. Qed.

#[global] Arguments le_bytes : simpl never.
#[global] Arguments le_combine : simpl never.
#[global] Arguments zeros : simpl never.
#[global] Arguments zlen : simpl never.
#[global] Arguments slice : simpl never.
#[global] Arguments get : simpl never.
#[global] Arguments ztake : simpl never.
#[global] Arguments zdrop : simpl never.
#[global] Arguments range : simpl never.
#[global] Arguments plain : simpl never.
#[global] Arguments Z.land : simpl never.
#[global] Arguments Z.shiftr : simpl never.
#[global] Arguments Z.add : simpl never.
#[global] Arguments Z.sub : simpl never.
#[global] Arguments Z.mul : simpl never.
#[global] Arguments Z.leb : simpl never.
#[global] Arguments Z.ltb : simpl never.
#[global] Arguments Z.eqb : simpl never.

Lemma Forall2_in_l {A B} (P : A -> B -> Prop) l k x :
  Forall2 P l k -> x ∈ l -> exists y, P x y.
Proof.
  induction 1 as [|a b l k Hab _ IH]; intros Hx; [by apply not_elem_of_nil in Hx|].
  apply elem_of_cons in Hx as [->|Hx]; eauto.
Qed.
