(* ===== verification/Text.v ===== *)
(** Rust strings, as the program uses them.

    A [String] or [&str] is the list of its Unicode scalar values.  This file
    models the standard-library string operations the sources call: UTF-8 and
    UTF-16 decoding, [split], [lines], [trim], [split_whitespace], [replace] and
    the integer parsers. *)

From Stdlib Require Import Strings.String Strings.Ascii.
From S2P Require Import Prelude.

Export String.StringSyntax.

Abbreviation text := (list Z).

(** An ASCII literal of the source. *)
Definition str (s : string) : text :=
  map (fun a => Z.of_N (N_of_ascii a)) (list_ascii_of_string s).

(** The bytes of an ASCII literal. *)
Definition ascii_bytes (t : text) : list byte := map byte_of_Z t.

Definition text_eqb (a b : text) : bool := bool_decide (a = b).

Definition replacement_character : Z := 65533.

(** * UTF-8 *)

Definition is_cont (b : byte) : bool := (128 <=? byteZ b) && (byteZ b <=? 191).

Definition in_range (lo hi : Z) (b : byte) : bool := (lo <=? byteZ b) && (byteZ b <=? hi).

(** Whether [b] may follow the lead byte of a 3- or 4-byte sequence. *)
Definition second_ok (lead : Z) (b : byte) : bool :=
  if lead =? 224 then in_range 160 191 b
  else if lead =? 237 then in_range 128 159 b
  else if lead =? 240 then in_range 144 191 b
  else if lead =? 244 then in_range 128 143 b
  else is_cont b.

Definition low6 (b : byte) : Z := byteZ b - 128.

(** The characters of a byte string, with [None] for each maximal ill-formed
    part, as the standard library's [Utf8Chunks] cuts them. *)
Fixpoint utf8_decode (bs : list byte) : list (option Z) :=
  match bs with
  | [] => []
  | b :: t =>
    let v := byteZ b in
    if v <? 128 then Some v :: utf8_decode t
    else if (194 <=? v) && (v <=? 223) then
      match t with
      | c1 :: t1 =>
        if is_cont c1 then Some ((v - 192) * 64 + low6 c1) :: utf8_decode t1
        else None :: utf8_decode t
      | [] => [None]
      end
    else if (224 <=? v) && (v <=? 239) then
      match t with
      | c1 :: t1 =>
        if second_ok v c1 then
          match t1 with
          | c2 :: t2 =>
            if is_cont c2
            then Some ((v - 224) * 4096 + low6 c1 * 64 + low6 c2) :: utf8_decode t2
            else None :: utf8_decode t1
          | [] => [None]
          end
        else None :: utf8_decode t
      | [] => [None]
      end
    else if (240 <=? v) && (v <=? 244) then
      match t with
      | c1 :: t1 =>
        if second_ok v c1 then
          match t1 with
          | c2 :: t2 =>
            if is_cont c2 then
              match t2 with
              | c3 :: t3 =>
                if is_cont c3
                then Some ((v - 240) * 262144 + low6 c1 * 4096 + low6 c2 * 64 + low6 c3)
                       :: utf8_decode t3
                else None :: utf8_decode t2
              | [] => [None]
              end
            else None :: utf8_decode t1
          | [] => [None]
          end
        else None :: utf8_decode t
      | [] => [None]
      end
    else None :: utf8_decode t
  end.

(** [String::from_utf8_lossy]. *)
Definition from_utf8_lossy (bs : list byte) : text :=
  map (default replacement_character) (utf8_decode bs).

(** [String::from_utf8]. *)
Definition from_utf8 (bs : list byte) : option text := mapM id (utf8_decode bs).

(** * UTF-16 *)

Definition is_surrogate (u : Z) : bool := (55296 <=? u) && (u <=? 57343).
Definition is_low_surrogate (u : Z) : bool := (56320 <=? u) && (u <=? 57343).

(** [char::decode_utf16]: [None] for an unpaired surrogate. *)
Fixpoint decode_utf16 (us : list Z) : list (option Z) :=
  match us with
  | [] => []
  | u :: t =>
    if negb (is_surrogate u) then Some u :: decode_utf16 t
    else if is_low_surrogate u then None :: decode_utf16 t
    else
      match t with
      | [] => [None]
      | v :: t' =>
        if is_low_surrogate v
        then Some ((u - 55296) * 1024 + (v - 56320) + 65536) :: decode_utf16 t'
        else None :: decode_utf16 t
      end
  end.

(** [data.chunks_exact(2).map(u16::from_le_bytes)]. *)
Fixpoint u16_units (bs : list byte) : list Z :=
  match bs with
  | a :: b :: t => le_combine [a; b] :: u16_units t
  | _ => []
  end.

(** [char::decode_utf16(..).filter_map(Result::ok).collect()]. *)
Definition utf16_text_skipping (bs : list byte) : text :=
  omap id (decode_utf16 (u16_units bs)).

(** [String::from_utf16]. *)
Definition from_utf16 (us : list Z) : option text := mapM id (decode_utf16 us).

(** * Splitting and trimming *)

(** [s.split(c)]: always at least one piece. *)
Fixpoint split (c : Z) (s : text) : list text :=
  match s with
  | [] => [[]]
  | x :: s' =>
    if x =? c then [] :: split c s'
    else match split c s' with
         | p :: ps => (x :: p) :: ps
         | [] => [[x]]
         end
  end.

Definition tab : Z := 9.
Definition newline : Z := 10.
Definition carriage_return : Z := 13.
Definition space : Z := 32.

(** [s.replace] of a carriage return and newline by a newline. *)
Fixpoint replace_crlf (s : text) : text :=
  match s with
  | [] => []
  | a :: t =>
    match t with
    | b :: t' => if (a =? 13) && (b =? 10) then 10 :: replace_crlf t' else a :: replace_crlf t
    | [] => [a]
    end
  end.

(** [s.trim_start_matches(p)] and [s.trim_end_matches(p)]. *)
Fixpoint trim_start_matches (p : Z -> bool) (s : text) : text :=
  match s with
  | x :: t => if p x then trim_start_matches p t else s
  | [] => []
  end.

Definition trim_end_matches (p : Z -> bool) (s : text) : text :=
  rev (trim_start_matches p (rev s)).

Definition trim_end_cr (s : text) : text := trim_end_matches (Z.eqb carriage_return) s.

(** [strip_suffix] of one carriage return. *)
Definition strip_cr (s : text) : text :=
  match rev s with
  | x :: r => if x =? carriage_return then rev r else s
  | [] => s
  end.

(** [s.lines()]: a final unterminated line keeps its carriage return, and no
    line follows a final newline. *)
Fixpoint lines_of_pieces (ps : list text) : list text :=
  match ps with
  | [] => []
  | [p] => match p with [] => [] | _ => [p] end
  | p :: ps => strip_cr p :: lines_of_pieces ps
  end.
Definition lines (s : text) : list text := lines_of_pieces (split newline s).

(** [char::is_whitespace] (the Unicode property [White_Space]). *)
Definition is_whitespace (c : Z) : bool :=
  ((9 <=? c) && (c <=? 13)) || (c =? 32) || (c =? 133) || (c =? 160) || (c =? 5760)
  || ((8192 <=? c) && (c <=? 8202)) || (c =? 8232) || (c =? 8233) || (c =? 8239)
  || (c =? 8287) || (c =? 12288).

Definition trim (s : text) : text :=
  trim_end_matches is_whitespace (trim_start_matches is_whitespace s).

(** [s.split_whitespace()]. *)
Fixpoint split_ws_from (cur : text) (s : text) : list text :=
  match s with
  | [] => match cur with [] => [] | _ => [rev cur] end
  | x :: t =>
    if is_whitespace x
    then match cur with [] => split_ws_from [] t | _ => rev cur :: split_ws_from [] t end
    else split_ws_from (x :: cur) t
  end.
Definition split_whitespace (s : text) : list text := split_ws_from [] s.

(** [s.split_once(c)]. *)
Fixpoint split_once (c : Z) (s : text) : option (text * text) :=
  match s with
  | [] => None
  | x :: t =>
    if x =? c then Some ([], t)
    else '(a, b) ← split_once c t; Some (x :: a, b)
  end.

Definition is_ascii_digit (c : Z) : bool := (48 <=? c) && (c <=? 57).
Definition is_ascii_upper (c : Z) : bool := (65 <=? c) && (c <=? 90).
Definition is_ascii_lower (c : Z) : bool := (97 <=? c) && (c <=? 122).
Definition is_ascii_alphabetic (c : Z) : bool := is_ascii_upper c || is_ascii_lower c.
Definition to_ascii_lower (c : Z) : Z := if is_ascii_upper c then c + 32 else c.
Definition to_ascii_upper (c : Z) : Z := if is_ascii_lower c then c - 32 else c.

(** [a.eq_ignore_ascii_case(b)]. *)
Definition eq_ignore_ascii_case (a b : text) : bool :=
  text_eqb (map to_ascii_lower a) (map to_ascii_lower b).

(** * Integers *)

(** [char::to_digit(radix)], for a radix of at most 16. *)
Definition to_digit (radix c : Z) : option Z :=
  let d :=
    if is_ascii_digit c then Some (c - 48)
    else if (97 <=? c) && (c <=? 102) then Some (c - 87)
    else if (65 <=? c) && (c <=? 70) then Some (c - 55)
    else None in
  d ← d; if d <? radix then Some d else None.

Fixpoint parse_digits (radix max acc : Z) (s : text) : option Z :=
  match s with
  | [] => Some acc
  | c :: s =>
    d ← to_digit radix c;
    if acc * radix + d <=? max then parse_digits radix max (acc * radix + d) s else None
  end.

(** [uN::from_str_radix], whose largest value is [max]: an optional plus sign,
    then at least one digit, none of which overflows. *)
Definition parse_uint (radix max : Z) (s : text) : option Z :=
  match s with
  | [] => None
  | c :: t =>
    if c =? 43 then match t with [] => None | _ => parse_digits radix max 0 t end
    else parse_digits radix max 0 s
  end.

Definition parse_u64 (s : text) : option Z := parse_uint 10 u64_max s.
Definition parse_usize (s : text) : option Z := parse_uint 10 u64_max s.
Definition hex_u64 (s : text) : option Z := parse_uint 16 u64_max s.

(** The digits [format!] prints for a non-negative integer. *)
Definition digit_char (d : Z) : Z := if d <? 10 then 48 + d else 87 + d.
Fixpoint print_digits (fuel : nat) (radix n : Z) (acc : text) : text :=
  match fuel with
  | O => acc
  | S fuel =>
    let acc := digit_char (n mod radix) :: acc in
    if n / radix =? 0 then acc else print_digits fuel radix (n / radix) acc
  end.
Definition print_dec (n : Z) : text := print_digits 64 10 n [].
Definition print_hex (n : Z) : text := print_digits 64 16 n [].

(** The pieces of a text, joined by a character: what [split] undoes. *)
Fixpoint join (c : Z) (ps : list text) : text :=
  match ps with
  | [] => []
  | [p] => p
  | p :: ps => p ++ c :: join c ps
  end.

(** * Lemmas *)

Lemma text_eqb_true a b : text_eqb a b = true <-> a = b.
Proof. apply bool_decide_eq_true. Qed.

Lemma text_eqb_refl a : text_eqb a a = true.
Proof. by apply text_eqb_true. Qed.

Lemma split_nonempty c s : split c s <> [].
Proof. destruct s as [|x s]; cbn; [done|]. destruct (x =? c); [done|]. by destruct (split c s). Qed.

Lemma split_no_sep c s : c ∉ s -> split c s = [s].
Proof.
  induction s as [|x s IH]; [done|]. rewrite not_elem_of_cons. intros [Hx Hs]. cbn.
  rewrite (proj2 (Z.eqb_neq x c)) by congruence. by rewrite IH.
Qed.

Lemma split_app c p s : c ∉ p -> split c (p ++ c :: s) = p :: split c s.
Proof.
  induction p as [|x p IH]; cbn.
  - by rewrite Z.eqb_refl.
  - rewrite not_elem_of_cons. intros [Hx Hp].
    rewrite (proj2 (Z.eqb_neq x c)) by congruence. by rewrite IH.
Qed.

Lemma split_join c ps : ps <> [] -> Forall (fun p => c ∉ p) ps -> split c (join c ps) = ps.
Proof.
  intros Hne. induction 1 as [|p ps Hp Hps IH]; [done|].
  destruct ps as [|q ps]; cbn; [by apply split_no_sep|].
  rewrite split_app by done. f_equal. by apply IH.
Qed.

(** Lines that were written one by one are read back. *)
Lemma lines_written ts :
  Forall (fun t => newline ∉ t /\ strip_cr t = t) ts ->
  lines (concat (map (fun t => t ++ [newline]) ts)) = ts.
Proof.
  unfold lines. induction 1 as [|t ts [Hn Hc] _ IH]; [done|]. cbn [map concat]. rewrite <-app_assoc.
  cbn [app]. rewrite split_app by done.
  pose proof (split_nonempty newline (concat (map (fun t => t ++ [newline]) ts))) as Hne.
  destruct (split _ _) as [|p ps] eqn:Es; [done|].
  change (strip_cr t :: lines_of_pieces (p :: ps) = t :: ts). by rewrite Hc, IH.
Qed.

(** A text without control characters is a line. *)
Lemma plain_line t : Forall (fun c => 32 <= c) t -> newline ∉ t /\ strip_cr t = t.
Proof.
  intros Ht. split.
  - intros Hin. rewrite Forall_forall in Ht. specialize (Ht _ Hin). unfold newline in Ht. lia.
  - apply Forall_rev in Ht. unfold strip_cr. destruct (rev t) as [|x r]; [done|].
    apply Forall_cons in Ht as [Hx _]. rewrite (proj2 (Z.eqb_neq _ _)); [done|]. unfold carriage_return. lia.
Qed.

Lemma replace_crlf_no_cr s : carriage_return ∉ s -> replace_crlf s = s.
Proof.
  unfold carriage_return. induction s as [|x s IH]; [done|].
  rewrite not_elem_of_cons. intros [Hx Hs]. cbn. destruct s as [|y s]; [done|].
  rewrite (proj2 (Z.eqb_neq x 13)) by congruence. cbn [andb]. by rewrite IH.
Qed.

Lemma replace_crlf_app p s :
  carriage_return ∉ p -> replace_crlf (p ++ 13 :: 10 :: s) = p ++ 10 :: replace_crlf s.
Proof.
  unfold carriage_return. induction p as [|x p IH]; [done|].
  rewrite not_elem_of_cons. intros [Hx Hp].
  change ((x :: p) ++ 13 :: 10 :: s) with (x :: (p ++ 13 :: 10 :: s)).
  cbn [replace_crlf]. destruct (p ++ 13 :: 10 :: s) as [|y t] eqn:E.
  - by destruct p.
  - rewrite (proj2 (Z.eqb_neq x 13)) by congruence. cbn [andb]. by rewrite IH.
Qed.

Lemma utf8_decode_ascii (t : text) :
  Forall (fun c => 0 <= c < 128) t -> utf8_decode (ascii_bytes t) = Some <$> t.
Proof.
  induction 1 as [|c t Hc _ IH]; [done|]. cbn [ascii_bytes map utf8_decode fmap list_fmap].
  rewrite byteZ_byte_of_Z, Z.mod_small by lia.
  rewrite (proj2 (Z.ltb_lt c 128)) by lia. f_equal. apply IH.
Qed.

Lemma from_utf8_lossy_ascii (t : text) :
  Forall (fun c => 0 <= c < 128) t -> from_utf8_lossy (ascii_bytes t) = t.
Proof.
  intros H. unfold from_utf8_lossy. rewrite utf8_decode_ascii by done. clear H.
  induction t as [|c t IH]; [done|]. cbn. f_equal. apply IH.
Qed.

(** ** Printing and parsing integers *)

Lemma to_digit_digit_char radix d :
  2 <= radix <= 16 -> 0 <= d < radix -> to_digit radix (digit_char d) = Some d.
Proof.
  intros Hr Hd. unfold to_digit, digit_char, is_ascii_digit.
  destruct (d <? 10) eqn:E; bool_hyps.
  - rewrite (proj2 (andb_true_iff _ _)) by (split; apply Z.leb_le; lia).
    cbn [option_bind mbind]. replace (48 + d - 48) with d by lia.
    by rewrite (proj2 (Z.ltb_lt _ _)) by lia.
  - replace ((48 <=? 87 + d) && (87 + d <=? 57)) with false.
    2: { symmetry. apply andb_false_iff. right. apply Z.leb_gt. lia. }
    rewrite (proj2 (andb_true_iff _ _)) by (split; apply Z.leb_le; lia).
    cbn [option_bind mbind]. replace (87 + d - 87) with d by lia.
    by rewrite (proj2 (Z.ltb_lt _ _)) by lia.
Qed.

Lemma parse_digits_print_digits fuel radix max n acc rest :
  2 <= radix <= 16 -> 0 <= n < radix ^ Z.of_nat fuel -> 0 <= acc ->
  n <= max -> (0 < fuel)%nat ->
  exists k, 0 < k /\ forall acc0,
    0 <= acc0 -> acc0 * k + n <= max ->
    parse_digits radix max acc0 (print_digits fuel radix n rest) =
    parse_digits radix max (acc0 * k + n) rest.
Proof.
  intros Hr. revert n rest. induction fuel as [|fuel IH]; intros n rest Hn Hacc Hm Hf; [lia|].
  cbn [print_digits]. destruct (n / radix =? 0) eqn:E; bool_hyps.
  - exists radix. split; [lia|]. intros acc0 H0 Hmax. cbn [parse_digits].
    pose proof (Z.div_small_iff n radix ltac:(lia)) as [Hsm _]. specialize (Hsm E).
    rewrite Z.mod_small by lia. rewrite to_digit_digit_char by lia.
    cbn [option_bind mbind]. by rewrite (proj2 (Z.leb_le _ _)) by lia.
  - assert (Hd : n = radix * (n / radix) + n mod radix) by (apply Z.div_mod; lia).
    pose proof (Z.mod_pos_bound n radix ltac:(lia)) as Hmod.
    assert (0 <= n / radix) by (apply Z.div_pos; lia).
    destruct fuel as [|fuel].
    { change (radix ^ Z.of_nat 1) with (radix ^ 1) in Hn. rewrite Z.pow_1_r in Hn.
      rewrite Z.div_small in E by lia. lia. }
    destruct (IH (n / radix) (digit_char (n mod radix) :: rest)) as (k & Hk & IHk); try lia.
    { split; [done|]. apply Z.div_lt_upper_bound; [lia|].
      replace (Z.of_nat (S (S fuel))) with (1 + Z.of_nat (S fuel)) in Hn by lia.
      rewrite Z.pow_add_r, Z.pow_1_r in Hn by lia. lia. }
    { nia. }
    exists (k * radix). split; [nia|]. intros acc0 H0 Hmax.
    rewrite IHk by nia. cbn [parse_digits]. rewrite to_digit_digit_char by lia.
    cbn [option_bind mbind].
    replace ((acc0 * k + n / radix) * radix + n mod radix) with (acc0 * (k * radix) + n) by nia.
    by rewrite (proj2 (Z.leb_le _ _)) by lia.
Qed.

Lemma digit_char_not_plus d : 0 <= d -> digit_char d <> 43.
Proof. unfold digit_char. destruct (d <? 10); lia. Qed.

Lemma print_digits_head fuel radix n acc :
  2 <= radix -> 0 <= n -> (0 < fuel)%nat ->
  exists c t, print_digits fuel radix n acc = c :: t /\ c <> 43.
Proof.
  revert n acc. induction fuel as [|fuel IH]; intros n acc Hr Hn Hf; [lia|].
  cbn [print_digits]. pose proof (Z.mod_pos_bound n radix ltac:(lia)).
  destruct (n / radix =? 0).
  - do 2 eexists. split; [done|]. apply digit_char_not_plus. lia.
  - destruct fuel as [|fuel].
    + do 2 eexists. split; [done|]. apply digit_char_not_plus. lia.
    + apply IH; try lia. apply Z.div_pos; lia.
Qed.

Lemma parse_uint_print radix max n :
  2 <= radix <= 16 -> 0 <= n <= max -> max <= u64_max ->
  parse_uint radix max (print_digits 64 radix n []) = Some n.
Proof.
  intros Hr Hn Hmax.
  assert (Hb : n < radix ^ Z.of_nat 64).
  { eapply Z.lt_le_trans; [|apply (Z.pow_le_mono_l 2); lia].
    change (2 ^ Z.of_nat 64) with 18446744073709551616. lia. }
  destruct (print_digits_head 64 radix n []) as (c & t & Hp & Hc); try lia.
  unfold parse_uint. destruct (print_digits 64 radix n []) eqn:E; simplify_eq.
  rewrite (proj2 (Z.eqb_neq _ _)) by done. rewrite <-E.
  destruct (parse_digits_print_digits 64 radix max n 0 []) as (k & Hk & H); try lia.
  rewrite H by lia. done.
Qed.

Lemma parse_u64_print_dec n : 0 <= n <= u64_max -> parse_u64 (print_dec n) = Some n.
Proof. intros. by apply parse_uint_print. Qed.

Lemma hex_u64_print_hex n : 0 <= n <= u64_max -> hex_u64 (print_hex n) = Some n.
Proof. intros. by apply parse_uint_print. Qed.

(** A parsed integer is in range. *)
Lemma to_digit_nonneg radix c d : to_digit radix c = Some d -> 0 <= d.
Proof.
  unfold to_digit, is_ascii_digit. destruct (_ && _) eqn:E1; bool_hyps; cbn.
  - destruct (_ <? radix); [|done]. intros [= <-]. lia.
  - destruct ((97 <=? c) && (c <=? 102)) eqn:E2; cbn.
    + bool_hyps; destruct (_ <? radix); try done; intros [= <-]; lia.
    + destruct ((65 <=? c) && (c <=? 70)) eqn:E3; cbn; [|done].
      bool_hyps; destruct (_ <? radix); try done; intros [= <-]; lia.
  - destruct ((97 <=? c) && (c <=? 102)) eqn:E2; cbn.
    + bool_hyps; destruct (_ <? radix); try done; intros [= <-]; lia.
    + destruct ((65 <=? c) && (c <=? 70)) eqn:E3; cbn; [|done].
      bool_hyps; destruct (_ <? radix); try done; intros [= <-]; lia.
Qed.

Lemma parse_digits_range radix max acc s n :
  0 <= radix -> 0 <= acc <= max -> parse_digits radix max acc s = Some n -> 0 <= n <= max.
Proof.
  intros Hr. revert acc. induction s as [|c s IH]; intros acc Ha; cbn; [by intros [= <-]|].
  destruct (to_digit radix c) as [d|] eqn:Ed; cbn; [|done]. apply to_digit_nonneg in Ed.
  destruct (_ <=? max) eqn:E; [|done]. bool_hyps. apply IH. nia.
Qed.

Lemma parse_uint_range radix max s n :
  0 <= radix -> 0 <= max -> parse_uint radix max s = Some n -> 0 <= n <= max.
Proof.
  intros Hr Hm. unfold parse_uint. destruct s as [|c t]; [done|].
  destruct (c =? 43); [destruct t; [done|]|]; by apply parse_digits_range.
Qed.

(** * UTF-16 *)

Definition is_scalar (c : Z) : Prop := 0 <= c < 55296 \/ 57344 <= c <= 1114111.

Definition encode_utf16 (c : Z) : list Z :=
  if c <? 65536 then [c] else [55296 + (c - 65536) / 1024; 56320 + (c - 65536) mod 1024].

Definition utf16_bytes (t : text) : list byte := concat (map (le_bytes 2) (concat (map encode_utf16 t))).

Lemma u16_units_bytes us : Forall (fun u => 0 <= u < 65536) us -> u16_units (concat (map (le_bytes 2) us)) = us.
Proof.
  induction 1 as [|u us Hu _ IH]; [done|]. cbn [map concat].
  assert (le_combine (le_bytes 2 u) = u) as Hle by (apply le_combine_le_bytes_small; change (256 ^ Z.of_nat 2) with 65536; lia).
  pose proof (length_le_bytes 2 u) as Hlen. destruct (le_bytes 2 u) as [|a [|b [|? ?]]]; try done.
  cbn [app u16_units]. by rewrite Hle, IH.
Qed.

Lemma encode_utf16_units c : is_scalar c -> Forall (fun u => 0 <= u < 65536) (encode_utf16 c).
Proof.
  unfold is_scalar, encode_utf16. intros Hc. destruct (c <? 65536) eqn:E; bool_hyps;
    repeat (apply Forall_cons_2; [Z.div_mod_to_equations; lia|]); apply Forall_nil_2.
Qed.

Lemma decode_encode_utf16 c us : is_scalar c -> decode_utf16 (encode_utf16 c ++ us) = Some c :: decode_utf16 us.
Proof.
  unfold is_scalar, encode_utf16. intros Hc. destruct (Z.ltb_spec c 65536); cbn [app decode_utf16].
  - assert (is_surrogate c = false) as ->; [|done]. unfold is_surrogate. apply andb_false_iff.
    rewrite !Z.leb_gt. lia.
  - set (h := 55296 + (c - 65536) / 1024). set (l := 56320 + (c - 65536) mod 1024).
    assert (55296 <= h < 56320 /\ 56320 <= l < 57344 /\ (h - 55296) * 1024 + (l - 56320) + 65536 = c) as (Hh & Hl & Heq).
    { pose proof (Z.div_mod (c - 65536) 1024 ltac:(lia)) as Hdm. pose proof (Z.mod_pos_bound (c - 65536) 1024 ltac:(lia)).
      unfold h, l. clear h l. lia. }
    clearbody h l.
    assert (is_surrogate h = true) as -> by (unfold is_surrogate; rewrite !(proj2 (Z.leb_le _ _)) by lia; done).
    assert (is_low_surrogate h = false) as -> by (unfold is_low_surrogate; rewrite (proj2 (Z.leb_gt _ _)) by lia; done).
    assert (is_low_surrogate l = true) as -> by (unfold is_low_surrogate; rewrite !(proj2 (Z.leb_le _ _)) by lia; done).
    cbn [negb]. by rewrite Heq.
Qed.

Lemma decode_utf16_bytes t : Forall is_scalar t -> decode_utf16 (u16_units (utf16_bytes t)) = map Some t.
Proof.
  intros Ht. unfold utf16_bytes. rewrite u16_units_bytes.
  2: { apply Forall_concat, Forall_map. eapply Forall_impl; [exact Ht|]. apply encode_utf16_units. }
  induction Ht as [|c t Hc _ IH]; [done|]. cbn [map concat]. by rewrite decode_encode_utf16, IH.
Qed.

Lemma utf16_text_written t : Forall is_scalar t -> utf16_text_skipping (utf16_bytes t) = t.
Proof.
  intros Ht. unfold utf16_text_skipping. rewrite decode_utf16_bytes by done. clear Ht.
  induction t as [|c t IH]; [done|]. cbn. by rewrite IH.
Qed.
