(* ===== verification/Json.v ===== *)
(** JSON texts (RFC 8259) as a reference: a grammar, a reader, and that the reader
    finds the value of every text of the grammar.  The program prints JSON by hand;
    this file says what its output has to be.

    The reader is strict: integers of 64 bits, and no escaped surrogates. *)

From S2P Require Import Prelude Text.

(** * Values *)
#[warnings="-register-all"]
Inductive json :=
| JNull
| JBool (b : bool)
| JNum (n : Z)
| JStr (s : text)
| JArr (vs : list json)
| JObj (ms : list (text * json)).

Definition backslash : Z := 92.
Definition quote : Z := 34.

Definition is_ws (c : Z) : bool := (c =? 32) || (c =? 9) || (c =? 10) || (c =? 13).
Definition ws (w : text) : Prop := Forall (fun c => is_ws c = true) w.

(** The character after a backslash. *)
Definition escaped (e : Z) : option Z :=
  if e =? quote then Some quote
  else if e =? backslash then Some backslash
  else if e =? 47 then Some 47
  else if e =? 98 then Some 8
  else if e =? 102 then Some 12
  else if e =? 110 then Some 10
  else if e =? 114 then Some 13
  else if e =? 116 then Some 9
  else None.

Definition hex4 (ds : text) : option Z :=
  c ← parse_digits 16 65535 0 ds; if is_surrogate c then None else Some c.

Definition quoted (s : text) : text := quote :: s ++ [quote].

Definition bool_text (b : bool) : text := if b then str "true" else str "false".

(** * The grammar *)

Inductive char_text : Z -> text -> Prop :=
| ct_plain c : 32 <= c -> c <> quote -> c <> backslash -> char_text c [c]
| ct_escaped e c : escaped e = Some c -> char_text c [backslash; e]
| ct_hex d1 d2 d3 d4 c : hex4 [d1; d2; d3; d4] = Some c -> char_text c [backslash; 117; d1; d2; d3; d4].

Inductive chars : text -> text -> Prop :=
| ch_nil : chars [] []
| ch_cons c t s u : char_text c t -> chars s u -> chars (c :: s) (t ++ u).

Inductive renders : json -> text -> Prop :=
| rd_null : renders JNull (str "null")
| rd_bool b : renders (JBool b) (bool_text b)
| rd_num n : 0 <= n <= u64_max -> renders (JNum n) (print_dec n)
| rd_str s t : chars s t -> renders (JStr s) (quote :: t ++ [quote])
| rd_arr_nil w : ws w -> renders (JArr []) (91 :: w ++ [93])
| rd_arr vs t : elements vs t -> renders (JArr vs) (91 :: t ++ [93])
| rd_obj_nil w : ws w -> renders (JObj []) (123 :: w ++ [125])
| rd_obj ms t : members ms t -> renders (JObj ms) (123 :: t ++ [125])
with elements : list json -> text -> Prop :=
| el_one w1 v t w2 : ws w1 -> renders v t -> ws w2 -> elements [v] (w1 ++ t ++ w2)
| el_cons w1 v t w2 vs u :
    ws w1 -> renders v t -> ws w2 -> elements vs u -> elements (v :: vs) (w1 ++ t ++ w2 ++ 44 :: u)
with members : list (text * json) -> text -> Prop :=
| mb_one w1 k kt w2 w3 v t w4 :
    ws w1 -> chars k kt -> ws w2 -> ws w3 -> renders v t -> ws w4 ->
    members [(k, v)] (w1 ++ quote :: kt ++ quote :: w2 ++ 58 :: w3 ++ t ++ w4)
| mb_cons w1 k kt w2 w3 v t w4 ms u :
    ws w1 -> chars k kt -> ws w2 -> ws w3 -> renders v t -> ws w4 -> members ms u ->
    members ((k, v) :: ms) (w1 ++ quote :: kt ++ quote :: w2 ++ 58 :: w3 ++ t ++ w4 ++ 44 :: u).

Scheme renders_mut := Induction for renders Sort Prop
  with elements_mut := Induction for elements Sort Prop
  with members_mut := Induction for members Sort Prop.
Combined Scheme grammar_ind from renders_mut, elements_mut, members_mut.

(** * The reader *)

Fixpoint skip_ws (s : text) : text :=
  match s with
  | c :: s' => if is_ws c then skip_ws s' else s
  | [] => []
  end.

(** The rest of a string after its opening quote, and what follows it. *)
Fixpoint read_string (s : text) : option (text * text) :=
  match s with
  | [] => None
  | c :: s =>
    if c =? quote then Some ([], s)
    else if c <? 32 then None
    else if c =? backslash then
      match s with
      | [] => None
      | e :: s =>
        if e =? 117 then
          match s with
          | d1 :: d2 :: d3 :: d4 :: s =>
            c ← hex4 [d1; d2; d3; d4]; '(t, r) ← read_string s; Some (c :: t, r)
          | _ => None
          end
        else c ← escaped e; '(t, r) ← read_string s; Some (c :: t, r)
      end
    else '(t, r) ← read_string s; Some (c :: t, r)
  end.

Fixpoint span_digits (s : text) : text * text :=
  match s with
  | c :: s' => if is_ascii_digit c then let '(ds, r) := span_digits s' in (c :: ds, r) else ([], s)
  | [] => ([], [])
  end.

Definition read_number (s : text) : option (json * text) :=
  let '(ds, r) := span_digits s in
  let leading_zero := match ds with c :: _ :: _ => c =? 48 | _ => false end in
  if leading_zero then None else n ← parse_digits 10 u64_max 0 ds; Some (JNum n, r).

Fixpoint strip (p s : text) : option text :=
  match p, s with
  | [], s => Some s
  | c :: p, d :: s => if c =? d then strip p s else None
  | _ :: _, [] => None
  end.

Definition read_literal (s : text) : option (json * text) :=
  match strip (str "null") s, strip (str "true") s, strip (str "false") s with
  | Some r, _, _ => Some (JNull, r)
  | _, Some r, _ => Some (JBool true, r)
  | _, _, Some r => Some (JBool false, r)
  | _, _, _ => None
  end.

(** [fuel] bounds the nesting and the length: two units per character are enough. *)
Fixpoint read_value (fuel : nat) (s : text) : option (json * text) :=
  match fuel with
  | O => None
  | S fuel =>
    match skip_ws s with
    | [] => None
    | c :: s' =>
      if c =? quote then '(t, r) ← read_string s'; Some (JStr t, r)
      else if c =? 91 then
        match skip_ws s' with
        | d :: r => if d =? 93 then Some (JArr [], r)
                    else '(vs, r) ← read_elements fuel s'; Some (JArr vs, r)
        | [] => None
        end
      else if c =? 123 then
        match skip_ws s' with
        | d :: r => if d =? 125 then Some (JObj [], r)
                    else '(ms, r) ← read_members fuel s'; Some (JObj ms, r)
        | [] => None
        end
      else if is_ascii_digit c then read_number (c :: s')
      else read_literal (c :: s')
    end
  end
with read_elements (fuel : nat) (s : text) : option (list json * text) :=
  match fuel with
  | O => None
  | S fuel =>
    '(v, r) ← read_value fuel s;
    match skip_ws r with
    | c :: r => if c =? 44 then '(vs, r) ← read_elements fuel r; Some (v :: vs, r)
                else if c =? 93 then Some ([v], r) else None
    | [] => None
    end
  end
with read_members (fuel : nat) (s : text) : option (list (text * json) * text) :=
  match fuel with
  | O => None
  | S fuel =>
    match skip_ws s with
    | c :: s =>
      if c =? quote then
        '(k, r) ← read_string s;
        match skip_ws r with
        | c :: r =>
          if c =? 58 then
            '(v, r) ← read_value fuel r;
            match skip_ws r with
            | c :: r => if c =? 44 then '(ms, r) ← read_members fuel r; Some ((k, v) :: ms, r)
                        else if c =? 125 then Some ([(k, v)], r) else None
            | [] => None
            end
          else None
        | [] => None
        end
      else None
    | [] => None
    end
  end.

(** A whole text: one value between white space. *)
Definition read_json (s : text) : option json :=
  '(v, r) ← read_value (2 * length s) s;
  match skip_ws r with [] => Some v | _ => None end.

(** * The reader finds the value *)

Lemma skip_ws_app w s : ws w -> skip_ws (w ++ s) = skip_ws s.
Proof. induction 1 as [|c w Hc _ IH]; [done|]. cbn. by rewrite Hc. Qed.

Lemma skip_ws_stop c s : is_ws c = false -> skip_ws (c :: s) = c :: s.
Proof. intros Hc. cbn. by rewrite Hc. Qed.

Lemma read_string_chars s t rest : chars s t -> read_string (t ++ quote :: rest) = Some (s, rest).
Proof.
  induction 1 as [|c t s u Hc _ IH]; [done|]. rewrite <-app_assoc. destruct Hc as [c Hc Hq Hb|e c He|d1 d2 d3 d4 c Hh].
  - cbn [app read_string]. rewrite (proj2 (Z.eqb_neq _ _)), (proj2 (Z.ltb_ge _ _)), (proj2 (Z.eqb_neq _ _)) by done.
    by rewrite IH.
  - cbn [app read_string]. change (backslash =? quote) with false. change (backslash <? 32) with false.
    change (backslash =? backslash) with true. cbn iota.
    destruct (e =? 117) eqn:E; bool_hyps; [subst; discriminate He|]. rewrite He. cbn [mbind option_bind]. by rewrite IH.
  - cbn [app read_string]. change (backslash =? quote) with false. change (backslash <? 32) with false.
    change (backslash =? backslash) with true. change (117 =? 117) with true. cbn iota. rewrite Hh.
    cbn [mbind option_bind]. by rewrite IH.
Qed.

(** What may follow a number. *)
Definition no_digit (s : text) : Prop :=
  match s with c :: _ => is_ascii_digit c = false | [] => True end.

Lemma ws_no_digit c : is_ws c = true -> is_ascii_digit c = false.
Proof.
  unfold is_ws. rewrite !orb_true_iff, !Z.eqb_eq. intros [[[->| ->]| ->]| ->]; reflexivity.
Qed.

Lemma no_digit_app w c s : ws w -> is_ascii_digit c = false -> no_digit (w ++ c :: s).
Proof. intros Hw Hc. destruct Hw as [|d w Hd _]; [done|]. by apply ws_no_digit. Qed.

Lemma span_digits_app ds s :
  Forall (fun c => is_ascii_digit c = true) ds -> no_digit s -> span_digits (ds ++ s) = (ds, s).
Proof.
  intros Hd Hs. induction Hd as [|c ds Hc _ IH].
  - destruct s as [|c s]; [done|]. cbn in *. by rewrite Hs.
  - cbn. by rewrite Hc, IH.
Qed.

Lemma print_digits_digits fuel n acc :
  Forall (fun c => is_ascii_digit c = true) acc -> Forall (fun c => is_ascii_digit c = true) (print_digits fuel 10 n acc).
Proof.
  revert n acc. induction fuel as [|fuel IH]; intros n acc Ha; [done|]. cbn [print_digits].
  assert (Forall (fun c => is_ascii_digit c = true) (digit_char (n mod 10) :: acc)) as Ha'.
  { constructor; [|done]. pose proof (Z.mod_pos_bound n 10 ltac:(lia)). unfold digit_char, is_ascii_digit.
    rewrite (proj2 (Z.ltb_lt _ 10)) by lia. apply andb_true_iff. split; apply Z.leb_le; lia. }
  destruct (_ =? 0); [done|by apply IH].
Qed.

(** The digits of a number begin with a zero for zero only. *)
Lemma print_digits_no_zero fuel n acc :
  0 <= n < 10 ^ Z.of_nat fuel -> (0 < fuel)%nat ->
  exists c t, print_digits fuel 10 n acc = c :: t ++ acc /\ (c = 48 -> n = 0 /\ t = []).
Proof.
  revert n acc. induction fuel as [|fuel IH]; intros n acc Hn Hf; [lia|]. cbn [print_digits].
  pose proof (Z.div_mod n 10 ltac:(lia)) as Hdm. pose proof (Z.mod_pos_bound n 10 ltac:(lia)) as Hm.
  destruct (n / 10 =? 0) eqn:E; bool_hyps.
  - eexists _, []. split; [done|]. unfold digit_char. rewrite (proj2 (Z.ltb_lt _ 10)) by lia. intros ?. split; [lia|done].
  - assert (0 <= n / 10 < 10 ^ Z.of_nat fuel) as Hq.
    { split; [apply Z.div_pos; lia|]. apply Z.div_lt_upper_bound; [lia|].
      rewrite Nat2Z.inj_succ, Z.pow_succ_r in Hn by lia. lia. }
    destruct fuel as [|fuel]; [cbn in Hq; lia|].
    destruct (IH (n / 10) (digit_char (n mod 10) :: acc) Hq ltac:(lia)) as (c & t & Hp & Hz).
    exists c, (t ++ [digit_char (n mod 10)]). rewrite Hp, <-app_assoc. split; [done|]. intros ->. by destruct Hz.
Qed.

Lemma read_number_print n s : 0 <= n <= u64_max -> no_digit s -> read_number (print_dec n ++ s) = Some (JNum n, s).
Proof.
  intros Hn Hs. unfold read_number, print_dec.
  rewrite span_digits_app by (try apply print_digits_digits; done || constructor).
  assert (n < 10 ^ Z.of_nat 64) as Hb by (change (10 ^ Z.of_nat 64) with (10 ^ 64); lia).
  destruct (print_digits_no_zero 64 n [] ltac:(lia) ltac:(lia)) as (c & t & Hp & Hz).
  destruct (parse_digits_print_digits 64 10 u64_max n 0 [] ltac:(lia) ltac:(lia) ltac:(lia) ltac:(lia) ltac:(lia))
    as (k & Hk & Hparse).
  specialize (Hparse 0 ltac:(lia) ltac:(lia)). rewrite Z.mul_0_l in Hparse. cbn [parse_digits] in Hparse.
  rewrite app_nil_r in Hp. rewrite Hp in *.
  assert (match c :: t with c :: _ :: _ => c =? 48 | _ => false end = false) as ->.
  { destruct t as [|d t]; [done|]. apply Z.eqb_neq. intros ->. by destruct (Hz eq_refl). }
  by rewrite Hparse.
Qed.

(** How a value begins. *)
Lemma renders_head v t : renders v t -> exists c t', t = c :: t' /\ is_ws c = false /\ c <> 93 /\ c <> 125.
Proof.
  destruct 1 as [|b|n Hn|s t Hs|w Hw|vs t Ht|w Hw|ms t Ht]; try (by eexists _, _).
  - destruct b; by eexists _, _.
  - destruct (print_digits_no_zero 64 n []) as (c & t & Hp & _); [|lia|].
    { change (10 ^ Z.of_nat 64) with (10 ^ 64). lia. }
    exists c, t. unfold print_dec. pose proof (print_digits_digits 64 n [] ltac:(constructor)) as Hd.
    rewrite Hp, app_nil_r in *. apply Forall_cons in Hd as [Hd _]. split; [done|].
    unfold is_ascii_digit in Hd. bool_hyps. unfold is_ws. rewrite !orb_false_iff, !Z.eqb_neq. lia.
Qed.

Lemma skip_ws_head t c u s : skip_ws t = c :: u -> skip_ws (t ++ s) = c :: u ++ s.
Proof.
  induction t as [|d t IH]; [done|]. cbn. destruct (is_ws d); [done|]. by intros [= -> ->].
Qed.

Lemma skip_to_value w v t s :
  ws w -> renders v t -> exists c u, skip_ws (w ++ t ++ s) = c :: u /\ c <> 93 /\ c <> 125.
Proof.
  intros Hw Ht. destruct (renders_head v t Ht) as (c & t' & -> & Hc & H1 & H2).
  rewrite skip_ws_app by done. cbn [app]. rewrite skip_ws_stop by done. by exists c, (t' ++ s).
Qed.

Lemma skip_to_char w c s : ws w -> is_ws c = false -> skip_ws (w ++ c :: s) = c :: s.
Proof. intros Hw Hc. rewrite skip_ws_app by done. by apply skip_ws_stop. Qed.

(** What the reader makes of the texts of the grammar, with fuel for their length. *)
Definition reads (v : json) (t : text) : Prop := forall fuel w rest,
  ws w -> no_digit rest -> (2 * length t <= fuel)%nat -> read_value fuel (w ++ t ++ rest) = Some (v, rest).

Definition reads_elements (vs : list json) (t : text) : Prop := forall fuel rest, (2 * length t < fuel)%nat ->
  read_elements fuel (t ++ 93 :: rest) = Some (vs, rest) /\ exists c s, skip_ws t = c :: s /\ c <> 93.

Definition reads_members (ms : list (text * json)) (t : text) : Prop := forall fuel rest, (2 * length t < fuel)%nat ->
  read_members fuel (t ++ 125 :: rest) = Some (ms, rest) /\ exists c s, skip_ws t = c :: s /\ c <> 125.

(** A text whose first character is no white space is read at that character. *)
Lemma reads_at v c t :
  is_ws c = false ->
  (forall fuel rest, no_digit rest -> (length (c :: t) <= fuel)%nat ->
     (2 * length t < fuel)%nat -> read_value (S fuel) (c :: t ++ rest) = Some (v, rest)) -> reads v (c :: t).
Proof.
  intros Hc Hread fuel w rest Hw Hr Hf. destruct fuel as [|fuel]; [cbn in Hf; lia|].
  specialize (Hread fuel rest Hr). cbn [read_value] in Hread |- *. rewrite skip_ws_app by done. cbn [app].
  rewrite skip_ws_stop in Hread |- * by done. cbn [length] in *. apply Hread; lia.
Qed.

Lemma reads_number n : 0 <= n <= u64_max -> reads (JNum n) (print_dec n).
Proof.
  intros Hn. destruct (renders_head _ _ (rd_num n Hn)) as (c & t & Hp & Hc & _).
  pose proof (print_digits_digits 64 n [] ltac:(constructor)) as Hd. fold (print_dec n) in Hd. rewrite Hp in Hd |- *.
  apply Forall_cons in Hd as [Hd _]. apply reads_at; [done|]. intros fuel rest Hr _ _. cbn [read_value].
  rewrite skip_ws_stop by done. assert (c <> quote /\ c <> 91 /\ c <> 123) as (H1 & H2 & H3).
  { unfold quote, is_ascii_digit in *. bool_hyps. lia. }
  rewrite (proj2 (Z.eqb_neq c quote)), (proj2 (Z.eqb_neq c 91)), (proj2 (Z.eqb_neq c 123)), Hd by done.
  change (c :: t ++ rest) with ((c :: t) ++ rest). rewrite <-Hp. by apply read_number_print.
Qed.

Lemma reads_string s t : chars s t -> reads (JStr s) (quote :: t ++ [quote]).
Proof.
  intros Hs. apply reads_at; [done|]. intros fuel rest _ _ _. cbn [read_value]. rewrite skip_ws_stop by done.
  rewrite Z.eqb_refl, <-app_assoc. cbn [app]. by rewrite (read_string_chars s).
Qed.

Lemma reads_array vs t : reads_elements vs t -> reads (JArr vs) (91 :: t ++ [93]).
Proof.
  intros IH. apply reads_at; [done|]. intros fuel rest _ _ Hf. rewrite length_app in Hf. cbn [length] in Hf.
  destruct (IH fuel rest ltac:(lia)) as (Hread & c & u & Hskip & Hc). cbn [read_value]. rewrite skip_ws_stop by done.
  change (91 =? quote) with false. change (91 =? 91) with true. cbn iota. rewrite <-app_assoc. cbn [app].
  rewrite (skip_ws_head t c u _ Hskip), (proj2 (Z.eqb_neq c 93)) by done. by rewrite Hread.
Qed.

Lemma reads_object ms t : reads_members ms t -> reads (JObj ms) (123 :: t ++ [125]).
Proof.
  intros IH. apply reads_at; [done|]. intros fuel rest _ _ Hf. rewrite length_app in Hf. cbn [length] in Hf.
  destruct (IH fuel rest ltac:(lia)) as (Hread & c & u & Hskip & Hc). cbn [read_value]. rewrite skip_ws_stop by done.
  change (123 =? quote) with false. change (123 =? 91) with false. change (123 =? 123) with true. cbn iota.
  rewrite <-app_assoc. cbn [app].
  rewrite (skip_ws_head t c u _ Hskip), (proj2 (Z.eqb_neq c 125)) by done. by rewrite Hread.
Qed.

Lemma reads_empty w :
  ws w -> reads (JArr []) (91 :: w ++ [93]) /\ reads (JObj []) (123 :: w ++ [125]).
Proof.
  intros Hw. split; (apply reads_at; [done|]); intros fuel rest _ _ _; cbn [read_value]; rewrite skip_ws_stop by done;
    rewrite <-app_assoc; cbn [app]; by rewrite skip_to_char.
Qed.

(** One element or member, up to the character [x] behind it. *)
Lemma element_read fuel w1 v t w2 x rest :
  reads v t -> ws w1 -> ws w2 -> is_ascii_digit x = false -> (2 * length t <= fuel)%nat ->
  read_value fuel (w1 ++ t ++ w2 ++ x :: rest) = Some (v, w2 ++ x :: rest).
Proof. intros Ht H1 H2 Hx Hf. apply Ht; [done|by apply no_digit_app|done]. Qed.

Lemma member_read fuel w1 k kt w2 w3 v t w4 x rest :
  ws w1 -> chars k kt -> ws w2 -> ws w3 -> reads v t -> ws w4 -> is_ascii_digit x = false -> is_ws x = false ->
  (2 * length t <= fuel)%nat ->
  read_members (S fuel) (w1 ++ quote :: kt ++ quote :: w2 ++ 58 :: w3 ++ t ++ w4 ++ x :: rest)
  = if x =? 44 then '(ms, r) ← read_members fuel rest; Some ((k, v) :: ms, r)
    else if x =? 125 then Some ([(k, v)], rest) else None.
Proof.
  intros Hw1 Hk Hw2 Hw3 Ht Hw4 Hx Hs Hf. cbn [read_members]. rewrite skip_to_char by done. rewrite Z.eqb_refl.
  rewrite (read_string_chars k) by done. cbn [mbind option_bind]. rewrite skip_to_char by done.
  change (58 =? 58) with true. cbn iota. rewrite (element_read fuel w3 v t w4) by done. cbn [mbind option_bind].
  by rewrite skip_to_char.
Qed.

Lemma reader_complete :
  (forall v t, renders v t -> reads v t) /\
  (forall vs t, elements vs t -> reads_elements vs t) /\
  (forall ms t, members ms t -> reads_members ms t).
Proof.
  apply grammar_ind.
  - apply reads_at; [done|]. intros. cbn [read_value]. by rewrite skip_ws_stop.
  - intros []; (apply reads_at; [done|]); intros; cbn [read_value]; by rewrite skip_ws_stop.
  - apply reads_number.
  - apply reads_string.
  - intros w Hw. by apply reads_empty.
  - intros vs t _. apply reads_array.
  - intros w Hw. by apply reads_empty.
  - intros ms t _. apply reads_object.
  - intros w1 v t w2 Hw1 Hv IH Hw2 fuel rest Hf. rewrite !length_app in Hf. destruct fuel as [|fuel]; [lia|]. split.
    + cbn [read_elements]. rewrite <-!app_assoc, (element_read fuel w1 v t w2) by (done || lia). cbn [mbind option_bind].
      by rewrite skip_to_char.
    + destruct (skip_to_value w1 v t w2 Hw1 Hv) as (c & u & Hs & Hc & _). by exists c, u.
  - intros w1 v t w2 vs u Hw1 Hv IH Hw2 _ IHs fuel rest Hf. rewrite !length_app in Hf. cbn [length] in Hf.
    destruct fuel as [|fuel]; [lia|]. split.
    + cbn [read_elements]. rewrite <-!app_assoc. cbn [app]. rewrite (element_read fuel w1 v t w2) by (done || lia).
      cbn [mbind option_bind]. rewrite skip_to_char by done. change (44 =? 44) with true. cbn iota.
      destruct (IHs fuel rest ltac:(lia)) as [-> _]. done.
    + destruct (skip_to_value w1 v t (w2 ++ 44 :: u) Hw1 Hv) as (c & r & Hs & Hc & _). by exists c, r.
  - intros w1 k kt w2 w3 v t w4 Hw1 Hk Hw2 Hw3 Hv IH Hw4 fuel rest Hf.
    repeat (rewrite length_app in Hf || cbn [length] in Hf). destruct fuel as [|fuel]; [lia|]. split.
    + repeat (rewrite <-app_assoc || cbn [app]). by rewrite (member_read fuel w1 k kt w2 w3 v t w4) by (done || lia).
    + rewrite skip_to_char by done. by eexists quote, _.
  - intros w1 k kt w2 w3 v t w4 ms u Hw1 Hk Hw2 Hw3 Hv IH Hw4 _ IHs fuel rest Hf.
    repeat (rewrite length_app in Hf || cbn [length] in Hf). destruct fuel as [|fuel]; [lia|]. split.
    + repeat (rewrite <-app_assoc || cbn [app]). rewrite (member_read fuel w1 k kt w2 w3 v t w4) by (done || lia).
      change (44 =? 44) with true. cbn iota. destruct (IHs fuel rest ltac:(lia)) as [-> _]. done.
    + rewrite skip_to_char by done. by eexists quote, _.
Qed.

(** A text of the grammar, with white space around it, denotes one value. *)
Lemma read_json_renders v t w1 w2 : ws w1 -> ws w2 -> renders v t -> read_json (w1 ++ t ++ w2) = Some v.
Proof.
  intros Hw1 Hw2 Ht. unfold read_json. destruct reader_complete as (Hread & _ & _).
  rewrite (Hread v t Ht _ w1 w2 Hw1).
  - cbn [mbind option_bind]. rewrite <-(app_nil_r w2), skip_ws_app by done. done.
  - destruct Hw2 as [|c w2 Hc _]; [done|]. by apply ws_no_digit.
  - rewrite !length_app. lia.
Qed.
