(* ===== verification/Extern.v ===== *)
(** The third-party code the program calls, as interfaces.

    Each class holds the operations of one external crate; a class whose name
    ends in [Laws] states what the crate documents about them.  The components
    are defined over the operations, and a theorem that needs a documented
    behaviour takes the laws.  [RefAdler], [RefRead] and [RefLru] are concrete
    instances, on which concrete images are evaluated. *)

From S2P Require Import Prelude.

(** ** safe-read: total little-endian reads; zero when out of range. *)
Class SafeRead := {
  le_u32 : list byte -> Z -> Z;
  le_u64 : list byte -> Z -> Z;
}.

Class SafeReadLaws `{SafeRead} : Prop := {
  le_u32_in data off s :
    slice data off (off + 4) = Some s -> le_u32 data off = le_combine s;
  le_u32_out data off : slice data off (off + 4) = None -> le_u32 data off = 0;
  le_u64_in data off s :
    slice data off (off + 8) = Some s -> le_u64 data off = le_combine s;
  le_u64_out data off : slice data off (off + 8) = None -> le_u64 data off = 0;
}.

(** ** adler2 *)
Class Adler := adler32_slice : list byte -> Z.

Class AdlerLaws `{Adler} : Prop :=
  adler32_range data : 0 <= adler32_slice data <= u32_max.

(** ** flate2: a zlib decoder read through a buffer of a given length ([None] is
    an error), and [decoder.take(limit).read_to_end()] ([None] for no limit). *)
Class Zlib := {
  zdecoder : Type;
  zlib_new : list byte -> zdecoder;
  zlib_read : zdecoder -> Z -> option (list byte * zdecoder);
  zlib_read_to_end : list byte -> option Z -> option (list byte);
}.

(** The contract of [std::io::Read] and of [take]. *)
Class ZlibLaws `{Zlib} : Prop := {
  zlib_read_bound d n bs d' : zlib_read d n = Some (bs, d') -> zlen bs <= Z.max 0 n;
  zlib_take_bound raw limit out :
    zlib_read_to_end raw (Some limit) = Some out -> zlen out <= Z.max 0 limit;
}.

(** [raw] is a zlib stream of [out]: a decoder of it delivers [out] in order, at
    least one byte at a time until the end, and reading to the end gives all of it or
    the part below the limit.  This is what a compressor promises about its output. *)
Record inflates `{Zlib} (raw out : list byte) : Prop := {
  inflates_reads : exists holds : zdecoder -> list byte -> Prop,
    holds (zlib_new raw) out /\
    forall d rest n, holds d rest -> 0 <= n ->
      exists k d', zlib_read d n = Some (ztake k rest, d') /\ 0 <= k <= n /\
        (0 < n -> rest <> [] -> 0 < k) /\ holds d' (zdrop k rest);
  inflates_all limit : 0 <= default 0 limit ->
    zlib_read_to_end raw limit = Some (match limit with Some l => ztake l out | None => out end);
}.

(** ** md-5, sha-1, sha2: a hasher fed by [update] calls digests their
    concatenation. *)
Class Digests := {
  md5 : list byte -> list byte;
  sha1 : list byte -> list byte;
  sha256 : list byte -> list byte;
}.

Class DigestsLaws `{Digests} : Prop := {
  length_md5 data : zlen (md5 data) = 16;
  length_sha1 data : zlen (sha1 data) = 20;
  length_sha256 data : zlen (sha256 data) = 32;
}.

(** ** lru: a bounded cache; [get] refreshes an entry, [put] may evict others. *)
Class Lru (K V : Type) := {
  lru : Type;
  lru_new : Z -> lru;
  lru_get : K -> lru -> option V * lru;
  lru_put : K -> V -> lru -> lru;
}.
Arguments lru K V {_}.

Class LruLaws (K V : Type) `{Lru K V} : Prop := {
  lru_get_new cap k : fst (lru_get k (lru_new cap)) = None;
  lru_get_get k k' c : fst (lru_get k' (snd (lru_get k c))) = fst (lru_get k' c);
  lru_get_put k v k' w c :
    fst (lru_get k' (lru_put k v c)) = Some w ->
    (k' = k /\ w = v) \/ fst (lru_get k' c) = Some w;
}.

(** [iter] and [cap]: what the cache holds, never more than its capacity. *)
Class LruIter (K V : Type) `{Lru K V} := {
  lru_iter : lru K V -> list (K * V);
  lru_cap : lru K V -> Z;
}.

Class LruIterLaws (K V : Type) `{LruIter K V} : Prop := {
  lru_new_iter cap : lru_iter (lru_new cap) = [] /\ lru_cap (lru_new cap) = cap;
  lru_get_cap k c : lru_cap (snd (lru_get k c)) = lru_cap c;
  lru_get_iter k c e : e ∈ lru_iter (snd (lru_get k c)) -> e ∈ lru_iter c;
  lru_get_size k c : zlen (lru_iter (snd (lru_get k c))) <= zlen (lru_iter c);
  lru_put_cap k v c : lru_cap (lru_put k v c) = lru_cap c;
  lru_put_iter k v c e : e ∈ lru_iter (lru_put k v c) -> e = (k, v) \/ e ∈ lru_iter c;
  lru_put_size k v c : 0 < lru_cap c -> zlen (lru_iter (lru_put k v c)) <= lru_cap c;
}.

(** ** rayon: [current_num_threads] and the parallel map whose results are
    collected in order; on a failure one of the errors is returned. *)
Class Rayon := {
  current_num_threads : Z;
  par_collect : forall {E A : Type}, list (outcome E A) -> outcome E (list A);
}.

Class RayonLaws `{Rayon} : Prop := {
  (** [rayon_core::max_num_threads] *)
  current_num_threads_range : 0 <= current_num_threads <= 65535;
  par_collect_ok {E A} (rs : list A) : par_collect (E:=E) (Ok <$> rs) = Ok rs;
  par_collect_outcome {E A} (ms : list (outcome E A)) :
    match par_collect ms with
    | Ok rs => ms = Ok <$> rs
    | Err e => Err e ∈ ms
    | Panic => Panic ∈ ms
    end;
}.

(** * Reference instances *)

Definition ref_read (n : Z) (data : list byte) (off : Z) : Z :=
  match slice data off (off + n) with Some s => le_combine s | None => 0 end.

#[export] Instance RefRead : SafeRead :=
  {| le_u32 := ref_read 4; le_u64 := ref_read 8 |}.

#[export] Instance RefReadLaws : SafeReadLaws.
Proof.
  split; cbn; unfold ref_read; intros; by rewrite H.
Qed.

(** Adler-32 of RFC 1950. *)
Definition adler_step (ab : Z * Z) (b : byte) : Z * Z :=
  let a := (ab.1 + byteZ b) mod 65521 in (a, (ab.2 + a) mod 65521).

#[export] Instance RefAdler : Adler := fun data =>
  let '(a, b) := fold_left adler_step data (1, 0) in b * 65536 + a.

Lemma adler_fold_range data ab :
  0 <= ab.1 < 65521 -> 0 <= ab.2 < 65521 ->
  0 <= (fold_left adler_step data ab).1 < 65521 /\
  0 <= (fold_left adler_step data ab).2 < 65521.
Proof.
  revert ab. induction data as [|b data IH]; intros ab Ha Hb; [done|].
  cbn. apply IH; cbn; by apply Z.mod_pos_bound.
Qed.

#[export] Instance RefAdlerLaws : AdlerLaws.
Proof.
  intros data. unfold adler32_slice, RefAdler.
  pose proof (adler_fold_range data (1, 0)) as [H1 H2]; cbn; try lia.
  destruct (fold_left _ _ _) as [a b]. cbn in *. lia.
Qed.

(** A least-recently-used list of at most [cap] entries, newest first. *)
Section RefLru.
Context (K V : Type) `{EqDecision K}.

Definition ref_lookup (k : K) (es : list (K * V)) : option V :=
  snd <$> List.find (fun e => bool_decide (e.1 = k)) es.
Definition ref_remove (k : K) (es : list (K * V)) : list (K * V) :=
  List.filter (fun e => negb (bool_decide (e.1 = k))) es.

#[export] Instance RefLru : Lru K V := {|
  lru := Z * list (K * V);
  lru_new cap := (cap, []);
  lru_get k c :=
    match ref_lookup k c.2 with
    | Some v => (Some v, (c.1, (k, v) :: ref_remove k c.2))
    | None => (None, c)
    end;
  lru_put k v c := (c.1, ztake c.1 ((k, v) :: ref_remove k c.2));
|}.

#[local] Arguments ref_lookup : simpl never.
#[local] Arguments ref_remove : simpl never.
#[local] Arguments ztake : simpl never.

Lemma ref_remove_cons k j w es :
  ref_remove k ((j, w) :: es) =
  if bool_decide (j = k) then ref_remove k es else (j, w) :: ref_remove k es.
Proof. unfold ref_remove. cbn. by case_bool_decide. Qed.

Lemma ref_lookup_cons k k' v es :
  ref_lookup k' ((k, v) :: es) = if bool_decide (k = k') then Some v else ref_lookup k' es.
Proof. unfold ref_lookup. cbn. by case_bool_decide. Qed.

Lemma ref_lookup_remove k k' es :
  k <> k' -> ref_lookup k' (ref_remove k es) = ref_lookup k' es.
Proof.
  intros Hne. induction es as [|[j w] es IH]; [done|].
  rewrite ref_lookup_cons, ref_remove_cons. case_bool_decide as E.
  - subst j. by rewrite (bool_decide_false (k = k')).
  - by rewrite ref_lookup_cons, IH.
Qed.

Lemma ref_lookup_take n k w es : ref_lookup k (take n es) = Some w -> ref_lookup k es = Some w.
Proof.
  revert n. induction es as [|[j u] es IH]; intros [|n]; try done.
  cbn [take]. rewrite !ref_lookup_cons. case_bool_decide; [done|]. apply IH.
Qed.

Lemma ref_get_fst k (c : lru K V) : fst (lru_get k c) = ref_lookup k c.2.
Proof. cbn. by destruct (ref_lookup k c.2). Qed.

#[export] Instance RefLruLaws : LruLaws K V.
Proof.
  split.
  - done.
  - intros k k' c. rewrite !ref_get_fst. cbn.
    destruct (ref_lookup k c.2) as [v|] eqn:E; cbn; [|done].
    rewrite ref_lookup_cons. case_bool_decide; subst; [by rewrite E|].
    by rewrite ref_lookup_remove.
  - intros k v k' w c. rewrite !ref_get_fst. cbn. intros H%ref_lookup_take.
    rewrite ref_lookup_cons in H. case_bool_decide; [left; naive_solver|right].
    by rewrite ref_lookup_remove in H.
Qed.

#[export] Instance RefLruIter : LruIter K V := {| lru_iter c := c.2; lru_cap c := c.1 |}.

Lemma ref_lookup_in k es v : ref_lookup k es = Some v -> (k, v) ∈ es.
Proof.
  induction es as [|[j w] es IH]; [done|]. rewrite ref_lookup_cons. case_bool_decide as E.
  - intros [= ->]. subst j. by left.
  - intros Hl. right. by apply IH.
Qed.

Lemma ref_remove_in k es e : e ∈ ref_remove k es -> e ∈ es.
Proof. unfold ref_remove. rewrite !list_elem_of_In, filter_In. tauto. Qed.

Lemma ref_remove_size k es v : ref_lookup k es = Some v -> zlen (ref_remove k es) + 1 <= zlen es.
Proof.
  assert (forall es, zlen (ref_remove k es) <= zlen es) as Hle.
  { clear. intros es. induction es as [|[j w] es IH]; [done|]. rewrite ref_remove_cons, zlen_cons.
    case_bool_decide; [|rewrite zlen_cons]; lia. }
  induction es as [|[j w] es IH]; [done|]. rewrite ref_lookup_cons, ref_remove_cons, zlen_cons. case_bool_decide.
  - intros _. specialize (Hle es). lia.
  - intros Hl. rewrite zlen_cons. specialize (IH Hl). lia.
Qed.

#[export] Instance RefLruIterLaws : LruIterLaws K V.
Proof.
  split.
  - done.
  - intros k c. cbn. by destruct (ref_lookup k c.2).
  - intros k c e. cbn. destruct (ref_lookup k c.2) as [v|] eqn:E; [|done]. cbn.
    intros [->|He]%elem_of_cons; [by apply ref_lookup_in|by eapply ref_remove_in].
  - intros k c. cbn. destruct (ref_lookup k c.2) as [v|] eqn:E; [|done]. cbn. rewrite zlen_cons.
    pose proof (ref_remove_size k c.2 v E). lia.
  - done.
  - intros k v c e. cbn. intros He. unfold ztake in He.
    apply elem_of_take in He as (i & He & _). apply list_elem_of_lookup_2, elem_of_cons in He.
    destruct He as [->|He]; [by left|right; by eapply ref_remove_in].
  - intros k v c Hc. cbn in *. rewrite zlen_ztake. pose proof (zlen_nonneg ((k, v) :: ref_remove k c.2)). lia.
Qed.
End RefLru.

(** * Reading a field back *)
Section ReaderLemmas.
Context `{SafeReadLaws}.

Lemma le_u32_field data l1 l2 off z :
  data = l1 ++ le_bytes 4 z ++ l2 -> off = zlen l1 -> 0 <= z <= u32_max ->
  le_u32 data off = z.
Proof.
  intros Hd Ho Hz. rewrite (le_u32_in data off (le_bytes 4 z)).
  - apply le_combine_le_bytes_small. cbn. lia.
  - by eapply slice_at; [done..|rewrite zlen_le_bytes; lia].
Qed.

Lemma le_u64_field data l1 l2 off z :
  data = l1 ++ le_bytes 8 z ++ l2 -> off = zlen l1 -> 0 <= z <= u64_max ->
  le_u64 data off = z.
Proof.
  intros Hd Ho Hz. rewrite (le_u64_in data off (le_bytes 8 z)).
  - apply le_combine_le_bytes_small. cbn. lia.
  - by eapply slice_at; [done..|rewrite zlen_le_bytes; lia].
Qed.

Lemma le_u32_range data off : 0 <= le_u32 data off <= u32_max.
Proof.
  destruct (slice data off (off + 4)) as [s|] eqn:E.
  - rewrite (le_u32_in _ _ _ E). pose proof (le_combine_bound s) as Hb.
    rewrite (slice_zlen _ _ _ _ E) in Hb. replace (off + 4 - off) with 4 in Hb by lia.
    change (256 ^ 4) with 4294967296 in Hb. lia.
  - rewrite (le_u32_out _ _ E). lia.
Qed.

Lemma le_u64_range data off : 0 <= le_u64 data off <= u64_max.
Proof.
  destruct (slice data off (off + 8)) as [s|] eqn:E.
  - rewrite (le_u64_in _ _ _ E). pose proof (le_combine_bound s) as Hb.
    rewrite (slice_zlen _ _ _ _ E) in Hb. replace (off + 8 - off) with 8 in Hb by lia.
    change (256 ^ 8) with 18446744073709551616 in Hb. lia.
  - rewrite (le_u64_out _ _ E). lia.
Qed.
End ReaderLemmas.
