(* ===== verification/Types.v ===== *)
(** The public data types of the reader crate: [core/src/error.rs] and
    [core/src/types.rs].

    A formatted message is represented by the data interpolated in it. *)

From S2P Require Import Prelude Text.

(** [std::io::ErrorKind], as far as the program builds or inspects one. *)
Inductive io_error :=
| UnexpectedEof
| InvalidInput
| InvalidData
| Interrupted
| OtherIo.

(** The reasons carried by [EwfError::Parse]. *)
Inductive parse_error :=
| UnknownCompressionMethod (v : Z)
| ChunkIdOutOfRange (id len : Z)
| SectionSegmentMissing (segment : Z)
| EntryBytesOverflow (at_offset count : Z)
| EntryBytesExceedSegment (at_offset count want avail segment : Z)
| ShortEntryRead (at_offset got want : Z)
| ShortTableHeader (at_offset got : Z)
| TooManyTableEntries (count max : Z)
| Ewf2Cycle
| Ewf2PreviousOffset (prev file_len : Z)
| Ewf2ZlibFailed
| Ewf2SourceUnsupported
| Ewf2OffsetUnderflow (section : text) (offset size : Z)
| ChunkSegmentMissing (chunk segment : Z).

Inductive ewf_error :=
| Io (k : io_error)
| InvalidSignature (found : list byte)
| NotLogicalEvidence (segments : Z)
| MalformedLogicalField (field value : text)
| BufferTooShort (expected got : Z)
| InvalidChunkSize (size : Z)
| MissingVolume
| Decompression
| SegmentGap (expected got : Z)
| NoSegments (path : text)
| Parse (why : parse_error)
| EncryptedNotSupported.

(** [pub type Result<T>]. *)
Abbreviation res := (outcome ewf_error).

(** [From<io::Error> for EwfError], which [?] applies to an I/O result. *)
Definition from_io {A} (m : outcome io_error A) : res A :=
  match m with Ok a => Ok a | Err e => Err (Io e) | Panic => Panic end.

Record StoredHashes := {
  stored_hashes_md5 : option (list byte);
  stored_hashes_sha1 : option (list byte);
}.

Record VerifyResult := {
  computed_md5 : list byte;
  computed_sha1 : option (list byte);
  md5_match : option bool;
  sha1_match : option bool;
  addressable_bytes : Z;
  declared_bytes : Z;
}.

Definition is_complete (r : VerifyResult) : bool :=
  declared_bytes r <=? addressable_bytes r.

Definition missing_bytes (r : VerifyResult) : Z :=
  sat_sub (declared_bytes r) (addressable_bytes r).

Record EwfMetadata := {
  case_number : option text;
  evidence_number : option text;
  description : option text;
  examiner : option text;
  notes : option text;
  acquiry_software : option text;
  os_version : option text;
  acquiry_date : option text;
  system_date : option text;
}.

Definition metadata_default : EwfMetadata := {|
  case_number := None; evidence_number := None; description := None;
  examiner := None; notes := None; acquiry_software := None;
  os_version := None; acquiry_date := None; system_date := None |}.

Record AcquisitionError := {
  first_sector : Z;
  sector_count_err : Z;
}.

(** * Lemmas *)

(** A verification is complete exactly when no byte is missing. *)
Lemma missing_bytes_zero r : missing_bytes r = 0 <-> is_complete r = true.
Proof.
  unfold missing_bytes, is_complete, sat_sub. rewrite Z.leb_le. lia.
Qed.

Lemma returns_from_io {A} (Q : A -> Prop) m : returns Q m -> returns Q (from_io m).
Proof. by destruct m. Qed.
