(* ===== verification/Sections.v ===== *)
(** EWF v1 structural primitives: [core/src/sections.rs].

    Signatures, the file header, section descriptors, the volume body, table
    headers and entries, their stored Adler-32 checksums, and the packed chunk
    record. *)

From S2P Require Import Prelude Text Extern Types.

Definition EVF_SIGNATURE : list byte :=
  map byte_of_Z [69; 86; 70; 9; 13; 10; 255; 0].
Definition LVF_SIGNATURE : list byte :=
  map byte_of_Z [76; 86; 70; 9; 13; 10; 255; 0].

Inductive EwfKind := Physical | Logical.

#[export] Instance EwfKind_eq_dec : EqDecision EwfKind.
Proof. solve_decision. Defined.

Definition FILE_HEADER_SIZE : Z := 13.
Definition SECTION_DESCRIPTOR_SIZE : Z := 76.
Definition SECTION_DESCRIPTOR_CRC_OFFSET : Z := 72.
Definition VOLUME_BODY_FULL_SIZE : Z := 1052.
Definition VOLUME_BODY_CRC_OFFSET : Z := 1048.
Definition TABLE_HEADER_SIZE : Z := 24.
Definition TABLE_HEADER_CRC_OFFSET : Z := 16.
Definition DEFAULT_LRU_SIZE : Z := 100.

(** The single entry point of every section checksum. *)
Definition adler32 `{Adler} (data : list byte) : Z := adler32_slice data.

(** ** File header *)
Record EwfFileHeader := {
  segment_number : Z;
  kind : EwfKind;
}.

Definition EwfFileHeader_parse (buf : list byte) : res EwfFileHeader :=
  if zlen buf <? FILE_HEADER_SIZE
  then Err (BufferTooShort FILE_HEADER_SIZE (zlen buf))
  else
    sig ← index_range buf 0 8;
    kind ← (if bool_decide (sig = EVF_SIGNATURE) then Ok Physical
            else if bool_decide (sig = LVF_SIGNATURE) then Ok Logical
            else Err (InvalidSignature sig));
    b9 ← index buf 9;
    b10 ← index buf 10;
    Ok {| segment_number := le_combine [b9; b10]; kind := kind |}.

(** ** Section descriptor *)
Record SectionDescriptor := {
  section_type : text;
  next : Z;
  section_size : Z;
  offset : Z;
  stored_crc : Z;
}.

Section Readers.
Context `{SafeRead}.

Definition SectionDescriptor_parse (buf : list byte) (off : Z) : res SectionDescriptor :=
  if zlen buf <? SECTION_DESCRIPTOR_SIZE
  then Err (BufferTooShort SECTION_DESCRIPTOR_SIZE (zlen buf))
  else
    field ← index_range buf 0 16;
    let type_end := default 16 (position (fun b => bool_decide (b = Byte.x00)) field) in
    name ← index_range buf 0 type_end;
    Ok {| section_type := from_utf8_lossy name;
          next := le_u64 buf 16;
          section_size := le_u64 buf 24;
          offset := off;
          stored_crc := le_u32 buf SECTION_DESCRIPTOR_CRC_OFFSET |}.

Definition SectionDescriptor_crc_covers : Z * Z := (0, SECTION_DESCRIPTOR_CRC_OFFSET).

Definition SectionDescriptor_verify_crc `{Adler} (self : SectionDescriptor)
    (raw : list byte) : bool :=
  match slice raw SectionDescriptor_crc_covers.1 SectionDescriptor_crc_covers.2 with
  | Some covered => adler32 covered =? stored_crc self
  | None => false
  end.

(** ** Volume section *)
Record EwfVolume := {
  chunk_count : Z;
  sectors_per_chunk : Z;
  bytes_per_sector : Z;
  sector_count : Z;
  media_type : Z;
  set_identifier : list byte;
  vol_stored_crc : option Z;
}.

Definition EwfVolume_parse (buf : list byte) : res EwfVolume :=
  if zlen buf <? 24 then Err (BufferTooShort 24 (zlen buf))
  else
    b0 ← index buf 0;
    Ok {| chunk_count := le_u32 buf 4;
          sectors_per_chunk := le_u32 buf 8;
          bytes_per_sector := le_u32 buf 12;
          sector_count := le_u64 buf 16;
          media_type := byteZ b0;
          set_identifier := default (zeros 16) (slice buf 64 80);
          vol_stored_crc :=
            if VOLUME_BODY_FULL_SIZE <=? zlen buf
            then Some (le_u32 buf VOLUME_BODY_CRC_OFFSET) else None |}.

Definition EwfVolume_chunk_size `{Profile} {E} (self : EwfVolume) : outcome E Z :=
  mul64 (sectors_per_chunk self) (bytes_per_sector self).

Definition EwfVolume_total_size (self : EwfVolume) : Z :=
  sat_mul (bytes_per_sector self) (sector_count self).

Definition EwfVolume_crc_covers : Z * Z := (0, VOLUME_BODY_CRC_OFFSET).

Definition EwfVolume_verify_crc `{Adler} (self : EwfVolume) (raw : list byte)
    : option bool :=
  stored ← vol_stored_crc self;
  Some (match slice raw EwfVolume_crc_covers.1 EwfVolume_crc_covers.2 with
        | Some covered => adler32 covered =? stored
        | None => false
        end).

(** ** Table entries and table header *)
Record TableEntry := {
  compressed : bool;
  chunk_offset : Z;
}.

Definition TableEntry_parse (buf : list byte) : res TableEntry :=
  if zlen buf <? 4 then Err (BufferTooShort 4 (zlen buf))
  else
    let raw := le_u32 buf 0 in
    Ok {| compressed := negb (Z.shiftr raw 31 =? 0);
          chunk_offset := Z.land raw 2147483647 |}.

Record TableHeader := {
  entry_count : Z;
  base_offset : Z;
  tbl_stored_crc : Z;
}.

Definition TableHeader_parse (buf : list byte) : res TableHeader :=
  if zlen buf <? TABLE_HEADER_CRC_OFFSET
  then Err (BufferTooShort TABLE_HEADER_CRC_OFFSET (zlen buf))
  else Ok {| entry_count := le_u32 buf 0;
             base_offset := le_u64 buf 8;
             tbl_stored_crc := le_u32 buf TABLE_HEADER_CRC_OFFSET |}.

Definition TableHeader_crc_covers : Z * Z := (0, TABLE_HEADER_CRC_OFFSET).

Definition TableHeader_verify_crc `{Adler} (self : TableHeader) (raw : list byte)
    : option bool :=
  if tbl_stored_crc self =? 0 then None
  else Some (match slice raw TableHeader_crc_covers.1 TableHeader_crc_covers.2 with
             | Some covered => adler32 covered =? tbl_stored_crc self
             | None => false
             end).
End Readers.

(** ** Packed chunk metadata: bit 63 of [offset_packed] is the compressed flag. *)
Record Chunk := {
  offset_packed : Z;
  chunk_segment : Z;
  chunk_size32 : Z;
}.

Definition COMPRESSED_BIT : Z := Z.shiftl 1 63.

(** [!x] on a [u64]. *)
Definition not64 (x : Z) : Z := Z.lxor x u64_max.

Definition Chunk_new (segment_idx : Z) (comp : bool) (off size : Z) : Chunk :=
  let flag := if comp then COMPRESSED_BIT else 0 in
  {| offset_packed := Z.lor (Z.land off (not64 COMPRESSED_BIT)) flag;
     chunk_segment := wrap32 segment_idx;
     chunk_size32 := wrap32 size |}.

Definition Chunk_segment_idx (c : Chunk) : Z := chunk_segment c.
Definition Chunk_compressed (c : Chunk) : bool :=
  negb (Z.land (offset_packed c) COMPRESSED_BIT =? 0).
Definition Chunk_offset (c : Chunk) : Z := Z.land (offset_packed c) (not64 COMPRESSED_BIT).
Definition Chunk_size (c : Chunk) : Z := chunk_size32 c.
Definition Chunk_set_size (c : Chunk) (size : Z) : Chunk :=
  {| offset_packed := offset_packed c;
     chunk_segment := chunk_segment c;
     chunk_size32 := wrap32 size |}.

(** * Layouts the writers use *)

(** The 13 bytes of a file header. *)
Definition file_header_bytes (k : EwfKind) (n : Z) : list byte :=
  match k with Physical => EVF_SIGNATURE | Logical => LVF_SIGNATURE end
  ++ [byte_of_Z 1] ++ le_bytes 2 n ++ le_bytes 2 0.

(** The 72 checksummed bytes of a descriptor whose type is [name], and the whole
    descriptor with the checksum [crc]. *)
Definition descriptor_prefix (name : list byte) (nxt size : Z) : list byte :=
  name ++ zeros (16 - zlen name) ++ le_bytes 8 nxt ++ le_bytes 8 size ++ zeros 40.

Definition descriptor_bytes (name : list byte) (nxt size crc : Z) : list byte :=
  descriptor_prefix name nxt size ++ le_bytes 4 crc.

(** The 4 bytes of a table entry. *)
Definition table_entry_bytes (e : TableEntry) : list byte :=
  le_bytes 4 (chunk_offset e + (if compressed e then 2147483648 else 0)).

(** * Lemmas *)

Lemma position_from_app {A} (p : A -> bool) i (l1 : list A) x l2 :
  Forall (fun y => p y = false) l1 -> p x = true ->
  position_from p i (l1 ++ x :: l2) = Some (i + zlen l1).
Proof.
  intros Hl Hx. revert i. induction Hl as [|y l1 Hy Hl IH]; intros i; cbn.
  - rewrite Hx. f_equal. unfold zlen. cbn. lia.
  - rewrite Hy, IH, zlen_cons. f_equal. lia.
Qed.

Lemma position_from_none {A} (p : A -> bool) i (l : list A) :
  Forall (fun y => p y = false) l -> position_from p i l = None.
Proof. intros Hl. revert i. induction Hl as [|y l Hy _ IH]; intros; cbn; [|rewrite Hy]; auto. Qed.

Lemma position_bounds {A} (p : A -> bool) (l : list A) i :
  position p l = Some i -> 0 <= i < zlen l.
Proof.
  unfold position. assert (Hgen : forall k, position_from p k l = Some i -> k <= i < k + zlen l).
  { induction l as [|x l IH]; intros k; cbn; [done|]. rewrite zlen_cons.
    pose proof (zlen_nonneg l). destruct (p x); [intros [= <-]; lia|].
    intros Hp%IH. lia. }
  intros Hp%Hgen. lia.
Qed.

(** A parsed descriptor: its offset is where it was read, its fields are 64-bit. *)
Lemma descriptor_parse_returns `{SafeReadLaws} buf off :
  returns (fun d => offset d = off /\ 0 <= next d <= u64_max /\ 0 <= section_size d <= u64_max)
    (SectionDescriptor_parse buf off).
Proof.
  unfold SectionDescriptor_parse, SECTION_DESCRIPTOR_SIZE. destruct (_ <? _) eqn:E; [done|]. bool_hyps.
  unfold index_range. rewrite slice_some by lia. cbn [or_panic mbind outcome_bind].
  set (field := ztake _ _).
  assert (0 <= default 16 (position (fun b => bool_decide (b = Byte.x00)) field) <= 16) as Hpos.
  { destruct (position _ _) as [i|] eqn:Ep; cbn; [|lia]. apply position_bounds in Ep.
    unfold field in Ep. rewrite zlen_ztake in Ep. lia. }
  rewrite slice_some by lia. cbn. pose proof (le_u64_range buf 16). pose proof (le_u64_range buf 24).
  done.
Qed.

(** ** File header *)

(** Which container a signature names. *)
Definition kind_of_signature (sig : list byte) : option EwfKind :=
  if bool_decide (sig = EVF_SIGNATURE) then Some Physical
  else if bool_decide (sig = LVF_SIGNATURE) then Some Logical
  else None.

(** [EwfFileHeader::parse] accepts exactly the buffers of at least 13 bytes
    that start with one of the two EWF v1 signatures; it reports the container
    the signature names, never another, reads the segment number little-endian
    at offset 9, and on a bad signature returns the eight bytes it found. *)
Lemma file_header_parse_spec buf :
  EwfFileHeader_parse buf =
  if zlen buf <? 13 then Err (BufferTooShort 13 (zlen buf))
  else match kind_of_signature (ztake 8 buf) with
       | None => Err (InvalidSignature (ztake 8 buf))
       | Some k =>
         Ok {| segment_number := le_combine (ztake 2 (zdrop 9 buf)); kind := k |}
       end.
Proof.
  unfold EwfFileHeader_parse, FILE_HEADER_SIZE. destruct (_ <? _) eqn:E; [done|]. bool_hyps.
  unfold index_range, index. rewrite slice_some by lia. cbn [or_panic mbind outcome_bind].
  change (8 - 0) with 8. rewrite zdrop_0. unfold kind_of_signature.
  destruct (get_some buf 9) as [b9 H9]; [lia|]. destruct (get_some buf 10) as [b10 H10]; [lia|].
  rewrite H9, H10. replace (ztake 2 (zdrop 9 buf)) with [b9; b10].
  - case_bool_decide; [done|]. by case_bool_decide.
  - apply get_spec in H9 as [_ H9], H10 as [_ H10]. unfold ztake, zdrop.
    change (Z.to_nat 2) with 2%nat. change (Z.to_nat 9) with 9%nat.
    rewrite (drop_S buf b9 9) by done. cbn [take].
    by rewrite (drop_S buf b10 10) by done.
Qed.

Lemma file_header_parse_bytes k n rest :
  0 <= n <= u16_max ->
  EwfFileHeader_parse (file_header_bytes k n ++ rest) = Ok {| segment_number := n; kind := k |}.
Proof.
  intros Hn. rewrite file_header_parse_spec.
  assert (Hl : zlen (file_header_bytes k n ++ rest) = 13 + zlen rest).
  { unfold file_header_bytes. autorewrite with ewf. by destruct k. }
  rewrite Hl, (proj2 (Z.ltb_ge _ _)) by (pose proof (zlen_nonneg rest); lia).
  unfold file_header_bytes. rewrite <-!app_assoc.
  rewrite (ztake_app_len 8) by by destruct k.
  replace (kind_of_signature _) with (Some k) by by destruct k.
  do 2 f_equal. rewrite (app_assoc _ [byte_of_Z 1]), (zdrop_app_len 9) by by destruct k.
  rewrite (ztake_app_len 2) by by rewrite zlen_le_bytes.
  apply le_combine_le_bytes_small. cbn. lia.
Qed.

(** ** Section descriptors *)
Lemma file_header_parse_returns buf :
  returns (fun _ => True) (EwfFileHeader_parse buf).
Proof.
  unfold EwfFileHeader_parse, FILE_HEADER_SIZE. destruct (_ <? _) eqn:E; [done|]. bool_hyps.
  unfold index_range, index. rewrite slice_some by lia. cbn [or_panic mbind outcome_bind].
  destruct (get_some buf 9) as [b9 ->]; [lia|]. destruct (get_some buf 10) as [b10 ->]; [lia|].
  case_bool_decide; [done|]. by case_bool_decide.
Qed.

Section DescriptorLemmas.
Context `{SafeReadLaws}.

(** A type field: at most 16 bytes, none of them NUL. *)
Definition valid_type_bytes (name : list byte) : Prop :=
  zlen name <= 16 /\ Forall (fun b => b <> Byte.x00) name.

Lemma zlen_descriptor_prefix name nxt size :
  zlen name <= 16 -> zlen (descriptor_prefix name nxt size) = 72.
Proof. intros. unfold descriptor_prefix. autorewrite with ewf. lia. Qed.

Lemma zlen_descriptor_bytes name nxt size crc :
  zlen name <= 16 -> zlen (descriptor_bytes name nxt size crc) = 76.
Proof.
  intros. unfold descriptor_bytes. rewrite zlen_app, zlen_descriptor_prefix by done.
  by rewrite zlen_le_bytes.
Qed.

Lemma type_end_padded name k :
  Forall (fun b => b <> Byte.x00) name ->
  zlen name + Z.of_nat k = 16 ->
  default 16 (position (fun b => bool_decide (b = Byte.x00)) (name ++ replicate k Byte.x00))
  = zlen name.
Proof.
  intros Hn Hk. unfold position.
  assert (Forall (fun b => bool_decide (b = Byte.x00) = false) name) as Hn'.
  { eapply Forall_impl; [done|]. intros b. apply bool_decide_false. }
  destruct k as [|k]; cbn [replicate].
  - rewrite app_nil_r, position_from_none by done. cbn. lia.
  - by rewrite position_from_app.
Qed.

(** Parsing reads back every field of a descriptor that was written. *)
Lemma descriptor_parse_bytes name nxt size crc rest off :
  valid_type_bytes name -> 0 <= nxt <= u64_max -> 0 <= size <= u64_max ->
  0 <= crc <= u32_max ->
  SectionDescriptor_parse (descriptor_bytes name nxt size crc ++ rest) off =
  Ok {| section_type := from_utf8_lossy name; next := nxt; section_size := size;
        offset := off; stored_crc := crc |}.
Proof.
  intros [Hl Hn] Hx Hs Hc. set (buf := _ ++ rest).
  assert (Hb : buf = name ++ zeros (16 - zlen name) ++ le_bytes 8 nxt ++ le_bytes 8 size
                     ++ zeros 40 ++ le_bytes 4 crc ++ rest).
  { unfold buf, descriptor_bytes, descriptor_prefix. by rewrite <-!app_assoc. }
  assert (Hz : zlen buf = 76 + zlen rest).
  { unfold buf. rewrite zlen_app, zlen_descriptor_bytes by done. done. }
  pose proof (zlen_nonneg rest). pose proof (zlen_nonneg name).
  unfold SectionDescriptor_parse, SECTION_DESCRIPTOR_SIZE.
  rewrite (proj2 (Z.ltb_ge _ _)) by lia. unfold index_range.
  rewrite (slice_at [] (name ++ zeros (16 - zlen name)) (le_bytes 8 nxt ++ le_bytes 8 size
    ++ zeros 40 ++ le_bytes 4 crc ++ rest)).
  2: { by rewrite Hb, <-!app_assoc. } 2: done. 2: { autorewrite with ewf. lia. }
  cbn [or_panic mbind outcome_bind]. unfold zeros at 1.
  rewrite type_end_padded by (done || lia). rewrite Hb.
  rewrite (slice_at [] name (zeros (16 - zlen name) ++ le_bytes 8 nxt ++ le_bytes 8 size
    ++ zeros 40 ++ le_bytes 4 crc ++ rest)) by done.
  cbn [or_panic mbind outcome_bind]. do 2 f_equal.
  - eapply (le_u64_field _ (name ++ zeros (16 - zlen name))); [by rewrite <-!app_assoc| |done].
    autorewrite with ewf. lia.
  - eapply (le_u64_field _ (name ++ zeros (16 - zlen name) ++ le_bytes 8 nxt));
      [by rewrite <-!app_assoc| |done]. autorewrite with ewf. lia.
  - eapply (le_u32_field _ (name ++ zeros (16 - zlen name) ++ le_bytes 8 nxt
      ++ le_bytes 8 size ++ zeros 40)); [by rewrite <-!app_assoc| |done].
    autorewrite with ewf. unfold SECTION_DESCRIPTOR_CRC_OFFSET. lia.
Qed.

(** Round trip of a section descriptor.  A descriptor written with a type of
    at most 16 non-NUL bytes, a next offset, a size and any stored checksum is
    parsed back field by field, and [verify_crc] accepts the written bytes
    exactly when the stored checksum is the Adler-32 of the first 72 bytes. *)
Theorem descriptor_roundtrip `{Adler} name nxt size crc off :
  valid_type_bytes name -> 0 <= nxt <= u64_max -> 0 <= size <= u64_max ->
  0 <= crc <= u32_max ->
  exists d,
    SectionDescriptor_parse (descriptor_bytes name nxt size crc) off = Ok d /\
    section_type d = from_utf8_lossy name /\ next d = nxt /\ section_size d = size /\
    offset d = off /\ stored_crc d = crc /\
    (SectionDescriptor_verify_crc d (descriptor_bytes name nxt size crc) = true <->
     crc = adler32 (descriptor_prefix name nxt size)).
Proof.
  intros Hn Hx Hs Hc. eexists. split.
  - rewrite <-(app_nil_r (descriptor_bytes _ _ _ _)). by apply descriptor_parse_bytes.
  - do 5 (split; [done|]). unfold SectionDescriptor_verify_crc. cbn.
    rewrite (slice_at [] (descriptor_prefix name nxt size) (le_bytes 4 crc)).
    2-3: done. 2: { rewrite zlen_descriptor_prefix; [done|apply Hn]. }
    rewrite Z.eqb_eq. split; congruence.
Qed.
End DescriptorLemmas.

(** ** Volume geometry *)

Lemma volume_parse_ranges `{SafeReadLaws} buf v :
  EwfVolume_parse buf = Ok v ->
  0 <= chunk_count v <= u32_max /\ 0 <= sectors_per_chunk v <= u32_max /\
  0 <= bytes_per_sector v <= u32_max /\ 0 <= sector_count v <= u64_max /\
  0 <= media_type v < 256.
Proof.
  unfold EwfVolume_parse. destruct (_ <? _); [done|].
  destruct (index buf 0) as [b| |]; cbn; try done. intros [= <-]. cbn.
  pose proof (le_u32_range buf 4). pose proof (le_u32_range buf 8).
  pose proof (le_u32_range buf 12). pose proof (le_u64_range buf 16).
  pose proof (byteZ_range b). done.
Qed.

Lemma volume_parse_ok `{SafeRead} buf : 24 <= zlen buf -> exists v, EwfVolume_parse buf = Ok v.
Proof.
  intros. unfold EwfVolume_parse. rewrite (proj2 (Z.ltb_ge _ _)) by lia.
  destruct (get_some buf 0) as [b Hb]; [lia|]. unfold index. rewrite Hb. cbn. eauto.
Qed.

(** Image geometry of an untrusted volume body never overflows: the chunk
    size is the exact product in both build profiles, and the total size is the
    exact product of bytes per sector and sector count when that fits in 64 bits
    and [u64::MAX] otherwise. *)
Theorem volume_sizes_total `{SafeReadLaws} `{Profile} buf v :
  EwfVolume_parse buf = Ok v ->
  EwfVolume_chunk_size (E:=ewf_error) v = Ok (sectors_per_chunk v * bytes_per_sector v) /\
  0 <= EwfVolume_total_size v <= u64_max /\
  (bytes_per_sector v * sector_count v <= u64_max ->
   EwfVolume_total_size v = bytes_per_sector v * sector_count v) /\
  (u64_max < bytes_per_sector v * sector_count v -> EwfVolume_total_size v = u64_max).
Proof.
  intros (_ & Hs & Hb & Hc & _)%volume_parse_ranges.
  unfold EwfVolume_chunk_size, EwfVolume_total_size, sat_mul.
  split; [apply mul64_ok; nia|]. split; [nia|]. split; intros; lia.
Qed.

(** ** Table entries *)

(** Round trip of a table entry: bit 31 is the compressed flag and the low
    31 bits are the offset, so every flag and every offset below 2^31 written to
    four little-endian bytes is parsed back. *)
Theorem table_entry_roundtrip `{SafeReadLaws} e rest :
  0 <= chunk_offset e < 2147483648 ->
  TableEntry_parse (table_entry_bytes e ++ rest) = Ok e.
Proof.
  intros He. unfold TableEntry_parse. autorewrite with ewf.
  rewrite (proj2 (Z.ltb_ge _ _)).
  2: { unfold table_entry_bytes. autorewrite with ewf. pose proof (zlen_nonneg rest). lia. }
  rewrite (le_u32_field _ [] rest 0 (chunk_offset e + if compressed e then 2147483648 else 0))
    by (done || destruct (compressed e); lia).
  rewrite Z.shiftr_div_pow2 by lia. change 2147483647 with (Z.ones 31).
  rewrite Z.land_ones by lia. change (2 ^ 31) with 2147483648.
  destruct e as [c off]. cbn [compressed chunk_offset] in *.
  replace ((off + if c then 2147483648 else 0) / 2147483648) with (if c then 1 else 0).
  2: { destruct c; [rewrite <-(Z.mul_1_l 2147483648) at 1; rewrite Z.div_add by lia|
         rewrite Z.add_0_r]; rewrite (Z.div_small off) by lia; lia. }
  replace ((off + if c then 2147483648 else 0) mod 2147483648) with off; [by destruct c|].
  destruct c; [rewrite <-(Z.mul_1_l 2147483648) at 1; rewrite Z.mod_add by lia|
    rewrite Z.add_0_r]; rewrite (Z.mod_small off) by lia; lia.
Qed.

Lemma table_entry_parse_ok `{SafeRead} buf : 4 <= zlen buf -> exists e, TableEntry_parse buf = Ok e.
Proof.
  intros. unfold TableEntry_parse. rewrite (proj2 (Z.ltb_ge _ _)) by lia. eauto.
Qed.

Lemma table_entry_range `{SafeRead} buf e :
  TableEntry_parse buf = Ok e -> 0 <= chunk_offset e < 2147483648.
Proof.
  unfold TableEntry_parse. destruct (_ <? _); [done|]. intros <-%Ok_inj. cbn [chunk_offset].
  pose proof (Z.land_ones (le_u32 buf 0) 31) as Hl. change (Z.ones 31) with 2147483647 in Hl.
  rewrite Hl by lia. by apply Z.mod_pos_bound.
Qed.

Lemma volume_parse_returns `{SafeReadLaws} `{Adler} buf :
  returns (fun v => 0 <= chunk_count v <= u32_max /\ 0 <= sectors_per_chunk v <= u32_max /\
    0 <= bytes_per_sector v <= u32_max /\ 0 <= sector_count v <= u64_max /\
    (EwfVolume_verify_crc v buf = Some false -> 1052 <= zlen buf)) (EwfVolume_parse buf).
Proof.
  destruct (decide (24 <= zlen buf)) as [Hl|Hl].
  - destruct (volume_parse_ok buf Hl) as [v Hv]. pose proof (volume_parse_ranges _ _ Hv) as Hr.
    rewrite Hv. cbn. repeat (split; [tauto|]). intros Hc.
    unfold EwfVolume_parse in Hv. rewrite (proj2 (Z.ltb_ge _ _)) in Hv by lia.
    destruct (index buf 0); [|done|done]. cbn in Hv. apply Ok_inj in Hv. subst v.
    unfold EwfVolume_verify_crc in Hc. cbn in Hc. unfold VOLUME_BODY_FULL_SIZE in Hc.
    destruct (1052 <=? zlen buf) eqn:E; bool_hyps; [done|]. done.
  - unfold EwfVolume_parse. by rewrite (proj2 (Z.ltb_lt _ _)) by lia.
Qed.

Lemma table_header_parse_returns `{SafeReadLaws} buf :
  returns (fun h => 16 <= zlen buf /\ 0 <= entry_count h <= u32_max /\ 0 <= base_offset h <= u64_max)
    (TableHeader_parse buf).
Proof.
  unfold TableHeader_parse, TABLE_HEADER_CRC_OFFSET. destruct (_ <? _) eqn:E; [done|]. bool_hyps. cbn.
  pose proof (le_u32_range buf 0). pose proof (le_u64_range buf 8). done.
Qed.

Lemma table_entry_parse_returns `{SafeReadLaws} buf :
  returns (fun e => 0 <= chunk_offset e <= u32_max) (TableEntry_parse buf).
Proof.
  destruct (TableEntry_parse buf) as [e| |] eqn:He; [|done|].
  - cbn. apply table_entry_range in He. lia.
  - unfold TableEntry_parse in He. by destruct (_ <? _).
Qed.

(** ** Packed chunks *)

Lemma land_not_compressed x : Z.land x (not64 COMPRESSED_BIT) = x mod 2 ^ 63.
Proof. change (not64 COMPRESSED_BIT) with (Z.ones 63). by rewrite Z.land_ones. Qed.

Lemma land_low_compressed x : Z.land (x mod 2 ^ 63) COMPRESSED_BIT = 0.
Proof.
  rewrite <-Z.land_ones by lia. rewrite <-Z.land_assoc.
  change (Z.land (Z.ones 63) COMPRESSED_BIT) with 0. apply Z.land_0_r.
Qed.

Lemma Chunk_compressed_new seg comp off size : Chunk_compressed (Chunk_new seg comp off size) = comp.
Proof.
  unfold Chunk_compressed, Chunk_new. cbn [offset_packed]. rewrite land_not_compressed.
  rewrite Z.land_lor_distr_l, land_low_compressed. by destruct comp.
Qed.

Lemma Chunk_offset_new seg comp off size : Chunk_offset (Chunk_new seg comp off size) = off mod 2 ^ 63.
Proof.
  unfold Chunk_offset, Chunk_new. cbn [offset_packed]. rewrite !land_not_compressed.
  rewrite <-!Z.land_ones, Z.land_lor_distr_l, <-Z.land_assoc, Z.land_diag by lia.
  destruct comp; [change (Z.land COMPRESSED_BIT (Z.ones 63)) with 0|rewrite Z.land_0_l];
    apply Z.lor_0_r.
Qed.

Lemma Chunk_set_size_new seg comp off size size' :
  Chunk_set_size (Chunk_new seg comp off size) size' = Chunk_new seg comp off size'.
Proof. done. Qed.

(** The 16-byte packed chunk record loses nothing: a chunk built from a
    63-bit offset, a 32-bit segment index and a 32-bit size answers each accessor
    with what it was built from, an offset with the top bit set is masked rather
    than read as the compressed flag, and setting the size changes the size only. *)
Theorem chunk_packing seg comp off size size' :
  0 <= off <= u64_max -> 0 <= seg <= u32_max ->
  0 <= size <= u32_max -> 0 <= size' <= u32_max ->
  let c := Chunk_new seg comp off size in
  Chunk_offset c = off mod 2 ^ 63 /\ Chunk_compressed c = comp /\
  Chunk_segment_idx c = seg /\ Chunk_size c = size /\
  Chunk_offset (Chunk_set_size c size') = Chunk_offset c /\
  Chunk_compressed (Chunk_set_size c size') = comp /\
  Chunk_segment_idx (Chunk_set_size c size') = seg /\
  Chunk_size (Chunk_set_size c size') = size'.
Proof.
  intros Ho Hs Hz Hz'. cbn zeta.
  rewrite Chunk_set_size_new, !Chunk_offset_new, !Chunk_compressed_new.
  unfold Chunk_segment_idx, Chunk_size, Chunk_new, wrap32. cbn [chunk_segment chunk_size32].
  by rewrite (Z.mod_small seg), (Z.mod_small size), (Z.mod_small size') by lia.
Qed.
