(* ===== verification/Ewf2.v ===== *)
(** EWF2 (Ex01/Lx01) format types and parsing: [core/src/ewf2.rs]. *)

From S2P Require Import Prelude Text Extern Types Sections.

Definition EVF2_SIGNATURE : list byte :=
  map byte_of_Z [69; 86; 70; 50; 13; 10; 129; 0].
Definition LEF2_SIGNATURE : list byte :=
  map byte_of_Z [76; 69; 70; 50; 13; 10; 129; 0].

Definition EWF2_FILE_HEADER_SIZE : Z := 32.
Definition EWF2_SECTION_DESCRIPTOR_SIZE : Z := 64.
Definition EWF2_TABLE_ENTRY_SIZE : Z := 16.

Inductive CompressionMethod := CmNone | CmZlib | CmBzip2.

Definition CompressionMethod_from_u16 (val : Z) : res CompressionMethod :=
  match val with
  | 0 => Ok CmNone
  | 1 => Ok CmZlib
  | 2 => Ok CmBzip2
  | _ => Err (Parse (UnknownCompressionMethod val))
  end.

Inductive Ewf2SectionType :=
| DeviceInfo | CaseData | SectorData | SectorTable | ErrorTable | SessionTable
| IncrementData | Md5Hash | Sha1Hash | RestartData | EncryptionKeys | MemoryExtents
| Next | FinalInfo | Done | AnalyticalData | SingleFilesData
| Unknown (v : Z).

Definition Ewf2SectionType_from_u32 (val : Z) : Ewf2SectionType :=
  match val with
  | 1 => DeviceInfo
  | 2 => CaseData
  | 3 => SectorData
  | 4 => SectorTable
  | 5 => ErrorTable
  | 6 => SessionTable
  | 7 => IncrementData
  | 8 => Md5Hash
  | 9 => Sha1Hash
  | 10 => RestartData
  | 11 => EncryptionKeys
  | 12 => MemoryExtents
  | 13 => Next
  | 14 => FinalInfo
  | 15 => Done
  | 16 => AnalyticalData
  | 32 => SingleFilesData
  | other => Unknown other
  end.

Definition Ewf2SectionType_name (t : Ewf2SectionType) : text :=
  match t with
  | DeviceInfo => str "device_info"
  | CaseData => str "case_data"
  | SectorData => str "sector_data"
  | SectorTable => str "sector_table"
  | ErrorTable => str "error_table"
  | SessionTable => str "session_table"
  | IncrementData => str "increment_data"
  | Md5Hash => str "md5_hash"
  | Sha1Hash => str "sha1_hash"
  | RestartData => str "restart_data"
  | EncryptionKeys => str "encryption_keys"
  | MemoryExtents => str "memory_extents"
  | Next => str "next"
  | FinalInfo => str "final_info"
  | Done => str "done"
  | AnalyticalData => str "analytical_data"
  | SingleFilesData => str "single_files_data"
  | Unknown _ => str "unknown"
  end.

(** ** File header *)
Record Ewf2FileHeader := {
  is_physical : bool;
  major_version : Z;
  minor_version : Z;
  compression_method : CompressionMethod;
  v2_segment_number : Z;
  v2_set_identifier : list byte;
}.

Definition DATA_FLAG_MD5HASHED : Z := 1.
Definition DATA_FLAG_ENCRYPTED : Z := 2.
Definition CHUNK_FLAG_COMPRESSED : Z := 1.
Definition CHUNK_FLAG_CHECKSUMED : Z := 2.
Definition CHUNK_FLAG_PATTERNFILL : Z := 4.

Section Readers.
Context `{SafeRead}.

Definition Ewf2FileHeader_parse (buf : list byte) : res Ewf2FileHeader :=
  if zlen buf <? EWF2_FILE_HEADER_SIZE
  then Err (BufferTooShort EWF2_FILE_HEADER_SIZE (zlen buf))
  else
    sig ← index_range buf 0 8;
    is_physical ← (if bool_decide (sig = EVF2_SIGNATURE) then Ok true
                   else if bool_decide (sig = LEF2_SIGNATURE) then Ok false
                   else Err (InvalidSignature sig));
    b8 ← index buf 8;
    b9 ← index buf 9;
    b10 ← index buf 10;
    b11 ← index buf 11;
    method ← CompressionMethod_from_u16 (le_combine [b10; b11]);
    let segment_number := le_u32 buf 12 in
    set_identifier ← index_range buf 16 32;
    Ok {| is_physical := is_physical;
          major_version := byteZ b8;
          minor_version := byteZ b9;
          compression_method := method;
          v2_segment_number := segment_number;
          v2_set_identifier := set_identifier |}.

(** ** Section descriptor *)
Record Ewf2SectionDescriptor := {
  v2_section_type : Ewf2SectionType;
  data_flags : Z;
  previous_offset : Z;
  data_size : Z;
  descriptor_size : Z;
  padding_size : Z;
  data_integrity_hash : list byte;
  v2_offset : Z;
}.

Definition Ewf2SectionDescriptor_parse (buf : list byte) (off : Z)
    : res Ewf2SectionDescriptor :=
  if zlen buf <? EWF2_SECTION_DESCRIPTOR_SIZE
  then Err (BufferTooShort EWF2_SECTION_DESCRIPTOR_SIZE (zlen buf))
  else
    hash ← index_range buf 32 48;
    Ok {| v2_section_type := Ewf2SectionType_from_u32 (le_u32 buf 0);
          data_flags := le_u32 buf 4;
          previous_offset := le_u64 buf 8;
          data_size := le_u64 buf 16;
          descriptor_size := le_u32 buf 24;
          padding_size := le_u32 buf 28;
          data_integrity_hash := hash;
          v2_offset := off |}.

Definition is_md5_hashed (d : Ewf2SectionDescriptor) : bool :=
  negb (Z.land (data_flags d) DATA_FLAG_MD5HASHED =? 0).
Definition is_encrypted (d : Ewf2SectionDescriptor) : bool :=
  negb (Z.land (data_flags d) DATA_FLAG_ENCRYPTED =? 0).

(** ** Table entry and table header *)
Record Ewf2TableEntry := {
  chunk_data_offset : Z;
  chunk_data_size : Z;
  v2_flags : Z;
}.

Definition Ewf2TableEntry_parse (buf : list byte) : res Ewf2TableEntry :=
  if zlen buf <? EWF2_TABLE_ENTRY_SIZE
  then Err (BufferTooShort EWF2_TABLE_ENTRY_SIZE (zlen buf))
  else Ok {| chunk_data_offset := le_u64 buf 0;
             chunk_data_size := le_u32 buf 8;
             v2_flags := le_u32 buf 12 |}.

Definition v2_is_compressed (e : Ewf2TableEntry) : bool :=
  negb (Z.land (v2_flags e) CHUNK_FLAG_COMPRESSED =? 0).
Definition v2_is_checksumed (e : Ewf2TableEntry) : bool :=
  negb (Z.land (v2_flags e) CHUNK_FLAG_CHECKSUMED =? 0).
Definition v2_is_pattern_fill (e : Ewf2TableEntry) : bool :=
  Z.land (v2_flags e) (Z.lor CHUNK_FLAG_COMPRESSED CHUNK_FLAG_PATTERNFILL)
  =? Z.lor CHUNK_FLAG_COMPRESSED CHUNK_FLAG_PATTERNFILL.

Record Ewf2TableHeader := {
  first_chunk : Z;
  v2_entry_count : Z;
}.

Definition Ewf2TableHeader_parse (buf : list byte) : res Ewf2TableHeader :=
  if zlen buf <? 32 then Err (BufferTooShort 32 (zlen buf))
  else Ok {| first_chunk := le_u64 buf 0; v2_entry_count := le_u32 buf 8 |}.
End Readers.

(** * Layouts the writers use *)

(** The type id a section type is stored as. *)
Definition section_type_id (t : Ewf2SectionType) : Z :=
  match t with
  | DeviceInfo => 1 | CaseData => 2 | SectorData => 3 | SectorTable => 4
  | ErrorTable => 5 | SessionTable => 6 | IncrementData => 7 | Md5Hash => 8
  | Sha1Hash => 9 | RestartData => 10 | EncryptionKeys => 11 | MemoryExtents => 12
  | Next => 13 | FinalInfo => 14 | Done => 15 | AnalyticalData => 16
  | SingleFilesData => 32
  | Unknown v => v
  end.

(** The 64 bytes of a descriptor. *)
Definition ewf2_descriptor_bytes (d : Ewf2SectionDescriptor) : list byte :=
  le_bytes 4 (section_type_id (v2_section_type d)) ++ le_bytes 4 (data_flags d)
  ++ le_bytes 8 (previous_offset d) ++ le_bytes 8 (data_size d)
  ++ le_bytes 4 (descriptor_size d) ++ le_bytes 4 (padding_size d)
  ++ data_integrity_hash d ++ zeros 16.

(** What a descriptor's fields can hold; an unknown type id is none of the known
    ones. *)
Definition ewf2_descriptor_wf (d : Ewf2SectionDescriptor) : Prop :=
  0 <= section_type_id (v2_section_type d) <= u32_max /\
  Ewf2SectionType_from_u32 (section_type_id (v2_section_type d)) = v2_section_type d /\
  0 <= data_flags d <= u32_max /\ 0 <= previous_offset d <= u64_max /\
  0 <= data_size d <= u64_max /\ 0 <= descriptor_size d <= u32_max /\
  0 <= padding_size d <= u32_max /\ zlen (data_integrity_hash d) = 16.

(** * Lemmas *)

(** The type id is recovered from the parsed section type. *)
Lemma section_type_id_from_u32 v : section_type_id (Ewf2SectionType_from_u32 v) = v.
Proof.
  destruct v as [|p|p]; try reflexivity. do 6 (try reflexivity; destruct p as [p|p|]); reflexivity.
Qed.

Section EntryLemmas.
Context `{SafeReadLaws}.

(** Round trip of an EWF2 section descriptor: every known section type has
    its own id, an unknown id is kept verbatim, and the 64 written bytes are
    parsed back to the same descriptor at the given offset. *)
Theorem ewf2_descriptor_roundtrip d rest :
  ewf2_descriptor_wf d ->
  Ewf2SectionDescriptor_parse (ewf2_descriptor_bytes d ++ rest) (v2_offset d) = Ok d.
Proof.
  intros (Ht & Hid & Hf & Hp & Hs & Hd & Hpad & Hh).
  destruct d as [ty fl prev size dsz pad hash off]; cbn in *.
  unfold Ewf2SectionDescriptor_parse, EWF2_SECTION_DESCRIPTOR_SIZE, ewf2_descriptor_bytes; cbn.
  set (buf := _ ++ rest).
  assert (Hb : buf = le_bytes 4 (section_type_id ty) ++ le_bytes 4 fl ++ le_bytes 8 prev
    ++ le_bytes 8 size ++ le_bytes 4 dsz ++ le_bytes 4 pad ++ hash ++ zeros 16 ++ rest).
  { unfold buf. by rewrite <-!app_assoc. }
  assert (Hl : zlen buf = 64 + zlen rest) by (rewrite Hb; autorewrite with ewf; lia).
  rewrite (proj2 (Z.ltb_ge _ _)) by (pose proof (zlen_nonneg rest); lia).
  clearbody buf. subst buf. unfold index_range.
  rewrite (slice_at (le_bytes 4 (section_type_id ty) ++ le_bytes 4 fl ++ le_bytes 8 prev
    ++ le_bytes 8 size ++ le_bytes 4 dsz ++ le_bytes 4 pad) hash (zeros 16 ++ rest));
    [|by rewrite <-!app_assoc|done|lia].
  cbn [or_panic mbind outcome_bind].
  rewrite (le_u32_field _ [] _ 0 (section_type_id ty)) by done. rewrite Hid.
  rewrite (le_u32_field _ (le_bytes 4 (section_type_id ty)) _ 4 fl) by done.
  rewrite (le_u64_field _ (le_bytes 4 (section_type_id ty) ++ le_bytes 4 fl) _ 8 prev)
    by (by rewrite <-?app_assoc).
  rewrite (le_u64_field _ (le_bytes 4 (section_type_id ty) ++ le_bytes 4 fl
    ++ le_bytes 8 prev) _ 16 size) by (by rewrite <-?app_assoc).
  rewrite (le_u32_field _ (le_bytes 4 (section_type_id ty) ++ le_bytes 4 fl
    ++ le_bytes 8 prev ++ le_bytes 8 size) _ 24 dsz) by (by rewrite <-?app_assoc).
  by rewrite (le_u32_field _ (le_bytes 4 (section_type_id ty) ++ le_bytes 4 fl
    ++ le_bytes 8 prev ++ le_bytes 8 size ++ le_bytes 4 dsz) _ 28 pad)
    by (by rewrite <-?app_assoc).
Qed.
End EntryLemmas.
