(* ===== verification/Parse.v ===== *)
(** Metadata parsers of the reader crate: [core/src/parse.rs] and the EWF2
    metadata parsers of [core/src/reader.rs]. *)

From S2P Require Import Prelude Text Extern Types.

(** ** [parse_header_text] *)

(** The assignment of one named value; an unknown name is ignored. *)
Definition set_header_field (name val : text) (m : EwfMetadata) : EwfMetadata :=
  let v := Some val in
  let '(Build_EwfMetadata c n a e t av ov m' u) := m in
  if text_eqb name (str "c") then Build_EwfMetadata v n a e t av ov m' u
  else if text_eqb name (str "n") then Build_EwfMetadata c v a e t av ov m' u
  else if text_eqb name (str "a") then Build_EwfMetadata c n v e t av ov m' u
  else if text_eqb name (str "e") then Build_EwfMetadata c n a v t av ov m' u
  else if text_eqb name (str "t") then Build_EwfMetadata c n a e v av ov m' u
  else if text_eqb name (str "av") then Build_EwfMetadata c n a e t v ov m' u
  else if text_eqb name (str "ov") then Build_EwfMetadata c n a e t av v m' u
  else if text_eqb name (str "m") then Build_EwfMetadata c n a e t av ov v u
  else if text_eqb name (str "u") then Build_EwfMetadata c n a e t av ov m' v
  else m.

(** One iteration of the loop over the field names: a missing or empty value
    leaves the metadata alone. *)
Definition header_text_step (set : text -> text -> EwfMetadata -> EwfMetadata)
    (values : list text) (m : EwfMetadata) (p : Z * text) : EwfMetadata :=
  let val := default [] (get values p.1) in
  match val with [] => m | _ => set p.2 val m end.

Definition parse_header_text (t : text) (m : EwfMetadata) : EwfMetadata :=
  let lines := split newline (replace_crlf t) in
  match lines with
  | _ :: _ :: names :: values :: _ =>
    fold_left (header_text_step set_header_field (split tab values))
      (enumerate (split tab names)) m
  | _ => m
  end.

(** ** [parse_error2_data] *)
Section Error2.
Context `{SafeRead}.

(** The loop over [i]: it stops at the first entry that is not in the data. *)
Fixpoint error2_entries (n : nat) (i : Z) (data : list byte) : list AcquisitionError :=
  match n with
  | O => []
  | S n =>
    let off := 8 + i * 8 in
    if zlen data <? off + 8 then []
    else {| first_sector := le_u32 data off; sector_count_err := le_u32 data (off + 4) |}
         :: error2_entries n (i + 1) data
  end.

Definition parse_error2_data (data : list byte) : list AcquisitionError :=
  if zlen data <? 8 then []
  else
    let entry_count := le_u32 data 0 in
    if entry_count =? 0 then []
    else error2_entries (Z.to_nat entry_count) 0 data.
End Error2.

(** ** EWF2 [device_info] and [case_data] *)

(** The two tab-separated rows of a UTF-16LE key/value table: names, values. *)
Definition ewf2_table_rows (raw : list byte) : option (list text * list text) :=
  if zlen raw <? 2 then None
  else match lines (utf16_text_skipping raw) with
       | _ :: _ :: names :: values :: _ => Some (split tab names, split tab values)
       | _ => None
       end.

(** [bytes_per_sector], [sectors_per_chunk], [total_sectors]. *)
Definition device_info_step (values : list text) (g : Z * Z * Z) (p : Z * text)
    : Z * Z * Z :=
  let '(b, sc, ts) := g in
  match get values p.1 with
  | None => g
  | Some v =>
    if text_eqb p.2 (str "b") then (default b (parse_u64 v), sc, ts)
    else if text_eqb p.2 (str "sc") then (b, default sc (parse_u64 v), ts)
    else if text_eqb p.2 (str "ts") then (b, sc, default ts (parse_u64 v))
    else g
  end.

(** The updated [chunk_size] and [total_size]; the products are plain ones. *)
Definition parse_ewf2_device_info `{Profile} {E} (raw : list byte) (chunk_size total_size : Z)
    : outcome E (Z * Z) :=
  match ewf2_table_rows raw with
  | None => Ok (chunk_size, total_size)
  | Some (names, values) =>
    let '(b, sc, ts) :=
      fold_left (device_info_step values) (enumerate names) (512, 64, 0) in
    computed ← mul64 b sc;
    let chunk_size := if 0 <? computed then computed else chunk_size in
    if (0 <? ts) && (0 <? b)
    then (total ← mul64 b ts; Ok (chunk_size, total))
    else Ok (chunk_size, total_size)
  end.

Definition set_case_field (name val : text) (m : EwfMetadata) : EwfMetadata :=
  let v := Some val in
  let '(Build_EwfMetadata c n a e t av ov m' u) := m in
  if text_eqb name (str "cn") then Build_EwfMetadata v n a e t av ov m' u
  else if text_eqb name (str "en") then Build_EwfMetadata c v a e t av ov m' u
  else if text_eqb name (str "ex") then Build_EwfMetadata c n a v t av ov m' u
  else if text_eqb name (str "de") then Build_EwfMetadata c n v e t av ov m' u
  else if text_eqb name (str "nt") then Build_EwfMetadata c n a e v av ov m' u
  else if text_eqb name (str "av") then Build_EwfMetadata c n a e t v ov m' u
  else if text_eqb name (str "ov") then Build_EwfMetadata c n a e t av v m' u
  else if text_eqb name (str "ad") then Build_EwfMetadata c n a e t av ov v u
  else if text_eqb name (str "sd") then Build_EwfMetadata c n a e t av ov m' v
  else m.

Definition parse_ewf2_case_data (raw : list byte) (m : EwfMetadata) : EwfMetadata :=
  match ewf2_table_rows raw with
  | None => m
  | Some (names, values) =>
    fold_left (header_text_step set_case_field values) (enumerate names) m
  end.

(** * Layouts the writers use *)

Definition crlf : text := [13; 10].

Definition header_names : list text :=
  [str "c"; str "n"; str "a"; str "e"; str "t"; str "av"; str "ov"; str "m"; str "u"].

Definition header_values (m : EwfMetadata) : list text :=
  map (default []) [case_number m; evidence_number m; description m; examiner m; notes m;
                    acquiry_software m; os_version m; acquiry_date m; system_date m].

(** The four CRLF-terminated lines of a [header] section. *)
Definition header_text (m : EwfMetadata) : text :=
  str "1" ++ crlf ++ str "main" ++ crlf ++ join tab header_names ++ crlf
  ++ join tab (header_values m) ++ crlf.

(** A value the tab-delimited form can carry. *)
Definition header_value_wf (o : option text) : Prop :=
  match o with
  | Some v => v <> [] /\ tab ∉ v /\ newline ∉ v /\ carriage_return ∉ v
  | None => True
  end.

Definition metadata_wf (m : EwfMetadata) : Prop :=
  Forall header_value_wf [case_number m; evidence_number m; description m; examiner m;
    notes m; acquiry_software m; os_version m; acquiry_date m; system_date m].

(** The body of an [error2] section. *)
Definition acquisition_error_bytes (e : AcquisitionError) : list byte :=
  le_bytes 4 (first_sector e) ++ le_bytes 4 (sector_count_err e).

Definition acquisition_error_wf (e : AcquisitionError) : Prop :=
  0 <= first_sector e <= u32_max /\ 0 <= sector_count_err e <= u32_max.

Definition error2_bytes (es : list AcquisitionError) : list byte :=
  le_bytes 4 (zlen es) ++ zeros 4 ++ concat (map acquisition_error_bytes es).

(** * Lemmas *)

(** ** Header text *)

Definition put_header_field (name : text) (o : option text) (m : EwfMetadata) : EwfMetadata :=
  match o with Some v => set_header_field name v m | None => m end.

Lemma header_text_step_put vals m i name o :
  header_value_wf o -> get vals i = Some (default [] o) ->
  header_text_step set_header_field vals m (i, name) = put_header_field name o m.
Proof.
  intros Ho Hg. unfold header_text_step. cbn [fst snd]. rewrite Hg.
  destruct o as [[|x v]|]; cbn in *; naive_solver.
Qed.

Lemma header_values_no_sep m c :
  (c = tab \/ c = newline \/ c = carriage_return) -> metadata_wf m ->
  Forall (fun p => c ∉ p) (header_values m).
Proof.
  intros Hc Hm. unfold header_values. apply Forall_map.
  eapply Forall_impl; [exact Hm|]. intros [v|] Hv; cbn in *; [naive_solver|].
  apply not_elem_of_nil.
Qed.

Lemma not_elem_of_join c s ps :
  c <> s -> Forall (fun p => c ∉ p) ps -> c ∉ join s ps.
Proof.
  intros Hc. induction 1 as [|p ps Hp Hps IH]; [apply not_elem_of_nil|].
  destruct ps as [|q ps]; [done|].
  change (join s (p :: q :: ps)) with (p ++ s :: join s (q :: ps)).
  rewrite not_elem_of_app, not_elem_of_cons. naive_solver.
Qed.

(** A character does not occur in a literal: decided by evaluation. *)
Ltac not_in_literal := refine (bool_decide_unpack _ _); vm_compute; exact I.

Lemma header_text_lines m :
  metadata_wf m ->
  split newline (replace_crlf (header_text m)) =
  [str "1"; str "main"; join tab header_names; join tab (header_values m); []].
Proof.
  intros Hm. unfold header_text, crlf.
  assert (Hcr : carriage_return ∉ join tab (header_values m)).
  { apply not_elem_of_join; [done|]. by apply header_values_no_sep; auto. }
  assert (Hnl : newline ∉ join tab (header_values m)).
  { apply not_elem_of_join; [done|]. by apply header_values_no_sep; auto. }
  cbn [app]. rewrite !replace_crlf_app by (done || not_in_literal). cbn [replace_crlf].
  by rewrite !split_app by (done || not_in_literal).
Qed.

(** Round trip of the acquisition metadata: writing the nine known fields as
    the four CRLF lines of a [header] section (an absent field as an empty
    column) and parsing that text into empty metadata gives the fields back. *)
Theorem header_text_roundtrip m :
  metadata_wf m -> parse_header_text (header_text m) metadata_default = m.
Proof.
  intros Hm. unfold parse_header_text. rewrite header_text_lines by done.
  rewrite (split_join tab header_names).
  2: done. 2: { repeat constructor; not_in_literal. }
  rewrite split_join by (discriminate || (apply header_values_no_sep; auto)).
  unfold metadata_wf in Hm. rewrite !Forall_cons in Hm.
  destruct Hm as (Hc & Hn & Ha & He & Ht & Hav & Hov & Hm & Hu & _).
  unfold enumerate, header_names. cbn [enumerate_from fold_left].
  erewrite (header_text_step_put _ _ _ _ (system_date m)) by done.
  erewrite (header_text_step_put _ _ _ _ (acquiry_date m)) by done.
  erewrite (header_text_step_put _ _ _ _ (os_version m)) by done.
  erewrite (header_text_step_put _ _ _ _ (acquiry_software m)) by done.
  erewrite (header_text_step_put _ _ _ _ (notes m)) by done.
  erewrite (header_text_step_put _ _ _ _ (examiner m)) by done.
  erewrite (header_text_step_put _ _ _ _ (description m)) by done.
  erewrite (header_text_step_put _ _ _ _ (evidence_number m)) by done.
  erewrite (header_text_step_put _ _ _ _ (case_number m)) by done.
  destruct m as [c n a e t av ov m u]; cbn. unfold metadata_default.
  by destruct c, n, a, e, t, av, ov, m, u.
Qed.

(** ** Acquisition errors *)
Section Error2Lemmas.
Context `{SafeReadLaws}.

Lemma length_error2_entries n i data :
  0 <= i -> 8 + i * 8 <= zlen data + 7 ->
  zlen (error2_entries n i data) = Z.min (Z.of_nat n) (Z.max 0 ((zlen data - 8) / 8 - i)).
Proof.
  revert i. induction n as [|n IH]; intros i Hi Hd; cbn [error2_entries]; [autorewrite with ewf; lia|].
  destruct (_ <? _) eqn:E; bool_hyps; autorewrite with ewf.
  - Z.to_euclidean_division_equations. lia.
  - rewrite IH by lia. Z.to_euclidean_division_equations. lia.
Qed.

Lemma error2_entries_concat es pre rest :
  Forall acquisition_error_wf es ->
  zlen pre = 8 * (zlen pre / 8) -> 8 <= zlen pre ->
  error2_entries (length es) (zlen pre / 8 - 1)
    (pre ++ concat (map acquisition_error_bytes es) ++ rest) = es.
Proof.
  intros Hes. revert pre. induction Hes as [|e es [Hf Hc] _ IH]; intros pre Hp Hp8; [done|].
  cbn [length error2_entries map concat].
  assert (He : zlen (acquisition_error_bytes e) = 8).
  { unfold acquisition_error_bytes. by autorewrite with ewf. }
  rewrite (proj2 (Z.ltb_ge _ _)).
  2: { autorewrite with ewf. rewrite He. pose proof (zlen_nonneg rest).
       pose proof (zlen_nonneg (concat (map acquisition_error_bytes es))). lia. }
  f_equal.
  - destruct e as [f c]; cbn in *. unfold acquisition_error_bytes at 1 3; cbn. f_equal.
    + eapply (le_u32_field _ pre); [by rewrite <-!app_assoc|lia|done].
    + eapply (le_u32_field _ (pre ++ le_bytes 4 f)); [by rewrite <-!app_assoc| |done].
      autorewrite with ewf. lia.
  - replace (zlen pre / 8 - 1 + 1) with (zlen (pre ++ acquisition_error_bytes e) / 8 - 1).
    2: { rewrite zlen_app, He. Z.to_euclidean_division_equations. lia. }
    replace (pre ++ (acquisition_error_bytes e ++ concat (map acquisition_error_bytes es)) ++ rest)
      with ((pre ++ acquisition_error_bytes e) ++ concat (map acquisition_error_bytes es) ++ rest)
      by by rewrite <-!app_assoc.
    apply IH; rewrite zlen_app, He; Z.to_euclidean_division_equations; lia.
Qed.

(** The [error2] parser returns at most as many entries as are declared and
    as the data can hold, whatever the declared count is, and it reads back
    every entry of a body that was written with its true count, ignoring what
    follows the entries. *)
Theorem error2_parse_spec :
  (forall data, 8 <= zlen data ->
     zlen (parse_error2_data data) = Z.min (le_u32 data 0) ((zlen data - 8) / 8)) /\
  (forall es rest, Forall acquisition_error_wf es -> zlen es <= u32_max ->
     parse_error2_data (error2_bytes es ++ rest) = es).
Proof.
  split.
  - intros data Hd. unfold parse_error2_data. rewrite (proj2 (Z.ltb_ge _ _)) by lia.
    pose proof (le_u32_range data 0).
    destruct (_ =? _) eqn:E; bool_hyps.
    + rewrite E, zlen_nil. Z.to_euclidean_division_equations. lia.
    + rewrite length_error2_entries by lia. Z.to_euclidean_division_equations. lia.
  - intros es rest Hes Hmax. unfold parse_error2_data, error2_bytes.
    assert (Hc : le_u32 ((le_bytes 4 (zlen es) ++ zeros 4
                  ++ concat (map acquisition_error_bytes es)) ++ rest) 0 = zlen es).
    { eapply (le_u32_field _ []); [by rewrite <-!app_assoc|done|].
      pose proof (zlen_nonneg es). lia. }
    rewrite Hc, (proj2 (Z.ltb_ge _ _)).
    2: { autorewrite with ewf. pose proof (zlen_nonneg rest).
         pose proof (zlen_nonneg (concat (map acquisition_error_bytes es))). lia. }
    destruct (_ =? _) eqn:E; bool_hyps.
    + by destruct es.
    + unfold zlen at 1. rewrite Nat2Z.id.
      pose proof (error2_entries_concat es (le_bytes 4 (zlen es) ++ zeros 4) rest Hes) as Hx.
      autorewrite with ewf in Hx. rewrite <-!app_assoc. rewrite <-!app_assoc in Hx. by apply Hx.
Qed.
End Error2Lemmas.
