(* ===== verification/Source.v ===== *)
(** Backing stores of one segment: [core/src/segment_source.rs], and the
    positioned read [pread] of [core/src/reader.rs].

    A buffer that a read fills is represented by the bytes read: the caller
    keeps the rest of its buffer.  A [File] has its content and, for each
    positioned read, the schedule of answers the operating system gives before
    it serves a request in full: a short read of at least one byte, an
    interruption or a failure. *)

From S2P Require Import Prelude Types.

Inductive os_answer :=
| ShortRead (n : positive)
| OsInterrupted
| OsFailed (e : io_error).

Record File := {
  file_bytes : list byte;
  (** answers to the calls made for the read of [n] bytes at [offset] *)
  file_schedule : Z -> Z -> list os_answer;
  (** [metadata().len()], when the call succeeds *)
  file_metadata_len : option Z;
}.

(** What the operating system delivers at [off] when asked for [n] bytes and
    willing to deliver at most [cap]. *)
Definition os_deliver (bytes : list byte) (off n cap : Z) : list byte :=
  ztake (Z.min n cap) (zdrop off bytes).

(** The [while total < buf.len()] loop; [got] holds the bytes read so far. *)
Fixpoint pread_loop (bytes : list byte) (answers : list os_answer) (n off : Z)
    (got : list byte) : outcome io_error (list byte) :=
  if n <=? zlen got then Ok got
  else
    match answers with
    | [] => Ok (got ++ os_deliver bytes (off + zlen got) (n - zlen got) (n - zlen got))
    | a :: answers =>
      match a with
      | OsInterrupted => pread_loop bytes answers n off got
      | OsFailed e => Err e
      | ShortRead k =>
        match os_deliver bytes (off + zlen got) (n - zlen got) (Zpos k) with
        | [] => Ok got
        | bs => pread_loop bytes answers n off (got ++ bs)
        end
      end
    end.

Definition pread (f : File) (n off : Z) : outcome io_error (list byte) :=
  pread_loop (file_bytes f) (file_schedule f off n) n off [].

(** The [SegmentBacking] trait object: [read_at] (buffer length, offset), [len]. *)
Record SegmentBacking := {
  backing_read_at : Z -> Z -> outcome io_error (list byte);
  backing_len : Z;
}.

Inductive SegmentSource :=
| SrcFile (f : File)
| SrcSub (f : File) (base len : Z)
| SrcMem (bytes : list byte)
| SrcBacking (b : SegmentBacking).

Definition SegmentSource_sub (f : File) (base len : Z) : SegmentSource := SrcSub f base len.
Definition SegmentSource_from_bytes (bytes : list byte) : SegmentSource := SrcMem bytes.
Definition SegmentSource_from_backing (b : SegmentBacking) : SegmentSource := SrcBacking b.

Definition SegmentSource_len (s : SegmentSource) : Z :=
  match s with
  | SrcFile f => default 0 (file_metadata_len f)
  | SrcSub _ _ len => len
  | SrcMem b => zlen b
  | SrcBacking b => backing_len b
  end.

Definition SegmentSource_is_empty (s : SegmentSource) : bool := SegmentSource_len s =? 0.

Section Reads.
Context `{Profile}.

(** [read_at] with a buffer of [n] bytes. *)
Definition SegmentSource_read_at (s : SegmentSource) (n off : Z)
    : outcome io_error (list byte) :=
  match s with
  | SrcFile f => pread f n off
  | SrcSub f base len =>
    let avail := sat_sub len off in
    if avail =? 0 then Ok []
    else
      let want := Z.min n avail in
      at_ ← add64 base off;
      pread f want at_
  | SrcMem bytes =>
    let off := Z.min off (zlen bytes) in
    let src := zdrop off bytes in
    let k := Z.min (zlen src) n in
    Ok (ztake k src)
  | SrcBacking b => backing_read_at b n off
  end.

(** ** [SegmentCursor] *)
Record SegmentCursor := { cursor_src : SegmentSource; cursor_pos : Z }.

Definition SegmentCursor_new (s : SegmentSource) : SegmentCursor :=
  {| cursor_src := s; cursor_pos := 0 |}.

Definition segment_len (c : SegmentCursor) : Z := SegmentSource_len (cursor_src c).

Definition SegmentCursor_read (c : SegmentCursor) (n : Z)
    : outcome io_error (list byte * SegmentCursor) :=
  bs ← SegmentSource_read_at (cursor_src c) n (cursor_pos c);
  pos ← add64 (cursor_pos c) (zlen bs);
  Ok (bs, {| cursor_src := cursor_src c; cursor_pos := pos |}).

Inductive SeekFrom := Start (p : Z) | End_ (p : Z) | Current (p : Z).

Definition SegmentCursor_seek (c : SegmentCursor) (p : SeekFrom)
    : outcome io_error (Z * SegmentCursor) :=
  new_pos ← match p with
            | Start p => Ok (as_i64 p)
            | End_ p => add_i64 (as_i64 (segment_len c)) p
            | Current p => add_i64 (as_i64 (cursor_pos c)) p
            end;
  if new_pos <? 0 then Err InvalidInput
  else Ok (new_pos, {| cursor_src := cursor_src c; cursor_pos := new_pos |}).

(** [std::io::Read::read_exact] over the cursor: read until the buffer is full
    or a read returns nothing.  [fuel] bounds the number of reads; each of them
    but the last makes progress. *)
Fixpoint read_exact_loop (fuel : nat) (c : SegmentCursor) (n : Z) (got : list byte)
    : outcome io_error (list byte * SegmentCursor) :=
  match fuel with
  | O => Err UnexpectedEof
  | S fuel =>
    if n <=? zlen got then Ok (got, c)
    else
      '(bs, c) ← SegmentCursor_read c (n - zlen got);
      match bs with
      | [] => Err UnexpectedEof
      | _ => read_exact_loop fuel c n (got ++ bs)
      end
  end.

Definition SegmentCursor_read_exact (c : SegmentCursor) (n : Z)
    : outcome io_error (list byte * SegmentCursor) :=
  read_exact_loop (S (Z.to_nat n)) c n [].

(** [file.seek(SeekFrom::Start(off))?; file.read_exact(&mut [0; n])?]: the way
    the open pass reads every structure. *)
Definition read_exact_at (s : SegmentSource) (off n : Z) : res (list byte) :=
  '(_, c) ← from_io (SegmentCursor_seek (SegmentCursor_new s) (Start off));
  '(bs, _) ← from_io (SegmentCursor_read_exact c n);
  Ok bs.
End Reads.

(** * The contract of a source

    [serves s bs]: the segment holds the bytes [bs], and a positioned read
    returns what is there, short only at the end. *)
Class serves `{Profile} (s : SegmentSource) (bs : list byte) : Prop := {
  serves_len : SegmentSource_len s = zlen bs;
  serves_fits : zlen bs <= i64_max;
  serves_read n off : 0 <= n -> 0 <= off <= u64_max ->
    SegmentSource_read_at s n off = Ok (ztake n (zdrop off bs));
}.

(** A file whose reads never fail outright. *)
Definition file_reliable (f : File) : Prop :=
  forall off n, Forall (fun a => match a with OsFailed _ => False | _ => True end)
                  (file_schedule f off n).

(** * Lemmas *)

Lemma ztake_zdrop_more {A} (l : list A) off n k got :
  0 <= off -> 0 <= n -> 0 < k ->
  got = ztake n (zdrop off l) -> zlen got = n ->
  got ++ ztake k (zdrop (off + n) l) = ztake (n + k) (zdrop off l).
Proof.
  intros Ho Hn Hk Hg Hl. subst got.
  unfold ztake, zdrop in *. rewrite <-(take_drop (Z.to_nat n) (drop (Z.to_nat off) l)) at 2.
  rewrite drop_drop. rewrite take_app_ge.
  - f_equal. rewrite length_take. unfold zlen in Hl. rewrite length_take in Hl.
    f_equal; [lia|]. f_equal. lia.
  - unfold zlen in Hl. lia.
Qed.

Lemma pread_loop_spec bytes answers n off got :
  Forall (fun a => match a with OsFailed _ => False | _ => True end) answers ->
  0 <= off -> zlen got <= n -> got = ztake (zlen got) (zdrop off bytes) ->
  pread_loop bytes answers n off got = Ok (ztake n (zdrop off bytes)).
Proof.
  intros Ha Ho. revert got. induction Ha as [|a answers Ha _ IH]; intros got Hn Hg;
    pose proof (zlen_nonneg got); cbn [pread_loop]; destruct (_ <=? _) eqn:E; bool_hyps.
  1, 3: replace n with (zlen got) by lia; by rewrite <-Hg.
  - unfold os_deliver. rewrite Z.min_id.
    erewrite ztake_zdrop_more by (done || lia). do 2 f_equal. lia.
  - destruct a as [k| |e]; [|by apply IH|done].
    unfold os_deliver. set (bs := ztake _ _).
    destruct bs as [|b bs'] eqn:Ebs.
    + assert (zlen (zdrop (off + zlen got) bytes) <= 0) as Hd.
      { assert (zlen bs = 0) as Hz by by rewrite Ebs.
        unfold bs in Hz. rewrite zlen_ztake in Hz. lia. }
      rewrite zlen_zdrop in Hd. f_equal. rewrite Hg.
      unfold ztake at 1. rewrite Hg, zlen_ztake, zlen_zdrop in *.
      unfold ztake, zdrop, zlen in *. rewrite !(take_ge _ _) by (rewrite length_drop; lia). done.
    + rewrite <-Ebs. assert (Hbs : 0 < zlen bs) by (rewrite Ebs, zlen_cons; pose proof (zlen_nonneg bs'); lia).
      assert (zlen bs <= Z.min (n - zlen got) (Z.pos k)) by (unfold bs; rewrite zlen_ztake; lia).
      apply IH; rewrite zlen_app; [lia|].
      erewrite <-(ztake_zdrop_more bytes off (zlen got) (zlen bs) got) by (done || lia).
      f_equal. unfold bs at 1. unfold ztake. rewrite <-(firstn_all (take _ _)) at 1.
      rewrite take_take. f_equal. unfold bs, ztake, zlen. rewrite !length_take. lia.
Qed.

Lemma pread_spec f n off :
  file_reliable f -> 0 <= off -> 0 <= n ->
  pread f n off = Ok (ztake n (zdrop off (file_bytes f))).
Proof. intros Hf Ho Hn. by apply pread_loop_spec. Qed.

Section Serves.
Context `{Profile}.

Lemma serves_mem bs : zlen bs <= i64_max -> serves (SrcMem bs) bs.
Proof.
  intros Hl. split; [done|done|]. intros n off Hn Ho. cbn [SegmentSource_read_at].
  f_equal. pose proof (zlen_nonneg bs). destruct (decide (off <= zlen bs)).
  - rewrite (Z.min_l off) by lia. rewrite zlen_zdrop.
    destruct (decide (n <= zlen bs - off)); [f_equal; lia|].
    rewrite !ztake_all by (rewrite zlen_zdrop; lia). done.
  - rewrite (Z.min_r off) by lia. rewrite !zdrop_ge by lia. by unfold ztake; rewrite !take_nil.
Qed.

Lemma serves_file f :
  file_reliable f -> file_metadata_len f = Some (zlen (file_bytes f)) ->
  zlen (file_bytes f) <= i64_max -> serves (SrcFile f) (file_bytes f).
Proof.
  intros Hf Hm Hl. split; [by cbn; rewrite Hm|done|].
  intros n off Hn Ho. cbn. apply pread_spec; [done|lia|done].
Qed.

Lemma serves_sub f pre bs post :
  file_reliable f -> file_bytes f = pre ++ bs ++ post ->
  zlen (file_bytes f) <= i64_max ->
  serves (SrcSub f (zlen pre) (zlen bs)) bs.
Proof.
  intros Hf Hb Hl. rewrite Hb, !zlen_app in Hl.
  pose proof (zlen_nonneg pre). pose proof (zlen_nonneg bs). pose proof (zlen_nonneg post).
  split; [done|lia|]. intros n off Hn Ho. cbn [SegmentSource_read_at]. unfold sat_sub.
  destruct (_ =? 0) eqn:E; bool_hyps.
  - rewrite zdrop_ge by lia. by unfold ztake; rewrite take_nil.
  - rewrite add64_ok by lia. cbn [mbind outcome_bind].
    rewrite pread_spec by (done || lia). f_equal. rewrite Hb.
    rewrite <-zdrop_zdrop by lia. rewrite zdrop_app_len by done.
    unfold ztake, zdrop, zlen in *. rewrite drop_app_le by lia.
    rewrite take_app_le by (rewrite length_drop; lia).
    destruct (decide (n <= Z.of_nat (length bs) - off)).
    + by rewrite Z.min_l by lia.
    + rewrite !take_ge by (rewrite length_drop; lia). done.
Qed.

(** Every inline backing of a segment is the same byte source.  Let [bs] be
    the bytes of a segment and let a larger file hold them between [pre] and
    [post], every positioned read of either file being served through any finite
    schedule of short reads and interruptions.  Then the loose file, the sub-range
    and the in-memory buffer answer every positioned read identically: with the
    bytes of the window at that offset, short only at its end, and never with a
    byte of [pre] or [post]. *)
Theorem segment_sources_agree f g pre bs post n off :
  file_reliable f -> file_bytes f = bs ->
  file_reliable g -> file_bytes g = pre ++ bs ++ post ->
  zlen (file_bytes g) <= i64_max -> 0 <= n -> 0 <= off <= u64_max ->
  SegmentSource_read_at (SrcFile f) n off = Ok (ztake n (zdrop off bs)) /\
  SegmentSource_read_at (SrcSub g (zlen pre) (zlen bs)) n off = Ok (ztake n (zdrop off bs)) /\
  SegmentSource_read_at (SrcMem bs) n off = Ok (ztake n (zdrop off bs)).
Proof.
  intros Hf Hb Hg Hgb Hl Hn Ho.
  assert (zlen bs <= i64_max) as Hbl.
  { rewrite Hgb, !zlen_app in Hl. pose proof (zlen_nonneg pre). pose proof (zlen_nonneg post). lia. }
  split; [|split].
  - rewrite <-Hb. cbn. apply pread_spec; [done|lia|done].
  - by apply (serves_sub g pre bs post).
  - by apply serves_mem.
Qed.

(** [read_exact] over the cursor reads the slice or reports the end of file. *)
Lemma cursor_read_exact_serves s bs pos n `{Hs : !serves s bs} :
  0 <= pos <= i64_max -> 0 < n -> n <= i64_max ->
  SegmentCursor_read_exact {| cursor_src := s; cursor_pos := pos |} n =
  match slice bs pos (pos + n) with
  | Some out => Ok (out, {| cursor_src := s; cursor_pos := pos + n |})
  | None => Err UnexpectedEof
  end.
Proof.
  intros Hp Hn Hm. unfold SegmentCursor_read_exact.
  destruct (Z.to_nat n) as [|k] eqn:Ek; [lia|].
  pose proof (serves_fits (s:=s) (bs:=bs)) as Hfit. pose proof (zlen_nonneg bs).
  assert (Hread : forall p m, 0 <= p <= i64_max -> 0 <= m -> SegmentCursor_read
    {| cursor_src := s; cursor_pos := p |} m =
    Ok (ztake m (zdrop p bs), {| cursor_src := s; cursor_pos := p + zlen (ztake m (zdrop p bs)) |})).
  { intros p m Hp' Hm'. unfold SegmentCursor_read. cbn [cursor_src cursor_pos].
    rewrite (serves_read (s:=s) (bs:=bs)) by lia. cbn [mbind outcome_bind].
    by rewrite add64_ok by (rewrite zlen_ztake, zlen_zdrop; lia). }
  cbn [read_exact_loop]. rewrite zlen_nil, (proj2 (Z.leb_gt n 0)) by lia.
  rewrite Z.sub_0_r, Hread by lia. cbn [mbind outcome_bind].
  destruct (slice bs pos (pos + n)) as [out|] eqn:E.
  - pose proof (slice_zlen _ _ _ _ E) as Hlen. apply slice_spec in E as (? & ? & ->).
    replace (pos + n - pos) with n in * by lia.
    destruct (ztake n (zdrop pos bs)) as [|b t] eqn:Eb; [rewrite zlen_nil in Hlen; lia|].
    cbn [app]. rewrite Hlen, (proj2 (Z.leb_le n n)) by lia. done.
  - apply slice_none in E.
    destruct (ztake n (zdrop pos bs)) as [|b t] eqn:Eb; [done|].
    assert (Hlt : zlen (b :: t) = zlen bs - pos).
    { assert (Hpos : zlen (b :: t) > 0) by (rewrite zlen_cons; pose proof (zlen_nonneg t); lia).
      rewrite <-Eb, zlen_ztake, zlen_zdrop in Hpos |- *. lia. }
    cbn [app]. rewrite Hlt, (proj2 (Z.leb_gt n _)) by lia.
    rewrite Hread by lia. cbn [mbind outcome_bind]. rewrite zdrop_ge by lia.
    by unfold ztake; rewrite take_nil.
Qed.

Lemma read_exact_at_serves s bs off n `{Hs : !serves s bs} :
  0 <= off <= u64_max -> 0 <= n <= i64_max ->
  read_exact_at s off n =
  if i64_max <? off then Err (Io InvalidInput)
  else if n =? 0 then Ok []
  else ok_or (Io UnexpectedEof) (slice bs off (off + n)).
Proof.
  intros Ho Hn. unfold read_exact_at, SegmentCursor_seek, as_i64. cbn [cursor_src SegmentCursor_new].
  cbn [mbind outcome_bind].
  destruct (i64_max <? off) eqn:E; bool_hyps.
  - rewrite (proj2 (Z.leb_gt off i64_max)) by lia.
    by rewrite (proj2 (Z.ltb_lt (off - 18446744073709551616) 0)) by lia.
  - rewrite (proj2 (Z.leb_le off i64_max)), (proj2 (Z.ltb_ge off 0)) by lia.
    cbn [from_io mbind outcome_bind]. destruct (n =? 0) eqn:E0; bool_hyps.
    + subst n. done.
    + rewrite (cursor_read_exact_serves s bs off n (Hs:=Hs)) by lia.
      by destruct (slice bs off (off + n)).
Qed.
End Serves.

#[export] Hint Resolve serves_mem serves_file serves_sub : ewf.
