(* ===== verification/ChunkTable.v ===== *)
(** Chunk-table storage of the EWF v1 reader: [core/src/chunk_table.rs].

    The flat table parsed at open and the paged table that parses a section on
    its first use behind a bounded cache. *)

From S2P Require Import Prelude Types Extern Sections Source.

Definition DEFAULT_SECTION_CACHE : Z := 8.

(** [v.last_mut()] followed by an in-place update. *)
Definition update_last {A} (f : A -> A) (l : list A) : list A :=
  match rev l with
  | [] => []
  | x :: r => rev (f x :: r)
  end.

(** One entry of the index: what is needed to parse one table section again. *)
Record SectionMeta := {
  first_chunk_id : Z;
  meta_entry_count : Z;
  entries_file_offset : Z;
  meta_base_offset : Z;
  segment_idx : Z;
  sectors_data_end : option Z;
}.

Section Parse.
Context `{SafeRead}.

(** The back-fill of the previous chunk's size, then the push of the new chunk. *)
Definition push_chunk (seg_idx chunk_size : Z) (st : list Chunk * option Z)
    (comp : bool) (abs_offset : Z) : list Chunk * option Z :=
  let '(chunks, prev_offset) := st in
  let chunks :=
    match prev_offset with
    | Some po =>
      update_last (fun prev =>
        if Chunk_compressed prev then
          let sz := sat_sub abs_offset po in
          if 0 <? sz then Chunk_set_size prev sz else prev
        else prev) chunks
    | None => chunks
    end in
  (chunks ++ [Chunk_new seg_idx comp abs_offset chunk_size], Some abs_offset).

(** The loop over the entries; [n] iterations are left, [i] is the next index. *)
Fixpoint table_section_loop (n : nat) (i : Z) (entries : list byte)
    (base seg_idx chunk_size : Z) (st : list Chunk * option Z)
    : res (list Chunk * option Z) :=
  match n with
  | O => Ok st
  | S n =>
    bytes ← index_range entries (i * 4) ((i + 1) * 4);
    entry ← TableEntry_parse bytes;
    match checked_add (chunk_offset entry) base with
    | None => table_section_loop n (i + 1) entries base seg_idx chunk_size st
    | Some abs_offset =>
      table_section_loop n (i + 1) entries base seg_idx chunk_size
        (push_chunk seg_idx chunk_size st (compressed entry) abs_offset)
    end
  end.

(** The last-chunk back-fill. *)
Definition backfill_last (chunk_size : Z) (sectors_end : option Z) (chunks : list Chunk)
    : list Chunk :=
  match sectors_end with
  | None => chunks
  | Some end_ =>
    update_last (fun last =>
      if Chunk_compressed last && (Chunk_size last =? chunk_size) then
        let actual := sat_sub end_ (Chunk_offset last) in
        if (0 <? actual) && (actual <? chunk_size) then Chunk_set_size last actual else last
      else last) chunks
  end.

Definition parse_table_section (entries : list byte) (entry_count base seg_idx chunk_size : Z)
    (sectors_end : option Z) : res (list Chunk) :=
  let entry_count := Z.min entry_count (zlen entries / 4) in
  '(chunks, _) ← table_section_loop (Z.to_nat entry_count) 0 entries base seg_idx chunk_size
                   ([], None);
  Ok (backfill_last chunk_size sectors_end chunks).
End Parse.

(** ** The paged table *)
Record LazyChunkTable `{Lru Z (list Chunk)} := {
  lazy_index : list SectionMeta;
  lazy_len : Z;
  lazy_chunk_size : Z;
  lazy_cache : lru Z (list Chunk);
}.
Arguments LazyChunkTable {_}.

Inductive ChunkTable `{Lru Z (list Chunk)} :=
| Eager (v : list Chunk)
| Lazy (l : LazyChunkTable).
Arguments ChunkTable {_}.

(** [index.partition_point(p)] on a slice that [p] partitions: the number of
    leading elements that satisfy [p]. *)
Fixpoint partition_point {A} (p : A -> bool) (l : list A) : Z :=
  match l with
  | x :: l => if p x then 1 + partition_point p l else 0
  | [] => 0
  end.

Section Tables.
Context `{SafeRead} `{Profile} `{Lru Z (list Chunk)}.

Definition LazyChunkTable_new (index : list SectionMeta) (chunk_size cache_cap : Z)
    : res LazyChunkTable :=
  len ← match last index with
        | None => Ok 0
        | Some m => add64 (first_chunk_id m) (meta_entry_count m)
        end;
  Ok {| lazy_index := index; lazy_len := len; lazy_chunk_size := chunk_size;
        lazy_cache := lru_new (Z.max cache_cap 1) |}.

Definition section_for (t : LazyChunkTable) (chunk_id : Z) : res (option Z) :=
  let after := partition_point (fun m => first_chunk_id m <=? chunk_id) (lazy_index t) in
  if after =? 0 then Ok None
  else
    let pos := after - 1 in
    meta ← index (lazy_index t) pos;
    end_ ← add64 (first_chunk_id meta) (meta_entry_count meta);
    Ok (if chunk_id <? end_ then Some pos else None).

Definition cache_op {A} (f : lru Z (list Chunk) -> A * lru Z (list Chunk))
    : stateful LazyChunkTable ewf_error A :=
  with_state (fun t =>
    let '(a, c) := f (lazy_cache t) in
    (a, {| lazy_index := lazy_index t; lazy_len := lazy_len t;
           lazy_chunk_size := lazy_chunk_size t; lazy_cache := c |})).

(** The cache miss: read the entry bytes of one section and parse them. *)
Definition load_section (chunk_size : Z) (meta : SectionMeta) (segments : list SegmentSource)
    : res (list Chunk) :=
  src ← ok_or (Parse (SectionSegmentMissing (segment_idx meta)))
          (get segments (segment_idx meta));
  want ← ok_or (Parse (EntryBytesOverflow (entries_file_offset meta) (meta_entry_count meta)))
           (checked_mul (meta_entry_count meta) 4);
  let avail := sat_sub (SegmentSource_len src) (entries_file_offset meta) in
  if avail <? want
  then Err (Parse (EntryBytesExceedSegment (entries_file_offset meta) (meta_entry_count meta)
                     want avail (segment_idx meta)))
  else
    entries_buf ← from_io (SegmentSource_read_at src want (entries_file_offset meta));
    if zlen entries_buf <? want
    then Err (Parse (ShortEntryRead (entries_file_offset meta) (zlen entries_buf) want))
    else parse_table_section entries_buf (meta_entry_count meta) (meta_base_offset meta)
           (segment_idx meta) chunk_size (sectors_data_end meta).

Definition LazyChunkTable_get (chunk_id : Z) (segments : list SegmentSource)
    : stateful LazyChunkTable ewf_error Chunk := fun t =>
  (pos ← lift (section_for t chunk_id);
   pos ← lift (ok_or (Parse (ChunkIdOutOfRange chunk_id (lazy_len t))) pos);
   meta ← lift (index (lazy_index t) pos);
   local ← lift (sub64 chunk_id (first_chunk_id meta));
   hit ← cache_op (lru_get pos);
   match hit with
   | Some section => lift (index section local)
   | None =>
     section ← lift (load_section (lazy_chunk_size t) meta segments);
     chunk ← lift (index section local);
     _ ← cache_op (fun c => (tt, lru_put pos section c));
     mret chunk
   end) t.

Definition ChunkTable_len (t : ChunkTable) : Z :=
  match t with
  | Eager v => zlen v
  | Lazy l => lazy_len l
  end.

Definition ChunkTable_get (chunk_id : Z) (segments : list SegmentSource)
    : stateful ChunkTable ewf_error Chunk := fun t =>
  match t with
  | Eager v => (ok_or (Parse (ChunkIdOutOfRange chunk_id (zlen v))) (get v chunk_id), Eager v)
  | Lazy l => let '(r, l) := LazyChunkTable_get chunk_id segments l in (r, Lazy l)
  end.

(** ** The light pass of the lazy open *)
Record TableSectionRef := {
  ref_desc_offset : Z;
  ref_sectors_data_end : option Z;
}.

Definition read_header (self : TableSectionRef) (src : SegmentSource)
    (seg_idx first_id max_table_entries : Z) : res SectionMeta :=
  hdr_offset ← add64 (ref_desc_offset self) SECTION_DESCRIPTOR_SIZE;
  tbl_hdr ← from_io (SegmentSource_read_at src 24 hdr_offset);
  if zlen tbl_hdr <? 24 then Err (Parse (ShortTableHeader hdr_offset (zlen tbl_hdr)))
  else
    count_bytes ← index_range tbl_hdr 0 4;
    let entry_count := le_combine count_bytes in
    if max_table_entries <? entry_count
    then Err (Parse (TooManyTableEntries entry_count max_table_entries))
    else
      base_bytes ← index_range tbl_hdr 8 16;
      entries_offset ← add64 hdr_offset 24;
      Ok {| first_chunk_id := first_id;
            meta_entry_count := entry_count;
            entries_file_offset := entries_offset;
            meta_base_offset := le_combine base_bytes;
            segment_idx := seg_idx;
            sectors_data_end := ref_sectors_data_end self |}.
End Tables.

(** * Reference definition of a parsed section

    The entries that address a 64-bit offset, in order, each with a size: the
    distance to the next one for a compressed chunk that precedes it, the
    image chunk size otherwise; the last compressed chunk ends with the
    [sectors] section when that is closer than a whole chunk. *)

Fixpoint spec_chunks (seg_idx chunk_size : Z) (sectors_end : option Z)
    (es : list (bool * Z)) : list Chunk :=
  match es with
  | [] => []
  | (c, a) :: rest =>
    let size :=
      match rest with
      | (_, a') :: _ => if c && (a <? a') then a' - a else chunk_size
      | [] =>
        match sectors_end with
        | Some e =>
          let actual := e - a mod 2 ^ 63 in
          if c && (wrap32 chunk_size =? chunk_size) && (0 <? actual) && (actual <? chunk_size)
          then actual else chunk_size
        | None => chunk_size
        end
      end in
    Chunk_new seg_idx c a size :: spec_chunks seg_idx chunk_size sectors_end rest
  end.

(** Entry [k] of a table section, as a flag and an absolute offset; [None] when
    the offset does not exist. *)
Definition entry_address `{SafeRead} (entries : list byte) (base k : Z) : option (bool * Z) :=
  bytes ← slice entries (k * 4) ((k + 1) * 4);
  match TableEntry_parse bytes with
  | Ok e => a ← checked_add (chunk_offset e) base; Some (compressed e, a)
  | _ => None
  end.

Definition entry_addresses `{SafeRead} (entries : list byte) (base : Z) (n : nat)
    : list (bool * Z) :=
  omap (entry_address entries base) (seqZ 0 (Z.of_nat n)).

(** * Lemmas *)

Lemma update_last_app {A} (f : A -> A) l x : update_last f (l ++ [x]) = l ++ [f x].
Proof. unfold update_last. rewrite rev_app_distr. cbn. by rewrite rev_involutive. Qed.

Lemma update_last_nil {A} (f : A -> A) : update_last f [] = [].
Proof. done. Qed.

Section ParseLemmas.
Context `{SafeRead}.
Variables seg_idx chunk_size : Z.

(** The chunks after the loop, the last one being [(c, a)] before [es]. *)
Fixpoint filled (c : bool) (a : Z) (es : list (bool * Z)) : list Chunk :=
  match es with
  | [] => [Chunk_new seg_idx c a chunk_size]
  | (c', a') :: es =>
    Chunk_new seg_idx c a (if c && (a <? a') then a' - a else chunk_size) :: filled c' a' es
  end.

Lemma push_chunk_fill cs c a c' a' :
  push_chunk seg_idx chunk_size (cs ++ [Chunk_new seg_idx c a chunk_size], Some a) c' a' =
  (cs ++ [Chunk_new seg_idx c a (if c && (a <? a') then a' - a else chunk_size)]
     ++ [Chunk_new seg_idx c' a' chunk_size], Some a').
Proof.
  unfold push_chunk. rewrite update_last_app, Chunk_compressed_new, <-app_assoc.
  do 4 f_equal. unfold sat_sub.
  destruct c; cbn [andb]; [|done]. destruct (a <? a') eqn:E; bool_hyps.
  - rewrite Z.max_r, (proj2 (Z.ltb_lt _ _)) by lia. done.
  - rewrite Z.max_l by lia. done.
Qed.

Lemma fold_push_filled cs c a es :
  (fold_left (fun st e => push_chunk seg_idx chunk_size st e.1 e.2) es
    (cs ++ [Chunk_new seg_idx c a chunk_size], Some a)).1 = cs ++ filled c a es.
Proof.
  revert cs c a. induction es as [|[c' a'] es IH]; intros cs c a; [done|].
  cbn [fold_left fst snd filled]. rewrite push_chunk_fill, app_assoc, IH. by rewrite <-app_assoc.
Qed.

Lemma table_section_loop_fold entries base n i st :
  0 <= i -> (i + Z.of_nat n) * 4 <= zlen entries ->
  table_section_loop n i entries base seg_idx chunk_size st =
  Ok (fold_left (fun st e => push_chunk seg_idx chunk_size st e.1 e.2)
        (omap (entry_address entries base) (seqZ i (Z.of_nat n))) st).
Proof.
  revert i st. induction n as [|n IH]; intros i st Hi Hl; [done|].
  cbn [table_section_loop]. rewrite seqZ_cons by lia.
  replace (Z.pred (Z.of_nat (S n))) with (Z.of_nat n) by lia.
  unfold index_range. rewrite slice_some by lia. cbn [or_panic mbind outcome_bind].
  set (bytes := ztake _ _).
  destruct (table_entry_parse_ok bytes) as [e He].
  { unfold bytes. rewrite zlen_ztake, zlen_zdrop. lia. }
  rewrite He. cbn [mbind outcome_bind omap list_omap].
  unfold entry_address at 1. rewrite slice_some by lia. fold bytes. cbn [mbind option_bind].
  rewrite He. destruct (checked_add _ _) as [a|]; cbn [mbind option_bind fold_left fst snd];
    apply IH; lia.
Qed.

Lemma filled_snoc c a es : exists l x, filled c a es = l ++ [x].
Proof.
  revert c a. induction es as [|[c' a'] es IH]; intros c a; cbn [filled].
  - by eexists [], _.
  - destruct (IH c' a') as (l & x & ->). by eexists (_ :: l), x.
Qed.

Lemma backfill_filled e c a es :
  backfill_last chunk_size e (filled c a es) = spec_chunks seg_idx chunk_size e ((c, a) :: es).
Proof.
  revert c a. induction es as [|[c' a'] es IH]; intros c a.
  - cbn [filled spec_chunks]. destruct e as [e|]; [|done]. cbn [backfill_last].
    change [Chunk_new seg_idx c a chunk_size] with ([] ++ [Chunk_new seg_idx c a chunk_size]) at 1.
    rewrite update_last_app. cbn [app]. f_equal.
    rewrite Chunk_compressed_new, Chunk_offset_new. unfold Chunk_size. cbn [Chunk_new chunk_size32].
    unfold sat_sub. destruct c; cbn [andb]; [|done].
    destruct (wrap32 chunk_size =? chunk_size); cbn [andb]; [|done].
    destruct (0 <? e - a mod 2 ^ 63) eqn:E; bool_hyps; cbn [andb].
    + rewrite Z.max_r, (proj2 (Z.ltb_lt 0 _)) by lia. cbn [andb]. by destruct (_ <? _).
    + rewrite Z.max_l by lia. done.
  - change (spec_chunks seg_idx chunk_size e ((c, a) :: (c', a') :: es)) with
      (Chunk_new seg_idx c a (if c && (a <? a') then a' - a else chunk_size)
       :: spec_chunks seg_idx chunk_size e ((c', a') :: es)).
    rewrite <-IH. cbn [filled]. destruct e as [e|]; [|done]. cbn [backfill_last].
    destruct (filled_snoc c' a' es) as (l & x & ->). by rewrite app_comm_cons, !update_last_app.
Qed.
End ParseLemmas.

Lemma parse_table_section_eq `{SafeRead} entries count base seg_idx chunk_size sectors_end :
  0 <= count ->
  parse_table_section entries count base seg_idx chunk_size sectors_end =
  Ok (spec_chunks seg_idx chunk_size sectors_end
        (entry_addresses entries base (Z.to_nat (Z.min count (zlen entries / 4))))).
Proof.
  intros Hc. unfold parse_table_section, entry_addresses. set (n := Z.to_nat _).
  rewrite table_section_loop_fold.
  2: done. 2: { unfold n. pose proof (zlen_nonneg entries). Z.to_euclidean_division_equations. lia. }
  cbn [mbind outcome_bind].
  destruct (omap _ _) as [|[c a] es].
  - cbn. by destruct sectors_end.
  - cbn [fold_left fst snd]. unfold push_chunk at 2.
    pose proof (fold_push_filled seg_idx chunk_size [] c a es) as Hf. cbn [app] in Hf |- *.
    destruct (fold_left _ _ _) as [cs p]. cbn [fst] in Hf. subst cs.
    by rewrite backfill_filled.
Qed.

Definition chunk_wf (c : Chunk) : Prop := 0 <= chunk_size32 c <= u32_max.

Lemma chunk_new_wf seg c a size : chunk_wf (Chunk_new seg c a size).
Proof. unfold chunk_wf, Chunk_new, wrap32. cbn. pose proof (Z.mod_pos_bound size 4294967296). lia. Qed.

Lemma spec_chunks_wf seg_idx chunk_size e es : Forall chunk_wf (spec_chunks seg_idx chunk_size e es).
Proof.
  induction es as [|[c a] es IH]; cbn; constructor; [|done]. apply chunk_new_wf.
Qed.

(** C21: the incremental back-fill of chunk sizes implements the reference
    definition, for every entry buffer and every declared count.  The parser
    never reads past the buffer (an excessive count is cut to what the buffer
    holds), skips exactly the entries whose absolute offset does not fit in 64
    bits, and gives each remaining chunk the size the two rules prescribe; it
    never fails and never panics. *)
Theorem parse_table_section_spec `{SafeRead} entries count base seg_idx chunk_size sectors_end :
  0 <= count ->
  parse_table_section entries count base seg_idx chunk_size sectors_end =
  Ok (spec_chunks seg_idx chunk_size sectors_end
        (entry_addresses entries base (Z.to_nat (Z.min count (zlen entries / 4))))).
Proof. apply parse_table_section_eq. Qed.

(** ** The index *)

(** The sections number their chunks consecutively from [k]. *)
Fixpoint index_from (k : Z) (idx : list SectionMeta) : Prop :=
  match idx with
  | [] => True
  | m :: idx =>
    first_chunk_id m = k /\ 0 <= meta_entry_count m /\ k + meta_entry_count m <= u64_max /\
    index_from (k + meta_entry_count m) idx
  end.

Fixpoint index_end (k : Z) (idx : list SectionMeta) : Z :=
  match idx with
  | [] => k
  | m :: idx => index_end (k + meta_entry_count m) idx
  end.

Lemma index_end_ge k idx : index_from k idx -> k <= index_end k idx.
Proof.
  revert k. induction idx as [|m idx IH]; intros k; cbn; [lia|].
  intros (_ & ? & _ & ?%IH). lia.
Qed.

Lemma index_from_lookup k idx j m :
  index_from k idx -> idx !! j = Some m -> 0 <= meta_entry_count m /\ k <= first_chunk_id m.
Proof.
  revert k j. induction idx as [|m0 idx IH]; intros k [|j]; cbn; try done.
  - intros (Hk & ? & _) Hm. injection Hm as ->. lia.
  - intros (_ & ? & _ & Hi) Hm. destruct (IH _ _ Hi Hm). lia.
Qed.

Lemma partition_point_nonneg {A} (p : A -> bool) l : 0 <= partition_point p l.
Proof. induction l as [|x l IH]; cbn; [lia|]. destruct (p x); lia. Qed.

Lemma partition_point_index k idx id :
  index_from k idx -> k <= id -> idx <> [] ->
  let p := partition_point (fun m => first_chunk_id m <=? id) idx in
  exists m, get idx (p - 1) = Some m /\ 0 <= first_chunk_id m - k /\ first_chunk_id m <= id /\
            first_chunk_id m + meta_entry_count m <= u64_max /\
            (id < first_chunk_id m + meta_entry_count m \/
             first_chunk_id m + meta_entry_count m <= id /\ index_end k idx <= id).
Proof.
  revert k. induction idx as [|m idx IH]; intros k Hidx Hk Hne; [done|].
  destruct Hidx as (Hf & Hc & Hb & Hi). clear Hne.
  cbn zeta. cbn [partition_point]. rewrite (proj2 (Z.leb_le (first_chunk_id m) id)) by lia.
  destruct idx as [|m' idx].
  - exists m. cbn. split; [done|]. lia.
  - destruct (decide (k + meta_entry_count m <= id)) as [Hle|Hgt].
    + destruct (IH (k + meta_entry_count m) Hi Hle) as (m'' & Hg & H1 & H2 & H3 & H4); [done|].
      exists m''. split.
      * apply get_spec in Hg as [H0 Hg]. apply get_spec.
        set (p := partition_point _ _) in *. split; [lia|].
        replace (Z.to_nat (1 + p - 1)) with (S (Z.to_nat (p - 1))) by lia. done.
      * cbn [index_end] in *. lia.
    + exists m. cbn [partition_point]. destruct Hi as (Hf' & _).
      rewrite (proj2 (Z.leb_gt (first_chunk_id m') id)) by lia.
      split; [done|]. lia.
Qed.

Section LazyLemmas.
Context `{SafeRead} `{Profile} `{LruLaws Z (list Chunk)}.

(** The binary search of the paged table.  On an index whose sections number
    their chunks consecutively (sections without entries included), it finds a
    section exactly when the chunk id is below the table's length, and the
    section it finds holds that id. *)
Lemma section_for_found (t : LazyChunkTable) (id : Z) :
  index_from 0 (lazy_index t) -> 0 <= id ->
  match section_for t id with
  | Ok (Some pos) => exists m, get (lazy_index t) pos = Some m /\
      first_chunk_id m <= id < first_chunk_id m + meta_entry_count m
  | Ok None => index_end 0 (lazy_index t) <= id
  | _ => False
  end.
Proof.
  intros Hi Hid. unfold section_for. destruct (lazy_index t) as [|m0 idx] eqn:E; [done|].
  destruct (partition_point_index 0 (m0 :: idx) id) as (m & Hg & Hm1 & Hm2 & Hm3 & Hm4); try done.
  set (p := partition_point _ _) in *. pose proof (get_bounds _ _ _ Hg).
  rewrite (proj2 (Z.eqb_neq p 0)) by lia.
  unfold index. rewrite Hg. cbn [or_panic mbind outcome_bind].
  assert (0 <= meta_entry_count m) as Hcount.
  { apply get_spec in Hg as [_ Hg]. by apply (index_from_lookup 0 _ _ _ Hi Hg). }
  rewrite add64_ok by lia. cbn [mbind outcome_bind].
  destruct (id <? _) eqn:Eid; [apply Z.ltb_lt in Eid|apply Z.ltb_ge in Eid; lia].
  exists m. split; [done|]. lia.
Qed.

(** ** The paged table implements the flat one *)

(** What a well-formed section stores: its entry bytes are in its segment and
    parse to as many chunks as it declares. *)
Definition section_stored (contents : list (list byte)) (chunk_size : Z)
    (m : SectionMeta) (cs : list Chunk) : Prop :=
  0 <= entries_file_offset m /\ zlen cs = meta_entry_count m /\
  exists bs entries,
    get contents (segment_idx m) = Some bs /\
    slice bs (entries_file_offset m) (entries_file_offset m + meta_entry_count m * 4)
      = Some entries /\
    parse_table_section entries (meta_entry_count m) (meta_base_offset m) (segment_idx m)
      chunk_size (sectors_data_end m) = Ok cs.

Lemma load_section_stored segments contents chunk_size m cs :
  Forall2 serves segments contents -> section_stored contents chunk_size m cs ->
  load_section chunk_size m segments = Ok cs.
Proof.
  intros Hs (Ho & Hl & bs & entries & Hg & Hsl & Hp).
  apply get_spec in Hg as [Hseg Hg].
  destruct (Forall2_lookup_r _ _ _ _ _ Hs Hg) as (src & Hsrc & Hserves).
  unfold load_section. replace (get segments (segment_idx m)) with (Some src).
  2: { symmetry. by apply get_spec. }
  pose proof (zlen_nonneg cs). pose proof (slice_bounds _ _ _ _ Hsl) as Hb.
  pose proof (serves_fits (s:=src) (bs:=bs)) as Hfit.
  unfold checked_mul. rewrite (proj2 (Z.leb_le _ u64_max)) by lia.
  cbn [ok_or mbind outcome_bind]. rewrite (serves_len (s:=src) (bs:=bs)).
  unfold sat_sub. rewrite (proj2 (Z.ltb_ge _ _)) by lia.
  rewrite (serves_read (s:=src) (bs:=bs)) by lia. cbn [from_io mbind outcome_bind].
  pose proof (slice_zlen _ _ _ _ Hsl). apply slice_spec in Hsl as (_ & _ & He).
  replace (entries_file_offset m + meta_entry_count m * 4 - entries_file_offset m)
    with (meta_entry_count m * 4) in He by lia.
  rewrite <-He. rewrite (proj2 (Z.ltb_ge _ _)) by lia. exact Hp.
Qed.

(** The invariant of a paged table over the flat sections [css]: a cached
    section is the section. *)
Record lazy_implements (css : list (list Chunk)) (chunk_size : Z)
    (contents : list (list byte)) (t : LazyChunkTable) : Prop := {
  li_index : index_from 0 (lazy_index t);
  li_len : lazy_len t = index_end 0 (lazy_index t);
  li_chunk_size : lazy_chunk_size t = chunk_size;
  li_stored : Forall2 (section_stored contents chunk_size) (lazy_index t) css;
  li_cache pos sec : fst (lru_get pos (lazy_cache t)) = Some sec -> get css pos = Some sec;
}.

Lemma concat_sections k idx css contents chunk_size :
  index_from k idx -> Forall2 (section_stored contents chunk_size) idx css ->
  index_end k idx - k = zlen (concat css) /\
  (forall p m cs id, get idx p = Some m -> get css p = Some cs ->
     first_chunk_id m <= id < first_chunk_id m + meta_entry_count m ->
     get (concat css) (id - k) = get cs (id - first_chunk_id m)).
Proof.
  intros Hi Hf. revert k Hi. induction Hf as [|m0 cs0 idx css (_ & Hl & _) Hf IH].
  - intros k _. cbn. split; [rewrite zlen_nil; lia|]. intros p m cs id Hm.
    apply get_bounds in Hm. unfold zlen in Hm. cbn in Hm. lia.
  - intros k (Hf0 & Hc & Hb & Hi). destruct (IH _ Hi) as [Hend Hget]. cbn [index_end concat].
    split; [rewrite zlen_app; lia|]. intros p m cs id Hm Hcs Hid.
    apply get_spec in Hm as [Hp Hm], Hcs as [_ Hcs].
    destruct (Z.to_nat p) as [|p'] eqn:Ep; cbn in Hm, Hcs;
      [injection Hm as ->; injection Hcs as ->|].
    + rewrite Hf0. unfold get. rewrite zlen_app. pose proof (zlen_nonneg (concat css)).
      rewrite !(proj2 (Z.leb_le 0 _)) by lia. rewrite !(proj2 (Z.ltb_lt _ _)) by lia. cbn.
      apply lookup_app_l. unfold zlen in *. lia.
    + assert (Hm' : get idx (Z.of_nat p') = Some m) by (apply get_spec; split; [lia|by rewrite Nat2Z.id]).
      assert (Hcs' : get css (Z.of_nat p') = Some cs) by (apply get_spec; split; [lia|by rewrite Nat2Z.id]).
      rewrite <-(Hget _ _ _ id Hm' Hcs' Hid).
      assert (k + meta_entry_count m0 <= first_chunk_id m) as Hge.
      { by apply (index_from_lookup _ _ _ _ Hi Hm). }
      destruct (get (concat css) (id - (k + meta_entry_count m0))) as [c|] eqn:Ec.
      * apply get_spec in Ec as [Hpos Ec]. apply get_spec. split; [lia|].
        rewrite lookup_app_r by (unfold zlen in *; lia). rewrite <-Ec. f_equal.
        unfold zlen in *. lia.
      * apply get_none in Ec. apply get_none. rewrite zlen_app. lia.
Qed.

Lemma index_from_range k idx p m :
  index_from k idx -> get idx p = Some m ->
  k <= first_chunk_id m /\ 0 <= meta_entry_count m /\
  first_chunk_id m + meta_entry_count m <= u64_max.
Proof.
  intros Hi (Hp & Hm)%get_spec. revert k Hi Hm. generalize (Z.to_nat p) as j. clear p Hp.
  induction idx as [|m0 idx IH]; intros j k Hi Hm; [done|]. destruct Hi as (Hf & Hc & Hb & Hi).
  destruct j as [|j]; cbn in Hm; [injection Hm as ->; lia|]. specialize (IH _ _ Hi Hm). lia.
Qed.

Lemma index_last k idx m :
  index_from k idx -> last idx = Some m ->
  index_end k idx = first_chunk_id m + meta_entry_count m /\ k <= first_chunk_id m /\
  0 <= meta_entry_count m /\ index_end k idx <= u64_max.
Proof.
  revert k. induction idx as [|m0 idx IH]; intros k Hi Hl; [done|].
  destruct Hi as (Hf & Hc & Hb & Hi). destruct idx as [|m1 idx].
  - cbn in Hl. injection Hl as <-. cbn [index_end] in *. lia.
  - destruct (IH _ Hi Hl) as (He & Hk & Hm & Hmax). cbn [index_end] in *. lia.
Qed.

Lemma Forall2_get_l {A B} (P : A -> B -> Prop) l k p x :
  Forall2 P l k -> get l p = Some x -> exists y, get k p = Some y /\ P x y.
Proof.
  intros Hf (Hp & Hx)%get_spec. destruct (Forall2_lookup_l _ _ _ _ _ Hf Hx) as (y & Hy & HP).
  exists y. split; [|done]. by apply get_spec.
Qed.

Lemma lazy_new_implements index contents css chunk_size cap t :
  index_from 0 index -> Forall2 (section_stored contents chunk_size) index css ->
  LazyChunkTable_new index chunk_size cap = Ok t -> lazy_implements css chunk_size contents t.
Proof.
  intros Hi Hst. unfold LazyChunkTable_new. destruct (last index) as [m|] eqn:El.
  - destruct (index_last _ _ _ Hi El) as (He & ? & ? & ?). rewrite add64_ok by lia. cbn.
    intros <-%Ok_inj. constructor; try done. intros pos sec. unfold lazy_cache. by rewrite lru_get_new.
  - apply last_None in El as ->. intros <-%Ok_inj. constructor; try done. intros pos sec. unfold lazy_cache. by rewrite lru_get_new.
Qed.

(** One get on a paged table: the flat table's answer, and the invariant kept. *)
Lemma lazy_get_implements segments contents css chunk_size t id :
  Forall2 serves segments contents -> lazy_implements css chunk_size contents t -> 0 <= id ->
  let '(r, t') := LazyChunkTable_get id segments t in
  r = ok_or (Parse (ChunkIdOutOfRange id (zlen (concat css)))) (get (concat css) id) /\
  lazy_implements css chunk_size contents t'.
Proof.
  intros Hseg [Hi Hlen Hsize Hst Hcache] Hid.
  destruct (concat_sections _ _ _ _ _ Hi Hst) as [Hend Hget].
  pose proof (section_for_found t id Hi Hid) as Hfor.
  unfold LazyChunkTable_get. rewrite stateful_lift_run.
  destruct (section_for t id) as [[pos|]| |]; try done; rewrite stateful_lift_run; cbn [ok_or].
  - destruct Hfor as (m & Hm & Hrange). pose proof (get_bounds _ _ _ Hm) as Hpos.
    destruct (Forall2_get_l _ _ _ _ _ Hst Hm) as (cs & Hcs & Hsto).
    rewrite stateful_lift_run, (proj2 (index_ok _ _ _) Hm), stateful_lift_run.
    pose proof (index_from_range _ _ _ _ Hi Hm) as (Hfc & Hmc & Hmax).
    unfold sub64, plain.
    rewrite (proj2 (Z.leb_le 0 (id - _))), (proj2 (Z.leb_le (id - _) u64_max)) by lia.
    cbn [andb]. specialize (Hget _ _ _ _ Hm Hcs Hrange). rewrite Z.sub_0_r in Hget. rewrite Hget.
    destruct (get_some cs (id - first_chunk_id m)) as [c Hc]; [destruct Hsto as (_ & ? & _); lia|].
    rewrite stateful_bind_run. unfold cache_op, with_state.
    destruct (lru_get pos (lazy_cache t)) as [hit cache'] eqn:Ehit.
    assert (Hkept : forall p sec, fst (lru_get p cache') = Some sec -> get css p = Some sec).
    { intros p sec. replace cache' with (snd (lru_get pos (lazy_cache t))) by by rewrite Ehit.
      rewrite lru_get_get. apply Hcache. }
    destruct hit as [sec|].
    + assert (get css pos = Some sec) as Hsec by (apply Hcache; by rewrite Ehit).
      assert (sec = cs) as -> by congruence. unfold lift. rewrite (proj2 (index_ok _ _ _) Hc), Hc.
      split; [done|]. by constructor.
    + rewrite stateful_lift_run, Hsize, (load_section_stored _ _ _ _ _ Hseg Hsto).
      rewrite stateful_lift_run, (proj2 (index_ok _ _ _) Hc), Hc, stateful_bind_run. cbn.
      split; [done|]. constructor; try done. cbn.
      intros p sec Hp. apply lru_get_put in Hp as [[-> ->]|Hp]; [done|by apply Hkept].
  - rewrite (proj2 (get_none _ _)) by lia. cbn. split; [|done]. do 3 f_equal. lia.
Qed.

Definition gets (segments : list SegmentSource) :=
  fix go (ids : list Z) (t : ChunkTable) : list (res Chunk) :=
  match ids with
  | [] => []
  | id :: ids => let '(r, t') := ChunkTable_get id segments t in r :: go ids t'
  end.

(** C16: the paged chunk table is a refinement of the flat one.  For sections
    stored in the segments, every sequence of lookups gives the same answers on
    the lazily loaded table, whatever the cache capacity and whatever the cache
    evicts, as on the vector of all the chunks; out-of-range ids are refused with
    the same error. *)
Theorem lazy_refines_eager segments contents index css chunk_size cap ids t :
  Forall2 serves segments contents ->
  index_from 0 index -> Forall2 (section_stored contents chunk_size) index css ->
  LazyChunkTable_new index chunk_size cap = Ok t -> Forall (Z.le 0) ids ->
  gets segments ids (Lazy t) = gets segments ids (Eager (concat css)).
Proof.
  intros Hseg Hi Hst Hnew Hids.
  assert (lazy_implements css chunk_size contents t) as Ht by by eapply lazy_new_implements.
  clear Hnew. revert t Ht. induction Hids as [|id ids Hid Hids IH]; intros t Ht; [done|].
  cbn. pose proof (lazy_get_implements _ _ _ _ _ _ Hseg Ht Hid) as Hget.
  destruct (LazyChunkTable_get id segments t) as [r t']. destruct Hget as [-> Ht'].
  f_equal. by apply IH.
Qed.
End LazyLemmas.
