(* ===== verification/ReaderOpen.v ===== *)
(** Opening an image: the non-test part of [core/src/reader.rs] up to the
    constructed reader, with [media_size_for] of [core/src/logical.rs].

    Path discovery (globbing a directory) is not modelled: the opens start from
    explicit segment files or sources. *)

From Stdlib Require Import Sorted.
From stdpp Require Import gmap sorting.
From S2P Require Import Prelude Text Extern Types Sections Ewf2 Parse Source ChunkTable.

Definition MAX_SECTION_DATA_SIZE : Z := 1000000.
Definition MAX_DECOMPRESSED_SIZE : Z := 10 * MAX_SECTION_DATA_SIZE.
Definition MAX_TABLE_ENTRIES : Z := 4000000.
Definition MAX_CHUNK_SIZE : Z := 128 * 1024 * 1024.
Definition DEFAULT_V2_CHUNK_SIZE : Z := 32768.

(** ** Segment order *)

(** [sort_by_key] is a stable sort. *)
Fixpoint insert_by_key {A} (key : A -> Z) (x : A) (l : list A) : list A :=
  match l with
  | [] => [x]
  | y :: l => if key x <=? key y then x :: y :: l else y :: insert_by_key key x l
  end.

Definition sort_by_key {A} (key : A -> Z) (l : list A) : list A :=
  foldr (insert_by_key key) [] l.

(** The first loop: every number is its position, from [pos]. *)
Fixpoint check_sequence (pos : Z) (indexed : list (Z * Z)) : res unit :=
  match indexed with
  | [] => Ok tt
  | (_, seg_num) :: rest =>
    let expected := wrap32 (pos + 1) in
    if seg_num =? expected then check_sequence (pos + 1) rest
    else Err (SegmentGap expected seg_num)
  end.

(** The second loop: take each segment out of its slot. *)
Fixpoint take_slots {T} (indexed : list (Z * Z)) (slots : list (option T))
    (ordered : list T) : res (list T) :=
  match indexed with
  | [] => Ok ordered
  | (idx, _) :: rest =>
    slot ← index slots idx;
    match slot with
    | Some seg => take_slots rest (<[Z.to_nat idx := None]> slots) (ordered ++ [seg])
    | None => take_slots rest slots ordered
    end
  end.

Definition validate_and_reorder_segments {T} (segments : list T) (segment_numbers : list Z)
    : res (list T) :=
  let indexed := sort_by_key snd (enumerate segment_numbers) in
  _ ← check_sequence 0 indexed;
  take_slots indexed (map Some segments) [].

(** [media_size_for] of [core/src/logical.rs]. *)
Definition media_size_for (kind : EwfKind) (declared chunks chunk_size : Z) : Z :=
  let from_chunks := sat_mul chunks chunk_size in
  match kind with
  | Logical => from_chunks
  | Physical => if declared =? 0 then from_chunks else declared
  end.

(** ** The reader *)
Section Reader.
Context `{SafeRead} `{Zlib} `{Profile} `{Lru Z (list Chunk)} `{Lru Z (list byte)}.

Record EwfReader := {
  r_segments : list SegmentSource;
  r_chunks : ChunkTable;
  r_chunk_size : Z;
  r_total_size : Z;
  r_position : Z;
  r_cache : lru Z (list byte);
  r_stored_md5 : option (list byte);
  r_stored_sha1 : option (list byte);
  r_metadata : EwfMetadata;
  r_acquisition_errors : list AcquisitionError;
}.

(** The local variables of the two open functions. *)
Record open_state := {
  o_chunk_size : Z;
  o_total_size : Z;
  o_chunks : list Chunk;
  o_index : list SectionMeta;
  o_next_chunk_id : Z;
  o_md5 : option (list byte);
  o_sha1 : option (list byte);
  o_metadata : EwfMetadata;
  o_errors : list AcquisitionError;
}.

Definition open_start : open_state := {|
  o_chunk_size := 0; o_total_size := 0; o_chunks := []; o_index := [];
  o_next_chunk_id := 0; o_md5 := None; o_sha1 := None;
  o_metadata := metadata_default; o_errors := [] |}.

Definition set_geometry (cs ts : Z) (o : open_state) : open_state :=
  {| o_chunk_size := cs; o_total_size := ts; o_chunks := o_chunks o; o_index := o_index o;
     o_next_chunk_id := o_next_chunk_id o; o_md5 := o_md5 o; o_sha1 := o_sha1 o;
     o_metadata := o_metadata o; o_errors := o_errors o |}.
Definition set_chunks (cs : list Chunk) (o : open_state) : open_state :=
  {| o_chunk_size := o_chunk_size o; o_total_size := o_total_size o; o_chunks := cs;
     o_index := o_index o; o_next_chunk_id := o_next_chunk_id o; o_md5 := o_md5 o;
     o_sha1 := o_sha1 o; o_metadata := o_metadata o; o_errors := o_errors o |}.
Definition set_index (idx : list SectionMeta) (id : Z) (o : open_state) : open_state :=
  {| o_chunk_size := o_chunk_size o; o_total_size := o_total_size o; o_chunks := o_chunks o;
     o_index := idx; o_next_chunk_id := id; o_md5 := o_md5 o; o_sha1 := o_sha1 o;
     o_metadata := o_metadata o; o_errors := o_errors o |}.
Definition set_hashes (m s : option (list byte)) (o : open_state) : open_state :=
  {| o_chunk_size := o_chunk_size o; o_total_size := o_total_size o; o_chunks := o_chunks o;
     o_index := o_index o; o_next_chunk_id := o_next_chunk_id o; o_md5 := m; o_sha1 := s;
     o_metadata := o_metadata o; o_errors := o_errors o |}.
Definition set_metadata (m : EwfMetadata) (o : open_state) : open_state :=
  {| o_chunk_size := o_chunk_size o; o_total_size := o_total_size o; o_chunks := o_chunks o;
     o_index := o_index o; o_next_chunk_id := o_next_chunk_id o; o_md5 := o_md5 o;
     o_sha1 := o_sha1 o; o_metadata := m; o_errors := o_errors o |}.
Definition set_errors (es : list AcquisitionError) (o : open_state) : open_state :=
  {| o_chunk_size := o_chunk_size o; o_total_size := o_total_size o; o_chunks := o_chunks o;
     o_index := o_index o; o_next_chunk_id := o_next_chunk_id o; o_md5 := o_md5 o;
     o_sha1 := o_sha1 o; o_metadata := o_metadata o; o_errors := es |}.

(** ** EWF v1 *)

(** The descriptor walk of one segment.  Running out of fuel is a [Panic]. *)
Fixpoint walk_descriptors (fuel : nat) (source : SegmentSource) (file_len desc_offset : Z)
    (acc : list SectionDescriptor) : res (list SectionDescriptor) :=
  match fuel with
  | O => Panic
  | S fuel =>
    match checked_add desc_offset SECTION_DESCRIPTOR_SIZE with
    | None => Ok acc
    | Some chain_end =>
      if file_len <? chain_end then Ok acc
      else
        desc_buf ← read_exact_at source desc_offset SECTION_DESCRIPTOR_SIZE;
        desc ← SectionDescriptor_parse desc_buf desc_offset;
        let acc := acc ++ [desc] in
        if (next desc =? 0) || (next desc <=? desc_offset) then Ok acc
        else walk_descriptors fuel source file_len (next desc) acc
    end
  end.

Definition segment_descriptors (source : SegmentSource) : res (list SectionDescriptor) :=
  '(file_len, _) ← from_io (SegmentCursor_seek (SegmentCursor_new source) (End_ 0));
  walk_descriptors (S (Z.to_nat file_len)) source file_len FILE_HEADER_SIZE [].

(** What the handlers of one segment share. *)
Record segment_ctx := {
  sc_source : SegmentSource;
  sc_seg_idx : Z;
  sc_table_type : text;
  sc_sectors_end : option Z;
}.

Definition is_type (name : text) (d : SectionDescriptor) : bool := text_eqb (section_type d) name.

Definition make_segment_ctx (source : SegmentSource) (seg_idx : Z)
    (ds : list SectionDescriptor) : segment_ctx :=
  {| sc_source := source; sc_seg_idx := seg_idx;
     sc_table_type := if existsb (is_type (str "table")) ds then str "table" else str "table2";
     sc_sectors_end :=
       d ← List.find (is_type (str "sectors")) ds; Some (sat_add (offset d) (section_size d)) |}.

(** Where the data of a section starts. *)
Definition section_data (d : SectionDescriptor) : res Z :=
  add64 (offset d) SECTION_DESCRIPTOR_SIZE.

Definition open_volume (c : segment_ctx) (d : SectionDescriptor) (o : open_state)
    : res open_state :=
  at_ ← section_data d;
  vol_buf ← read_exact_at (sc_source c) at_ 94;
  vol ← EwfVolume_parse vol_buf;
  cs ← EwfVolume_chunk_size vol;
  if MAX_CHUNK_SIZE <? cs then Err (InvalidChunkSize (Z.min cs u32_max))
  else
    ts ← (if EwfVolume_total_size vol =? 0 then mul64 cs (chunk_count vol)
          else Ok (EwfVolume_total_size vol));
    Ok (set_geometry cs ts o).

Definition open_table_lazy (c : segment_ctx) (d : SectionDescriptor) (o : open_state)
    : res open_state :=
  let section_ref := {| ref_desc_offset := offset d;
                        ref_sectors_data_end := sc_sectors_end c |} in
  meta ← read_header section_ref (sc_source c) (sc_seg_idx c) (o_next_chunk_id o)
           MAX_TABLE_ENTRIES;
  next_id ← add64 (o_next_chunk_id o) (meta_entry_count meta);
  Ok (set_index (o_index o ++ [meta]) next_id o).

Definition open_table_eager (c : segment_ctx) (d : SectionDescriptor) (o : open_state)
    : res open_state :=
  at_ ← section_data d;
  tbl_hdr ← read_exact_at (sc_source c) at_ 24;
  let entry_count := le_u32 tbl_hdr 0 in
  if MAX_TABLE_ENTRIES <? entry_count
  then Err (Parse (TooManyTableEntries entry_count MAX_TABLE_ENTRIES))
  else
    let base_offset := le_u64 tbl_hdr 8 in
    entries_offset ← add64 at_ 24;
    len ← mul64 entry_count 4;
    entries_buf ← read_exact_at (sc_source c) entries_offset len;
    section ← parse_table_section entries_buf entry_count base_offset (sc_seg_idx c)
                (o_chunk_size o) (sc_sectors_end c);
    Ok (set_chunks (o_chunks o ++ section) o).

Definition open_hash (c : segment_ctx) (d : SectionDescriptor) (o : open_state)
    : res open_state :=
  at_ ← section_data d;
  hash_buf ← read_exact_at (sc_source c) at_ 16;
  Ok (set_hashes (match o_md5 o with None => Some hash_buf | m => m end) (o_sha1 o) o).

(** A digest field left zero is an absence. *)
Definition nonzero_digest (bs : list byte) : option (list byte) :=
  if bool_decide (bs = zeros (zlen bs)) then None else Some bs.

Definition open_digest (c : segment_ctx) (d : SectionDescriptor) (o : open_state)
    : res open_state :=
  at_ ← section_data d;
  digest_buf ← read_exact_at (sc_source c) at_ 36;
  md5 ← index_range digest_buf 0 16;
  sha1 ← index_range digest_buf 16 36;
  Ok (set_hashes (nonzero_digest md5) (nonzero_digest sha1) o).

Definition small_section (data_size : Z) : bool :=
  (0 <? data_size) && (data_size <? MAX_SECTION_DATA_SIZE).

Definition open_header (c : segment_ctx) (d : SectionDescriptor) (o : open_state)
    : res open_state :=
  at_ ← section_data d;
  let data_size := sat_sub (section_size d) SECTION_DESCRIPTOR_SIZE in
  if small_section data_size then
    compressed ← read_exact_at (sc_source c) at_ data_size;
    match zlib_read_to_end compressed (Some MAX_DECOMPRESSED_SIZE) with
    | Some decompressed =>
      Ok (set_metadata (parse_header_text (from_utf8_lossy decompressed) (o_metadata o)) o)
    | None => Ok o
    end
  else Ok o.

Definition open_error2 (c : segment_ctx) (d : SectionDescriptor) (o : open_state)
    : res open_state :=
  at_ ← section_data d;
  let data_size := sat_sub (section_size d) SECTION_DESCRIPTOR_SIZE in
  if small_section data_size then
    buf ← read_exact_at (sc_source c) at_ data_size;
    Ok (set_errors (parse_error2_data buf) o)
  else Ok o.

Definition is_none {A} (o : option A) : bool := match o with None => true | Some _ => false end.

(** The [match desc.section_type.as_str()]. *)
Definition open_section (lazy_ : bool) (c : segment_ctx) (d : SectionDescriptor)
    (o : open_state) : res open_state :=
  let ty n := text_eqb (section_type d) n in
  if ty (str "volume") || ty (str "disk") then open_volume c d o
  else if ty (sc_table_type c)
  then if lazy_ then open_table_lazy c d o else open_table_eager c d o
  else if ty (str "hash") then open_hash c d o
  else if ty (str "digest") then open_digest c d o
  else if ty (str "header") && is_none (case_number (o_metadata o))
          && is_none (os_version (o_metadata o)) then open_header c d o
  else if ty (str "error2") then open_error2 c d o
  else Ok o.

Fixpoint fold_res {A B} (f : A -> B -> res B) (l : list A) (b : B) : res B :=
  match l with
  | [] => Ok b
  | a :: l => b ← f a b; fold_res f l b
  end.

Definition open_segment (lazy_ : bool) (p : Z * SegmentSource) (o : open_state)
    : res open_state :=
  let '(seg_idx, source) := p in
  ds ← segment_descriptors source;
  fold_res (open_section lazy_ (make_segment_ctx source seg_idx ds)) ds o.

(** A buffer of [n] zero bytes that a read started to fill. *)
Definition zero_filled (n : Z) (bs : list byte) : list byte := bs ++ zeros (n - zlen bs).

Definition is_ewf2_signature (sig : list byte) : bool :=
  bool_decide (sig = EVF2_SIGNATURE) || bool_decide (sig = LEF2_SIGNATURE).

Definition read_file_header (src : SegmentSource) : res EwfFileHeader :=
  hdr ← from_io (SegmentSource_read_at src FILE_HEADER_SIZE 0);
  EwfFileHeader_parse (zero_filled FILE_HEADER_SIZE hdr).

Definition open_v1 (sources : list SegmentSource) (cache_size : Z)
    (lazy_section_cache : option Z) : res EwfReader :=
  match sources with
  | [] => Err (NoSegments (str "empty source list"))
  | first :: _ =>
    sig ← from_io (SegmentSource_read_at first 8 0);
    if is_ewf2_signature (zero_filled 8 sig) then Err (Parse Ewf2SourceUnsupported)
    else
      headers ← mapM read_file_header sources;
      ordered ← validate_and_reorder_segments sources (map segment_number headers);
      o ← fold_res (open_segment (negb (is_none lazy_section_cache))) (enumerate ordered)
            open_start;
      if o_chunk_size o =? 0 then Err MissingVolume
      else
        chunks ← match lazy_section_cache with
                 | Some section_cache =>
                   l ← LazyChunkTable_new (o_index o) (o_chunk_size o) section_cache;
                   Ok (Lazy l)
                 | None => Ok (Eager (o_chunks o))
                 end;
        let kind_ := match headers with h :: _ => kind h | [] => Physical end in
        Ok {| r_segments := ordered; r_chunks := chunks; r_chunk_size := o_chunk_size o;
              r_total_size := media_size_for kind_ (o_total_size o) (ChunkTable_len chunks)
                                (o_chunk_size o);
              r_position := 0; r_cache := lru_new (Z.max cache_size 1);
              r_stored_md5 := o_md5 o; r_stored_sha1 := o_sha1 o;
              r_metadata := o_metadata o; r_acquisition_errors := o_errors o |}
  end.

Definition open_from_sources (sources : list SegmentSource) : res EwfReader :=
  open_v1 sources DEFAULT_LRU_SIZE None.
Definition open_lazy_from_sources (sources : list SegmentSource) : res EwfReader :=
  open_v1 sources DEFAULT_LRU_SIZE (Some DEFAULT_SECTION_CACHE).

(** ** EWF2 *)

(** [file.seek(SeekFrom::Start(off))?; file.read_exact(&mut [0; n])?] on a [File]:
    the system refuses an offset above [i64::MAX]; [read_exact] retries short and
    interrupted reads, as the loop of [pread] does. *)
Definition file_read_exact_at (f : File) (off n : Z) : res (list byte) :=
  if i64_max <? off then Err (Io InvalidInput)
  else
    bs ← from_io (pread f n off);
    if zlen bs <? n then Err (Io UnexpectedEof) else Ok bs.

(** The backward walk.  [visited] is the hash set of offsets; [acc] holds the
    descriptors, most recent first.  Running out of fuel is a [Panic]. *)
Fixpoint collect_ewf2_loop (fuel : nat) (file : File) (file_len desc_offset : Z)
    (visited : gset Z) (acc : list Ewf2SectionDescriptor) : res (list Ewf2SectionDescriptor) :=
  match fuel with
  | O => Panic
  | S fuel =>
    if bool_decide (desc_offset ∈ visited) then Err (Parse Ewf2Cycle)
    else
      buf ← file_read_exact_at file desc_offset EWF2_SECTION_DESCRIPTOR_SIZE;
      desc ← Ewf2SectionDescriptor_parse buf desc_offset;
      let prev := previous_offset desc in
      if prev =? 0 then Ok (desc :: acc)
      else if file_len <=? prev then Err (Parse (Ewf2PreviousOffset prev file_len))
      else collect_ewf2_loop fuel file file_len prev ({[desc_offset]} ∪ visited) (desc :: acc)
  end.

Definition collect_ewf2_descriptors (file : File) (file_len : Z)
    : res (list Ewf2SectionDescriptor) :=
  if file_len <? EWF2_SECTION_DESCRIPTOR_SIZE then Ok []
  else
    collect_ewf2_loop (S (Z.to_nat file_len)) file file_len
      (file_len - EWF2_SECTION_DESCRIPTOR_SIZE) ∅ [].

Definition maybe_zlib_decompress (raw : list byte) : res (list byte) :=
  if (2 <=? zlen raw) && bool_decide (raw !! 0%nat = Some Byte.x78) then
    ok_or (Parse Ewf2ZlibFailed) (zlib_read_to_end raw (Some MAX_DECOMPRESSED_SIZE))
  else Ok raw.

(** [desc.offset.checked_sub(desc.data_size).ok_or_else(..)?] *)
Definition v2_data_offset (what : text) (d : Ewf2SectionDescriptor) : res Z :=
  ok_or (Parse (Ewf2OffsetUnderflow what (v2_offset d) (data_size d)))
    (checked_sub (v2_offset d) (data_size d)).

Definition read_v2_text (what : text) (file : File) (d : Ewf2SectionDescriptor)
    : res (list byte) :=
  data_offset ← v2_data_offset what d;
  buf ← file_read_exact_at file data_offset (data_size d);
  maybe_zlib_decompress buf.

Definition open_v2_case_data (file : File) (d : Ewf2SectionDescriptor) (o : open_state)
    : res open_state :=
  raw ← read_v2_text (str "case_data") file d;
  Ok (set_metadata (parse_ewf2_case_data raw (o_metadata o)) o).

Definition open_v2_device_info (file : File) (d : Ewf2SectionDescriptor) (o : open_state)
    : res open_state :=
  raw ← read_v2_text (str "device_info") file d;
  '(cs, ts) ← parse_ewf2_device_info raw (o_chunk_size o) (o_total_size o);
  Ok (set_geometry cs ts o).

(** The [for i in 0..entry_count] of a sector table. *)
Fixpoint v2_table_entries (n : nat) (i : Z) (entries_buf : list byte) (seg_idx : Z)
    (chunks : list Chunk) : res (list Chunk) :=
  match n with
  | O => Ok chunks
  | S n =>
    bytes ← index_range entries_buf (i * EWF2_TABLE_ENTRY_SIZE)
              (i * EWF2_TABLE_ENTRY_SIZE + EWF2_TABLE_ENTRY_SIZE);
    entry ← Ewf2TableEntry_parse bytes;
    v2_table_entries n (i + 1) entries_buf seg_idx
      (chunks ++ [Chunk_new seg_idx (v2_is_compressed entry) (chunk_data_offset entry)
                    (chunk_data_size entry)])
  end.

Definition open_v2_sector_table (file : File) (seg_idx : Z) (d : Ewf2SectionDescriptor)
    (o : open_state) : res open_state :=
  data_offset ← v2_data_offset (str "sector_table") d;
  tbl_hdr_buf ← file_read_exact_at file data_offset 32;
  tbl_hdr ← Ewf2TableHeader_parse tbl_hdr_buf;
  let entry_count := v2_entry_count tbl_hdr in
  if MAX_TABLE_ENTRIES <? entry_count
  then Err (Parse (TooManyTableEntries entry_count MAX_TABLE_ENTRIES))
  else
    entries_offset ← add64 data_offset 32;
    len ← mul64 entry_count EWF2_TABLE_ENTRY_SIZE;
    entries_buf ← file_read_exact_at file entries_offset len;
    chunks ← v2_table_entries (Z.to_nat entry_count) 0 entries_buf seg_idx (o_chunks o);
    Ok (set_chunks chunks o).

Definition open_v2_md5 (file : File) (d : Ewf2SectionDescriptor) (o : open_state)
    : res open_state :=
  data_offset ← v2_data_offset (str "md5_hash") d;
  hash ← file_read_exact_at file data_offset 16;
  Ok (set_hashes (Some hash) (o_sha1 o) o).

Definition open_v2_sha1 (file : File) (d : Ewf2SectionDescriptor) (o : open_state)
    : res open_state :=
  data_offset ← v2_data_offset (str "sha1_hash") d;
  hash ← file_read_exact_at file data_offset 20;
  Ok (set_hashes (o_md5 o) (Some hash) o).

Definition open_v2_section (file : File) (seg_idx : Z) (d : Ewf2SectionDescriptor)
    (o : open_state) : res open_state :=
  if is_encrypted d then Err EncryptedNotSupported
  else
    match v2_section_type d with
    | CaseData =>
      if small_section (data_size d) && is_none (case_number (o_metadata o))
      then open_v2_case_data file d o else Ok o
    | DeviceInfo =>
      if small_section (data_size d) && (o_chunk_size o =? 0)
      then open_v2_device_info file d o else Ok o
    | SectorTable => open_v2_sector_table file seg_idx d o
    | Md5Hash => if 16 <=? data_size d then open_v2_md5 file d o else Ok o
    | Sha1Hash => if 20 <=? data_size d then open_v2_sha1 file d o else Ok o
    | _ => Ok o
    end.

Definition open_v2_segment (p : Z * File) (o : open_state) : res open_state :=
  let '(seg_idx, file) := p in
  descriptors ← collect_ewf2_descriptors file (zlen (file_bytes file));
  fold_res (open_v2_section file seg_idx) descriptors o.

Definition open_v2_header (f : File) : res Ewf2FileHeader :=
  hdr_buf ← file_read_exact_at f 0 EWF2_FILE_HEADER_SIZE;
  Ewf2FileHeader_parse hdr_buf.

Variable path : Type.
(** [File::open] *)
Variable file_open : path -> outcome io_error File.

Definition open_segments_v2 (paths : list path) (cache_size : Z) : res EwfReader :=
  opened ← mapM (fun p => f ← from_io (file_open p); h ← open_v2_header f; Ok (h, f)) paths;
  ordered ← validate_and_reorder_segments (map snd opened)
              (map (fun hf => v2_segment_number hf.1) opened);
  o ← fold_res open_v2_segment (enumerate ordered) open_start;
  let chunk_size := if o_chunk_size o =? 0 then DEFAULT_V2_CHUNK_SIZE else o_chunk_size o in
  total_size ← (if o_total_size o =? 0 then mul64 (zlen (o_chunks o)) chunk_size
                else Ok (o_total_size o));
  Ok {| r_segments := map SrcFile ordered; r_chunks := Eager (o_chunks o);
        r_chunk_size := chunk_size; r_total_size := total_size; r_position := 0;
        r_cache := lru_new (Z.max cache_size 1);
        r_stored_md5 := o_md5 o; r_stored_sha1 := o_sha1 o;
        r_metadata := o_metadata o; r_acquisition_errors := [] |}.

(** [open_segments_with_cache_size] and [open_segments_lazy] share their body. *)
Definition open_paths (paths : list path) (cache_size : Z) (section_cache : option Z)
    : res EwfReader :=
  match paths with
  | [] => Err (NoSegments (str "empty path list"))
  | first :: _ =>
    probe ← from_io (file_open first);
    sig ← file_read_exact_at probe 0 8;
    if is_ewf2_signature sig then open_segments_v2 paths cache_size
    else
      sources ← mapM (fun p => f ← from_io (file_open p); Ok (SrcFile f)) paths;
      open_v1 sources cache_size section_cache
  end.

Definition open_segments_with_cache_size (paths : list path) (cache_size : Z)
    : res EwfReader := open_paths paths cache_size None.
Definition open_segments (paths : list path) : res EwfReader :=
  open_segments_with_cache_size paths DEFAULT_LRU_SIZE.
Definition open_segments_lazy (paths : list path) (cache_size section_cache : Z)
    : res EwfReader := open_paths paths cache_size (Some section_cache).
End Reader.

(** * Lemmas: the order of the segments *)

Section Order.
Context {A : Type} (key : A -> Z).

Lemma insert_by_key_perm x l : insert_by_key key x l ≡ₚ x :: l.
Proof.
  induction l as [|y l IH]; [done|]. cbn. destruct (_ <=? _); [done|].
  rewrite IH. constructor.
Qed.

Lemma sort_by_key_perm l : sort_by_key key l ≡ₚ l.
Proof. induction l as [|x l IH]; [done|]. cbn. by rewrite insert_by_key_perm, IH. Qed.

Lemma insert_by_key_sorted x l :
  StronglySorted Z.le (map key l) -> StronglySorted Z.le (map key (insert_by_key key x l)).
Proof.
  induction l as [|y l IH]; intros Hs; [by repeat constructor|].
  inversion_clear Hs as [|? ? Hl Hy]. cbn. destruct (_ <=? _) eqn:E; bool_hyps.
  - constructor; [by constructor|]. constructor; [done|].
    eapply List.Forall_impl; [|exact Hy]. cbn. lia.
  - constructor; [by apply IH|]. rewrite Forall_forall in *. intros k Hk.
    apply list_elem_of_In, in_map_iff in Hk as (z & <- & Hz).
    apply list_elem_of_In in Hz. rewrite insert_by_key_perm in Hz.
    apply elem_of_cons in Hz as [->|Hz]; [lia|]. apply Hy, list_elem_of_In, in_map.
    by apply list_elem_of_In.
Qed.

Lemma sort_by_key_sorted l : StronglySorted Z.le (map key (sort_by_key key l)).
Proof. induction l as [|x l IH]; [constructor|]. by apply insert_by_key_sorted. Qed.
End Order.

Lemma seqZ_sorted a n : StronglySorted Z.le (seqZ a n).
Proof.
  destruct (decide (0 <= n)) as [Hn|]; [|by rewrite seqZ_nil by lia; constructor].
  revert a. pattern n. apply natlike_ind; [constructor| |done].
  intros m Hm IH a. rewrite seqZ_cons by lia. rewrite Z.pred_succ. constructor; [apply IH|].
  apply Forall_forall. intros x. rewrite elem_of_seqZ. lia.
Qed.

Lemma check_sequence_spec pos l :
  0 <= pos -> pos + zlen l <= u32_max ->
  check_sequence pos l = Ok tt /\ l.*2 = seqZ (pos + 1) (zlen l) \/
  (exists e g, check_sequence pos l = Err (SegmentGap e g)) /\
  l.*2 <> seqZ (pos + 1) (zlen l).
Proof.
  revert pos. induction l as [|[i n] l IH]; intros pos Hp Hl; [by left|].
  rewrite zlen_cons in *. pose proof (zlen_nonneg l). cbn [check_sequence fmap list_fmap snd].
  unfold wrap32. rewrite Z.mod_small by lia. rewrite seqZ_cons by lia.
  replace (Z.pred _) with (zlen l) by lia. destruct (n =? pos + 1) eqn:E; bool_hyps.
  - destruct (IH (pos + 1) ltac:(lia) ltac:(lia)) as [[-> ->]|[He Hne]].
    + left. split; [done|]. by subst n.
    + right. split; [done|]. intros [=]. by apply Hne.
  - right. split; [eauto|]. intros [=]. lia.
Qed.

Lemma take_slots_spec {T} (indexed : list (Z * Z)) slots (ordered : list T) :
  NoDup (map fst indexed) ->
  Forall (fun p => exists seg, get slots p.1 = Some (Some seg)) indexed ->
  exists taken, take_slots indexed slots ordered = Ok (ordered ++ taken) /\
    Forall2 (fun p seg => get slots p.1 = Some (Some seg)) indexed taken.
Proof.
  revert slots ordered. induction indexed as [|[i n] indexed IH]; intros slots ordered Hnd Hall.
  { exists []. by rewrite app_nil_r. }
  cbn in Hnd. apply NoDup_cons in Hnd as [Hi Hnd].
  apply Forall_cons in Hall as [(seg & Hseg) Hall]. cbn [fst] in Hseg.
  cbn [take_slots]. rewrite (proj2 (index_ok _ _ _) Hseg). cbn [mbind outcome_bind].
  assert (Hsame : Forall (fun p => get (<[Z.to_nat i:=None]> slots) p.1 = get slots p.1) indexed).
  { rewrite Forall_forall. intros p Hp. unfold get, zlen. rewrite length_insert.
    destruct (_ && _) eqn:E; [|done]. bool_hyps. apply list_lookup_insert_ne.
    intros Heq. apply Hi. pose proof (get_bounds _ _ _ Hseg).
    replace i with p.1 by lia. apply list_elem_of_In, in_map. by apply list_elem_of_In. }
  destruct (IH (<[Z.to_nat i:=None]> slots) (ordered ++ [seg]) Hnd) as (taken & -> & Htaken).
  { apply Forall_forall. rewrite Forall_forall in Hall, Hsame. intros p Hp.
    rewrite Hsame by done. by apply Hall. }
  exists (seg :: taken). rewrite <-app_assoc. split; [done|]. constructor; [done|].
  eapply Forall2_impl; [exact Htaken|]. cbn. intros p s Hs. apply get_spec in Hs as [Hp Hs].
  apply get_spec. split; [done|]. by apply list_lookup_insert_Some in Hs as [(_ & [=] & _)|[_ ?]].
Qed.

Lemma enumerate_from_zip {A} k (l : list A) : enumerate_from k l = zip (seqZ k (zlen l)) l.
Proof.
  revert k. induction l as [|x l IH]; intros k; [done|].
  rewrite zlen_cons, seqZ_cons by (pose proof (zlen_nonneg l); lia). cbn.
  rewrite IH. do 3 f_equal. lia.
Qed.

Lemma length_seqZ_zlen {A} k (l : list A) : length (seqZ k (zlen l)) = length l.
Proof. rewrite length_seqZ. unfold zlen. lia. Qed.

(** A list keyed by distinct keys is determined by its pairs. *)
Lemma zip_key_inj {A} (ks : list Z) (a b : list A) :
  NoDup ks -> length a = length ks -> length b = length ks ->
  zip ks a ≡ₚ zip ks b -> a = b.
Proof.
  intros Hnd Ha Hb Hp. apply list_eq_same_length with (length ks); [done|done|].
  intros i x y Hi Hx Hy. destruct (lookup_lt_is_Some_2 ks i Hi) as [k Hk].
  assert ((k, x) ∈ zip ks b) as (j & Hj)%list_elem_of_lookup.
  { rewrite <-Hp. apply list_elem_of_lookup. exists i. apply lookup_zip_with_Some. eauto. }
  apply lookup_zip_with_Some in Hj as (k' & y' & [= -> ->] & Hk' & Hy').
  replace j with i in * by (eapply NoDup_lookup; eassumption). congruence.
Qed.

Section Reorder.
Context {T : Type} (segs : list T) (nums : list Z).
Hypothesis Hlen : length segs = length nums.
Hypothesis Hmax : zlen nums <= u32_max.

Let indexed := sort_by_key snd (enumerate nums).

Lemma indexed_perm : indexed ≡ₚ zip (seqZ 0 (zlen nums)) nums.
Proof. unfold indexed, enumerate. by rewrite sort_by_key_perm, enumerate_from_zip. Qed.

Lemma indexed_snd : indexed.*2 ≡ₚ nums.
Proof.
  rewrite indexed_perm. rewrite (snd_zip (seqZ 0 (zlen nums)) nums); [done|].
  by rewrite length_seqZ_zlen.
Qed.

Lemma indexed_fst : indexed.*1 ≡ₚ seqZ 0 (zlen nums).
Proof.
  rewrite indexed_perm. rewrite (fst_zip (seqZ 0 (zlen nums)) nums); [done|].
  by rewrite length_seqZ_zlen.
Qed.

Lemma indexed_zlen : zlen indexed = zlen nums.
Proof.
  unfold zlen. rewrite <-indexed_snd. by rewrite length_fmap.
Qed.

(** The second loop, for any numbering. *)
Lemma indexed_taken : exists ordered,
  take_slots indexed (map Some segs) [] = Ok ordered /\
  Forall2 (fun p seg => get segs p.1 = Some seg) indexed ordered.
Proof.
  destruct (take_slots_spec indexed (map Some segs) []) as (taken & Ht & Hf).
  - rewrite indexed_fst. apply NoDup_seqZ.
  - apply Forall_forall. intros [i n] Hin. rewrite indexed_perm in Hin.
    apply list_elem_of_lookup in Hin as (j & Hj).
    apply lookup_zip_with_Some in Hj as (i' & n' & [= -> ->] & Hi & Hn).
    apply lookup_seqZ in Hi as [-> Hj]. cbn.
    destruct (lookup_lt_is_Some_2 segs j) as [s Hs].
    { rewrite Hlen. by eapply lookup_lt_Some. }
    exists s. apply get_spec. rewrite Z.add_0_l, Nat2Z.id. split; [lia|]. by rewrite list_lookup_fmap, Hs.
  - exists taken. split; [done|]. eapply Forall2_impl; [exact Hf|]. cbn. intros p s Hs.
    apply get_spec in Hs as [Hp Hs]. rewrite list_lookup_fmap in Hs.
    destruct (segs !! Z.to_nat p.1) eqn:E; [|done]. cbn in Hs. injection Hs as ->.
    by apply get_spec.
Qed.

(** Each ordered segment goes with its own number. *)
Lemma taken_pairs ordered :
  Forall2 (fun p seg => get segs p.1 = Some seg) indexed ordered ->
  zip (indexed.*2) ordered ≡ₚ zip nums segs.
Proof.
  intros Hf.
  assert (Hmap : forall l ord, Forall2 (fun p seg => get segs p.1 = Some seg) l ord ->
    zip (l.*2) ord = omap (fun p : Z * Z => pair p.2 <$> get segs p.1) l).
  { induction 1 as [|[i n] s l ord Hs _ IH]; [done|]. cbn in *. rewrite Hs, IH. done. }
  rewrite (Hmap _ _ Hf), indexed_perm.
  apply reflexive_eq. clear Hf Hmap.
  assert (Hgen : forall off (ns : list Z) (ss pre : list T), length ns = length ss ->
    zlen pre = off ->
    omap (fun p : Z * Z => pair p.2 <$> get (pre ++ ss) p.1) (zip (seqZ off (zlen ns)) ns) = zip ns ss).
  { intros off ns. revert off. induction ns as [|n ns IH]; intros off [|s ss] pre Hl Hpre; try done.
    rewrite zlen_cons, seqZ_cons by (pose proof (zlen_nonneg ns); lia).
    cbn [zip_with omap list_omap fst snd].
    replace (get (pre ++ s :: ss) off) with (Some s).
    - cbn [fmap option_fmap option_map]. f_equal.
      replace (pre ++ s :: ss) with ((pre ++ [s]) ++ ss) by by rewrite <-app_assoc.
      replace (Z.pred (1 + zlen ns)) with (zlen ns) by lia. apply IH; [cbn in Hl; lia|].
      rewrite zlen_app, zlen_cons. unfold zlen at 2. cbn. lia.
    - symmetry. apply get_spec. pose proof (zlen_nonneg pre). split; [lia|].
      rewrite <-Hpre. unfold zlen. rewrite Nat2Z.id, lookup_app_r, Nat.sub_diag by lia. done. }
  rewrite <-(Hgen 0 nums segs []); done.
Qed.

Lemma reorder_accepts ordered :
  (validate_and_reorder_segments segs nums = Ok ordered <->
   length ordered = length nums /\ zip nums segs ≡ₚ zip (seqZ 1 (zlen nums)) ordered) /\
  match validate_and_reorder_segments segs nums with
  | Err (SegmentGap _ _) | Ok _ => True
  | _ => False
  end.
Proof.
  destruct indexed_taken as (ord & Htake & Hf). pose proof (taken_pairs _ Hf) as Hpairs.
  assert (Hord : length ord = length nums).
  { rewrite <-(Forall2_length _ _ _ Hf). pose proof indexed_zlen as He. unfold zlen in He. lia. }
  unfold validate_and_reorder_segments. fold indexed.
  destruct (check_sequence_spec 0 indexed) as [[-> Hseq]|[(e & g & ->) Hseq]];
    [lia|rewrite indexed_zlen; lia| |]; cbn [mbind outcome_bind]; rewrite indexed_zlen in Hseq.
  - rewrite Htake. split; [|done]. rewrite Hseq in Hpairs. split.
    + intros <-%Ok_inj. split; [done|]. by rewrite Hpairs.
    + intros [Hl Hp]. f_equal. apply (zip_key_inj (seqZ 1 (zlen nums))).
      * apply NoDup_seqZ.
      * by rewrite length_seqZ_zlen.
      * by rewrite length_seqZ_zlen.
      * by rewrite <-Hp, <-Hpairs.
  - split; [|done]. split; [done|]. intros [Hl Hp]. exfalso. apply Hseq.
    apply (StronglySorted_unique Z.le); [apply sort_by_key_sorted|apply seqZ_sorted|].
    rewrite indexed_snd.
    rewrite <-(fst_zip nums segs) at 1 by lia.
    rewrite Hp. rewrite (fst_zip (seqZ 1 (zlen nums)) ordered); [done|].
    rewrite length_seqZ_zlen. lia.
Qed.

(** C23: what the reordering of segments accepts.  It succeeds exactly when the
    file numbers are 1, 2, ..., n in some order, and then returns each segment at
    the position its number gives; in every other case it reports a gap.  It
    never panics and never loses or duplicates a segment. *)
Theorem validate_and_reorder_spec ordered :
  (validate_and_reorder_segments segs nums = Ok ordered <->
   length ordered = length nums /\ zip nums segs ≡ₚ zip (seqZ 1 (zlen nums)) ordered) /\
  match validate_and_reorder_segments segs nums with
  | Err (SegmentGap _ _) | Ok _ => True
  | _ => False
  end.
Proof. apply reorder_accepts. Qed.
End Reorder.

Lemma reorder_perm {T} (segs ordered : list T) nums :
  length segs = length nums -> validate_and_reorder_segments segs nums = Ok ordered ->
  ordered ≡ₚ segs.
Proof.
  intros Hlen. destruct (indexed_taken segs nums Hlen) as (ord & Htake & Hf).
  pose proof (taken_pairs segs nums Hlen _ Hf) as Hp.
  unfold validate_and_reorder_segments. destruct (check_sequence _ _); [|done|done].
  cbn. rewrite Htake. intros <-%Ok_inj.
  rewrite <-(snd_zip (sort_by_key snd (enumerate nums)).*2 ord), Hp; [|].
  - rewrite snd_zip by lia. done.
  - rewrite length_fmap. apply Nat.eq_le_incl. symmetry. by apply Forall2_length in Hf.
Qed.

Lemma reorder_returns {T} (segs : list T) nums :
  length segs = length nums ->
  returns (fun ordered => ordered ≡ₚ segs) (validate_and_reorder_segments segs nums).
Proof.
  intros Hlen. destruct (validate_and_reorder_segments segs nums) as [o| |] eqn:E; [|done|].
  - by eapply reorder_perm.
  - revert E. destruct (indexed_taken segs nums Hlen) as (ord & Htake & _).
    unfold validate_and_reorder_segments. rewrite Htake.
    enough (forall k l, check_sequence k l <> Panic) as Hc.
    { specialize (Hc 0 (sort_by_key snd (enumerate nums))). by destruct (check_sequence _ _). }
    intros k l. revert k. induction l as [|[i n] l IH]; intros k; [done|]. cbn.
    destruct (_ =? _); [apply IH|done].
Qed.

(** * Lemmas: opening never panics *)

Section OpenSafe.
Context `{SafeReadLaws} `{Zlib} `{Profile} `{Lru Z (list Chunk)} `{Lru Z (list byte)}.

(** Some byte sequence is behind the source. *)
Definition served (s : SegmentSource) : Prop := exists bs, serves s bs.

Definition total_len (ss : list SegmentSource) : Z := foldr (fun s n => SegmentSource_len s + n) 0 ss.

Lemma served_len s : served s -> 0 <= SegmentSource_len s <= i64_max.
Proof.
  intros (bs & Hs). rewrite (serves_len (s:=s) (bs:=bs)).
  pose proof (zlen_nonneg bs). pose proof (serves_fits (s:=s) (bs:=bs)). lia.
Qed.

Lemma read_exact_at_returns s off n :
  served s -> 0 <= off <= u64_max -> 0 <= n <= i64_max ->
  returns (fun bs => zlen bs = n) (read_exact_at s off n).
Proof.
  intros (bs & Hs) Ho Hn. rewrite (read_exact_at_serves s bs off n (Hs:=Hs)) by lia.
  destruct (_ <? _); [done|]. destruct (n =? 0) eqn:E; bool_hyps; [by subst n|].
  destruct (slice bs off (off + n)) as [out|] eqn:Es; [|done]. cbn.
  apply slice_zlen in Es. lia.
Qed.

Lemma source_read_returns s n off :
  served s -> 0 <= n -> 0 <= off <= u64_max ->
  returns (fun bs => zlen bs <= n) (SegmentSource_read_at s n off).
Proof.
  intros (bs & Hs) Hn Ho. rewrite (serves_read (s:=s) (bs:=bs)) by lia. cbn.
  rewrite zlen_ztake. lia.
Qed.

(** A descriptor of a segment of [file_len] bytes. *)
Definition descriptor_in (file_len : Z) (d : SectionDescriptor) : Prop :=
  0 <= offset d /\ offset d + SECTION_DESCRIPTOR_SIZE <= file_len /\
  0 <= section_size d <= u64_max.

Lemma walk_descriptors_returns fuel s file_len off acc :
  served s -> file_len <= i64_max -> 0 <= off <= u64_max ->
  file_len - off < Z.of_nat fuel -> (0 < fuel)%nat ->
  Forall (descriptor_in file_len) acc ->
  returns (fun ds => Forall (descriptor_in file_len) ds /\
                     zlen ds <= zlen acc + Z.max 0 (file_len - off))
    (walk_descriptors fuel s file_len off acc).
Proof.
  intros Hs Hfl. revert off acc. induction fuel as [|fuel IH]; intros off acc Ho Hfuel Hpos Hacc; [lia|].
  cbn [walk_descriptors]. unfold SECTION_DESCRIPTOR_SIZE. unfold checked_add.
  destruct (_ <=? _) eqn:E; [|cbn; split; [done|lia]].
  destruct (file_len <? _) eqn:E2; bool_hyps; [cbn; split; [done|lia]|].
  eapply returns_bind; [apply read_exact_at_returns; [done|lia|lia]|cbn beta]. intros buf _.
  eapply returns_bind; [apply descriptor_parse_returns|]. intros d (Hd & Hn & Hsz).
  assert (Forall (descriptor_in file_len) (acc ++ [d])) as Hacc'.
  { apply Forall_app. split; [done|]. constructor; [|done].
    unfold descriptor_in, SECTION_DESCRIPTOR_SIZE. lia. }
  destruct (_ || _) eqn:E3; bool_hyps.
  1, 2: split; [done|]; rewrite zlen_app, zlen_cons, zlen_nil; lia.
  eapply returns_weaken; [apply IH; [lia|lia|lia|done]|]. cbn. intros ds [? Hl].
  split; [done|]. rewrite zlen_app, zlen_cons, zlen_nil in Hl. lia.
Qed.

Lemma segment_descriptors_returns s :
  served s ->
  returns (fun ds => Forall (descriptor_in (SegmentSource_len s)) ds /\
                     zlen ds <= SegmentSource_len s) (segment_descriptors s).
Proof.
  intros Hs. pose proof (served_len s Hs) as Hl. unfold segment_descriptors.
  assert (Hseek : SegmentCursor_seek (SegmentCursor_new s) (End_ 0) =
    Ok (SegmentSource_len s, {| cursor_src := s; cursor_pos := SegmentSource_len s |})).
  { unfold SegmentCursor_seek, add_i64, as_i64. change (segment_len _) with (SegmentSource_len s).
    rewrite (proj2 (Z.leb_le (SegmentSource_len s) i64_max)) by lia.
    rewrite plain_ok by lia. cbn [mbind outcome_bind]. rewrite Z.add_0_r.
    by rewrite (proj2 (Z.ltb_ge _ 0)) by lia. }
  rewrite Hseek. cbn [from_io mbind outcome_bind].
  eapply returns_weaken.
  - apply walk_descriptors_returns; try done; unfold FILE_HEADER_SIZE; lia.
  - unfold FILE_HEADER_SIZE. intros ds [? Hz]. rewrite zlen_nil in Hz. split; [done|lia].
Qed.

(** What every handler keeps: the local variables are in range after [k] sections. *)
Record open_wf (k : Z) (o : open_state) : Prop := {
  ow_chunk_size : 0 <= o_chunk_size o <= MAX_CHUNK_SIZE;
  ow_total_size : 0 <= o_total_size o <= u64_max;
  ow_chunks : Forall chunk_wf (o_chunks o);
  ow_next : 0 <= o_next_chunk_id o <= MAX_TABLE_ENTRIES * k;
  ow_index : index_from 0 (o_index o) /\ index_end 0 (o_index o) = o_next_chunk_id o;
}.

Lemma index_from_snoc k idx m :
  index_from k idx -> first_chunk_id m = index_end k idx -> 0 <= meta_entry_count m ->
  index_end k idx + meta_entry_count m <= u64_max ->
  index_from k (idx ++ [m]) /\ index_end k (idx ++ [m]) = index_end k idx + meta_entry_count m.
Proof.
  revert k. induction idx as [|m0 idx IH]; intros k; cbn [index_from index_end app]; [done|].
  intros (Hf & Hc & Hb & Hi) Hm Hmc Hmax. destruct (IH _ Hi Hm Hmc Hmax) as [Hi' He']. done.
Qed.

Lemma read_header_returns ref s seg_idx first_id len :
  served s -> 0 <= ref_desc_offset ref -> ref_desc_offset ref + SECTION_DESCRIPTOR_SIZE <= len ->
  len <= i64_max ->
  returns (fun m => first_chunk_id m = first_id /\ 0 <= meta_entry_count m <= MAX_TABLE_ENTRIES)
    (read_header ref s seg_idx first_id MAX_TABLE_ENTRIES).
Proof.
  unfold SECTION_DESCRIPTOR_SIZE. intros Hs Ho Hl Hm. unfold read_header, SECTION_DESCRIPTOR_SIZE.
  rewrite add64_ok by lia. cbn [mbind outcome_bind].
  eapply returns_bind.
  { apply returns_from_io, source_read_returns; [done|lia|lia]. }
  intros hdr Hh. destruct (_ <? _) eqn:E; [done|]. bool_hyps.
  unfold index_range. rewrite (slice_some hdr 0 4) by lia. cbn [or_panic mbind outcome_bind].
  destruct (_ <? _) eqn:E2; [done|]. bool_hyps. rewrite slice_some by lia. cbn [or_panic mbind outcome_bind].
  rewrite add64_ok by lia. cbn. split; [done|]. pose proof (le_combine_bound (ztake (4 - 0) (zdrop 0 hdr))). lia.
Qed.

Lemma section_data_ok len d :
  descriptor_in len d -> len <= i64_max ->
  section_data d = Ok (offset d + SECTION_DESCRIPTOR_SIZE) /\
  0 <= offset d + SECTION_DESCRIPTOR_SIZE <= i64_max.
Proof.
  unfold descriptor_in, SECTION_DESCRIPTOR_SIZE, section_data. intros Hd Hl. split; [|lia].
  apply add64_ok. unfold SECTION_DESCRIPTOR_SIZE. lia.
Qed.

(** A handler that leaves the tables and the geometry alone keeps [open_wf]. *)
Lemma open_wf_same k o o' :
  open_wf k o -> o_chunk_size o' = o_chunk_size o -> o_total_size o' = o_total_size o ->
  o_chunks o' = o_chunks o -> o_index o' = o_index o -> o_next_chunk_id o' = o_next_chunk_id o ->
  open_wf (k + 1) o'.
Proof.
  intros [] E1 E2 E3 E4 E5. constructor; rewrite ?E1, ?E2, ?E3, ?E4, ?E5; try done.
  unfold MAX_TABLE_ENTRIES in *. lia.
Qed.

Lemma open_volume_returns c len d k o :
  served (sc_source c) -> descriptor_in len d -> len <= i64_max -> open_wf k o ->
  returns (open_wf (k + 1)) (open_volume c d o).
Proof.
  intros Hs Hd Hl [Hcs Hts Hch Hn Hi]. destruct (section_data_ok _ _ Hd Hl) as [Hat Hr].
  unfold open_volume. rewrite Hat. cbn [mbind outcome_bind].
  eapply returns_bind; [apply read_exact_at_returns; [done|lia|lia]|cbn beta]. intros buf Hbuf.
  destruct (volume_parse_ok buf) as [v Hv]; [lia|]. rewrite Hv. cbn [mbind outcome_bind].
  destruct (volume_parse_ranges _ _ Hv) as (Hcc & Hspc & Hbps & Hsc & _).
  unfold EwfVolume_chunk_size.
  assert (0 <= sectors_per_chunk v * bytes_per_sector v <= u32_max * u32_max) as Hp by nia.
  rewrite mul64_ok by lia. cbn [mbind outcome_bind].
  set (cs := sectors_per_chunk v * bytes_per_sector v) in *. clearbody cs.
  unfold MAX_CHUNK_SIZE in *. destruct (_ <? _) eqn:E; [done|]. bool_hyps.
  assert (0 <= cs * chunk_count v <= u64_max) as Hc by nia.
  eapply (returns_bind (fun ts => 0 <= ts <= u64_max)).
  { destruct (_ =? 0); [by rewrite mul64_ok by lia|]. cbn.
    unfold EwfVolume_total_size, sat_mul.
    pose proof (Z.mul_nonneg_nonneg (bytes_per_sector v) (sector_count v)). lia. }
  intros ts Hts'. cbn. constructor; cbn; try done; unfold MAX_CHUNK_SIZE, MAX_TABLE_ENTRIES in *; lia.
Qed.

Lemma open_table_lazy_returns c len d k o :
  served (sc_source c) -> descriptor_in len d -> len <= i64_max -> open_wf k o ->
  MAX_TABLE_ENTRIES * (k + 1) <= u64_max ->
  returns (open_wf (k + 1)) (open_table_lazy c d o).
Proof.
  intros Hs (Hd1 & Hd2 & Hd3) Hl [Hcs Hts Hch Hn [Hi He]] Hmax. unfold open_table_lazy.
  eapply returns_bind.
  { apply (read_header_returns _ _ _ _ len); done. }
  intros m [Hf Hc]. unfold MAX_TABLE_ENTRIES in *. rewrite add64_ok by lia.
  cbn [mbind outcome_bind returns].
  destruct (index_from_snoc 0 (o_index o) m) as [Hi' He']; [done|lia|lia|lia|].
  constructor; cbn; unfold MAX_TABLE_ENTRIES; try done; [lia|]. split; [done|lia].
Qed.

Lemma open_table_eager_returns c len d k o :
  served (sc_source c) -> descriptor_in len d -> len <= i64_max -> open_wf k o ->
  returns (open_wf (k + 1)) (open_table_eager c d o).
Proof.
  intros Hs Hd Hl [Hcs Hts Hch Hn Hi]. destruct (section_data_ok _ _ Hd Hl) as [Hat Hr].
  unfold open_table_eager. rewrite Hat. cbn [mbind outcome_bind].
  eapply returns_bind; [apply read_exact_at_returns; [done|lia|lia]|cbn beta]. intros hdr _.
  pose proof (le_u32_range hdr 0) as Hcount.
  destruct (_ <? _) eqn:E; [done|]. bool_hyps. unfold MAX_TABLE_ENTRIES in *.
  rewrite add64_ok by lia. cbn [mbind outcome_bind].
  rewrite mul64_ok by lia. cbn [mbind outcome_bind].
  eapply returns_bind; [apply read_exact_at_returns; [done|lia|lia]|cbn beta]. intros buf _.
  rewrite parse_table_section_eq by lia. cbn [mbind outcome_bind returns].
  constructor; cbn; unfold MAX_TABLE_ENTRIES; try done; [|lia].
  apply Forall_app. split; [done|apply spec_chunks_wf].
Qed.

Lemma open_section_returns lazy_ c len d k o :
  served (sc_source c) -> descriptor_in len d -> len <= i64_max -> open_wf k o ->
  MAX_TABLE_ENTRIES * (k + 1) <= u64_max ->
  returns (open_wf (k + 1)) (open_section lazy_ c d o).
Proof.
  intros Hs Hd Hl Ho Hmax. destruct (section_data_ok _ _ Hd Hl) as [Hat Hr].
  assert (Hread : forall n, 0 <= n <= i64_max -> forall (f : list byte -> res open_state),
    (forall bs, zlen bs = n -> returns (open_wf (k + 1)) (f bs)) ->
    returns (open_wf (k + 1)) (bs ← read_exact_at (sc_source c) (offset d + SECTION_DESCRIPTOR_SIZE) n; f bs)).
  { intros n Hn f Hf. eapply returns_bind; [apply read_exact_at_returns; [done|lia|lia]|cbn beta]. done. }
  unfold open_section. destruct (_ || _); [by eapply open_volume_returns|].
  destruct (text_eqb _ (sc_table_type c)).
  { destruct lazy_; [by eapply open_table_lazy_returns|by eapply open_table_eager_returns]. }
  unfold open_hash, open_digest, open_header, open_error2. rewrite Hat. cbn [mbind outcome_bind].
  repeat match goal with
  | |- returns _ (if text_eqb _ _ then _ else _) => destruct (text_eqb _ _)
  | |- returns _ (if text_eqb _ _ && _ && _ then _ else _) => destruct (_ && _)
  | |- returns _ (if small_section ?n then _ else _) =>
    unfold small_section, MAX_SECTION_DATA_SIZE; destruct (_ && _) eqn:?; bool_hyps
  end.
  all: try (apply Hread; [lia|]; intros bs Hbs).
  all: unfold index_range; try (rewrite !slice_some by lia; cbn [or_panic mbind outcome_bind]).
  all: try (destruct (zlib_read_to_end _ _)).
  all: cbn [returns]; by eapply open_wf_same.
Qed.

Lemma open_wf_mono k k' o : k <= k' -> open_wf k o -> open_wf k' o.
Proof. intros Hk []. constructor; try done. unfold MAX_TABLE_ENTRIES in *. lia. Qed.

Lemma fold_sections_returns lazy_ c len ds k o :
  served (sc_source c) -> Forall (descriptor_in len) ds -> len <= i64_max -> open_wf k o ->
  MAX_TABLE_ENTRIES * (k + zlen ds) <= u64_max ->
  returns (open_wf (k + zlen ds)) (fold_res (open_section lazy_ c) ds o).
Proof.
  intros Hs Hds Hl. revert k o. induction Hds as [|d ds Hd _ IH]; intros k o Ho Hmax.
  { cbn. by rewrite Z.add_0_r. }
  rewrite zlen_cons in *. pose proof (zlen_nonneg ds). unfold MAX_TABLE_ENTRIES in *. cbn [fold_res].
  eapply returns_bind.
  { eapply open_section_returns; try done. unfold MAX_TABLE_ENTRIES. lia. }
  intros o' Ho'. replace (k + (1 + zlen ds)) with (k + 1 + zlen ds) by lia. apply IH; [done|lia].
Qed.

Lemma open_segment_returns lazy_ i s k o :
  served s -> open_wf k o -> MAX_TABLE_ENTRIES * (k + SegmentSource_len s) <= u64_max ->
  returns (open_wf (k + SegmentSource_len s)) (open_segment lazy_ (i, s) o).
Proof.
  intros Hs Ho Hmax. unfold open_segment. pose proof (served_len s Hs).
  eapply returns_bind; [by apply segment_descriptors_returns|]. intros ds [Hds Hlen].
  unfold MAX_TABLE_ENTRIES in *. pose proof (zlen_nonneg ds).
  eapply returns_weaken.
  - eapply (fold_sections_returns _ _ _ _ k); [done|exact Hds|lia|done|]. unfold MAX_TABLE_ENTRIES. lia.
  - intros o' Ho'. eapply open_wf_mono; [|exact Ho']. lia.
Qed.

Lemma total_len_cons s ss : total_len (s :: ss) = SegmentSource_len s + total_len ss.
Proof. done. Qed.

Lemma total_len_nonneg ss : Forall served ss -> 0 <= total_len ss.
Proof. induction 1 as [|s ss Hs _ IH]; [done|]. rewrite total_len_cons. pose proof (served_len s Hs). lia. Qed.

Lemma fold_segments_returns lazy_ i ss k o :
  Forall served ss -> open_wf k o -> MAX_TABLE_ENTRIES * (k + total_len ss) <= u64_max ->
  returns (open_wf (k + total_len ss)) (fold_res (open_segment lazy_) (enumerate_from i ss) o).
Proof.
  intros Hss. revert i k o. induction Hss as [|s ss Hs Hss IH]; intros i k o Ho Hmax.
  { cbn. by rewrite Z.add_0_r. }
  pose proof (total_len_nonneg ss Hss). pose proof (served_len s Hs). unfold MAX_TABLE_ENTRIES in *.
  rewrite total_len_cons in *. cbn [enumerate_from fold_res].
  eapply returns_bind.
  { apply open_segment_returns; [done|exact Ho|]. unfold MAX_TABLE_ENTRIES. lia. }
  intros o' Ho'. rewrite Z.add_assoc. apply IH; [done|lia].
Qed.

Lemma total_len_perm ss ss' : ss ≡ₚ ss' -> total_len ss = total_len ss'.
Proof. induction 1; rewrite ?total_len_cons; lia. Qed.

(** The invariant of a reader. *)
Definition table_wf (chunk_size : Z) (t : ChunkTable) : Prop :=
  match t with
  | Eager v => Forall chunk_wf v
  | Lazy l => index_from 0 (lazy_index l) /\ lazy_len l = index_end 0 (lazy_index l) /\
              lazy_chunk_size l = chunk_size
  end.

Record reader_wf (r : EwfReader) : Prop := {
  rw_segments : Forall served (r_segments r);
  rw_chunk_size : 0 < r_chunk_size r <= MAX_CHUNK_SIZE;
  rw_total_size : 0 <= r_total_size r <= u64_max;
  rw_position : 0 <= r_position r <= u64_max;
  rw_table : table_wf (r_chunk_size r) (r_chunks r);
}.

Lemma lazy_new_returns idx cs cap id :
  index_from 0 idx -> index_end 0 idx = id -> id <= u64_max ->
  returns (fun l => lazy_index l = idx /\ lazy_len l = id /\ lazy_chunk_size l = cs)
    (LazyChunkTable_new idx cs cap).
Proof.
  intros Hi He Hmax. unfold LazyChunkTable_new. destruct (last idx) as [m|] eqn:El.
  - destruct (index_last _ _ _ Hi El) as (Hl & ? & ? & ?). rewrite add64_ok by lia. cbn.
    by rewrite <-Hl, He.
  - apply last_None in El as ->. cbn. done.
Qed.

Lemma open_v1_returns sources cache_size lazy_ :
  Forall served sources -> MAX_TABLE_ENTRIES * total_len sources <= u64_max ->
  returns (fun r => reader_wf r /\ r_segments r ≡ₚ sources /\ r_position r = 0 /\
                    (exists cap, r_cache r = lru_new cap) /\
                    (lazy_ = None -> exists v, r_chunks r = Eager v))
    (open_v1 sources cache_size lazy_).
Proof.
  intros Hs Hmax. unfold open_v1. destruct sources as [|first rest] eqn:Esrc; [done|].
  rewrite <-Esrc in *.
  assert (served first) as Hfirst by (rewrite Esrc in Hs; by apply Forall_cons in Hs as [? _]).
  clear Esrc rest.
  eapply returns_bind; [by apply returns_from_io, source_read_returns|]. intros sig _.
  destruct (is_ewf2_signature _); [done|].
  eapply returns_bind.
  { eapply (returns_mapM served (fun _ => True)); [|done]. intros s Hsv. unfold read_file_header.
    eapply returns_bind; [by apply returns_from_io, source_read_returns|]. intros hdr Hh.
    apply file_header_parse_returns. }
  intros headers [Hhl _].
  eapply returns_bind; [apply reorder_returns; by rewrite length_map|]. cbn beta.
  intros ordered Hperm.
  assert (Forall served ordered) as Hord by by rewrite Hperm.
  pose proof (total_len_nonneg _ Hord) as Hnn. rewrite <-(total_len_perm _ _ Hperm) in Hmax.
  eapply returns_bind.
  { apply (fold_segments_returns _ 0 _ 0); [done| |done]. by constructor. }
  rewrite Z.add_0_l. intros o [Hcs Hts Hch Hn [Hi He]]. destruct (_ =? 0) eqn:E; [done|]. bool_hyps.
  eapply (returns_bind (fun t => table_wf (o_chunk_size o) t /\ 0 <= ChunkTable_len t /\
                                   (lazy_ = None -> t = Eager (o_chunks o)))).
  { destruct lazy_ as [n|].
    - eapply returns_bind; [apply (lazy_new_returns _ _ _ _ Hi He); lia|].
      intros l (E1 & E2 & E3). cbn. rewrite E1, E2, E3. repeat split; (done || lia).
    - cbn. split; [done|]. split; [apply zlen_nonneg|done]. }
  intros t (Ht & Hlen & Heager). cbn. split; [|split; [done|split; [done|split; [by eexists|eauto]]]].
  constructor; cbn; try done; [lia|].
  unfold media_size_for, sat_mul. pose proof (Z.mul_nonneg_nonneg (ChunkTable_len t) (o_chunk_size o)).
  destruct (match headers with h :: _ => kind h | [] => Physical end); [destruct (_ =? 0)|]; lia.
Qed.

(** C6: opening an image never panics.  Whatever bytes the sources hold, damaged
    or hostile, both the eager and the lazy open end with a reader or with an
    error: every walk terminates, no index leaves a buffer, no sum overflows and
    no allocation exceeds the segment it describes.  A reader that is returned
    uses exactly the given sources, reordered, and satisfies the reader
    invariant: a chunk size between 1 byte and 128 MiB, a 64-bit media size, a
    well-formed chunk table. *)
Theorem open_v1_safe sources cache_size lazy_ :
  Forall served sources -> MAX_TABLE_ENTRIES * total_len sources <= u64_max ->
  returns (fun r => reader_wf r /\ r_segments r ≡ₚ sources) (open_v1 sources cache_size lazy_).
Proof.
  intros Hs Hmax. eapply returns_weaken; [by apply open_v1_returns|].
  intros r (Hwf & Hp & _). done.
Qed.
End OpenSafe.

(** * The EWF2 section list *)

Section Ewf2Walk.
Context `{SafeReadLaws}.

(** [d] is the descriptor stored in the file at its own offset. *)
Definition parsed_at (bytes : list byte) (d : Ewf2SectionDescriptor) : Prop :=
  exists buf, slice bytes (v2_offset d) (v2_offset d + EWF2_SECTION_DESCRIPTOR_SIZE) = Some buf /\
              Ewf2SectionDescriptor_parse buf (v2_offset d) = Ok d.

(** The backward links from the descriptor at an offset down to the first one. *)
Inductive back_chain (bytes : list byte) : Z -> list Ewf2SectionDescriptor -> Prop :=
| bc_first d : parsed_at bytes d -> previous_offset d = 0 -> back_chain bytes (v2_offset d) [d]
| bc_step d ds : parsed_at bytes d -> previous_offset d <> 0 ->
    back_chain bytes (previous_offset d) ds -> back_chain bytes (v2_offset d) (d :: ds).

Lemma ewf2_parse_offset buf off :
  zlen buf = 64 -> exists d, Ewf2SectionDescriptor_parse buf off = Ok d /\ v2_offset d = off /\
              0 <= previous_offset d.
Proof.
  intros Hb. unfold Ewf2SectionDescriptor_parse, EWF2_SECTION_DESCRIPTOR_SIZE, index_range.
  rewrite (proj2 (Z.ltb_ge _ _)), slice_some by lia. cbn. eexists. split; [done|].
  split; [done|]. cbn. apply le_u64_range.
Qed.

Lemma file_read_spec f off n :
  file_reliable f -> zlen (file_bytes f) <= i64_max -> 0 <= off -> 0 < n ->
  match slice (file_bytes f) off (off + n) with
  | Some buf => file_read_exact_at f off n = Ok buf
  | None => exists e, file_read_exact_at f off n = Err e
  end.
Proof.
  intros Hf Hl Ho Hn. unfold file_read_exact_at. rewrite pread_spec by (done || lia).
  cbn [from_io mbind outcome_bind]. destruct (slice _ _ _) as [buf|] eqn:E.
  - pose proof (slice_bounds _ _ _ _ E). pose proof (slice_zlen _ _ _ _ E) as Hz.
    apply slice_spec in E as (_ & _ & ->). replace (off + n - off) with n in * by lia.
    rewrite (proj2 (Z.ltb_ge i64_max off)), (proj2 (Z.ltb_ge _ n)) by lia. done.
  - apply slice_none in E. destruct (_ <? off); [eauto|].
    rewrite (proj2 (Z.ltb_lt _ n)); [eauto|]. rewrite zlen_ztake, zlen_zdrop.
    pose proof (zlen_nonneg (file_bytes f)). lia.
Qed.

Lemma back_chain_parsed bytes off ds :
  back_chain bytes off ds ->
  exists d ds', ds = d :: ds' /\ v2_offset d = off /\ parsed_at bytes d /\
    (ds' = [] /\ previous_offset d = 0 \/
     previous_offset d <> 0 /\ back_chain bytes (previous_offset d) ds').
Proof. intros []; eexists _, _; eauto 10. Qed.

Definition offsets_below (n : Z) : gset Z := list_to_set (seqZ 0 n).

Lemma size_offsets_below n : 0 <= n -> Z.of_nat (size (offsets_below n)) = n.
Proof.
  intros Hn. unfold offsets_below. rewrite size_list_to_set by apply NoDup_seqZ.
  rewrite length_seqZ. lia.
Qed.

Lemma visited_size n (visited : gset Z) :
  0 <= n -> visited ⊆ offsets_below n -> Z.of_nat (size visited) <= n.
Proof. intros Hn Hv%subseteq_size. pose proof (size_offsets_below n Hn). lia. Qed.

Lemma collect_ewf2_loop_spec fuel f off visited acc :
  let len := zlen (file_bytes f) in
  file_reliable f -> len <= i64_max -> 0 <= off ->
  visited ⊆ offsets_below len -> len < Z.of_nat fuel + Z.of_nat (size visited) ->
  match collect_ewf2_loop fuel f len off visited acc with
  | Ok out => exists ds, back_chain (file_bytes f) off ds /\ NoDup (v2_offset <$> ds) /\
                         Forall (fun d => v2_offset d ∉ visited) ds /\ out = rev ds ++ acc
  | Err _ => forall ds, back_chain (file_bytes f) off ds -> NoDup (v2_offset <$> ds) ->
                        ~ Forall (fun d => v2_offset d ∉ visited) ds
  | Panic => False
  end.
Proof.
  intros len Hf Hl. revert off visited acc.
  induction fuel as [|fuel IH]; intros off visited acc Ho Hv Hfuel.
  { pose proof (visited_size len visited (zlen_nonneg _) Hv). lia. }
  cbn [collect_ewf2_loop]. case_bool_decide as Hvis.
  { intros ds (d & ds' & -> & <- & _)%back_chain_parsed _ [? _]%Forall_cons. done. }
  pose proof (file_read_spec f off EWF2_SECTION_DESCRIPTOR_SIZE Hf Hl Ho) as Hread.
  unfold EWF2_SECTION_DESCRIPTOR_SIZE in Hread |- * at 1. specialize (Hread ltac:(lia)).
  destruct (slice (file_bytes f) off (off + 64)) as [buf|] eqn:Hsl.
  2: { destruct Hread as [e ->]. cbn. intros ds (d & ds' & -> & <- & (b & Hb & _) & _)%back_chain_parsed.
       unfold EWF2_SECTION_DESCRIPTOR_SIZE in Hb. congruence. }
  rewrite Hread. cbn [mbind outcome_bind]. pose proof (slice_zlen _ _ _ _ Hsl) as Hbl.
  pose proof (slice_bounds _ _ _ _ Hsl) as Hb.
  destruct (ewf2_parse_offset buf off) as (d & Hd & Hoff & Hprev); [lia|]. rewrite Hd. cbn [mbind outcome_bind].
  assert (Hparsed : parsed_at (file_bytes f) d).
  { exists buf. rewrite Hoff. done. }
  assert (Huniq : forall d', parsed_at (file_bytes f) d' -> v2_offset d' = off -> d' = d).
  { intros d' (b & Hb1 & Hb2) Ho'. rewrite Ho' in *. unfold EWF2_SECTION_DESCRIPTOR_SIZE in Hb1. congruence. }
  destruct (previous_offset d =? 0) eqn:Ep; bool_hyps.
  { exists [d]. rewrite <-Hoff in Hvis |- *. repeat split; [by constructor| |by repeat constructor].
    cbn. apply NoDup_singleton. }
  destruct (len <=? previous_offset d) eqn:El; bool_hyps.
  { intros ds (d' & ds' & -> & Ho' & Hp' & Hlink)%back_chain_parsed.
    rewrite (Huniq d' Hp' Ho') in Hlink. destruct Hlink as [[_ ?]|[_ Hc]]; [done|].
    apply back_chain_parsed in Hc as (d2 & ? & -> & Ho2 & (b2 & Hs2 & _) & _).
    apply slice_bounds in Hs2. unfold EWF2_SECTION_DESCRIPTOR_SIZE in Hs2. lia. }
  assert (Hin : off ∈ offsets_below len).
  { unfold offsets_below. rewrite elem_of_list_to_set, elem_of_seqZ. lia. }
  specialize (IH (previous_offset d) ({[off]} ∪ visited) (d :: acc)).
  assert (Hsize : size ({[off]} ∪ visited) = S (size visited)).
  { rewrite size_union by set_solver. by rewrite size_singleton. }
  specialize (IH ltac:(lia) ltac:(set_solver) ltac:(lia)).
  destruct (collect_ewf2_loop fuel f len (previous_offset d) _ _) as [out|e|]; [| |done].
  - destruct IH as (ds & Hc & Hnd & Hnv & ->). exists (d :: ds). rewrite <-Hoff in Hvis, Hnv |- *.
    split; [by constructor|]. split.
    + cbn. apply NoDup_cons. split; [|done]. intros (d' & Ho' & Hd')%list_elem_of_fmap.
      rewrite Forall_forall in Hnv. specialize (Hnv d' Hd'). set_solver.
    + split; [|by cbn; rewrite <-app_assoc]. constructor; [done|].
      eapply Forall_impl; [exact Hnv|]. cbn. set_solver.
  - intros ds (d' & ds' & -> & Ho' & Hp' & Hlink)%back_chain_parsed.
    rewrite (Huniq d' Hp' Ho') in *. destruct Hlink as [[_ ?]|[_ Hc]]; [done|].
    cbn. rewrite Hoff. intros [Hni Hnd]%NoDup_cons [_ Hnv]%Forall_cons.
    apply (IH ds' Hc Hnd). rewrite Forall_forall in Hnv |- *. intros d2 Hd2.
    specialize (Hnv d2 Hd2). assert (v2_offset d2 <> off); [|set_solver].
    intros Heq. apply Hni. rewrite <-Heq. by apply list_elem_of_fmap_2.
Qed.

Lemma back_chain_det bytes off ds ds' :
  back_chain bytes off ds -> back_chain bytes off ds' -> ds = ds'.
Proof.
  intros Hc. revert ds'. induction Hc as [d Hp Hz|d ds Hp Hn Hc IH];
    intros ds2 (d2 & ds2' & -> & Ho2 & Hp2 & Hl)%back_chain_parsed;
    assert (d2 = d) as -> by (destruct Hp as (b & ? & ?), Hp2 as (b2 & ? & ?); congruence).
  - by destruct Hl as [[-> _]|[? _]].
  - destruct Hl as [[_ ?]|[_ Hl]]; [done|]. f_equal. by apply IH.
Qed.

Lemma collect_ewf2_exact f ds :
  let len := zlen (file_bytes f) in
  file_reliable f -> len <= i64_max -> EWF2_SECTION_DESCRIPTOR_SIZE <= len ->
  (collect_ewf2_descriptors f len = Ok ds <->
   back_chain (file_bytes f) (len - EWF2_SECTION_DESCRIPTOR_SIZE) (rev ds) /\
   NoDup (v2_offset <$> ds)) /\
  no_panic (collect_ewf2_descriptors f len).
Proof.
  intros len Hf Hl Hmin. unfold collect_ewf2_descriptors. rewrite (proj2 (Z.ltb_ge _ _)) by lia.
  pose proof (collect_ewf2_loop_spec (S (Z.to_nat len)) f (len - EWF2_SECTION_DESCRIPTOR_SIZE) ∅ [])
    as Hloop. cbn zeta in Hloop. fold len in Hloop.
  specialize (Hloop Hf Hl ltac:(lia) ltac:(set_solver) ltac:(rewrite size_empty; lia)).
  destruct (collect_ewf2_loop _ _ _ _ _ _) as [out|e|]; [| |done]; split; try done.
  - destruct Hloop as (ds' & Hc & Hnd & _ & ->). rewrite app_nil_r. split.
    + intros <-%Ok_inj. rewrite rev_involutive. split; [done|].
      by rewrite <-(Permutation_rev ds').
    + intros [Hc' _]. f_equal. rewrite (back_chain_det _ _ _ _ Hc Hc'). apply rev_involutive.
  - split; [done|]. intros [Hc Hnd]. exfalso. apply (Hloop _ Hc).
    + by rewrite <-(Permutation_rev ds).
    + apply Forall_forall. set_solver.
Qed.

(** C22: the backward walk of an EWF2 segment reads exactly its section list.  On
    a file at least one descriptor long it returns [ds] exactly when the
    descriptors, last to first, are linked by their previous offsets from the end
    of the file to a descriptor without predecessor, none visited twice; in
    particular a cycle, a link out of the file and a truncated descriptor are
    errors.  It ends on every file and never panics. *)
Theorem collect_ewf2_spec f ds :
  let len := zlen (file_bytes f) in
  file_reliable f -> len <= i64_max -> EWF2_SECTION_DESCRIPTOR_SIZE <= len ->
  (collect_ewf2_descriptors f len = Ok ds <->
   back_chain (file_bytes f) (len - EWF2_SECTION_DESCRIPTOR_SIZE) (rev ds) /\
   NoDup (v2_offset <$> ds)) /\
  no_panic (collect_ewf2_descriptors f len).
Proof. apply collect_ewf2_exact. Qed.
End Ewf2Walk.
