(* ===== verification/Resident.v ===== *)
(** The memory a chunk table keeps ([resident_table_bytes] of
    [core/src/chunk_table.rs]), and the bound the paged table exists for: an index
    entry per table section and the sections of its cache, whatever is looked up. *)

From S2P Require Import Prelude Text Extern Types Sections Source ChunkTable ReaderOpen.

(** [size_of::<SectionMeta>()] and [size_of::<Chunk>()], which the compiler chooses. *)
Class Layout := { size_of_SectionMeta : Z; size_of_Chunk : Z }.

Section Resident.
Context `{SafeRead} `{Profile} `{LruIter Z (list Chunk)} `{Layout}.

(** [sum()] over an iterator: it panics on an overflow where additions do. *)
Fixpoint sum64 (ns : list Z) : res Z :=
  match ns with
  | [] => Ok 0
  | n :: ns => rest ← sum64 ns; add64 n rest
  end.

Definition LazyChunkTable_resident_table_bytes (t : LazyChunkTable) : res Z :=
  index_bytes ← mul64 (zlen (lazy_index t)) size_of_SectionMeta;
  cached_chunks ← sum64 (map (fun e => zlen e.2) (lru_iter (lazy_cache t)));
  cached_bytes ← mul64 cached_chunks size_of_Chunk;
  add64 index_bytes cached_bytes.

Definition ChunkTable_resident_table_bytes (t : ChunkTable) : res Z :=
  match t with
  | Eager v => mul64 (zlen v) size_of_Chunk
  | Lazy l => LazyChunkTable_resident_table_bytes l
  end.

(** The accessors of the reader. *)
Definition EwfReader_resident_table_bytes `{Lru Z (list byte)} (r : EwfReader) : res Z :=
  ChunkTable_resident_table_bytes (r_chunks r).

Definition EwfReader_is_lazy `{Lru Z (list byte)} (r : EwfReader) : bool :=
  match r_chunks r with Lazy _ => true | Eager _ => false end.

(** The table after the lookups of [ids]. *)
Fixpoint after_gets (segments : list SegmentSource) (ids : list Z) (t : ChunkTable) : ChunkTable :=
  match ids with
  | [] => t
  | id :: ids => after_gets segments ids (snd (ChunkTable_get id segments t))
  end.
End Resident.

(** ** Lemmas *)
Section Bound.
Context `{SafeReadLaws} `{Profile} `{LruIterLaws Z (list Chunk)} `{Layout}.

(** A section never has more chunks than entries are declared for it. *)
Lemma section_size entries count base seg_idx chunk_size send cs :
  0 <= count -> parse_table_section entries count base seg_idx chunk_size send = Ok cs -> zlen cs <= count.
Proof.
  intros Hc. rewrite parse_table_section_eq by done. intros <-%Ok_inj.
  assert (forall es, zlen (spec_chunks seg_idx chunk_size send es) = zlen es) as ->.
  { induction es as [|[c a] es IH]; [done|]. cbn [spec_chunks]. by rewrite !zlen_cons, IH. }
  unfold entry_addresses. set (m := Z.to_nat _). assert (Z.of_nat m <= count) as Hm.
  { unfold m. pose proof (zlen_nonneg entries). Z.to_euclidean_division_equations. lia. }
  transitivity (zlen (seqZ 0 (Z.of_nat m))).
  - generalize (seqZ 0 (Z.of_nat m)) as l. intros l. induction l as [|k l IH]; [done|]. cbn.
    destruct (entry_address entries base k); rewrite ?zlen_cons; lia.
  - unfold zlen. rewrite length_seqZ. lia.
Qed.

(** What the cache of a table over [index] may hold, [m] entries to a section. *)
Record cache_within (m cap : Z) (t : LazyChunkTable) : Prop := {
  cw_index : Forall (fun meta => 0 <= meta_entry_count meta <= m) (lazy_index t);
  cw_cap : lru_cap (lazy_cache t) = cap;
  cw_size : zlen (lru_iter (lazy_cache t)) <= cap;
  cw_sections : Forall (fun e => zlen e.2 <= m) (lru_iter (lazy_cache t));
}.

Lemma load_section_size chunk_size meta segments cs :
  0 <= meta_entry_count meta -> load_section chunk_size meta segments = Ok cs -> zlen cs <= meta_entry_count meta.
Proof.
  intros Hm. unfold load_section.
  destruct (get segments _) as [src|]; [|done].
  destruct (checked_mul _ _) as [want|]; [|done]. cbn [ok_or mbind outcome_bind]. destruct (_ <? want); [done|].
  destruct (from_io _) as [buf| |]; cbn [mbind outcome_bind]; [|done|done]. destruct (_ <? want); [done|].
  by apply section_size.
Qed.

Lemma lazy_get_within m cap id segments t :
  0 < cap -> cache_within m cap t -> cache_within m cap (snd (LazyChunkTable_get id segments t)) /\
  lazy_index (snd (LazyChunkTable_get id segments t)) = lazy_index t.
Proof.
  intros Hcap Ht. pose proof Ht as [Hi Hc Hs Hf]. unfold LazyChunkTable_get. rewrite stateful_lift_run.
  destruct (section_for t id) as [pos| |]; [|done|done]. rewrite stateful_lift_run.
  destruct (ok_or _ pos) as [p| |]; [|done|done]. rewrite stateful_lift_run.
  destruct (index (lazy_index t) p) as [meta| |] eqn:Hmeta; [|done|done]. rewrite stateful_lift_run.
  destruct (sub64 _ _) as [local| |]; [|done|done].
  rewrite stateful_bind_run. unfold cache_op, with_state.
  pose proof (lru_get_cap p (lazy_cache t)) as Gc. pose proof (lru_get_iter p (lazy_cache t)) as Gi.
  pose proof (lru_get_size p (lazy_cache t)) as Gs. destruct (lru_get p (lazy_cache t)) as [hit c'].
  cbn [snd] in Gc, Gi, Gs.
  assert (cache_within m cap {| lazy_index := lazy_index t; lazy_len := lazy_len t;
            lazy_chunk_size := lazy_chunk_size t; lazy_cache := c' |}) as Hw.
  { split; cbn; [done|lia|lia|]. rewrite Forall_forall in Hf |- *. intros e He. by apply Hf, Gi. }
  destruct hit as [sec|]; [by destruct (index sec local)|].
  rewrite stateful_lift_run. cbn [lazy_chunk_size].
  destruct (load_section _ meta segments) as [sec| |] eqn:Hload; [|done|done].
  rewrite stateful_lift_run. destruct (index sec local) as [chunk| |]; [|done|done].
  rewrite stateful_bind_run. cbn. split; [|done]. destruct Hw as [_ Wc Ws Wf]. cbn in *.
  apply index_ok, get_spec in Hmeta as [_ Hmeta].
  pose proof (Forall_lookup_1 _ _ _ _ Hi Hmeta) as Hcount. cbn in Hcount.
  split; cbn; [done| | |].
  - by rewrite lru_put_cap.
  - rewrite <-Wc. apply lru_put_size. lia.
  - rewrite Forall_forall in Wf |- *. intros e [->|He]%lru_put_iter; [|by apply Wf]. cbn.
    pose proof (load_section_size _ _ _ _ (proj1 Hcount) Hload). lia.
Qed.

Lemma sum64_bound m ns :
  Forall (fun n => 0 <= n <= m) ns -> zlen ns * m <= u64_max ->
  returns (fun s => 0 <= s <= zlen ns * m) (sum64 ns).
Proof.
  induction 1 as [|n ns Hn _ IH]; intros Hmax; [done|]. rewrite zlen_cons in *. pose proof (zlen_nonneg ns).
  cbn [sum64]. eapply returns_bind; [apply IH; nia|]. cbn beta. intros s Hs. rewrite add64_ok by nia. cbn. nia.
Qed.

Lemma resident_within m cap t :
  0 < cap -> 0 <= m -> 0 <= size_of_SectionMeta -> 0 <= size_of_Chunk -> cache_within m cap t ->
  zlen (lazy_index t) * size_of_SectionMeta + cap * m * size_of_Chunk <= u64_max -> cap * m <= u64_max ->
  returns (fun n => 0 <= n <= zlen (lazy_index t) * size_of_SectionMeta + cap * m * size_of_Chunk)
    (LazyChunkTable_resident_table_bytes t).
Proof.
  intros Hcap Hm Hsm Hsc [_ _ Hs Hf] Hmax Hsum. pose proof (zlen_nonneg (lazy_index t)).
  set (es := lru_iter (lazy_cache t)) in *. pose proof (zlen_nonneg es).
  assert (zlen (map (fun e : Z * list Chunk => zlen e.2) es) = zlen es) as Hl by (unfold zlen; by rewrite length_map).
  unfold LazyChunkTable_resident_table_bytes. fold es. rewrite mul64_ok by nia. cbn [mbind outcome_bind].
  eapply returns_bind.
  { apply (sum64_bound m).
    - apply List.Forall_map. eapply Forall_impl; [exact Hf|]. cbn beta. intros e He. pose proof (zlen_nonneg e.2). lia.
    - rewrite Hl. nia. }
  cbn beta. rewrite Hl. intros cached Hcached. assert (cached <= cap * m) by nia.
  rewrite mul64_ok by nia. cbn [mbind outcome_bind]. rewrite add64_ok by nia. cbn. nia.
Qed.

(** A new table has an empty cache. *)
Lemma lazy_new_within m chunk_size cache_cap index t :
  Forall (fun meta => 0 <= meta_entry_count meta <= m) index ->
  LazyChunkTable_new index chunk_size cache_cap = Ok t ->
  cache_within m (Z.max cache_cap 1) t /\ lazy_index t = index.
Proof.
  intros Hi. unfold LazyChunkTable_new. match goal with |- (?n ≫= _) = _ -> _ => destruct n as [len| |] end; [|done|done].
  intros <-%Ok_inj. split; [|done]. destruct (lru_new_iter (K:=Z) (V:=list Chunk) (Z.max cache_cap 1)) as [Hnil Hc].
  split; cbn; [done|done| |]; rewrite Hnil; [change (zlen []) with 0; lia|constructor].
Qed.

(** C34: the paged table keeps its promise about memory.  Whatever the segments
    contain and whatever is looked up, found or not, in any order, the paged table
    occupies at most its index plus [cache_cap] sections of the largest declared
    count, without an overflow of the statistic; the flat table occupies every chunk
    of the image. *)
Theorem resident_bounded segments index chunk_size cache_cap m ids t :
  LazyChunkTable_new index chunk_size cache_cap = Ok t ->
  Forall (fun meta => 0 <= meta_entry_count meta <= m) index -> 0 <= m ->
  0 <= size_of_SectionMeta -> 0 <= size_of_Chunk ->
  let cap := Z.max cache_cap 1 in
  let bound := zlen index * size_of_SectionMeta + cap * m * size_of_Chunk in
  bound <= u64_max -> cap * m <= u64_max ->
  returns (fun n => 0 <= n <= bound) (ChunkTable_resident_table_bytes (after_gets segments ids (Lazy t))) /\
  forall v, 0 <= zlen v * size_of_Chunk <= u64_max ->
    ChunkTable_resident_table_bytes (after_gets segments ids (Eager v)) = Ok (zlen v * size_of_Chunk).
Proof.
  intros Hnew Hi Hm Hsm Hsc cap bound Hbound Hsum.
  assert (0 < cap) as Hcap by (unfold cap; lia). split.
  - destruct (lazy_new_within m chunk_size cache_cap index t Hi Hnew) as [Ht Hidx]. fold cap in Ht.
    clear Hnew. subst index. unfold bound in *. clear bound.
    revert t Ht Hi Hbound. induction ids as [|id ids IH]; intros t Ht Hi Hbound; [by apply resident_within|].
    cbn [after_gets ChunkTable_get]. destruct (lazy_get_within m cap id segments t Hcap Ht) as [Hw Heq].
    destruct (LazyChunkTable_get id segments t) as [r t']. cbn [snd] in *. rewrite <-Heq in *. by apply IH.
  - intros v Hv. assert (after_gets segments ids (Eager v) = Eager v) as ->.
    { induction ids as [|id ids IH]; [done|exact IH]. }
    cbn. by rewrite mul64_ok.
Qed.
End Bound.
