(* ===== verification/Path.v ===== *)
(** Unix paths: the part of [std::path] the program uses, on texts. *)

From S2P Require Import Prelude Text.

Definition slash : Z := 47.
Definition dot : Z := 46.

(** The components of a path that are not empty and not a dot. *)
Definition path_components (p : text) : list text :=
  filter (fun c => c <> [] /\ c <> [dot]) (split slash p).

(** [Path::file_name]: the last component, unless it is a double dot. *)
Definition file_name (p : text) : option text :=
  match last (path_components p) with
  | Some c => if text_eqb c [dot; dot] then None else Some c
  | None => None
  end.

(** The last dot of a file name, which a leading dot is not: what is before it
    and what is after it. *)
Definition split_at_dot (name : text) : option (text * text) :=
  match split_once dot (rev name) with
  | Some (after, before) => match before with [] => None | _ => Some (rev before, rev after) end
  | None => None
  end.

Definition file_stem (p : text) : option text :=
  name ← file_name p;
  match split_at_dot name with Some (before, _) => Some before | None => Some name end.

Definition extension (p : text) : option text :=
  name ← file_name p;
  '(_, after) ← split_at_dot name; Some after.

(** [Path::parent] of a path with a file name: what precedes it. *)
Definition drop_trailing_slashes (p : text) : text :=
  match trim_end_matches (Z.eqb slash) p with
  | [] => match p with [] => [] | _ => [slash] end
  | q => q
  end.

Definition parent (p : text) : option text :=
  name ← file_name p;
  let q := trim_end_matches (Z.eqb slash) p in
  Some (drop_trailing_slashes (take (length q - length name) q)).

(** [dir.join(name)] for a relative [name]. *)
Definition path_join (dir name : text) : text :=
  match dir with
  | [] => name
  | _ => if bool_decide (last dir = Some slash) then dir ++ name else dir ++ slash :: name
  end.

(** [p.with_extension(ext)]. *)
Definition with_extension (p ext : text) : text :=
  match file_stem p, parent p with
  | Some stem, Some dir => path_join dir (stem ++ dot :: ext)
  | _, _ => p
  end.

Example paths_example :
  let p := str "/ev/case.1.L01" in
  (file_name p, file_stem p, extension p, parent p, with_extension p (str "L02")) =
  (Some (str "case.1.L01"), Some (str "case.1"), Some (str "L01"), Some (str "/ev"),
   str "/ev/case.1.L02").
Proof. reflexivity. Qed.
