(* ===== verification/Discover.v ===== *)
(** Segment discovery by pattern: [segment_dir], [discover_segments] and the [open]
    entry points of [core/src/reader.rs].

    The [glob] crate is two parameters: [glob_escape] is [Pattern::escape] and
    [glob] yields the entries of a valid pattern, [None] for one that could not be
    read. *)

From Stdlib Require Import Sorted.
From S2P Require Import Prelude Text Extern Types Sections Source ChunkTable Path ReaderOpen.

(** [str::cmp] on code points, which orders like the bytes of UTF-8. *)
Fixpoint text_leb (a b : text) : bool :=
  match a, b with
  | [], _ => true
  | _, [] => false
  | x :: a, y :: b => (x <? y) || ((x =? y) && text_leb a b)
  end.

(** A stable sort by a text. *)
Section SortBy.
Context {A : Type} (key : A -> text).

Fixpoint insert_by (x : A) (l : list A) : list A :=
  match l with
  | [] => [x]
  | y :: l => if text_leb (key x) (key y) then x :: y :: l else y :: insert_by x l
  end.

Definition sort_by (l : list A) : list A := foldr insert_by [] l.
End SortBy.

(** The key of the order of segments: the extension in upper case. *)
Definition upper_extension (p : text) : text := map to_ascii_upper (default [] (extension p)).

Definition segment_dir (first : text) : text :=
  match parent first with
  | Some p => match p with [] => str "." | _ => p end
  | None => str "."
  end.

Lemma text_leb_total a b : text_leb a b = true \/ text_leb b a = true.
Proof.
  revert b. induction a as [|x a IH]; intros [|y b]; cbn; try (by left); [by right|].
  destruct (Z.lt_trichotomy x y) as [Hlt|[->|Hlt]].
  - left. by rewrite (proj2 (Z.ltb_lt x y) Hlt).
  - rewrite Z.ltb_irrefl, Z.eqb_refl. cbn. apply IH.
  - right. by rewrite (proj2 (Z.ltb_lt y x) Hlt).
Qed.

Lemma text_leb_trans a b c : text_leb a b = true -> text_leb b c = true -> text_leb a c = true.
Proof.
  revert b c. induction a as [|x a IH]; intros [|y b] [|z c]; cbn; try done.
  intros Hxy Hyz. apply orb_true_iff in Hxy, Hyz. apply orb_true_iff.
  rewrite !andb_true_iff, !Z.ltb_lt, !Z.eqb_eq in *.
  destruct Hxy as [Hxy|[-> Hab]], Hyz as [Hyz|[-> Hbc]]; [left; lia|by left|by left|right].
  split; [done|by eapply IH].
Qed.

Section SortLemmas.
Context {A : Type} (key : A -> text).
Abbreviation le := (fun a b => text_leb (key a) (key b) = true).

Lemma insert_by_perm x l : insert_by key x l ≡ₚ x :: l.
Proof.
  induction l as [|y l IH]; [done|]. cbn. destruct (text_leb _ _); [done|].
  rewrite IH. constructor.
Qed.

Lemma sort_by_perm l : sort_by key l ≡ₚ l.
Proof. induction l as [|x l IH]; [done|]. cbn. by rewrite insert_by_perm, IH. Qed.

Lemma insert_by_sorted x l : StronglySorted le l -> StronglySorted le (insert_by key x l).
Proof.
  induction l as [|y l IH]; intros Hs; [by repeat constructor|].
  inversion_clear Hs as [|? ? Hl Hy]. cbn. destruct (text_leb (key x) (key y)) eqn:E.
  - constructor; [by constructor|]. constructor; [done|].
    eapply List.Forall_impl; [|exact Hy]. cbn. intros z. by apply text_leb_trans.
  - constructor; [by apply IH|].
    assert (text_leb (key y) (key x) = true) as Hyx by (destruct (text_leb_total (key x) (key y)); congruence).
    rewrite Forall_forall in *. intros z Hz. rewrite insert_by_perm in Hz.
    apply elem_of_cons in Hz as [->|Hz]; [done|by apply Hy].
Qed.

Lemma sort_by_sorted l : StronglySorted le (sort_by key l).
Proof. induction l as [|x l IH]; [constructor|]. by apply insert_by_sorted. Qed.
End SortLemmas.

Section Discover.
Variable glob_escape : text -> text.
Variable glob : text -> option (list (option text)).

(** [if let Ok(entries) = glob(pattern) { paths.extend(entries.filter_map(Result::ok)) }] *)
Definition glob_ok (pattern : text) : list text :=
  match glob pattern with Some entries => omap id entries | None => [] end.

(** The two patterns of a segment set. *)
Definition segment_patterns (dir stem : text) (prefix : Z) (v2 : bool) : list text :=
  let lc := to_ascii_lower prefix in
  let head := dir ++ slash :: glob_escape stem ++ str ".[" ++ prefix :: lc :: str "]"
              ++ (if v2 then str "[x-z]" else []) in
  [head ++ str "[0-9][0-9]"; head ++ str "[A-Za-z][A-Za-z]"].

(** [str::len]: the length in UTF-8. *)
Definition utf8_width (c : Z) : Z :=
  if c <? 128 then 1 else if c <? 2048 then 2 else if c <? 65536 then 3 else 4.
Definition str_len (t : text) : Z := foldr (fun c n => utf8_width c + n) 0 t.

Definition discover_segments (first : text) : res (list text) :=
  match file_stem first with
  | None => Err (NoSegments first)
  | Some stem =>
    let parent := segment_dir first in
    let ext := match extension first with
               | Some [] | None => str "E01"
               | Some e => e
               end in
    let prefix := match ext with c :: _ => to_ascii_upper c | [] => 69 end in
    let paths := concat (map glob_ok (segment_patterns parent stem prefix (str_len ext =? 4))) in
    match paths with
    | [] => Err (NoSegments first)
    | _ => Ok (sort_by upper_extension paths)
    end
  end.

(** Discovery orders the segments.  What it returns is never empty, is a
    permutation of what the two patterns match - in the directory of the path, the
    current one for a bare file name, never the root - and is sorted by extension
    whatever its case. *)
Theorem discover_segments_sorted first l :
  discover_segments first = Ok l ->
  l <> [] /\ StronglySorted (fun a b => text_leb (upper_extension a) (upper_extension b) = true) l /\
  exists stem prefix v2, file_stem first = Some stem /\ segment_dir first <> [] /\
    l ≡ₚ concat (map glob_ok (segment_patterns (segment_dir first) stem prefix v2)).
Proof.
  unfold discover_segments. destruct (file_stem first) as [stem|]; [|done].
  set (ps := concat _). destruct ps as [|p ps'] eqn:Ep; [done|]. rewrite <-Ep.
  intros <-%Ok_inj. split; [|split].
  - intros Hnil. pose proof (sort_by_perm upper_extension ps) as Hp. rewrite Hnil, Ep in Hp.
    by apply Permutation_nil_cons in Hp.
  - apply sort_by_sorted.
  - eexists stem, _, _. split; [done|]. split; [|apply sort_by_perm].
    unfold segment_dir. by destruct (parent first) as [[|c d]|].
Qed.

Section Open.
Context `{SafeRead} `{Zlib} `{Profile} `{Lru Z (list Chunk)} `{Lru Z (list byte)}.
Variable file_open : text -> outcome io_error File.

Definition open_with_cache_size (path : text) (cache_size : Z) : res EwfReader :=
  paths ← discover_segments path; open_segments_with_cache_size text file_open paths cache_size.

Definition open (path : text) : res EwfReader := open_with_cache_size path DEFAULT_LRU_SIZE.

Definition open_lazy (path : text) : res EwfReader :=
  paths ← discover_segments path;
  open_segments_lazy text file_open paths DEFAULT_LRU_SIZE DEFAULT_SECTION_CACHE.
End Open.
End Discover.
