(* ===== verification/Reader.v ===== *)
(** The open reader: chunk decompression, positioned and sequential reads and
    verification, the second half of [core/src/reader.rs].

    A method that takes [&self] and mutates the caches behind their locks is a
    stateful computation over the reader. *)

From S2P Require Import Prelude Text Extern Types Sections Source ChunkTable ReaderOpen.

Section ReaderOps.
Context `{SafeRead} `{Zlib} `{Profile} `{Lru Z (list Chunk)} `{Lru Z (list byte)}.

Definition set_r_chunks (t : ChunkTable) (r : EwfReader) : EwfReader :=
  {| r_segments := r_segments r; r_chunks := t; r_chunk_size := r_chunk_size r;
     r_total_size := r_total_size r; r_position := r_position r; r_cache := r_cache r;
     r_stored_md5 := r_stored_md5 r; r_stored_sha1 := r_stored_sha1 r;
     r_metadata := r_metadata r; r_acquisition_errors := r_acquisition_errors r |}.
Definition set_r_cache (c : lru Z (list byte)) (r : EwfReader) : EwfReader :=
  {| r_segments := r_segments r; r_chunks := r_chunks r; r_chunk_size := r_chunk_size r;
     r_total_size := r_total_size r; r_position := r_position r; r_cache := c;
     r_stored_md5 := r_stored_md5 r; r_stored_sha1 := r_stored_sha1 r;
     r_metadata := r_metadata r; r_acquisition_errors := r_acquisition_errors r |}.
Definition set_r_position (p : Z) (r : EwfReader) : EwfReader :=
  {| r_segments := r_segments r; r_chunks := r_chunks r; r_chunk_size := r_chunk_size r;
     r_total_size := r_total_size r; r_position := p; r_cache := r_cache r;
     r_stored_md5 := r_stored_md5 r; r_stored_sha1 := r_stored_sha1 r;
     r_metadata := r_metadata r; r_acquisition_errors := r_acquisition_errors r |}.

Definition chunk_count_of (r : EwfReader) : Z := ChunkTable_len (r_chunks r).

Definition is_lazy (r : EwfReader) : bool :=
  match r_chunks r with Eager _ => false | Lazy _ => true end.

Definition stored_hashes (r : EwfReader) : StoredHashes :=
  {| stored_hashes_md5 := r_stored_md5 r; stored_hashes_sha1 := r_stored_sha1 r |}.

(** [self.chunks.get(chunk_id, &self.segments)] *)
Definition reader_get_chunk (chunk_id : Z) : stateful EwfReader ewf_error Chunk := fun r =>
  let '(c, t) := ChunkTable_get chunk_id (r_segments r) (r_chunks r) in (c, set_r_chunks t r).

(** [debug_chunk]: offset, size, compressed flag and segment of a chunk. *)
Definition debug_chunk (idx : Z) : stateful EwfReader ewf_error (Z * Z * bool * Z) :=
  c ← reader_get_chunk idx;
  mret (Chunk_offset c, Chunk_size c, Chunk_compressed c, Chunk_segment_idx c).

(** The decoder loop.  [out] holds the bytes written to the page so far; running
    out of fuel is a [Panic]. *)
Fixpoint inflate_loop (fuel : nat) (d : zdecoder) (page_len : Z) (out : list byte)
    : res (list byte) :=
  match fuel with
  | O => Panic
  | S fuel =>
    if page_len <? zlen out then Panic
    else
      match zlib_read d (page_len - zlen out) with
      | None => Err Decompression
      | Some ([], _) => Ok out
      | Some (bs, d) => inflate_loop fuel d page_len (out ++ bs)
      end
  end.

(** The body of [decompress_chunk] after the table lookup. *)
Definition decode_page (segments : list SegmentSource) (chunk_size chunk_id : Z)
    (chunk : Chunk) : res (list byte) :=
  src ← ok_or (Parse (ChunkSegmentMissing chunk_id (Chunk_segment_idx chunk)))
          (get segments (Chunk_segment_idx chunk));
  if Chunk_compressed chunk then
    compressed ← from_io (SegmentSource_read_at src (Chunk_size chunk) (Chunk_offset chunk));
    out ← inflate_loop (S (S (Z.to_nat chunk_size))) (zlib_new compressed) chunk_size [];
    Ok (zero_filled chunk_size out)
  else
    let to_read := Z.min (Chunk_size chunk) chunk_size in
    bs ← from_io (SegmentSource_read_at src to_read (Chunk_offset chunk));
    if zlen bs <? to_read then Err (Io UnexpectedEof)
    else Ok (zero_filled chunk_size bs).

Definition decompress_chunk (chunk_id : Z) : stateful EwfReader ewf_error (list byte) := fun r =>
  (_ ← lift (vec_zeroed (r_chunk_size r));
   chunk ← reader_get_chunk chunk_id;
   lift (decode_page (r_segments r) (r_chunk_size r) chunk_id chunk)) r.

Definition reader_cache_op {A} (f : lru Z (list byte) -> A * lru Z (list byte))
    : stateful EwfReader ewf_error A :=
  with_state (fun r => let '(a, c) := f (r_cache r) in (a, set_r_cache c r)).

Definition read_chunk (chunk_id : Z) : stateful EwfReader ewf_error (list byte) :=
  cached ← reader_cache_op (lru_get chunk_id);
  match cached with
  | Some page => mret page
  | None =>
    page ← decompress_chunk chunk_id;
    _ ← reader_cache_op (fun c => (tt, lru_put chunk_id page c));
    mret page
  end.

(** The loop of [read_at] for a buffer of [n] bytes, [got] being its filled
    part.  Running out of fuel, and a zero chunk size (a remainder by zero), are
    a [Panic]. *)
Fixpoint read_at_loop (fuel : nat) (n off : Z) (got : list byte)
    : stateful EwfReader ewf_error (list byte) :=
  match fuel with
  | O => lift Panic
  | S fuel => fun r =>
    if r_chunk_size r =? 0 then (Panic, r)
    else
      let remaining_image := sat_sub (r_total_size r) off in
      let remaining_buf := n - zlen got in
      let in_chunk := r_chunk_size r - off mod r_chunk_size r in
      let to_read := Z.min (Z.min in_chunk remaining_image) remaining_buf in
      if to_read =? 0 then (Ok got, r)
      else
        (page ← read_chunk (off / r_chunk_size r);
         let page_offset := off mod r_chunk_size r in
         bs ← lift (index_range page page_offset (page_offset + to_read));
         off ← lift (add64 off to_read);
         read_at_loop fuel n off (got ++ bs)) r
  end.

Definition read_at (n off : Z) : stateful EwfReader ewf_error (list byte) :=
  read_at_loop (S (Z.to_nat n)) n off [].

(** [impl Read]: an error of [read_at] becomes [io::Error::other]. *)
Definition reader_read (n : Z) : stateful EwfReader io_error (list byte) := fun r =>
  match read_at n (r_position r) r with
  | (Ok bs, r) =>
    (pos ← lift (add64 (r_position r) (zlen bs));
     _ ← with_state (fun r => (tt, set_r_position pos r));
     mret bs) r
  | (Err _, r) => (Err OtherIo, r)
  | (Panic, r) => (Panic, r)
  end.

Definition reader_seek (p : SeekFrom) : stateful EwfReader io_error Z := fun r =>
  (new_pos ← lift (match p with
                   | Start p => Ok (as_i64 p)
                   | End_ p => add_i64 (as_i64 (r_total_size r)) p
                   | Current p => add_i64 (as_i64 (r_position r)) p
                   end);
   if new_pos <? 0 then lift (Err InvalidInput)
   else with_state (fun r => (new_pos, set_r_position new_pos r))) r.

(** ** Verification *)

(** [into_par_iter().map(f)]: the outcome of every item; the reader's locks
    serialize the accesses to its caches. *)
Fixpoint map_each {A B} (f : A -> stateful EwfReader ewf_error B) (l : list A)
    (r : EwfReader) : list (res B) * EwfReader :=
  match l with
  | [] => ([], r)
  | a :: l =>
    let '(b, r) := f a r in
    let '(bs, r) := map_each f l r in
    (b :: bs, r)
  end.

(** The pages of a batch fed to the hashers: [data] is what they were given, of
    [hashed] bytes. *)
Fixpoint hash_pages (total_size : Z) (pages : list (list byte)) (data : list byte)
    (hashed : Z) : res (list byte * Z) :=
  match pages with
  | [] => Ok (data, hashed)
  | page :: pages =>
    let remaining := sat_sub total_size hashed in
    let take_ := Z.min (zlen page) remaining in
    hashed ← add64 hashed take_;
    hash_pages total_size pages (data ++ ztake take_ page) hashed
  end.

Section Verify.
Context `{Digests} `{Rayon}.

(** [for start in (0..chunk_count).step_by(batch)]; [fuel] bounds the batches. *)
Fixpoint verify_batches (fuel : nat) (start chunk_count batch : Z) (data : list byte)
    (hashed : Z) : stateful EwfReader ewf_error (list byte) :=
  match fuel with
  | O => lift Panic
  | S fuel =>
    if chunk_count <=? start then mret data
    else fun r =>
      match add64 start batch with
      | Ok sum =>
        let end_ := Z.min sum chunk_count in
        let '(outcomes, r) := map_each decompress_chunk (range start end_) r in
        (pages ← lift (par_collect outcomes);
         '(data, hashed) ← lift (hash_pages (r_total_size r) pages data hashed);
         verify_batches fuel (start + batch) chunk_count batch data hashed) r
      | Err e => (Err e, r)
      | Panic => (Panic, r)
      end
  end.

Definition verify : stateful EwfReader ewf_error VerifyResult := fun r =>
  let chunk_count := chunk_count_of r in
  let batch := Z.max (sat_mul current_num_threads 4) 1 in
  (data ← verify_batches (S (Z.to_nat chunk_count)) 0 chunk_count batch [] 0;
   let computed_md5 := md5 data in
   let computed_sha1 := match r_stored_sha1 r with Some _ => Some (sha1 data) | None => None end in
   addressable ← lift (mul64 (r_chunk_size r) chunk_count);
   mret {| computed_md5 := computed_md5;
           computed_sha1 := computed_sha1;
           md5_match := (fun stored => bool_decide (stored = computed_md5)) <$> r_stored_md5 r;
           sha1_match :=
             match r_stored_sha1 r, computed_sha1 with
             | Some stored, Some computed => Some (bool_decide (stored = computed))
             | _, _ => None
             end;
           addressable_bytes := addressable;
           declared_bytes := r_total_size r |}) r.
End Verify.
End ReaderOps.

(** * The media an open reader serves

    A table presents the chunks [cs] when it holds them, flat, or when it is
    the paged form of sections that store them. *)

Section View.
Context `{SafeRead} `{Profile} `{LruLaws Z (list Chunk)}.

Inductive table_presents (segments : list SegmentSource) : ChunkTable -> list Chunk -> Prop :=
| presents_eager v : table_presents segments (Eager v) v
| presents_lazy contents css chunk_size t :
    Forall2 serves segments contents -> lazy_implements css chunk_size contents t ->
    table_presents segments (Lazy t) (concat css).

Lemma table_presents_len segments t cs : table_presents segments t cs -> ChunkTable_len t = zlen cs.
Proof.
  intros [v|contents css size l Hs [Hi Hl Hsz Hst Hc]]; [done|]. cbn.
  destruct (concat_sections _ _ _ _ _ Hi Hst) as [He _]. lia.
Qed.

Lemma table_presents_get segments t cs id :
  table_presents segments t cs -> 0 <= id ->
  exists t', ChunkTable_get id segments t =
             (ok_or (Parse (ChunkIdOutOfRange id (zlen cs))) (get cs id), t') /\
             table_presents segments t' cs.
Proof.
  intros [v|contents css size l Hs Hi] Hid.
  - exists (Eager v). split; [done|constructor].
  - cbn. pose proof (lazy_get_implements _ _ _ _ _ id Hs Hi Hid) as Hget.
    destruct (LazyChunkTable_get id segments l) as [c t']. destruct Hget as [-> Ht'].
    exists (Lazy t'). split; [done|]. by econstructor.
Qed.
End View.

Section ReaderLemmas.
Context `{SafeRead} `{ZlibLaws} `{Profile} `{LruLaws Z (list Chunk)} `{LruLaws Z (list byte)}.

(** The page of chunk [id] over the chunks [cs]: what a decoder without any cache
    yields. *)
Definition page_of (segments : list SegmentSource) (chunk_size : Z) (cs : list Chunk) (id : Z)
    : res (list byte) :=
  chunk ← ok_or (Parse (ChunkIdOutOfRange id (zlen cs))) (get cs id);
  decode_page segments chunk_size id chunk.

(** What stays fixed while a reader serves reads. *)
Record image := {
  im_segments : list SegmentSource;
  im_chunk_size : Z;
  im_total_size : Z;
  im_chunks : list Chunk;
  im_md5 : option (list byte);
  im_sha1 : option (list byte);
}.

Definition im_page (im : image) (id : Z) : res (list byte) :=
  page_of (im_segments im) (im_chunk_size im) (im_chunks im) id.

(** The reader presents the image, at position [pos]: every cached page is the
    page of its chunk. *)
Record presents (im : image) (pos : Z) (r : EwfReader) : Prop := {
  pr_segments : r_segments r = im_segments im;
  pr_chunk_size : r_chunk_size r = im_chunk_size im;
  pr_total_size : r_total_size r = im_total_size im;
  pr_position : r_position r = pos;
  pr_md5 : r_stored_md5 r = im_md5 im;
  pr_sha1 : r_stored_sha1 r = im_sha1 im;
  pr_table : table_presents (im_segments im) (r_chunks r) (im_chunks im);
  pr_cache id page : fst (lru_get id (r_cache r)) = Some page -> im_page im id = Ok page;
}.

Definition image_wf (im : image) : Prop :=
  0 < im_chunk_size im <= i64_max /\ 0 <= im_total_size im <= u64_max.

(** A stateful computation over a reader of the image returns [m] and leaves a
    reader of the same image at [pos']. *)
Definition serves_as {E A} (im : image) (pos : Z) (c : stateful EwfReader E A)
    (m : outcome E A) (pos' : Z) : Prop :=
  forall r, presents im pos r -> exists r', c r = (m, r') /\ presents im pos' r'.

Lemma serves_as_bind {E A B} im pos (c : stateful EwfReader E A) (f : A -> stateful EwfReader E B) m m' :
  serves_as im pos c m pos ->
  (forall a, m = Ok a -> serves_as im pos (f a) (m' a) pos) ->
  serves_as im pos (c ≫= f) (m ≫= m') pos.
Proof.
  intros Hc Hf r Hr. destruct (Hc r Hr) as (r' & Hrun & Hr').
  rewrite stateful_bind_run, Hrun. destruct m as [a| |]; cbn; eauto.
  by apply Hf.
Qed.

Lemma serves_as_lift {E A} im pos (m : outcome E A) : serves_as im pos (lift m) m pos.
Proof. intros r Hr. by exists r. Qed.

Lemma get_chunk_serves im pos id :
  0 <= id ->
  serves_as im pos (reader_get_chunk id)
    (ok_or (Parse (ChunkIdOutOfRange id (zlen (im_chunks im)))) (get (im_chunks im) id)) pos.
Proof.
  intros Hid r Hr. destruct Hr as []. unfold reader_get_chunk.
  rewrite pr_segments0. destruct (table_presents_get _ _ _ id pr_table0 Hid) as (t' & -> & Ht').
  eexists. split; [done|]. by constructor.
Qed.

Lemma decompress_chunk_serves im pos id :
  image_wf im -> 0 <= id -> serves_as im pos (decompress_chunk id) (im_page im id) pos.
Proof.
  intros [Hcs _] Hid r Hr. unfold decompress_chunk. rewrite stateful_lift_run.
  unfold vec_zeroed. rewrite (pr_chunk_size _ _ _ Hr), (proj2 (Z.leb_le _ i64_max)) by lia.
  revert r Hr.
  assert (Hs : serves_as im pos
    (chunk ← reader_get_chunk id; lift (decode_page (im_segments im) (im_chunk_size im) id chunk))
    (im_page im id) pos).
  { apply serves_as_bind; [by apply get_chunk_serves|]. intros c _. apply serves_as_lift. }
  intros r Hr. rewrite (pr_segments _ _ _ Hr). by apply Hs.
Qed.

Lemma cache_get_serves im pos id r :
  presents im pos r ->
  exists r', reader_cache_op (lru_get id) r = (Ok (fst (lru_get id (r_cache r))), r') /\
             presents im pos r'.
Proof.
  intros []. unfold reader_cache_op, with_state.
  destruct (lru_get id (r_cache r)) as [hit c] eqn:E. eexists. split; [done|].
  constructor; try done. cbn. intros id' page.
  replace c with (snd (lru_get id (r_cache r))) by by rewrite E. rewrite lru_get_get. apply pr_cache0.
Qed.

Lemma cache_put_serves im pos id page :
  im_page im id = Ok page ->
  serves_as im pos (reader_cache_op (fun c => (tt, lru_put id page c))) (Ok tt) pos.
Proof.
  intros Hp r []. eexists. split; [done|]. constructor; try done. cbn.
  intros id' page' Hget. apply lru_get_put in Hget as [[-> ->]|Hget]; [done|by apply pr_cache0].
Qed.

(** The cache is transparent. *)
Lemma read_chunk_serves im pos id :
  image_wf im -> 0 <= id -> serves_as im pos (read_chunk id) (im_page im id) pos.
Proof.
  intros Hwf Hid r Hr. unfold read_chunk. rewrite stateful_bind_run.
  pose proof (pr_cache _ _ _ Hr id) as Hhit.
  destruct (cache_get_serves im pos id r Hr) as (r' & -> & Hr').
  destruct (fst (lru_get id (r_cache r))) as [page|].
  { specialize (Hhit page eq_refl). exists r'. by rewrite Hhit. }
  clear Hhit Hr r. revert r' Hr'.
  assert (im_page im id = (page ← im_page im id; _ ← Ok tt; Ok page)) as Heq.
  { by destruct (im_page im id). }
  rewrite Heq. apply serves_as_bind; [by apply decompress_chunk_serves|]. intros page Hpage.
  apply serves_as_bind; [by apply cache_put_serves|]. intros _ _. apply serves_as_lift.
Qed.

(** ** A page is exactly one chunk long *)

Lemma inflate_loop_returns fuel d page_len out :
  zlen out <= page_len -> page_len - zlen out < Z.of_nat fuel ->
  returns (fun out' => zlen out' <= page_len) (inflate_loop fuel d page_len out).
Proof.
  revert d out. induction fuel as [|fuel IH]; intros d out Hout Hfuel; [lia|].
  cbn [inflate_loop]. rewrite (proj2 (Z.ltb_ge _ _)) by lia.
  destruct (zlib_read d _) as [[bs d']|] eqn:E; [|done]. destruct bs as [|b bs]; [done|].
  apply zlib_read_bound in E. rewrite zlen_cons in E. pose proof (zlen_nonneg bs).
  apply IH; rewrite zlen_app, zlen_cons; lia.
Qed.

Lemma zlen_zero_filled n bs : zlen bs <= n -> zlen (zero_filled n bs) = n.
Proof. intros. unfold zero_filled. rewrite zlen_app, zlen_zeros. lia. Qed.

Lemma decode_page_returns segments chunk_size id chunk :
  Forall served segments -> 0 <= chunk_size -> chunk_wf chunk ->
  returns (fun page => zlen page = chunk_size) (decode_page segments chunk_size id chunk).
Proof.
  intros Hs Hcs Hc. unfold decode_page. unfold chunk_wf in Hc. unfold Chunk_size.
  eapply returns_bind; [apply returns_ok_or|]. cbn beta. intros src Hsrc.
  assert (served src) as Hsv.
  { apply get_spec in Hsrc as [_ Hsrc]. rewrite Forall_forall in Hs.
    apply Hs. by eapply list_elem_of_lookup_2. }
  assert (0 <= Chunk_offset chunk <= u64_max) as Ho.
  { unfold Chunk_offset. rewrite land_not_compressed.
    pose proof (Z.mod_pos_bound (offset_packed chunk) (2 ^ 63)). lia. }
  destruct (Chunk_compressed chunk).
  - eapply returns_bind; [apply returns_from_io, source_read_returns; [done|lia|done]|].
    cbn beta. intros comp _. eapply returns_bind.
    { apply inflate_loop_returns; rewrite zlen_nil; lia. }
    intros out Hout. cbn. by apply zlen_zero_filled.
  - eapply returns_bind; [apply returns_from_io, source_read_returns; [done|lia|done]|].
    cbn beta. intros bs Hbs. destruct (_ <? _); [done|]. cbn. apply zlen_zero_filled. lia.
Qed.

(** The image is backed by real segments and its chunk records are records. *)
Record image_ok (im : image) : Prop := {
  io_wf : image_wf im;
  io_served : Forall served (im_segments im);
  io_chunks : Forall chunk_wf (im_chunks im);
}.

Lemma im_page_returns im id :
  image_ok im -> returns (fun page => zlen page = im_chunk_size im) (im_page im id).
Proof.
  intros [[Hcs _] Hs Hch]. unfold im_page, page_of.
  eapply returns_bind; [apply returns_ok_or|]. cbn beta. intros c Hc.
  apply decode_page_returns; [done|lia|]. apply get_spec in Hc as [_ Hc].
  rewrite Forall_forall in Hch. apply Hch. by eapply list_elem_of_lookup_2.
Qed.

(** ** Positioned reads *)

(** The bytes a read of [n] bytes at [off] can return. *)
Definition read_len (im : image) (n off : Z) : Z := Z.min n (sat_sub (im_total_size im) off).

(** The specification of [read_at]: the window of the concatenated pages of the
    chunks it touches, or the first error among those pages. *)
Definition read_spec (im : image) (n off : Z) : res (list byte) :=
  let len := read_len im n off in
  let cs := im_chunk_size im in
  if len =? 0 then Ok []
  else
    pages ← mapM (im_page im) (range (off / cs) ((off + len - 1) / cs + 1));
    Ok (ztake len (zdrop (off mod cs) (concat pages))).

Lemma range_cons a b : a < b -> range a b = a :: range (a + 1) b.
Proof. intros. unfold range. rewrite seqZ_cons by lia. f_equal. f_equal; lia. Qed.

Lemma range_nil a b : b <= a -> range a b = [].
Proof. intros. unfold range. apply seqZ_nil. lia. Qed.

Lemma div_same_chunk cs off len :
  0 < cs -> 0 < len -> len <= cs - off mod cs -> (off + len - 1) / cs = off / cs.
Proof.
  intros Hcs Hlen Hle. pose proof (Z.div_mod off cs). pose proof (Z.mod_pos_bound off cs).
  symmetry. apply Z.div_unique with (off mod cs + len - 1); lia.
Qed.

Lemma next_chunk cs off :
  0 < cs -> let off' := off + (cs - off mod cs) in
  off' / cs = off / cs + 1 /\ off' mod cs = 0.
Proof.
  intros Hcs off'. pose proof (Z.div_mod off cs).
  assert (off' = (off / cs + 1) * cs) as -> by (unfold off'; lia).
  rewrite Z.div_mul, Z.mod_mul by lia. done.
Qed.

(** One round of the loop. *)
Lemma read_spec_step im n off :
  image_ok im -> 0 <= off -> 0 < read_len im n off ->
  let cs := im_chunk_size im in
  let k := Z.min (cs - off mod cs) (read_len im n off) in
  read_spec im n off =
  (page ← im_page im (off / cs);
   rest ← read_spec im (n - k) (off + k);
   Ok (ztake k (zdrop (off mod cs) page) ++ rest)).
Proof.
  intros Hok Ho Hlen cs k. pose proof (io_wf _ Hok) as [Hcs _]. fold cs in Hcs.
  pose proof (Z.mod_pos_bound off cs ltac:(lia)) as Hmod. pose proof (Z.div_mod off cs ltac:(lia)) as Hdm.
  unfold read_spec. fold cs. rewrite (proj2 (Z.eqb_neq (read_len im n off) 0)) by lia.
  assert (off / cs <= (off + read_len im n off - 1) / cs) as Hdiv by (apply Z.div_le_mono; lia).
  rewrite range_cons by lia. cbn [mapM].
  assert (read_len im (n - k) (off + k) = read_len im n off - k) as Hrest.
  { unfold read_len, sat_sub in *. lia. }
  rewrite Hrest.
  pose proof (im_page_returns im (off / cs) Hok) as Hpage. fold cs in Hpage.
  destruct (im_page im (off / cs)) as [page| |]; [|done|done]. cbn [returns mbind outcome_bind] in *.
  destruct (decide (read_len im n off <= cs - off mod cs)) as [Hle|Hgt].
  - assert (k = read_len im n off) as Hk by (unfold k; lia).
    rewrite (proj2 (Z.eqb_eq (read_len im n off - k) 0)) by lia.
    rewrite div_same_chunk, range_nil by lia. cbn [mapM mbind outcome_bind mret outcome_ret concat].
    by rewrite !app_nil_r, Hk.
  - assert (k = cs - off mod cs) as Hk by (unfold k; lia).
    rewrite (proj2 (Z.eqb_neq (read_len im n off - k) 0)) by lia.
    destruct (next_chunk cs off ltac:(lia)) as [Hd Hm]. rewrite <-Hk in Hd, Hm. rewrite Hd, Hm.
    replace (off + k + (read_len im n off - k) - 1) with (off + read_len im n off - 1) by lia.
    destruct (mapM (im_page im) _) as [ps| |]; [|done|done].
    cbn [mbind outcome_bind mret outcome_ret concat]. f_equal.
    rewrite zdrop_app_le by lia. rewrite ztake_app_ge by (rewrite zlen_zdrop; lia).
    rewrite zlen_zdrop. replace (Z.max 0 (zlen page - Z.max 0 (off mod cs))) with k by lia.
    rewrite zdrop_0. f_equal. rewrite ztake_all by (rewrite zlen_zdrop; lia). done.
Qed.

Lemma read_spec_empty im n off : read_len im n off = 0 -> read_spec im n off = Ok [].
Proof. intros Hl. unfold read_spec. by rewrite Hl. Qed.

Lemma read_spec_no_panic im n off : image_ok im -> no_panic (read_spec im n off).
Proof.
  intros Hok. unfold read_spec. destruct (_ =? 0); [done|].
  eapply (returns_no_panic (fun _ => True)), returns_bind; [|done].
  apply (returns_mapM (fun _ => True) (fun _ => True)); [|by apply Forall_true].
  intros id _. eapply returns_weaken; [by apply im_page_returns|done].
Qed.

Lemma read_at_loop_serves im pos fuel n off got :
  image_ok im -> 0 <= off <= u64_max -> zlen got <= n -> n - zlen got < Z.of_nat fuel ->
  serves_as im pos (read_at_loop fuel n off got)
    (rest ← read_spec im (n - zlen got) off; Ok (got ++ rest)) pos.
Proof.
  intros Hok. pose proof (io_wf _ Hok) as [Hcs Hts]. revert off got.
  induction fuel as [|fuel IH]; intros off got Ho Hgot Hfuel; [lia|].
  intros r Hr. cbn [read_at_loop]. rewrite (pr_chunk_size _ _ _ Hr), (pr_total_size _ _ _ Hr).
  rewrite (proj2 (Z.eqb_neq (im_chunk_size im) 0)) by lia.
  pose proof (Z.mod_pos_bound off (im_chunk_size im) ltac:(lia)) as Hmod.
  rewrite <-Z.min_assoc, (Z.min_comm (sat_sub _ _)). fold (read_len im (n - zlen got) off).
  set (k := Z.min _ _). assert (0 <= read_len im (n - zlen got) off) as Hl.
  { unfold read_len, sat_sub. lia. }
  destruct (k =? 0) eqn:Ek; bool_hyps.
  { rewrite read_spec_empty by lia. cbn. rewrite app_nil_r. eauto. }
  rewrite read_spec_step by (done || lia). fold k. revert r Hr.
  rewrite outcome_bind_assoc. apply serves_as_bind.
  { apply read_chunk_serves; [by split|]. apply Z.div_pos; lia. }
  intros page Hpage. pose proof (im_page_returns im (off / im_chunk_size im) Hok) as Hlen.
  rewrite Hpage in Hlen. cbn [returns] in Hlen.
  assert (zlen (ztake k (zdrop (off mod im_chunk_size im) page)) = k) as Hk.
  { rewrite zlen_ztake, zlen_zdrop. lia. }
  intros r Hr. rewrite stateful_lift_run. unfold index_range. rewrite slice_some by lia.
  replace (off mod im_chunk_size im + k - off mod im_chunk_size im) with k by lia.
  cbn [or_panic]. rewrite stateful_lift_run.
  assert (off + k <= im_total_size im) as Hend by (unfold k, read_len, sat_sub in *; lia).
  rewrite add64_ok by lia.
  destruct (IH (off + k) (got ++ ztake k (zdrop (off mod im_chunk_size im) page))
              ltac:(lia) ltac:(rewrite zlen_app; unfold k, read_len in *; lia)
              ltac:(rewrite zlen_app; lia) r Hr) as (r' & -> & Hr').
  exists r'. split; [|done]. f_equal. rewrite zlen_app, Hk.
  replace (n - (zlen got + k)) with (n - zlen got - k) by lia.
  destruct (read_spec im (n - zlen got - k) (off + k)); cbn; [|done|done]. by rewrite <-app_assoc.
Qed.

Lemma read_at_serves im pos r n off :
  image_ok im -> presents im pos r -> 0 <= n -> 0 <= off <= u64_max ->
  exists r', read_at n off r = (read_spec im n off, r') /\ presents im pos r' /\
             no_panic (read_spec im n off).
Proof.
  intros Hok Hr Hn Ho. pose proof (zlen_nil (A:=byte)) as Hz.
  destruct (read_at_loop_serves im pos (S (Z.to_nat n)) n off [] Hok Ho ltac:(lia) ltac:(lia) r Hr)
    as (r' & Hrun & Hr').
  exists r'. unfold read_at. rewrite Hrun, Hz, Z.sub_0_r. split; [|split; [done|]].
  - by destruct (read_spec im n off).
  - apply read_spec_no_panic. done.
Qed.

(** C1: positioned reads.  On a reader of an image, [read_at] returns the window
    of the media at the requested offset, cut at the declared media size, or the
    error of the first undecodable chunk the window touches.  The answer is a
    function of the image alone: it depends neither on the cached pages nor on
    the cache capacity nor on the form of the chunk table nor on earlier reads,
    and the read leaves a reader of the same image.  It never panics. *)
Theorem read_at_spec im pos r n off :
  image_ok im -> presents im pos r -> 0 <= n -> 0 <= off <= u64_max ->
  exists r', read_at n off r = (read_spec im n off, r') /\ presents im pos r' /\
             no_panic (read_spec im n off).
Proof. apply read_at_serves. Qed.

(** ** The media *)

Definition im_count (im : image) : Z := zlen (im_chunks im).

Definition all_pages (im : image) : res (list (list byte)) := mapM (im_page im) (range 0 (im_count im)).

(** The media of an image whose pages are [pages]. *)
Definition media (im : image) (pages : list (list byte)) : list byte :=
  ztake (im_total_size im) (concat pages).

Lemma all_pages_length im pages :
  image_ok im -> all_pages im = Ok pages ->
  zlen pages = im_count im /\ Forall (fun p => zlen p = im_chunk_size im) pages.
Proof.
  intros Hok Hp.
  assert (returns (fun ps => length ps = length (range 0 (im_count im)) /\
            Forall (fun p => zlen p = im_chunk_size im) ps) (all_pages im)) as Hret.
  { apply (returns_mapM (fun _ => True)); [|by apply Forall_true].
    intros id _. by apply im_page_returns. }
  rewrite Hp in Hret. destruct Hret as [Hl Hf]. split; [|done].
  unfold zlen. rewrite Hl. unfold range. rewrite length_seqZ. unfold im_count, zlen. lia.
Qed.

(** The chunks of a range, in an image all of whose pages decode. *)
Lemma mapM_range_sub {A} (f : Z -> res A) n ps a b :
  mapM f (range 0 n) = Ok ps -> 0 <= a <= b -> b <= n ->
  mapM f (range a b) = Ok (ztake (b - a) (zdrop a ps)).
Proof.
  intros Hm Hab Hbn. apply mapM_outcome_ok in Hm. apply mapM_outcome_ok.
  assert (range a b = ztake (b - a) (zdrop a (range 0 n))) as ->.
  { unfold range. rewrite Z.sub_0_r. apply list_eq. intros i. unfold ztake, zdrop.
    destruct (decide (Z.of_nat i < b - a)) as [Hi|Hi].
    - rewrite lookup_take_lt, lookup_drop by lia.
      rewrite !lookup_seqZ_lt by lia. f_equal. lia.
    - rewrite lookup_seqZ_ge by lia. symmetry. apply lookup_take_ge. lia. }
  unfold ztake, zdrop. apply Forall2_take, Forall2_drop, Hm.
Qed.

Lemma concat_pages_window cs a m (ps : list (list byte)) :
  Forall (fun p => zlen p = cs) ps -> 0 <= a -> 0 <= m -> 0 <= cs ->
  concat (ztake m (zdrop a ps)) = ztake (m * cs) (zdrop (a * cs) (concat ps)).
Proof.
  intros Hf Ha Hm Hcs. unfold ztake at 1, zdrop at 1.
  replace m with (Z.of_nat (Z.to_nat m)) at 2 by lia.
  replace a with (Z.of_nat (Z.to_nat a)) at 2 by lia.
  generalize (Z.to_nat a) as a', (Z.to_nat m) as m'. clear a m Ha Hm.
  intros a'. revert ps Hf. induction a' as [|a' IH]; intros ps Hf m'.
  - rewrite drop_0, Z.mul_0_l, zdrop_0. revert ps Hf.
    induction m' as [|m' IHm]; intros ps Hf; [by rewrite Z.mul_0_l, ztake_0|].
    destruct Hf as [|p ps Hp Hf]; [cbn; unfold ztake; by rewrite take_nil|].
    cbn [take concat]. rewrite (IHm ps Hf). rewrite ztake_app_ge by nia.
    do 2 f_equal. nia.
  - destruct Hf as [|p ps Hp Hf].
    + cbn. rewrite take_nil. cbn. unfold ztake, zdrop. by rewrite drop_nil, take_nil.
    + cbn [drop concat]. rewrite (IH ps Hf m'). rewrite (zdrop_app_ge _ p) by nia. f_equal.
      f_equal. nia.
Qed.

Lemma zlen_concat_pages cs (ps : list (list byte)) :
  Forall (fun p => zlen p = cs) ps -> zlen (concat ps) = zlen ps * cs.
Proof.
  induction 1 as [|p ps Hp _ IH]; [done|]. cbn. rewrite zlen_app, zlen_cons, IH. lia.
Qed.

Lemma read_spec_length im n off :
  image_ok im -> 0 <= n -> 0 <= off ->
  returns (fun bs => zlen bs = read_len im n off) (read_spec im n off).
Proof.
  intros Hok Hn Ho. pose proof (io_wf _ Hok) as [Hcs Hts]. unfold read_spec.
  assert (0 <= read_len im n off) by (unfold read_len, sat_sub; lia).
  destruct (_ =? 0) eqn:E; bool_hyps; [cbn; by rewrite E|].
  set (cs := im_chunk_size im) in *. set (len := read_len im n off) in *.
  eapply returns_bind.
  { apply (returns_mapM (fun _ => True) (fun p => zlen p = cs)); [|by apply Forall_true].
    intros id _. by apply im_page_returns. }
  intros ps [Hl Hf]. cbn. rewrite zlen_ztake, zlen_zdrop, (zlen_concat_pages cs) by done.
  unfold zlen. rewrite Hl. unfold range. rewrite length_seqZ.
  pose proof (Z.mod_pos_bound off cs ltac:(lia)). pose proof (Z.div_mod off cs ltac:(lia)).
  pose proof (Z.div_mod (off + len - 1) cs ltac:(lia)).
  pose proof (Z.mod_pos_bound (off + len - 1) cs ltac:(lia)).
  pose proof (Z.div_le_mono off (off + len - 1) cs ltac:(lia) ltac:(lia)).
  rewrite Z2Nat.id by lia. nia.
Qed.

Lemma read_spec_media im pages n off :
  image_ok im -> all_pages im = Ok pages -> 0 <= n -> 0 <= off ->
  im_total_size im <= im_chunk_size im * im_count im ->
  read_spec im n off = Ok (ztake n (zdrop off (media im pages))).
Proof.
  intros Hok Hp Hn Ho Htot. pose proof (io_wf _ Hok) as [Hcs Hts].
  destruct (all_pages_length _ _ Hok Hp) as [Hlen Hf].
  pose proof (zlen_concat_pages _ _ Hf) as Hcat.
  assert (Hw : ztake n (zdrop off (media im pages)) =
    ztake (read_len im n off) (zdrop off (concat pages))).
  { unfold media, read_len, sat_sub, ztake, zdrop.
    rewrite skipn_firstn_comm, take_take. f_equal. lia. }
  rewrite Hw. destruct (decide (read_len im n off = 0)) as [Hz|Hz].
  { rewrite read_spec_empty, Hz by done. done. }
  set (len := read_len im n off) in *. assert (0 < len /\ off + len <= im_total_size im) as [Hl0 Hend].
  { unfold len, read_len, sat_sub in *. lia. }
  unfold read_spec. fold len. rewrite (proj2 (Z.eqb_neq len 0)) by lia. set (cs := im_chunk_size im) in *.
  pose proof (Z.mod_pos_bound off cs ltac:(lia)). pose proof (Z.div_mod off cs ltac:(lia)) as Hdm.
  set (a := off / cs) in *. set (b := (off + len - 1) / cs + 1).
  assert (0 <= a) by (apply Z.div_pos; lia).
  assert (a < b) by (unfold a, b; pose proof (Z.div_le_mono off (off + len - 1) cs); lia).
  assert (b <= im_count im).
  { unfold b. assert ((off + len - 1) / cs < im_count im); [|lia]. apply Z.div_lt_upper_bound; lia. }
  assert (off + len <= b * cs).
  { unfold b. pose proof (Z.div_mod (off + len - 1) cs ltac:(lia)).
    pose proof (Z.mod_pos_bound (off + len - 1) cs ltac:(lia)). lia. }
  rewrite (mapM_range_sub _ _ _ a b Hp) by lia. cbn [mbind outcome_bind]. f_equal.
  rewrite (concat_pages_window cs) by (done || lia).
  unfold ztake, zdrop. rewrite skipn_firstn_comm, take_take, drop_drop.
  f_equal; [nia|]. f_equal. nia.
Qed.
End ReaderLemmas.

(** * Verification *)

Section VerifyLemmas.
Context `{SafeRead} `{ZlibLaws} `{Profile} `{LruLaws Z (list Chunk)} `{LruLaws Z (list byte)}.
Context `{Digests} `{RayonLaws}.

Lemma map_each_serves im pos ids r :
  image_ok im -> Forall (Z.le 0) ids -> presents im pos r ->
  exists r', map_each decompress_chunk ids r = (im_page im <$> ids, r') /\ presents im pos r'.
Proof.
  intros Hok Hids. revert r. induction Hids as [|id ids Hid _ IH]; intros r Hr; [by exists r|].
  cbn. destruct (decompress_chunk_serves im pos id (io_wf _ Hok) Hid r Hr) as (r1 & -> & Hr1).
  destruct (IH r1 Hr1) as (r2 & -> & Hr2). eauto.
Qed.

(** Feeding pages trims what is past the media size. *)
Lemma hash_pages_spec total pages data :
  zlen data <= total -> total <= u64_max ->
  hash_pages total pages data (zlen data) =
  Ok (data ++ ztake (total - zlen data) (concat pages),
      zlen (data ++ ztake (total - zlen data) (concat pages))).
Proof.
  intros Hd Ht. revert data Hd. induction pages as [|p pages IH]; intros data Hd; cbn [hash_pages].
  { cbn. unfold ztake. by rewrite take_nil, app_nil_r. }
  pose proof (zlen_nonneg p). pose proof (zlen_nonneg data).
  unfold sat_sub. rewrite Z.max_r by lia. set (k := Z.min _ _).
  assert (zlen (ztake k p) = k) as Hk by (rewrite zlen_ztake; lia).
  rewrite add64_ok by lia. cbn [mbind outcome_bind concat].
  replace (zlen data + k) with (zlen (data ++ ztake k p)) by (rewrite zlen_app; lia).
  rewrite IH by (rewrite zlen_app; lia).
  rewrite <-app_assoc, zlen_app, Hk.
  assert (ztake k p ++ ztake (total - (zlen data + k)) (concat pages) =
          ztake (total - zlen data) (p ++ concat pages)) as ->; [|done].
  destruct (decide (zlen p <= total - zlen data)).
  - rewrite ztake_app_ge by lia. rewrite (ztake_all k) by lia. do 2 f_equal. lia.
  - rewrite ztake_app_le by lia. replace (total - (zlen data + k)) with 0 by lia.
    rewrite ztake_0, app_nil_r. f_equal. lia.
Qed.

(** The first error of a range of pages, or the pages. *)
Definition pages_outcome (im : image) (a b : Z) (m : res (list (list byte))) : Prop :=
  match m with
  | Ok pages => mapM (im_page im) (range a b) = Ok pages
  | Err e => exists id, a <= id < b /\ im_page im id = Err e
  | Panic => False
  end.

Lemma par_collect_pages im a b :
  image_ok im -> 0 <= a -> pages_outcome im a b (par_collect (im_page im <$> range a b)).
Proof.
  intros Hok Ha. pose proof (par_collect_outcome (im_page im <$> range a b)) as Hc.
  unfold pages_outcome. destruct (par_collect _) as [ps|e|].
  - apply mapM_outcome_ok. apply Forall2_same_length_lookup.
    assert (Hl : length (im_page im <$> range a b) = length (Ok (E:=ewf_error) <$> ps)) by by rewrite Hc.
    rewrite !length_fmap in Hl. split; [done|]. intros i id p Hid Hp.
    assert ((im_page im <$> range a b) !! i = (Ok <$> ps) !! i) as Hi by by rewrite Hc.
    rewrite !list_lookup_fmap in Hi. rewrite Hp in Hi. cbn in Hi.
    rewrite Hid in Hi. cbn in Hi. by injection Hi.
  - apply list_elem_of_fmap in Hc as (id & He & Hid). unfold range in Hid.
    apply elem_of_seqZ in Hid. exists id. split; [lia|done].
  - apply list_elem_of_fmap in Hc as (id & He & Hid).
    pose proof (im_page_returns im id Hok) as Hr. by rewrite <-He in Hr.
Qed.

Lemma range_app a b c : a <= b -> b <= c -> range a c = range a b ++ range b c.
Proof.
  intros. unfold range. replace (c - a) with ((b - a) + (c - b)) by lia.
  rewrite seqZ_app by lia. do 2 f_equal. lia.
Qed.

(** The batches from [start] on, after the pages [done_] were hashed. *)
Lemma verify_batches_spec im pos fuel start batch done_ r :
  image_ok im -> presents im pos r -> 0 <= start -> 0 < batch ->
  im_count im + batch <= u64_max -> im_count im - start < Z.of_nat fuel ->
  mapM (im_page im) (range 0 start) = Ok done_ -> start <= im_count im ->
  exists m r',
    verify_batches fuel start (im_count im) batch (media im done_) (zlen (media im done_)) r
      = (m, r') /\ presents im pos r' /\
    match m with
    | Ok data => exists pages, all_pages im = Ok pages /\ data = media im pages
    | Err e => exists id, 0 <= id < im_count im /\ im_page im id = Err e
    | Panic => False
    end.
Proof.
  intros Hok Hr Hstart Hbatch Hmax. revert start done_ r Hstart Hr.
  induction fuel as [|fuel IH]; intros start done_ r Hstart Hr Hfuel Hdone Hle; [lia|].
  cbn [verify_batches]. destruct (im_count im <=? start) eqn:E; bool_hyps.
  { replace start with (im_count im) in Hdone by lia. eexists _, r. split; [done|]. eauto. }
  rewrite add64_ok by lia. set (end_ := Z.min _ _).
  destruct (map_each_serves im pos (range start end_) r Hok) as (r1 & -> & Hr1); [|done|].
  { apply Forall_forall. intros id. unfold range. rewrite elem_of_seqZ. lia. }
  rewrite stateful_lift_run. pose proof (par_collect_pages im start end_ Hok Hstart) as Hp.
  destruct (par_collect _) as [pages|e|]; [| |done].
  2: { destruct Hp as (id & Hid & He). eexists _, r1. split; [done|]. split; [done|].
       exists id. split; [lia|done]. }
  cbn [pages_outcome] in Hp. rewrite stateful_lift_run, (pr_total_size _ _ _ Hr1).
  pose proof (io_wf _ Hok) as [_ Hts].
  rewrite hash_pages_spec by (lia || (unfold media; rewrite zlen_ztake; lia)).
  assert (Hall : mapM (im_page im) (range 0 end_) = Ok (done_ ++ pages)).
  { rewrite (range_app 0 start end_) by lia. apply mapM_outcome_ok.
    apply Forall2_app; by apply mapM_outcome_ok. }
  assert (media im done_ ++ ztake (im_total_size im - zlen (media im done_)) (concat pages) =
          media im (done_ ++ pages)) as ->.
  { unfold media. rewrite concat_app. symmetry. apply ztake_app_split. lia. }
  destruct (decide (start + batch <= im_count im)) as [Hb|Hb].
  - replace end_ with (start + batch) in Hall by lia. apply IH; (done || lia).
  - replace end_ with (im_count im) in Hall by lia.
    destruct fuel as [|fuel]; [lia|]. cbn [verify_batches].
    rewrite (proj2 (Z.leb_le _ (start + batch))) by lia. eexists _, r1. split; [done|]. eauto.
Qed.

(** What a verification reports about data that was hashed. *)
Definition verdict (im : image) (data : list byte) : VerifyResult :=
  {| computed_md5 := md5 data;
     computed_sha1 := (fun _ => sha1 data) <$> im_sha1 im;
     md5_match := (fun stored => bool_decide (stored = md5 data)) <$> im_md5 im;
     sha1_match := (fun stored => bool_decide (stored = sha1 data)) <$> im_sha1 im;
     addressable_bytes := im_chunk_size im * im_count im;
     declared_bytes := im_total_size im |}.

Lemma verify_serves im pos r :
  image_ok im -> presents im pos r -> im_chunk_size im * im_count im <= i64_max ->
  exists m r', verify r = (m, r') /\ presents im pos r' /\
  match m with
  | Ok v => exists pages, all_pages im = Ok pages /\ v = verdict im (media im pages)
  | Err e => exists id, 0 <= id < im_count im /\ im_page im id = Err e
  | Panic => False
  end.
Proof.
  intros Hok Hr Hmax. pose proof (io_wf _ Hok) as [Hcs Hts]. unfold verify.
  assert (chunk_count_of r = im_count im) as ->.
  { unfold chunk_count_of, im_count. eapply table_presents_len, (pr_table _ _ _ Hr). }
  assert (0 <= im_count im) by apply zlen_nonneg. pose proof current_num_threads_range.
  set (batch := Z.max _ 1). assert (0 < batch <= 262144) as Hb by (unfold batch, sat_mul; lia).
  rewrite stateful_bind_run.
  destruct (verify_batches_spec im pos (S (Z.to_nat (im_count im))) 0 batch [] r)
    as (m & r' & Hrun & Hr' & Hm); try done; try lia; [nia|].
  assert (media im [] = []) as Hnil by (unfold media; cbn; unfold ztake; by rewrite take_nil).
  rewrite Hnil in Hrun. change (zlen []) with 0 in Hrun. rewrite Hrun. destruct m as [data|e|]; [|by eauto|done].
  destruct Hm as (pages & Hpages & ->).
  rewrite stateful_lift_run, (pr_chunk_size _ _ _ Hr), mul64_ok by lia.
  rewrite (pr_md5 _ _ _ Hr), (pr_sha1 _ _ _ Hr), (pr_total_size _ _ _ Hr).
  eexists _, r'. split; [done|]. split; [done|]. exists pages. split; [done|].
  unfold verdict. by destruct (im_sha1 im).
Qed.

(** C18: parallel verification.  [verify] hashes exactly the media of the image:
    every page once, in chunk order, the last one cut at the declared size,
    whatever the number of worker threads (hence the batch size) and whatever the
    caches hold.  It compares each digest with the stored one when there is one,
    computes SHA-1 only when one is stored, and fails only with the error of a
    chunk that does not decode. *)
Theorem verify_spec im pos r :
  image_ok im -> presents im pos r -> im_chunk_size im * im_count im <= i64_max ->
  exists m r', verify r = (m, r') /\ presents im pos r' /\
  match m with
  | Ok v => exists pages, all_pages im = Ok pages /\ v = verdict im (media im pages)
  | Err e => exists id, 0 <= id < im_count im /\ im_page im id = Err e
  | Panic => False
  end.
Proof. apply verify_serves. Qed.

(** ** Reading through the cursor *)

(** [Read::read] with buffers of the lengths [ns], one after the other. *)
Fixpoint read_all (ns : list Z) : stateful EwfReader io_error (list byte) :=
  match ns with
  | [] => mret []
  | n :: ns => a ← reader_read n; b ← read_all ns; mret (a ++ b)
  end.

Lemma set_position_presents im pos pos' r :
  presents im pos r -> presents im pos' (set_r_position pos' r).
Proof. intros []. by constructor. Qed.

Lemma reader_read_serves im pages pos n r :
  image_ok im -> all_pages im = Ok pages -> im_total_size im <= im_chunk_size im * im_count im ->
  presents im pos r -> 0 <= n -> 0 <= pos <= i64_max -> zlen (media im pages) <= i64_max ->
  exists r', reader_read n r = (Ok (ztake n (zdrop pos (media im pages))), r') /\
             presents im (pos + zlen (ztake n (zdrop pos (media im pages)))) r'.
Proof.
  intros Hok Hp Htot Hr Hn Hpos Hmed. unfold reader_read. rewrite (pr_position _ _ _ Hr).
  pose proof (zlen_nil (A:=byte)) as Hz.
  destruct (read_at_loop_serves im pos (S (Z.to_nat n)) n pos [] Hok ltac:(lia) ltac:(lia) ltac:(lia) r Hr)
    as (r' & Hrun & Hr').
  unfold read_at. rewrite Hrun, Hz, Z.sub_0_r, (read_spec_media im pages) by (done || lia).
  cbn [mbind outcome_bind app]. rewrite stateful_lift_run, (pr_position _ _ _ Hr').
  set (bs := ztake _ _). assert (zlen bs <= i64_max).
  { unfold bs. rewrite zlen_ztake, zlen_zdrop. pose proof (zlen_nonneg (media im pages)). lia. }
  pose proof (zlen_nonneg bs). rewrite add64_ok by lia. rewrite stateful_bind_run. cbn.
  eexists. split; [done|]. by eapply set_position_presents.
Qed.

(** The cursor interface.  After seeking to [p], reading with buffers of any
    lengths returns consecutive pieces of the media from [p] on: concatenated they
    are the window of their total length, short only at the end of the media, and
    the cursor ends right behind the last byte returned. *)
Theorem cursor_reads_media im pages pos p ns r :
  image_ok im -> all_pages im = Ok pages -> im_total_size im <= im_chunk_size im * im_count im ->
  zlen (media im pages) <= i64_max -> presents im pos r ->
  0 <= p -> p + foldr Z.add 0 ns <= i64_max -> Forall (Z.le 0) ns ->
  let window := ztake (foldr Z.add 0 ns) (zdrop p (media im pages)) in
  exists r', (_ ← reader_seek (Start p); read_all ns) r = (Ok window, r') /\
             presents im (p + zlen window) r'.
Proof.
  intros Hok Hp Htot Hmed Hr Hp0 Hsum Hns window.
  assert (0 <= foldr Z.add 0 ns) as Hge.
  { clear -Hns. induction Hns as [|n ns Hn _ IH]; cbn; lia. }
  assert (reader_seek (Start p) r = (Ok p, set_r_position p r)) as Hseek.
  { unfold reader_seek. rewrite stateful_lift_run. unfold as_i64.
    rewrite (proj2 (Z.leb_le p i64_max)) by lia. by rewrite (proj2 (Z.ltb_ge p 0)) by lia. }
  rewrite stateful_bind_run, Hseek. apply set_position_presents with (pos' := p) in Hr.
  revert Hr. generalize (set_r_position p r) as r0. clear Hseek r. intros r0 Hr.
  subst window. revert p r0 Hr Hp0 Hsum Hge.
  induction Hns as [|n ns Hn Hns IH]; intros p r0 Hr Hp0 Hsum Hge.
  { exists r0. cbn [foldr]. rewrite ztake_0, zlen_nil, Z.add_0_r. done. }
  cbn [foldr read_all] in *.
  assert (0 <= foldr Z.add 0 ns) as Hge'.
  { clear -Hns. induction Hns as [|k ks Hk _ IH]; cbn; lia. }
  destruct (reader_read_serves im pages p n r0 Hok Hp Htot Hr Hn ltac:(lia) Hmed) as (r1 & Hrun & Hr1).
  rewrite stateful_bind_run, Hrun. set (a := ztake n (zdrop p (media im pages))) in *.
  assert (zlen a <= n) as Hal by (unfold a; rewrite zlen_ztake; lia). pose proof (zlen_nonneg a).
  destruct (IH (p + zlen a) r1 Hr1 ltac:(lia) ltac:(lia) Hge') as (r2 & Hrun2 & Hr2).
  rewrite stateful_bind_run, Hrun2.
  assert (a ++ ztake (foldr Z.add 0 ns) (zdrop (p + zlen a) (media im pages)) =
          ztake (n + foldr Z.add 0 ns) (zdrop p (media im pages))) as Ha.
  { unfold a. by apply ztake_short_window. }
  exists r2. cbn [mret stateful_ret]. rewrite <-Ha, zlen_app, Z.add_assoc. done.
Qed.
End VerifyLemmas.

(** * From opening to reading *)

Section OpenRead.
Context `{SafeReadLaws} `{ZlibLaws} `{Profile} `{LruLaws Z (list Chunk)} `{LruLaws Z (list byte)}.

(** The image behind a reader with a flat chunk table. *)
Definition image_of (r : EwfReader) (v : list Chunk) : image :=
  {| im_segments := r_segments r; im_chunk_size := r_chunk_size r;
     im_total_size := r_total_size r; im_chunks := v;
     im_md5 := r_stored_md5 r; im_sha1 := r_stored_sha1 r |}.

Lemma open_presents sources cache_size r :
  Forall served sources -> MAX_TABLE_ENTRIES * total_len sources <= u64_max ->
  open_v1 sources cache_size None = Ok r ->
  exists v, r_chunks r = Eager v /\ image_ok (image_of r v) /\ presents (image_of r v) 0 r.
Proof.
  intros Hs Hmax Hopen.
  pose proof (returns_Ok _ _ _ (open_v1_returns sources cache_size None Hs Hmax) Hopen)
    as ([Hseg Hcs Hts Hpos Ht] & _ & Hp0 & (cap & Hcache) & Hv).
  destruct (Hv eq_refl) as [v Hev]. rewrite Hev in Ht. unfold MAX_CHUNK_SIZE in Hcs.
  exists v. split; [done|]. split; [split; [split; cbn; lia|done|done]|].
  constructor; try done; [cbn; rewrite Hev; constructor|].
  intros id page. by rewrite Hcache, lru_get_new.
Qed.

(** What opens can be read.  A read at any offset of an image opened with the
    eager table, whatever the bytes of its sources, answers by the specification of
    [read_at] over the reader's own chunk list, of which it never panics: it returns
    the bytes asked for as far as the declared media size goes, or the error of the
    first chunk of the window that does not decode. *)
Theorem read_after_open sources cache_size r n off :
  Forall served sources -> MAX_TABLE_ENTRIES * total_len sources <= u64_max ->
  open_v1 sources cache_size None = Ok r -> 0 <= n -> 0 <= off <= u64_max ->
  exists v, r_chunks r = Eager v /\ fst (read_at n off r) = read_spec (image_of r v) n off /\
    returns (fun bs => zlen bs = Z.min n (sat_sub (r_total_size r) off)) (fst (read_at n off r)).
Proof.
  intros Hs Hmax Hopen Hn Ho.
  destruct (open_presents sources cache_size r Hs Hmax Hopen) as (v & Hv & Hok & Hr).
  pose proof (zlen_nil (A:=byte)) as Hz. exists v. split; [done|].
  destruct (read_at_loop_serves _ 0 (S (Z.to_nat n)) n off [] Hok Ho ltac:(lia) ltac:(lia) r Hr)
    as (r' & Hrun & _).
  assert (fst (read_at n off r) = read_spec (image_of r v) n off) as Heq.
  { unfold read_at. rewrite Hrun, Hz, Z.sub_0_r. cbn [fst]. by destruct (read_spec _ n off). }
  rewrite Heq. split; [done|]. by apply (read_spec_length (image_of r v) n off Hok Hn (proj1 Ho)).
Qed.
End OpenRead.
