(* ===== verification/Concurrent.v ===== *)
(** Many threads on one reader: the methods that take [&self] as the threads
    run them, [core/src/reader.rs] and [core/src/chunk_table.rs] with their two
    mutexes, and the schedules of a pool of such calls.

    [Reader] runs a method in one piece.  Here a method is the sequence of its
    accesses to the two caches, each between the acquisition of the cache's lock
    and the drop of its guard; the code between two accesses reads only what no
    method writes.  Threads interleave at every lock, access and unlock. *)

From S2P Require Import Prelude Text Extern Types Sections Source ChunkTable ReaderOpen Reader.

Section Threads.
Context `{SafeRead} `{Zlib} `{Profile} `{Lru Z (list Chunk)} `{Lru Z (list byte)}.

(** The reader's mutexes: [EwfReader::cache] and [LazyChunkTable::cache]. *)
Inductive lock := PageLock | TableLock.

#[export] Instance lock_eq_dec : EqDecision lock.
Proof. solve_decision. Defined.

(** A method call in progress: what it still has to do. *)
Inductive prog (A : Type) : Type :=
| Done (m : res A)
| Lock (l : lock) (k : prog A)
| Unlock (l : lock) (k : prog A)
| PageGet (id : Z) (k : option (list byte) -> prog A)
| PagePut (id : Z) (page : list byte) (k : prog A)
| SectionGet (pos : Z) (k : option (list Chunk) -> prog A)
| SectionPut (pos : Z) (section : list Chunk) (k : prog A).
Arguments Done {A} m.
Arguments Lock {A} l k.
Arguments Unlock {A} l k.
Arguments PageGet {A} id k.
Arguments PagePut {A} id page k.
Arguments SectionGet {A} pos k.
Arguments SectionPut {A} pos section k.

#[export] Instance prog_ret : MRet prog := fun A a => Done (Ok a).

#[export] Instance prog_bind : MBind prog := fun A B f =>
  fix go (p : prog A) : prog B :=
  match p with
  | Done (Ok a) => f a
  | Done (Err e) => Done (Err e)
  | Done Panic => Done Panic
  | Lock l k => Lock l (go k)
  | Unlock l k => Unlock l (go k)
  | PageGet id k => PageGet id (fun o => go (k o))
  | PagePut id page k => PagePut id page (go k)
  | SectionGet pos k => SectionGet pos (fun o => go (k o))
  | SectionPut pos section k => SectionPut pos section (go k)
  end.

(** The drop of a guard at the end of its scope, however the scope ends. *)
Fixpoint drop_guard {A} (l : lock) (p : prog A) : prog A :=
  match p with
  | Done m => Unlock l (Done m)
  | Lock l' k => Lock l' (drop_guard l k)
  | Unlock l' k => Unlock l' (drop_guard l k)
  | PageGet id k => PageGet id (fun o => drop_guard l (k o))
  | PagePut id page k => PagePut id page (drop_guard l k)
  | SectionGet pos k => SectionGet pos (fun o => drop_guard l (k o))
  | SectionPut pos section k => SectionPut pos section (drop_guard l k)
  end.

(** [mutex.lock().unwrap_or_else(PoisonError::into_inner)] and the scope of the
    guard: a poisoned lock is taken like any other. *)
Definition locked {A} (l : lock) (p : prog A) : prog A := Lock l (drop_guard l p).

(** ** The methods *)

Definition LazyChunkTable_get_steps (t : LazyChunkTable) (chunk_id : Z)
    (segments : list SegmentSource) : prog Chunk :=
  pos ← Done (section_for t chunk_id);
  pos ← Done (ok_or (Parse (ChunkIdOutOfRange chunk_id (lazy_len t))) pos);
  meta ← Done (index (lazy_index t) pos);
  local ← Done (sub64 chunk_id (first_chunk_id meta));
  hit ← locked TableLock (SectionGet pos (fun cached =>
          match cached with
          | Some section => chunk ← Done (index section local); mret (Some chunk)
          | None => mret None
          end));
  match hit with
  | Some chunk => mret chunk
  | None =>
    section ← Done (load_section (lazy_chunk_size t) meta segments);
    chunk ← Done (index section local);
    _ ← locked TableLock (SectionPut pos section (mret tt));
    mret chunk
  end.

Definition ChunkTable_get_steps (t : ChunkTable) (chunk_id : Z) (segments : list SegmentSource)
    : prog Chunk :=
  match t with
  | Eager v => Done (ok_or (Parse (ChunkIdOutOfRange chunk_id (zlen v))) (get v chunk_id))
  | Lazy l => LazyChunkTable_get_steps l chunk_id segments
  end.

Definition decompress_chunk_steps (self : EwfReader) (chunk_id : Z) : prog (list byte) :=
  _ ← Done (vec_zeroed (r_chunk_size self));
  chunk ← ChunkTable_get_steps (r_chunks self) chunk_id (r_segments self);
  Done (decode_page (r_segments self) (r_chunk_size self) chunk_id chunk).

Definition read_chunk_steps (self : EwfReader) (chunk_id : Z) : prog (list byte) :=
  cached ← locked PageLock (PageGet chunk_id mret);
  match cached with
  | Some page => mret page
  | None =>
    page ← decompress_chunk_steps self chunk_id;
    _ ← locked PageLock (PagePut chunk_id page (mret tt));
    mret page
  end.

Fixpoint read_at_loop_steps (fuel : nat) (self : EwfReader) (n off : Z) (got : list byte)
    : prog (list byte) :=
  match fuel with
  | O => Done Panic
  | S fuel =>
    if r_chunk_size self =? 0 then Done Panic
    else
      let remaining_image := sat_sub (r_total_size self) off in
      let remaining_buf := n - zlen got in
      let in_chunk := r_chunk_size self - off mod r_chunk_size self in
      let to_read := Z.min (Z.min in_chunk remaining_image) remaining_buf in
      if to_read =? 0 then Done (Ok got)
      else
        page ← read_chunk_steps self (off / r_chunk_size self);
        let page_offset := off mod r_chunk_size self in
        bs ← Done (index_range page page_offset (page_offset + to_read));
        off ← Done (add64 off to_read);
        read_at_loop_steps fuel self n off (got ++ bs)
  end.

Definition read_at_steps (self : EwfReader) (n off : Z) : prog (list byte) :=
  read_at_loop_steps (S (Z.to_nat n)) self n off [].

(** A call a thread can make on the shared reader: a positioned read, or one
    chunk of a batch of [verify]. *)
Inductive call := ReadAt (n off : Z) | Decompress (chunk_id : Z).

Definition call_steps (self : EwfReader) (c : call) : prog (list byte) :=
  match c with
  | ReadAt n off => read_at_steps self n off
  | Decompress chunk_id => decompress_chunk_steps self chunk_id
  end.

(** The same call in one piece. *)
Definition call_atomic (c : call) : stateful EwfReader ewf_error (list byte) :=
  match c with
  | ReadAt n off => read_at n off
  | Decompress chunk_id => decompress_chunk chunk_id
  end.

(** ** Schedules *)

(** What the threads share: the reader, and the thread that holds each lock. *)
Record shared := {
  sh_reader : EwfReader;
  sh_page_lock : option nat;
  sh_table_lock : option nat;
}.

Definition holder (l : lock) (s : shared) : option nat :=
  match l with PageLock => sh_page_lock s | TableLock => sh_table_lock s end.

Definition set_holder (l : lock) (o : option nat) (s : shared) : shared :=
  match l with
  | PageLock =>
    {| sh_reader := sh_reader s; sh_page_lock := o; sh_table_lock := sh_table_lock s |}
  | TableLock =>
    {| sh_reader := sh_reader s; sh_page_lock := sh_page_lock s; sh_table_lock := o |}
  end.

Definition set_reader (r : EwfReader) (s : shared) : shared :=
  {| sh_reader := r; sh_page_lock := sh_page_lock s; sh_table_lock := sh_table_lock s |}.

Definition page_op {A} (f : lru Z (list byte) -> A * lru Z (list byte)) (r : EwfReader)
    : option (A * EwfReader) :=
  let '(a, c) := f (r_cache r) in Some (a, set_r_cache c r).

(** An eager table has no section cache. *)
Definition section_op {A} (f : lru Z (list Chunk) -> A * lru Z (list Chunk)) (r : EwfReader)
    : option (A * EwfReader) :=
  match r_chunks r with
  | Eager _ => None
  | Lazy t =>
    let '(a, c) := f (lazy_cache t) in
    Some (a, set_r_chunks (Lazy {| lazy_index := lazy_index t; lazy_len := lazy_len t;
                                   lazy_chunk_size := lazy_chunk_size t; lazy_cache := c |}) r)
  end.

(** An access through a guard: thread [i] must hold the lock. *)
Definition guarded {A B} (i : nat) (l : lock) (op : EwfReader -> option (A * EwfReader))
    (k : A -> prog B) (s : shared) : option (prog B * shared) :=
  if decide (holder l s = Some i) then
    '(a, r) ← op (sh_reader s); Some (k a, set_reader r s)
  else None.

(** One step of thread [i]; [None] when it has returned, waits for a lock, or
    would touch a cache without its lock. *)
Definition thread_step {A} (i : nat) (p : prog A) (s : shared) : option (prog A * shared) :=
  match p with
  | Done _ => None
  | Lock l k => if decide (holder l s = None) then Some (k, set_holder l (Some i) s) else None
  | Unlock l k => if decide (holder l s = Some i) then Some (k, set_holder l None s) else None
  | PageGet id k => guarded i PageLock (page_op (lru_get id)) k s
  | PagePut id page k => guarded i PageLock (page_op (fun c => (tt, lru_put id page c))) (fun _ => k) s
  | SectionGet pos k => guarded i TableLock (section_op (lru_get pos)) k s
  | SectionPut pos section k =>
    guarded i TableLock (section_op (fun c => (tt, lru_put pos section c))) (fun _ => k) s
  end.

(** A pool of threads on one reader. *)
Record pool := {
  pl_shared : shared;
  pl_threads : list (prog (list byte));
}.

Inductive step : pool -> pool -> Prop :=
| step_thread i p p' s s' ts :
    ts !! i = Some p -> thread_step i p s = Some (p', s') ->
    step {| pl_shared := s; pl_threads := ts |} {| pl_shared := s'; pl_threads := <[i := p']> ts |}.

(** The threads of [cs] have just been spawned. *)
Definition spawn (r : EwfReader) (cs : list call) : pool :=
  {| pl_shared := {| sh_reader := r; sh_page_lock := None; sh_table_lock := None |};
     pl_threads := call_steps r <$> cs |}.

Definition returned {A} (p : prog A) : option (res A) :=
  match p with Done m => Some m | _ => None end.

(** Follow a schedule, a list of thread numbers; the turn of a thread that
    cannot step is skipped. *)
Fixpoint run_schedule (turns : list nat) (m : pool) : pool :=
  match turns with
  | [] => m
  | i :: turns =>
    match p ← pl_threads m !! i; thread_step i p (pl_shared m) with
    | Some (p', s') =>
      run_schedule turns {| pl_shared := s'; pl_threads := <[i := p']> (pl_threads m) |}
    | None => run_schedule turns m
    end
  end.

Lemma run_schedule_steps turns m : rtc step m (run_schedule turns m).
Proof.
  revert m. induction turns as [|i turns IH]; intros [s ts]; [done|]. cbn.
  destruct (ts !! i) as [p|] eqn:Ep; cbn; [|apply IH].
  destruct (thread_step i p s) as [[p' s']|] eqn:Es; [|apply IH].
  eapply rtc_l; [by eapply step_thread|apply IH].
Qed.
End Threads.

(** The section's arguments, for the lemmas. *)
Arguments Done {A} m.
Arguments Lock {A} l k.
Arguments Unlock {A} l k.
Arguments PageGet {A} id k.
Arguments PagePut {A} id page k.
Arguments SectionGet {A} pos k.
Arguments SectionPut {A} pos section k.

(** * A call that runs alone is the method of [Reader] *)

Section Alone.
Context `{SafeRead} `{Zlib} `{Profile} `{Lru Z (list Chunk)} `{Lru Z (list byte)}.

(** What a call that is not interrupted returns, and the reader it leaves. *)
Fixpoint alone {A} (p : prog A) : stateful EwfReader ewf_error A := fun r =>
  match p with
  | Done m => (m, r)
  | Lock _ k | Unlock _ k => alone k r
  | PageGet id k =>
    match page_op (lru_get id) r with Some (o, r) => alone (k o) r | None => (Panic, r) end
  | PagePut id page k =>
    match page_op (fun c => (tt, lru_put id page c)) r with
    | Some (_, r) => alone k r
    | None => (Panic, r)
    end
  | SectionGet pos k =>
    match section_op (lru_get pos) r with Some (o, r) => alone (k o) r | None => (Panic, r) end
  | SectionPut pos section k =>
    match section_op (fun c => (tt, lru_put pos section c)) r with
    | Some (_, r) => alone k r
    | None => (Panic, r)
    end
  end.

(** Split on the outcome of the cache access a goal is about. *)
Ltac each_op :=
  match goal with
  | |- context [match page_op ?f ?r with _ => _ end] =>
    let E := fresh "E" in destruct (page_op f r) as [[o r']|] eqn:E
  | |- context [match section_op ?f ?r with _ => _ end] =>
    let E := fresh "E" in destruct (section_op f r) as [[o r']|] eqn:E
  end.

Lemma alone_bind {A B} (p : prog A) (f : A -> prog B) :
  same_run (alone (p ≫= f)) (a ← alone p; alone (f a)).
Proof.
  intros r. rewrite stateful_bind_run. revert r.
  induction p as [m|l p IH|l p IH|id k IH|id page p IH|pos k IH|pos sec p IH]; intros r.
  1: by destruct m.
  1, 2: apply IH.
  all: cbn [alone mbind prog_bind]; each_op; [apply IH|done].
Qed.

Lemma alone_drop_guard {A} l (p : prog A) : same_run (alone (drop_guard l p)) (alone p).
Proof.
  induction p as [m|l' p IH|l' p IH|id k IH|id page p IH|pos k IH|pos sec p IH]; intros r; cbn [alone drop_guard];
    try apply IH; try done.
  all: each_op; [apply IH|done].
Qed.

Lemma alone_locked {A} l (p : prog A) : same_run (alone (locked l p)) (alone p).
Proof. apply alone_drop_guard. Qed.

(** What no method writes. *)
Definition fixed_table (t : ChunkTable) : ChunkTable :=
  match t with
  | Eager v => Eager v
  | Lazy l => Lazy {| lazy_index := lazy_index l; lazy_len := lazy_len l;
                      lazy_chunk_size := lazy_chunk_size l; lazy_cache := lru_new 0 |}
  end.
Definition fixed_part (r : EwfReader) : EwfReader :=
  set_r_cache (lru_new 0) (set_r_chunks (fixed_table (r_chunks r)) r).

Lemma page_op_fixed {A} (f : lru Z (list byte) -> A * lru Z (list byte)) r a r' :
  page_op f r = Some (a, r') -> fixed_part r' = fixed_part r.
Proof. unfold page_op. destruct (f _) as [b c]. by intros [= <- <-]. Qed.

Lemma section_op_fixed {A} (f : lru Z (list Chunk) -> A * lru Z (list Chunk)) r a r' :
  section_op f r = Some (a, r') -> fixed_part r' = fixed_part r.
Proof.
  unfold section_op, fixed_part. destruct (r_chunks r) as [v|t] eqn:E; [done|].
  destruct (f _) as [b c]. by intros [= <- <-].
Qed.

Lemma alone_fixed {A} (p : prog A) r : fixed_part (snd (alone p r)) = fixed_part r.
Proof.
  revert r. induction p as [m|l p IH|l p IH|id k IH|id page p IH|pos k IH|pos sec p IH]; intros r; cbn [alone];
    try done; try apply IH.
  all: each_op; [|done].
  all: rewrite IH; first [by eapply page_op_fixed|by eapply section_op_fixed].
Qed.

(** The steps of a call depend on the part no method writes. *)
Lemma table_steps_fixed t t' id segments :
  fixed_table t = fixed_table t' -> ChunkTable_get_steps t id segments = ChunkTable_get_steps t' id segments.
Proof. destruct t as [v|[]], t' as [v'|[]]; intros [=]; by subst. Qed.

Lemma fixed_part_inj r r' :
  fixed_part r = fixed_part r' ->
  r_segments r = r_segments r' /\ fixed_table (r_chunks r) = fixed_table (r_chunks r') /\
  r_chunk_size r = r_chunk_size r' /\ r_total_size r = r_total_size r'.
Proof. destruct r, r'. intros [=]. by subst. Qed.

Lemma alone_table_get t r id :
  fixed_table t = fixed_table (r_chunks r) ->
  alone (ChunkTable_get_steps t id (r_segments r)) r = reader_get_chunk id r.
Proof.
  intros Ht. rewrite (table_steps_fixed _ _ _ _ Ht). clear t Ht. unfold reader_get_chunk.
  destruct (r_chunks r) as [v|t] eqn:E; cbn [ChunkTable_get_steps ChunkTable_get].
  { destruct r. cbn in *. by subst. }
  unfold LazyChunkTable_get_steps, LazyChunkTable_get.
  assert (Hr : set_r_chunks (Lazy t) r = r) by (destruct r; cbn in *; by subst).
  rewrite alone_bind, stateful_bind_run, stateful_lift_run. cbn [alone].
  destruct (section_for t id) as [pos| |]; [|by rewrite Hr..].
  rewrite alone_bind, stateful_bind_run, stateful_lift_run. cbn [alone].
  destruct (ok_or _ pos) as [p| |]; [|by rewrite Hr..].
  rewrite alone_bind, stateful_bind_run, stateful_lift_run. cbn [alone].
  destruct (index _ p) as [m| |]; [|by rewrite Hr..].
  rewrite alone_bind, stateful_bind_run, stateful_lift_run. cbn [alone].
  destruct (sub64 id _) as [local| |]; [|by rewrite Hr..].
  rewrite alone_bind, !stateful_bind_run, alone_locked. unfold cache_op, with_state.
  cbn [alone]. unfold section_op. rewrite E.
  destruct (lru_get p (lazy_cache t)) as [[sec|] c]; cbn [alone mbind prog_bind mret prog_ret].
  { by destruct (index sec local). }
  rewrite stateful_lift_run. cbn [lazy_chunk_size].
  destruct (load_section _ m _) as [sec| |]; try done.
  rewrite stateful_lift_run. by destruct (index sec local).
Qed.

Lemma alone_decompress self r id :
  fixed_part self = fixed_part r ->
  alone (decompress_chunk_steps self id) r = decompress_chunk id r.
Proof.
  intros (Hs & Ht & Hc & _)%fixed_part_inj. unfold decompress_chunk_steps, decompress_chunk.
  rewrite Hc, Hs, alone_bind, stateful_bind_run, stateful_lift_run. cbn [alone].
  destruct (vec_zeroed _); [|done..].
  rewrite alone_bind, !stateful_bind_run, alone_table_get by done.
  by destruct (reader_get_chunk id r) as [[c| |] r'].
Qed.

Lemma alone_read_chunk self r id :
  fixed_part self = fixed_part r -> alone (read_chunk_steps self id) r = read_chunk id r.
Proof.
  intros Hr. unfold read_chunk_steps, read_chunk.
  rewrite alone_bind, !stateful_bind_run, alone_locked. cbn [alone].
  unfold page_op, reader_cache_op, with_state.
  destruct (lru_get id (r_cache r)) as [[page|] c]; [done|]. cbn [alone mret prog_ret].
  rewrite alone_bind, !stateful_bind_run, alone_decompress by (by rewrite Hr).
  by destruct (decompress_chunk id _) as [[page| |] r'].
Qed.

Lemma alone_read_at_loop self fuel n off got r :
  fixed_part self = fixed_part r ->
  alone (read_at_loop_steps fuel self n off got) r = read_at_loop fuel n off got r.
Proof.
  revert off got r. induction fuel as [|fuel IH]; intros off got r Hr; [done|].
  pose proof (fixed_part_inj _ _ Hr) as (_ & _ & Hc & Ht).
  cbn [read_at_loop_steps read_at_loop]. rewrite Hc, Ht.
  destruct (_ =? 0); [done|]. destruct (_ =? 0); [done|].
  rewrite alone_bind, !stateful_bind_run.
  pose proof (alone_fixed (read_chunk_steps self (off / r_chunk_size r)) r) as Hf.
  rewrite alone_read_chunk in * by done.
  destruct (read_chunk _ r) as [[page| |] r'] eqn:E; try done. cbn [snd] in Hf.
  rewrite alone_bind, !stateful_bind_run. unfold lift at 1. cbn [alone].
  destruct (index_range page _ _); try done.
  rewrite alone_bind, !stateful_bind_run. unfold lift at 1. cbn [alone].
  destruct (add64 off _); try done. apply IH. by rewrite Hr, Hf.
Qed.

(** A call that no other thread interrupts is the method in one piece, on any
    reader. *)
Lemma alone_call r c : alone (call_steps r c) r = call_atomic c r.
Proof. destruct c as [n off|id]; [by apply alone_read_at_loop|by apply alone_decompress]. Qed.
End Alone.

(** * The locking discipline, and what it gives

    A thread holds one lock at a time, touches a cache only under its lock, and
    gives every lock back: nothing it waits for can wait for it. *)

Section Discipline.
Context `{SafeRead} `{Zlib} `{Profile} `{Lru Z (list Chunk)} `{Lru Z (list byte)}.

(** [p], starting with the lock [h], keeps the discipline, ends with the lock
    [h'], and takes at most [k] steps, whatever the caches answer. *)
Fixpoint disciplined {A} (lz : bool) (h h' : option lock) (k : nat) (p : prog A) {struct p} : Prop :=
  match p with
  | Done _ => h = h'
  | Lock l p => match k with O => False | S k => h = None /\ disciplined lz (Some l) h' k p end
  | Unlock l p => match k with O => False | S k => h = Some l /\ disciplined lz None h' k p end
  | PageGet _ f =>
    match k with O => False | S k => h = Some PageLock /\ forall o, disciplined lz h h' k (f o) end
  | PagePut _ _ p =>
    match k with O => False | S k => h = Some PageLock /\ disciplined lz h h' k p end
  | SectionGet _ f =>
    match k with
    | O => False
    | S k => h = Some TableLock /\ lz = true /\ forall o, disciplined lz h h' k (f o)
    end
  | SectionPut _ _ p =>
    match k with O => False | S k => h = Some TableLock /\ lz = true /\ disciplined lz h h' k p end
  end.

Lemma disciplined_le {A} lz h h' k k' (p : prog A) :
  disciplined lz h h' k p -> (k <= k')%nat -> disciplined lz h h' k' p.
Proof.
  revert h k k'.
  induction p as [m|l p IH|l p IH|id f IH|id page p IH|pos f IH|pos sec p IH]; intros h k k' Hd Hk;
    [exact Hd|..]; (destruct k as [|k]; [by destruct Hd|]); (destruct k' as [|k']; [lia|]);
    cbn [disciplined] in *; apply le_S_n in Hk; naive_solver.
Qed.

Lemma disciplined_bind {A B} lz h h' k k' (p : prog A) (f : A -> prog B) :
  disciplined lz h h' k p -> (forall a, disciplined lz h' h' k' (f a)) ->
  disciplined lz h h' (k + k') (p ≫= f).
Proof.
  intros Hp Hf. revert h k Hp.
  induction p as [m|l p IH|l p IH|id g IH|id page p IH|pos g IH|pos sec p IH]; intros h k Hp.
  { cbn in Hp. subst. destruct m as [a| |]; [|done|done]. cbn.
    eapply disciplined_le; [apply Hf|lia]. }
  all: destruct k as [|k]; [by destruct Hp|]; cbn [disciplined mbind prog_bind Nat.add] in *; naive_solver.
Qed.

Lemma disciplined_locked {A} lz l k (p : prog A) :
  disciplined lz (Some l) (Some l) k p -> disciplined lz None None (2 + k) (locked l p).
Proof.
  intros Hp. split; [done|]. revert k Hp. generalize (Some l) at 1 3 as h. intros h k. revert h k.
  induction p as [m|l' p IH|l' p IH|id g IH|id page p IH|pos g IH|pos sec p IH]; intros h k Hp.
  { cbn in *. by subst. }
  all: destruct k as [|k]; [by destruct Hp|]; cbn [disciplined drop_guard] in *; naive_solver.
Qed.

Lemma disciplined_table t id segments lz :
  lz = (match t with Eager _ => false | Lazy _ => true end) ->
  disciplined lz None None 6 (ChunkTable_get_steps t id segments).
Proof.
  intros ->. destruct t as [v|t]; [done|]. cbn [ChunkTable_get_steps]. unfold LazyChunkTable_get_steps.
  do 4 (apply (disciplined_bind _ _ _ 0 6); [done|]; intros ?).
  apply (disciplined_bind _ _ _ 3 3).
  { apply (disciplined_locked _ _ 1). do 2 (split; [done|]). intros [sec|]; [|done]. by destruct (index sec _). }
  intros [c|]; [done|].
  do 2 (apply (disciplined_bind _ _ _ 0 3); [done|]; intros ?).
  apply (disciplined_bind _ _ _ 3 0); [|done]. by apply (disciplined_locked _ _ 1).
Qed.

Lemma disciplined_decompress self id :
  disciplined (is_lazy self) None None 6 (decompress_chunk_steps self id).
Proof.
  apply (disciplined_bind _ _ _ 0 6); [done|]. intros _.
  apply (disciplined_bind _ _ _ 6 0); [|done]. by apply disciplined_table.
Qed.

Lemma disciplined_read_chunk self id :
  disciplined (is_lazy self) None None 12 (read_chunk_steps self id).
Proof.
  apply (disciplined_bind _ _ _ 3 9); [by apply (disciplined_locked _ _ 1)|].
  intros [page|]; [done|]. apply (disciplined_bind _ _ _ 6 3); [apply disciplined_decompress|].
  intros page. apply (disciplined_bind _ _ _ 3 0); [|done]. by apply (disciplined_locked _ _ 1).
Qed.

(** The chunks the window of a read of [n] bytes at [off] touches. *)
Definition chunks_touched (chunk_size total_size n off : Z) : Z :=
  let len := Z.min n (sat_sub total_size off) in
  if len <=? 0 then 0 else (off + len - 1) / chunk_size - off / chunk_size + 1.

Lemma chunks_touched_step cs total n off :
  0 < cs -> 0 <= off ->
  let len := Z.min n (sat_sub total off) in
  let k := Z.min (Z.min (cs - off mod cs) (sat_sub total off)) n in
  0 < k -> chunks_touched cs total n off = 1 + chunks_touched cs total (n - k) (off + k).
Proof.
  intros Hcs Ho len k Hk. unfold chunks_touched. fold len.
  assert (0 < len) by (unfold len, k in *; lia).
  assert (Hlen : Z.min (n - k) (sat_sub total (off + k)) = len - k) by (unfold len, k, sat_sub in *; lia).
  rewrite Hlen, (proj2 (Z.leb_gt len 0)) by lia.
  pose proof (Z.mod_pos_bound off cs ltac:(lia)). destruct (decide (len <= cs - off mod cs)) as [Hle|Hgt].
  - rewrite (proj2 (Z.leb_le (len - k) 0)) by (unfold len, k in *; lia). rewrite div_same_chunk by lia. lia.
  - assert (k = cs - off mod cs) as Hk' by (unfold len, k in *; lia).
    rewrite (proj2 (Z.leb_gt (len - k) 0)) by lia.
    destruct (next_chunk cs off Hcs) as [Hd _]. rewrite <-Hk' in Hd. rewrite Hd.
    replace (off + k + (len - k) - 1) with (off + len - 1) by lia. lia.
Qed.

Definition reader_sane (r : EwfReader) : Prop :=
  0 <= r_chunk_size r /\ r_total_size r <= u64_max.

Lemma disciplined_read_at_loop self fuel n off got :
  reader_sane self -> 0 <= off -> zlen got <= n ->
  disciplined (is_lazy self) None None
    (12 * Z.to_nat (chunks_touched (r_chunk_size self) (r_total_size self) (n - zlen got) off))
    (read_at_loop_steps fuel self n off got).
Proof.
  intros [Hcs Hts]. revert off got. induction fuel as [|fuel IH]; intros off got Ho Hgot; [done|].
  cbn [read_at_loop_steps]. destruct (r_chunk_size self =? 0) eqn:Ecs; [done|]. bool_hyps.
  set (k := Z.min _ _). destruct (k =? 0) eqn:Ek; [done|]. bool_hyps.
  pose proof (Z.mod_pos_bound off (r_chunk_size self) ltac:(lia)).
  assert (0 < k) as Hk by (unfold k, sat_sub in *; lia).
  rewrite chunks_touched_step by (done || lia). fold k.
  assert (0 <= chunks_touched (r_chunk_size self) (r_total_size self) (n - zlen got - k) (off + k)).
  { unfold chunks_touched. destruct (_ <=? 0) eqn:E; bool_hyps; [lia|].
    match goal with |- 0 <= ?a - ?b + 1 => assert (b <= a); [apply Z.div_le_mono; lia|lia] end. }
  rewrite Z2Nat.inj_add, Nat.mul_add_distr_l by lia.
  apply disciplined_bind; [apply disciplined_read_chunk|]. intros page.
  destruct (index_range page _ _) as [bs| |] eqn:Ebs; [|done|done].
  cbn [mbind prog_bind]. unfold add64, plain. assert (off + k <= u64_max) by (unfold k, sat_sub in *; lia).
  rewrite (proj2 (Z.leb_le 0 _)), (proj2 (Z.leb_le _ u64_max)) by lia. cbn [andb].
  assert (zlen bs = k) as Hbs.
  { unfold index_range in Ebs. destruct (slice page _ _) as [bs'|] eqn:Es; [|done].
    injection Ebs as ->. apply slice_zlen in Es. lia. }
  replace (n - zlen got - k) with (n - zlen (got ++ bs)) by (rewrite zlen_app; lia).
  apply IH; [lia|]. rewrite zlen_app. unfold k. lia.
Qed.

(** The steps a call takes at most.  A guarded access is three: the lock, the access
    and the unlock.  Reading a chunk takes four of them - the page cache is probed and
    stored into, and so is the section cache - and decoding one takes two. *)
Definition call_bound (self : EwfReader) (c : call) : nat :=
  match c with
  | ReadAt n off => 12 * Z.to_nat (chunks_touched (r_chunk_size self) (r_total_size self) n off)
  | Decompress _ => 6
  end.

Definition call_wf (c : call) : Prop :=
  match c with
  | ReadAt n off => 0 <= n /\ 0 <= off <= u64_max
  | Decompress id => 0 <= id
  end.

Lemma disciplined_call self c :
  reader_sane self -> call_wf c ->
  disciplined (is_lazy self) None None (call_bound self c) (call_steps self c).
Proof.
  intros Hself Hc. destruct c as [n off|id]; [|apply disciplined_decompress].
  destruct Hc as [Hn Ho]. pose proof (zlen_nil (A:=byte)) as Hz.
  pose proof (disciplined_read_at_loop self (S (Z.to_nat n)) n off [] Hself ltac:(lia) ltac:(lia)) as Hd.
  by rewrite Hz, Z.sub_0_r in Hd.
Qed.

(** ** Pools *)

(** The lock thread [i] holds. *)
Definition held (i : nat) (s : shared) : option lock :=
  if decide (sh_page_lock s = Some i) then Some PageLock
  else if decide (sh_table_lock s = Some i) then Some TableLock else None.

Lemma held_holder i s l : held i s = Some l -> holder l s = Some i.
Proof. unfold held. repeat case_decide; by intros [= <-]. Qed.

(** Thread [i] of the pool is a disciplined program of at most [ks !! i] steps,
    and a holder of a lock is a thread that holds only that lock. *)
Record orderly (lz : bool) (ks : list nat) (m : pool) : Prop := {
  od_lazy : is_lazy (sh_reader (pl_shared m)) = lz;
  od_length : length ks = length (pl_threads m);
  od_thread i p k : pl_threads m !! i = Some p -> ks !! i = Some k ->
                    disciplined lz (held i (pl_shared m)) None k p;
  od_holder l i : holder l (pl_shared m) = Some i ->
                  (i < length (pl_threads m))%nat /\ held i (pl_shared m) = Some l;
}.

(** What a step of thread [i] does to the locks. *)
Record locks_step (i : nat) (s s' : shared) : Prop := {
  ls_others j : j <> i -> held j s' = held j s;
  ls_holder l j : holder l s' = Some j -> (j = i \/ holder l s = Some j) /\ held j s' = Some l;
}.

Lemma locks_step_set i l s :
  (forall l j, holder l s = Some j -> held j s = Some l) ->
  (held i s = None -> holder l s = None ->
   held i (set_holder l (Some i) s) = Some l /\ locks_step i s (set_holder l (Some i) s)) /\
  (held i s = Some l ->
   held i (set_holder l None s) = None /\ locks_step i s (set_holder l None s)).
Proof.
  intros Hs. pose proof (Hs PageLock) as Hp. pose proof (Hs TableLock) as Ht. unfold held in *.
  cbn [holder] in Hp, Ht. split; intros; (split; [|split; [intros j Hj|intros l' j Hl']]).
  all: destruct l; try destruct l'; unfold held in *; cbn in *; repeat case_decide; naive_solver.
Qed.

Lemma sh_reader_set_holder l o s : sh_reader (set_holder l o s) = sh_reader s.
Proof. by destruct l. Qed.

Lemma held_set_reader i r s : held i (set_reader r s) = held i s.
Proof. done. Qed.

Lemma page_op_some {A} (f : lru Z (list byte) -> A * lru Z (list byte)) r :
  exists a r', page_op f r = Some (a, r') /\ is_lazy r' = is_lazy r.
Proof. unfold page_op. destruct (f _) as [a c]. by eexists _, _. Qed.

Lemma section_op_some {A} (f : lru Z (list Chunk) -> A * lru Z (list Chunk)) r :
  is_lazy r = true -> exists a r', section_op f r = Some (a, r') /\ is_lazy r' = true.
Proof.
  unfold is_lazy, section_op. destruct (r_chunks r) as [v|t]; [done|]. destruct (f _) as [a c].
  by eexists _, _.
Qed.

Lemma thread_step_orderly {A} lz i k (p : prog A) s :
  is_lazy (sh_reader s) = lz -> (forall l j, holder l s = Some j -> held j s = Some l) ->
  disciplined lz (held i s) None k p ->
  match thread_step i p s with
  | Some (p', s') => exists k', k = S k' /\ disciplined lz (held i s') None k' p' /\
                     is_lazy (sh_reader s') = lz /\ locks_step i s s'
  | None => returned p <> None \/ (held i s = None /\ exists l j, holder l s = Some j)
  end.
Proof.
  intros Hlz Hs Hd.
  assert (Hsame : forall r, locks_step i s (set_reader r s)).
  { intros r. split; [done|]. intros l j Hl. split; [by right|by apply Hs]. }
  destruct p as [m|l p|l p|id f|id page p|pos f|pos sec p]; [by left|..];
    (destruct k as [|k]; [by destruct Hd|]); cbn [disciplined] in Hd; destruct Hd as [Hh Hd];
    cbn [thread_step].
  1: { destruct (locks_step_set i l s Hs) as [Hls _]. destruct (decide _) as [Hn|Hn].
       - exists k. destruct (Hls Hh Hn) as [-> ?]. by rewrite sh_reader_set_holder.
       - right. split; [done|]. exists l. by destruct (holder l s); [eexists|]. }
  1: { destruct (locks_step_set i l s Hs) as [_ Hls]. rewrite decide_True by by apply held_holder.
       exists k. destruct (Hls Hh) as [-> ?]. by rewrite sh_reader_set_holder. }
  all: unfold guarded; rewrite decide_True by by apply held_holder.
  1, 2: edestruct @page_op_some as (a & r & -> & Hr).
  3, 4: destruct Hd as [-> Hd]; edestruct @section_op_some as (a & r & -> & Hr); [exact Hlz|].
  all: exists k; rewrite held_set_reader; cbn [sh_reader set_reader]; rewrite ?Hr; repeat split; naive_solver.
Qed.

Lemma sum_list_decr ks i k : ks !! i = Some (S k) -> sum_list ks = S (sum_list (<[i := k]> ks)).
Proof.
  revert i. induction ks as [|k0 ks IH]; intros [|i] Hi; try done; cbn in *.
  - by injection Hi as ->.
  - by rewrite (IH _ Hi), Nat.add_succ_r.
Qed.

Lemma step_orderly lz ks m m' :
  orderly lz ks m -> step m m' ->
  exists ks', orderly lz ks' m' /\ sum_list ks = S (sum_list ks').
Proof.
  intros [Hlz Hlen Hth Hho] Hstep. destruct Hstep as [i p p' s s' ts Hi Hs]. cbn in *.
  destruct (lookup_lt_is_Some_2 ks i) as [k Hk]; [rewrite Hlen; by eapply lookup_lt_Some|].
  pose proof (thread_step_orderly lz i k p s Hlz (fun l j Hj => proj2 (Hho l j Hj)) (Hth _ _ _ Hi Hk)) as Hst.
  rewrite Hs in Hst. destruct Hst as (k' & -> & Hd & Hlz' & [Hoth Hhol]).
  exists (<[i := k']> ks). split; [|by apply sum_list_decr].
  constructor; cbn [pl_shared pl_threads]; [done|by rewrite !length_insert| |].
  - intros j q kq Hq Hkq. destruct (decide (j = i)) as [->|Hne].
    + rewrite list_lookup_insert_eq in Hq by (by eapply lookup_lt_Some).
      rewrite list_lookup_insert_eq in Hkq by (by eapply lookup_lt_Some). by simplify_eq.
    + rewrite list_lookup_insert_ne in Hq by done. rewrite list_lookup_insert_ne in Hkq by done. rewrite Hoth by done. by eapply Hth.
  - intros l j Hl. rewrite length_insert. destruct (Hhol l j Hl) as [[->|Hj] Hheld]; split; try done.
    + by eapply lookup_lt_Some.
    + by apply (Hho l j).
Qed.

(** As long as a thread has not returned, some thread can step. *)
Lemma orderly_progress lz ks m :
  orderly lz ks m ->
  (exists m', step m m') \/ Forall (fun p => returned p <> None) (pl_threads m).
Proof.
  intros [Hlz Hlen Hth Hho]. destruct m as [s ts]. cbn in *.
  assert (Hcan : forall i p, ts !! i = Some p -> returned p = None ->
            (exists m', step {| pl_shared := s; pl_threads := ts |} m') \/
            (held i s = None /\ exists l j, holder l s = Some j)).
  { intros i p Hi Hp. destruct (lookup_lt_is_Some_2 ks i) as [k Hk]; [rewrite Hlen; by eapply lookup_lt_Some|].
    pose proof (thread_step_orderly lz i k p s Hlz (fun l j Hj => proj2 (Hho l j Hj)) (Hth _ _ _ Hi Hk)) as Hst.
    destruct (thread_step i p s) as [[p' s']|] eqn:E; [left; eexists; by eapply step_thread|].
    destruct Hst; [done|by right]. }
  destruct (decide (Forall (fun p => returned p <> None) ts)) as [|Hnot]; [by right|left].
  apply not_Forall_Exists, Exists_exists in Hnot as (p & Hp & Hret); [|apply _].
  apply list_elem_of_lookup in Hp as [i Hi]. apply dec_stable in Hret.
  destruct (Hcan i p Hi Hret) as [|(_ & l & j & Hj)]; [done|].
  destruct (Hho l j Hj) as [Hlt Hheld]. destruct (lookup_lt_is_Some_2 _ _ Hlt) as [q Hq].
  destruct (lookup_lt_is_Some_2 ks j) as [k Hk]; [by rewrite Hlen|].
  destruct (returned q) as [m|] eqn:Eq; [|destruct (Hcan j q Hq Eq) as [|[Hn _]]; [done|by rewrite Hheld in Hn]].
  pose proof (Hth _ _ _ Hq Hk) as Hd. destruct q; try done. cbn in Hd. by rewrite Hheld in Hd.
Qed.

Lemma steps_orderly lz ks m m' n :
  orderly lz ks m -> nsteps step n m m' ->
  exists ks', orderly lz ks' m' /\ sum_list ks = (n + sum_list ks')%nat.
Proof.
  intros Ho Hn. revert ks Ho. induction Hn as [m|n m m1 m' Hs _ IH]; intros ks Ho; [by exists ks|].
  destruct (step_orderly _ _ _ _ Ho Hs) as (ks1 & Ho1 & Hk1).
  destruct (IH _ Ho1) as (ks' & Ho' & Hk'). exists ks'. split; [done|]. lia.
Qed.

Lemma spawn_orderly r cs :
  reader_sane r -> Forall call_wf cs -> orderly (is_lazy r) (call_bound r <$> cs) (spawn r cs).
Proof.
  intros Hr Hcs. constructor; cbn; [done|by rewrite !length_fmap| |by intros []].
  intros i p k Hp Hk. apply list_lookup_fmap_Some in Hp as (c & -> & Hc).
  rewrite list_lookup_fmap, Hc in Hk. injection Hk as <-. apply disciplined_call; [done|].
  rewrite Forall_lookup in Hcs. by eapply Hcs.
Qed.

Lemma orderly_finishes lz ks m :
  orderly lz ks m ->
  exists m', rtc step m m' /\ Forall (fun p => returned p <> None) (pl_threads m').
Proof.
  remember (sum_list ks) as n eqn:Hn. revert ks m Hn.
  induction n as [n IH] using lt_wf_ind. intros ks m -> Ho.
  destruct (orderly_progress _ _ _ Ho) as [[m1 Hs]|]; [|by exists m].
  destruct (step_orderly _ _ _ _ Ho Hs) as (ks1 & Ho1 & Hk1).
  destruct (IH (sum_list ks1) ltac:(lia) ks1 m1 eq_refl Ho1) as (m' & Hm' & Hret).
  exists m'. split; [by eapply rtc_l|done].
Qed.

(** C9: the locks cannot deadlock and no call waits for ever.  Whatever the
    reader, whatever the calls and however the scheduler interleaves them, a
    pool of calls takes at most [call_bound] steps per call in all, twelve for
    each chunk a read touches and six for a decoded chunk; and from every pool
    it can reach, the threads that have not returned can be run to their return,
    some thread being able to step as long as one has not returned. *)
Theorem no_deadlock r cs n m :
  reader_sane r -> Forall call_wf cs -> nsteps step n (spawn r cs) m ->
  (n <= sum_list (call_bound r <$> cs))%nat /\
  ((exists m', step m m') \/ Forall (fun p => returned p <> None) (pl_threads m)) /\
  exists m', rtc step m m' /\ Forall (fun p => returned p <> None) (pl_threads m').
Proof.
  intros Hr Hcs Hn. destruct (steps_orderly _ _ _ _ _ (spawn_orderly r cs Hr Hcs) Hn) as (ks & Ho & Hk).
  split; [lia|]. split; [by eapply orderly_progress|by eapply orderly_finishes].
Qed.
End Discipline.

(** * What the threads of a reader of an image answer *)

Section Answers.
Context `{SafeRead} `{ZlibLaws} `{Profile} `{LruLaws Z (list Chunk)} `{LruLaws Z (list byte)}.
Variables (im : image) (css : list (list Chunk)).

(** [p] returns an outcome in [Q] when the caches only answer pages and sections
    of the image, and it stores nothing else in them. *)
Fixpoint answers {A} (Q : res A -> Prop) (p : prog A) {struct p} : Prop :=
  match p with
  | Done m => Q m
  | Lock _ p | Unlock _ p => answers Q p
  | PageGet id f => forall o, (forall page, o = Some page -> im_page im id = Ok page) -> answers Q (f o)
  | PagePut id page p => im_page im id = Ok page /\ answers Q p
  | SectionGet pos f => forall o, (forall sec, o = Some sec -> get css pos = Some sec) -> answers Q (f o)
  | SectionPut pos sec p => get css pos = Some sec /\ answers Q p
  end.

Lemma answers_bind {A B} (Q : res A -> Prop) (Q' : res B -> Prop) p (f : A -> prog B) :
  answers Q p ->
  (forall m, Q m -> match m with Ok a => answers Q' (f a) | Err e => Q' (Err e) | Panic => Q' Panic end) ->
  answers Q' (p ≫= f).
Proof.
  intros Hp Hf. revert Hp.
  induction p as [m|l p IH|l p IH|id g IH|id page p IH|pos g IH|pos sec p IH];
    cbn [answers mbind prog_bind]; [|naive_solver..].
  intros Hm. specialize (Hf m Hm). by destruct m.
Qed.

Lemma answers_locked {A} (Q : res A -> Prop) l p : answers Q p -> answers Q (locked l p).
Proof.
  cbn [answers locked].
  induction p as [m|l' p IH|l' p IH|id g IH|id page p IH|pos g IH|pos sec p IH];
    cbn [answers drop_guard]; naive_solver.
Qed.

(** The outcome of a prefix that touches no cache. *)
Lemma answers_pure {A B} (Q : res B -> Prop) (m : res A) (f : A -> prog B) :
  match m with Ok a => answers Q (f a) | Err e => Q (Err e) | Panic => Q Panic end ->
  answers Q (Done m ≫= f).
Proof. by destruct m. Qed.

(** The table holds the chunks of the image, flat or as the sections [css]. *)
Definition table_view (t : ChunkTable) : Prop :=
  match t with
  | Eager v => v = im_chunks im
  | Lazy l => exists contents chunk_size,
      Forall2 serves (im_segments im) contents /\ lazy_implements css chunk_size contents l /\
      concat css = im_chunks im
  end.

Lemma answers_table t id :
  table_view t -> 0 <= id ->
  answers (eq (ok_or (Parse (ChunkIdOutOfRange id (zlen (im_chunks im)))) (get (im_chunks im) id)))
    (ChunkTable_get_steps t id (im_segments im)).
Proof.
  intros Ht Hid. destruct t as [v|t]; [by rewrite <-Ht|].
  destruct Ht as (contents & size & Hseg & [Hi Hlen Hsize Hst _] & <-).
  cbn [ChunkTable_get_steps]. unfold LazyChunkTable_get_steps.
  destruct (concat_sections _ _ _ _ _ Hi Hst) as [Hend Hget].
  pose proof (section_for_found t id Hi Hid) as Hfor.
  apply answers_pure. destruct (section_for t id) as [[pos|]| |]; try done; apply answers_pure; cbn [ok_or].
  2: { rewrite (proj2 (get_none _ _)) by lia. cbn. do 3 f_equal. lia. }
  destruct Hfor as (m & Hm & Hrange). pose proof (get_bounds _ _ _ Hm) as Hpos.
  destruct (Forall2_get_l _ _ _ _ _ Hst Hm) as (cs & Hcs & Hsto).
  apply answers_pure. rewrite (proj2 (index_ok _ _ _) Hm). apply answers_pure.
  pose proof (index_from_range _ _ _ _ Hi Hm) as (Hfc & Hmc & Hmax). rewrite sub64_ok by lia.
  specialize (Hget _ _ _ _ Hm Hcs Hrange). rewrite Z.sub_0_r in Hget. rewrite Hget.
  destruct (get_some cs (id - first_chunk_id m)) as [c Hc]; [destruct Hsto as (_ & ? & _); lia|].
  rewrite Hc. cbn [ok_or].
  apply (answers_bind (fun r => r = Ok None \/ r = Ok (Some c))).
  { apply answers_locked. cbn [answers]. intros [sec|] Hsec; [|by left].
    specialize (Hsec sec eq_refl). rewrite Hcs in Hsec. injection Hsec as <-.
    rewrite (proj2 (index_ok _ _ _) Hc). by right. }
  intros ? [->| ->]; [|done]. apply answers_pure.
  rewrite Hsize, (load_section_stored _ _ _ _ _ Hseg Hsto). apply answers_pure.
  rewrite (proj2 (index_ok _ _ _) Hc). apply (answers_bind (eq (Ok tt))).
  { apply answers_locked. by split. }
  by intros ? <-.
Qed.

Hypothesis Hok : image_ok im.

Section Calls.
Variable self : EwfReader.
Hypothesis Hsegments : r_segments self = im_segments im.
Hypothesis Hchunk_size : r_chunk_size self = im_chunk_size im.
Hypothesis Htotal_size : r_total_size self = im_total_size im.
Hypothesis Htable : table_view (r_chunks self).

Lemma answers_decompress id :
  0 <= id -> answers (eq (im_page im id)) (decompress_chunk_steps self id).
Proof.
  intros Hid. pose proof (io_wf _ Hok) as [Hcs _]. unfold decompress_chunk_steps.
  rewrite Hsegments, Hchunk_size. apply answers_pure. unfold vec_zeroed.
  rewrite (proj2 (Z.leb_le _ i64_max)) by lia.
  eapply answers_bind; [by apply answers_table|]. intros ? <-. unfold im_page, page_of.
  by destruct (ok_or _ _).
Qed.

Lemma answers_read_chunk id :
  0 <= id -> answers (eq (im_page im id)) (read_chunk_steps self id).
Proof.
  intros Hid. unfold read_chunk_steps.
  apply (answers_bind (fun m => match m with
           | Ok None => True | Ok (Some page) => im_page im id = Ok page | _ => False end)).
  { apply answers_locked. cbn [answers]. intros [page|] Hpage; [by apply Hpage|done]. }
  intros [[page|]| |] Hm; try done.
  eapply answers_bind; [by apply answers_decompress|]. intros m Hm'. rewrite Hm'.
  destruct m as [page| |]; [|done|done].
  apply (answers_bind (eq (Ok tt))); [by apply answers_locked|]. by intros ? <-.
Qed.

Lemma answers_read_at_loop fuel n off got :
  0 <= off <= u64_max -> zlen got <= n -> n - zlen got < Z.of_nat fuel ->
  answers (eq (rest ← read_spec im (n - zlen got) off; Ok (got ++ rest)))
    (read_at_loop_steps fuel self n off got).
Proof.
  pose proof (io_wf _ Hok) as [Hcs Hts]. revert off got.
  induction fuel as [|fuel IH]; intros off got Ho Hgot Hfuel; [lia|].
  cbn [read_at_loop_steps]. rewrite Hchunk_size, Htotal_size.
  rewrite (proj2 (Z.eqb_neq (im_chunk_size im) 0)) by lia.
  pose proof (Z.mod_pos_bound off (im_chunk_size im) ltac:(lia)) as Hmod.
  rewrite <-Z.min_assoc, (Z.min_comm (sat_sub _ _)). fold (read_len im (n - zlen got) off).
  set (k := Z.min _ _). assert (0 <= read_len im (n - zlen got) off) as Hl.
  { unfold read_len, sat_sub. lia. }
  destruct (k =? 0) eqn:Ek; bool_hyps.
  { rewrite read_spec_empty by lia. cbn. by rewrite app_nil_r. }
  rewrite read_spec_step by (done || lia). fold k.
  eapply answers_bind; [apply answers_read_chunk, Z.div_pos; lia|]. intros m Hm.
  pose proof (im_page_returns im (off / im_chunk_size im) Hok) as Hlen. rewrite Hm in Hlen |- *.
  destruct m as [page| |]; [|done|done]. cbn [returns] in Hlen.
  apply answers_pure. unfold index_range. rewrite slice_some by lia. cbn [or_panic].
  replace (off mod im_chunk_size im + k - off mod im_chunk_size im) with k by lia.
  assert (zlen (ztake k (zdrop (off mod im_chunk_size im) page)) = k) as Hk.
  { rewrite zlen_ztake, zlen_zdrop. lia. }
  assert (off + k <= im_total_size im) as Hend by (unfold k, read_len, sat_sub in *; lia).
  apply answers_pure. rewrite add64_ok by lia.
  specialize (IH (off + k) (got ++ ztake k (zdrop (off mod im_chunk_size im) page))).
  rewrite zlen_app, Hk in IH. replace (n - (zlen got + k)) with (n - zlen got - k) in IH by lia.
  cbn [mbind outcome_bind]. specialize (IH ltac:(lia) ltac:(unfold k, read_len in *; lia) ltac:(lia)).
  destruct (read_spec im (n - zlen got - k) (off + k)); cbn [mbind outcome_bind] in *; [|done|done].
  by rewrite <-app_assoc in IH.
Qed.

(** What a call answers: a function of the image alone. *)
Definition call_spec (c : call) : res (list byte) :=
  match c with
  | ReadAt n off => read_spec im n off
  | Decompress id => im_page im id
  end.

Lemma answers_call c : call_wf c -> answers (eq (call_spec c)) (call_steps self c).
Proof.
  destruct c as [n off|id]; [|by apply answers_decompress]. intros [Hn Ho].
  pose proof (zlen_nil (A:=byte)) as Hz. cbn [call_steps call_spec]. unfold read_at_steps.
  pose proof (answers_read_at_loop (S (Z.to_nat n)) n off [] Ho ltac:(lia) ltac:(lia)) as Ha.
  rewrite Hz, Z.sub_0_r in Ha. by destruct (read_spec im n off).
Qed.
End Calls.
End Answers.

(** * The pool serves the image *)

Section Serve.
Context `{SafeRead} `{ZlibLaws} `{Profile} `{LruLaws Z (list Chunk)} `{LruLaws Z (list byte)}.

(** Every thread is on its way to the answer of its call, on a reader of the
    image. *)
Record serving (im : image) (pos : Z) (css : list (list Chunk)) (cs : list call) (m : pool) : Prop := {
  sv_presents : presents im pos (sh_reader (pl_shared m));
  sv_table : table_view im css (r_chunks (sh_reader (pl_shared m)));
  sv_threads : Forall2 (fun p c => answers im css (eq (call_spec im c)) p) (pl_threads m) cs;
}.

Lemma table_view_presents im t :
  table_presents (im_segments im) t (im_chunks im) -> exists css, table_view im css t.
Proof.
  intros Ht. inversion Ht as [v|contents css size l Hs Hi]; [by exists []|].
  exists css. by exists contents, size.
Qed.

Lemma presents_table_view im css t :
  table_view im css t -> table_presents (im_segments im) t (im_chunks im).
Proof.
  destruct t as [v|l]; cbn [table_view]; [intros ->; constructor|].
  intros (contents & size & Hs & Hi & <-). by econstructor.
Qed.

Lemma page_op_serves im pos {A} (f : lru Z (list byte) -> A * lru Z (list byte)) r a r' :
  presents im pos r ->
  (forall id page, fst (lru_get id (snd (f (r_cache r)))) = Some page -> im_page im id = Ok page) ->
  page_op f r = Some (a, r') -> presents im pos r' /\ r_chunks r' = r_chunks r.
Proof.
  intros [] Hf. unfold page_op. destruct (f (r_cache r)) as [b c]. intros [= <- <-].
  split; [|done]. by constructor.
Qed.

Lemma section_op_serves im pos css {A} (f : lru Z (list Chunk) -> A * lru Z (list Chunk)) r a r' :
  presents im pos r -> table_view im css (r_chunks r) ->
  (forall c, (forall p sec, fst (lru_get p c) = Some sec -> get css p = Some sec) ->
     forall p sec, fst (lru_get p (snd (f c))) = Some sec -> get css p = Some sec) ->
  section_op f r = Some (a, r') -> presents im pos r' /\ table_view im css (r_chunks r').
Proof.
  intros [] Ht Hf. unfold section_op. destruct (r_chunks r) as [v|t]; [done|].
  destruct (f (lazy_cache t)) as [b c] eqn:Ef. intros [= <- <-].
  assert (Ht' : table_view im css (Lazy {| lazy_index := lazy_index t; lazy_len := lazy_len t;
                  lazy_chunk_size := lazy_chunk_size t; lazy_cache := c |})).
  { destruct Ht as (contents & size & Hs & [Hi Hl Hsz Hst Hc] & Hcat). exists contents, size.
    split; [done|]. split; [|done]. constructor; try done. cbn.
    specialize (Hf _ Hc). by rewrite Ef in Hf. }
  split; [|exact Ht']. constructor; try done. by eapply presents_table_view.
Qed.

Lemma thread_step_serves im pos css {A} (Q : res A -> Prop) i (p p' : prog A) s s' :
  presents im pos (sh_reader s) -> table_view im css (r_chunks (sh_reader s)) ->
  answers im css Q p -> thread_step i p s = Some (p', s') ->
  presents im pos (sh_reader s') /\ table_view im css (r_chunks (sh_reader s')) /\
  answers im css Q p'.
Proof.
  intros Hr Ht Hp Hs. pose proof (pr_cache _ _ _ Hr) as Hcache.
  destruct p as [m|l p|l p|id f|id page p|k f|k sec p]; cbn [thread_step answers] in *; [done|..];
    unfold guarded in Hs; destruct (decide _) as [Hd|Hd]; try discriminate Hs.
  1, 2: injection Hs as <- <-; by rewrite sh_reader_set_holder.
  - destruct (page_op _ _) as [[o r']|] eqn:E; [|done]. injection Hs as <- <-. cbn [sh_reader set_reader].
    pose proof E as E'. unfold page_op in E'.
    eapply page_op_serves in E as [Hr' ->]; [|done|intros ? ?; rewrite lru_get_get; apply Hcache].
    split; [done|]. split; [done|]. apply Hp. intros page ->. apply Hcache.
    destruct (lru_get id _) as [o' c]. by injection E' as -> _.
  - destruct Hp as [Hpage Hp]. destruct (page_op _ _) as [[o r']|] eqn:E; [|done]. injection Hs as <- <-.
    eapply page_op_serves in E as [Hr' Hc]; [|done|].
    2: { cbn. intros id' page' [[-> ->]|Hg]%lru_get_put; [done|by apply Hcache]. }
    cbn [sh_reader set_reader]. by rewrite Hc.
  - destruct (section_op _ _) as [[o r']|] eqn:E; [|done]. injection Hs as <- <-.
    assert (Ho : forall sec, o = Some sec -> get css k = Some sec).
    { intros sec ->. unfold section_op in E. destruct (r_chunks (sh_reader s)) as [v|t]; [done|].
      destruct Ht as (contents & size & _ & Hli & _). apply (li_cache _ _ _ _ Hli).
      destruct (lru_get k _) as [o' c]. by injection E as -> _. }
    eapply section_op_serves in E as [Hr' Ht']; [|done|done|].
    2: { intros c Hc p sec. rewrite lru_get_get. apply Hc. }
    split; [done|]. split; [done|]. by apply Hp.
  - destruct Hp as [Hsec Hp]. destruct (section_op _ _) as [[o r']|] eqn:E; [|done]. injection Hs as <- <-.
    eapply section_op_serves in E as [Hr' Ht']; [by split|done|done|].
    cbn. intros c Hc p' sec' [[-> ->]|Hg]%lru_get_put; [done|by apply Hc].
Qed.

Lemma step_serving im pos css cs m m' :
  serving im pos css cs m -> step m m' -> serving im pos css cs m'.
Proof.
  intros [Hr Ht Hth] Hstep. destruct Hstep as [i p p' s s' ts Hi Hs]. cbn in *.
  destruct (Forall2_lookup_l _ _ _ _ _ Hth Hi) as (c & Hc & Hp).
  destruct (thread_step_serves _ _ _ _ _ _ _ _ _ Hr Ht Hp Hs) as (Hr' & Ht' & Hp').
  constructor; cbn; [done|done|]. rewrite <-(list_insert_id _ _ _ Hc). by apply Forall2_insert.
Qed.

Lemma spawn_serving im pos r cs :
  image_ok im -> presents im pos r -> Forall call_wf cs ->
  exists css, serving im pos css cs (spawn r cs).
Proof.
  intros Hok Hr Hcs. pose proof Hr as [Hseg Hsize Htot _ _ _ Htab _].
  destruct (table_view_presents _ _ Htab) as [css Ht]. exists css. constructor; cbn; [done|done|].
  apply Forall2_fmap_l, Forall_Forall2_diag. eapply Forall_impl; [exact Hcs|].
  intros c Hc. by apply answers_call.
Qed.

Lemma steps_serving im pos css cs m m' :
  serving im pos css cs m -> rtc step m m' -> serving im pos css cs m'.
Proof. intros Hm Hs. induction Hs; eauto using step_serving. Qed.

Lemma call_atomic_spec im pos r c :
  image_ok im -> presents im pos r -> call_wf c ->
  exists r', call_atomic c r = (call_spec im c, r') /\ presents im pos r' /\ no_panic (call_spec im c).
Proof.
  intros Hok Hr Hc. destruct c as [n off|id]; cbn in *.
  - apply read_at_serves; tauto.
  - destruct (decompress_chunk_serves im pos id (io_wf _ Hok) Hc r Hr) as (r' & Hrun & Hr').
    exists r'. split; [done|]. split; [done|].
    eapply returns_no_panic. by apply im_page_returns.
Qed.

(** C8: concurrent reads.  Threads share a reader of an image, each in a
    positioned read or in one chunk of a verification; they interleave at every
    lock, cache access and unlock, in any order.  At every moment the reader
    still presents the image, and a thread that has returned has returned what
    the same call returns on the same reader with no other thread running, which
    is the value [Reader] specifies from the image alone, and is not a panic. *)
Theorem concurrent_reads im pos r cs m :
  image_ok im -> presents im pos r -> Forall call_wf cs -> rtc step (spawn r cs) m ->
  presents im pos (sh_reader (pl_shared m)) /\ length (pl_threads m) = length cs /\
  forall i p c a, pl_threads m !! i = Some p -> cs !! i = Some c -> returned p = Some a ->
    a = fst (call_atomic c r) /\ a = call_spec im c /\ no_panic a.
Proof.
  intros Hok Hr Hcs Hm. destruct (spawn_serving im pos r cs Hok Hr Hcs) as [css Hsv].
  pose proof (steps_serving _ _ _ _ _ _ Hsv Hm) as [Hr' _ Hth].
  split; [done|]. split; [by eapply Forall2_length|]. intros i p c a Hp Hc Ha.
  pose proof (Forall2_lookup_lr _ _ _ _ _ _ Hth Hp Hc) as Hans.
  destruct p; try done. injection Ha as ->. cbn in Hans. subst a.
  rewrite Forall_lookup in Hcs.
  destruct (call_atomic_spec im pos r c Hok Hr (Hcs _ _ Hc)) as (r' & -> & _ & Hn). done.
Qed.
End Serve.

(** * [verify] under any schedule of its chunks *)

Section VerifyThreads.
Context `{SafeRead} `{ZlibLaws} `{Profile} `{LruLaws Z (list Chunk)} `{LruLaws Z (list byte)}.
Context `{RayonLaws}.

(** The chunks [ids] of a batch decoded by threads under some schedule: the
    outcome of each, in order, and the reader they leave. *)
Definition batch_run (ids : list Z) (r : EwfReader) (outcomes : list (res (list byte)))
    (r' : EwfReader) : Prop :=
  exists m, rtc step (spawn r (Decompress <$> ids)) m /\
            pl_threads m = Done <$> outcomes /\ sh_reader (pl_shared m) = r'.

(** [verify_batches] with [into_par_iter] run by threads: it can end with [m],
    leaving [r']. *)
Fixpoint verify_threads (fuel : nat) (start chunk_count batch : Z) (data : list byte) (hashed : Z)
    (r : EwfReader) (m : res (list byte)) (r' : EwfReader) : Prop :=
  match fuel with
  | O => m = Panic /\ r' = r
  | S fuel =>
    if chunk_count <=? start then m = Ok data /\ r' = r
    else
      match add64 start batch with
      | Ok sum =>
        exists outcomes r1, batch_run (range start (Z.min sum chunk_count)) r outcomes r1 /\
          match pages ← par_collect outcomes; hash_pages (r_total_size r1) pages data hashed with
          | Ok (data, hashed) =>
            verify_threads fuel (start + batch) chunk_count batch data hashed r1 m r'
          | Err e => m = Err e /\ r' = r1
          | Panic => m = Panic /\ r' = r1
          end
      | Err e => m = Err e /\ r' = r
      | Panic => m = Panic /\ r' = r
      end
  end.

Lemma presents_sane im pos r : image_ok im -> presents im pos r -> reader_sane r.
Proof.
  intros [[Hcs Hts] _ _] Hr. unfold reader_sane.
  rewrite (pr_chunk_size _ _ _ Hr), (pr_total_size _ _ _ Hr). lia.
Qed.

Lemma range_nonneg start end_ : 0 <= start -> Forall (Z.le 0) (range start end_).
Proof. intros Hs. apply Forall_forall. intros id Hid%elem_of_seqZ. lia. Qed.

Lemma range_wf start end_ : 0 <= start -> Forall call_wf (Decompress <$> range start end_).
Proof. intros Hs. by apply Forall_fmap, range_nonneg. Qed.

(** Every schedule of a batch gives the outcomes of the sequential map, and one
    that decodes the whole batch exists. *)
Lemma batch_run_outcomes im pos start end_ r outcomes r' :
  image_ok im -> presents im pos r -> 0 <= start ->
  batch_run (range start end_) r outcomes r' ->
  outcomes = im_page im <$> range start end_ /\ presents im pos r'.
Proof.
  intros Hok Hr Hs (m & Hm & Hth & <-).
  destruct (spawn_serving im pos r _ Hok Hr (range_wf start end_ Hs)) as [css Hsv].
  pose proof (steps_serving _ _ _ _ _ _ Hsv Hm) as [Hr' _ Hf]. split; [|done].
  rewrite Hth in Hf. apply Forall2_fmap in Hf. cbn in Hf. clear -Hf.
  revert Hf. generalize (range start end_) as ids. intros ids Hf.
  induction Hf as [|m id ms ids Hm _ IH]; [done|]. cbn. by rewrite Hm, IH.
Qed.

Lemma returned_all (ts : list (prog (list byte))) :
  Forall (fun p => returned p <> None) ts -> exists outcomes, ts = Done <$> outcomes.
Proof.
  induction 1 as [|p ts Hp _ [outs ->]]; [by exists []|].
  destruct p as [m|? ?|? ?|? ?|? ? ?|? ?|? ? ?]; try done. by exists (m :: outs).
Qed.

Lemma batch_run_exists im pos start end_ r :
  image_ok im -> presents im pos r -> 0 <= start ->
  exists outcomes r', batch_run (range start end_) r outcomes r'.
Proof.
  intros Hok Hr Hs. pose proof (presents_sane _ _ _ Hok Hr) as Hsane.
  destruct (orderly_finishes _ _ _ (spawn_orderly r _ Hsane (range_wf start end_ Hs))) as (m & Hm & Hret).
  destruct (returned_all _ Hret) as [outs Houts]. exists outs, (sh_reader (pl_shared m)). by exists m.
Qed.

Lemma verify_threads_ends im pos fuel start count batch data hashed r :
  image_ok im -> presents im pos r -> 0 <= start -> 0 < batch ->
  exists m r', verify_threads fuel start count batch data hashed r m r'.
Proof.
  intros Hok. revert start data hashed r.
  induction fuel as [|fuel IH]; intros start data hashed r Hr Hs Hb; cbn [verify_threads]; [eauto|].
  destruct (count <=? start); [eauto|]. destruct (add64 start batch) as [sum|e|]; [|eauto..].
  destruct (batch_run_exists im pos start (Z.min sum count) r Hok Hr Hs) as (outs & r1 & Hrun).
  destruct (batch_run_outcomes _ _ _ _ _ _ _ Hok Hr Hs Hrun) as [_ Hr1].
  destruct (pages ← par_collect outs; hash_pages (r_total_size r1) pages data hashed)
    as [[data' hashed']|e|] eqn:E.
  - destruct (IH (start + batch) data' hashed' r1 Hr1 ltac:(lia) Hb) as (m & r' & Hm).
    exists m, r', outs, r1. split; [done|]. by rewrite E.
  - exists (Err e), r1, outs, r1. split; [done|]. by rewrite E.
  - exists Panic, r1, outs, r1. split; [done|]. by rewrite E.
Qed.

Lemma verify_threads_batches im pos fuel start count batch data hashed r0 r m r' :
  image_ok im -> presents im pos r0 -> presents im pos r -> 0 <= start -> 0 < batch ->
  verify_threads fuel start count batch data hashed r m r' ->
  fst (verify_batches fuel start count batch data hashed r0) = m /\ presents im pos r'.
Proof.
  intros Hok. revert start data hashed r0 r.
  induction fuel as [|fuel IH]; intros start data hashed r0 r Hr0 Hr Hs Hb; cbn [verify_threads verify_batches].
  { by intros [-> ->]. }
  destruct (count <=? start); [by intros [-> ->]|].
  destruct (add64 start batch) as [sum|e|]; [|by intros [-> ->]..].
  intros (outs & r1 & Hrun & Hm).
  destruct (batch_run_outcomes _ _ _ _ _ _ _ Hok Hr Hs Hrun) as [-> Hr1].
  destruct (map_each_serves im pos (range start (Z.min sum count)) r0 Hok) as (r2 & -> & Hr2);
    [by apply range_nonneg|done|].
  rewrite stateful_lift_run. destruct (par_collect _) as [pages|e|]; [|by destruct Hm as [-> ->]..].
  rewrite stateful_lift_run. cbn [mbind outcome_bind] in Hm.
  rewrite (pr_total_size _ _ _ Hr1) in Hm. rewrite (pr_total_size _ _ _ Hr2).
  destruct (hash_pages _ pages data hashed) as [[data' hashed']|e|]; [|by destruct Hm as [-> ->]..].
  apply (IH (start + batch) data' hashed' r2 r1); [done|done|lia|done|done].
Qed.

(** Parallel verification.  The chunks of each batch of [verify] are decoded
    by threads that share the reader, under any schedule.  Such a verification
    always comes to an end, and whatever the schedules were it hands the hashers
    the bytes, or ends with the outcome, of the verification that decodes the
    chunks one after the other; the reader still presents the image. *)
Theorem parallel_verify im pos fuel batch r :
  image_ok im -> presents im pos r -> 0 < batch ->
  (exists m r', verify_threads fuel 0 (chunk_count_of r) batch [] 0 r m r') /\
  forall m r', verify_threads fuel 0 (chunk_count_of r) batch [] 0 r m r' ->
    m = fst (verify_batches fuel 0 (chunk_count_of r) batch [] 0 r) /\ presents im pos r'.
Proof.
  intros Hok Hr Hb. split; [by eapply verify_threads_ends|]. intros m r' Hm.
  destruct (verify_threads_batches im pos fuel 0 _ batch [] 0 r r m r' Hok Hr Hr ltac:(lia) Hb Hm). done.
Qed.
End VerifyThreads.
