(* ===== verification/OpenSafe.v ===== *)
(** Opening EWF v2 segments, and either format by path, with any bytes: what the
    open entry points of [core/src/reader.rs] return on hostile files, in a build
    whose plain arithmetic wraps. *)

From S2P Require Import Prelude Text Extern Types Sections Ewf2 Parse Source ChunkTable ReaderOpen Reader.

Section OpenSafe2.
Context `{SafeReadLaws} `{ZlibLaws} `{Profile} `{LruLaws Z (list Chunk)} `{LruLaws Z (list byte)}.

(** A file the operating system reads, and sizes, without failing. *)
Definition file_ok (f : File) : Prop :=
  file_reliable f /\ zlen (file_bytes f) <= i64_max /\
  file_metadata_len f = Some (zlen (file_bytes f)).

Lemma file_ok_serves f : file_ok f -> serves (SrcFile f) (file_bytes f).
Proof. intros (Hr & Hz & Hm). by apply serves_file. Qed.

Lemma file_read_returns f off n :
  file_ok f -> 0 <= off -> 0 <= n -> returns (fun bs => zlen bs = n) (file_read_exact_at f off n).
Proof.
  intros [Hf _] Ho Hn. unfold file_read_exact_at. destruct (_ <? off); [done|].
  rewrite pread_spec by done. cbn [from_io mbind outcome_bind].
  destruct (_ <? n) eqn:E; bool_hyps; [done|]. cbn. rewrite zlen_ztake in *. lia.
Qed.

(** A descriptor as the walk collects it. *)
Definition v2_descriptor_in (d : Ewf2SectionDescriptor) : Prop :=
  0 <= v2_offset d <= i64_max /\ 0 <= data_size d.

Lemma parsed_at_in bytes d : zlen bytes <= i64_max -> parsed_at bytes d -> v2_descriptor_in d.
Proof.
  intros Hl (buf & Hsl & Hp). pose proof (slice_spec bytes (v2_offset d) (v2_offset d + 64) buf) as [Hspec _].
  unfold EWF2_SECTION_DESCRIPTOR_SIZE in Hsl. specialize (Hspec Hsl). split; [lia|].
  unfold Ewf2SectionDescriptor_parse in Hp. destruct (_ <? _); [done|].
  destruct (index_range buf 32 48) as [h| |]; [|done|done]. injection Hp as <-. cbn. apply le_u64_range.
Qed.

Lemma collect_ewf2_returns f :
  file_ok f -> returns (Forall v2_descriptor_in) (collect_ewf2_descriptors f (zlen (file_bytes f))).
Proof.
  intros (Hf & Hl & _). destruct (decide (zlen (file_bytes f) < EWF2_SECTION_DESCRIPTOR_SIZE)) as [Hs|Hs].
  { unfold collect_ewf2_descriptors. rewrite (proj2 (Z.ltb_lt _ _) Hs). constructor. }
  destruct (collect_ewf2_descriptors f _) as [ds|e|] eqn:E; [|done|].
  - destruct (collect_ewf2_exact f ds Hf Hl ltac:(lia)) as [[Hc _] _]. destruct (Hc E) as [Hch _].
    cbn. rewrite <-(rev_involutive ds), <-(Permutation_rev (rev ds)).
    clear E Hc Hf Hs. induction Hch as [d Hp _|d ds' Hp _ _ IH]; (apply Forall_cons; split; [by eapply parsed_at_in|]).
    + apply Forall_nil_2.
    + exact IH.
  - destruct (collect_ewf2_exact f [] Hf Hl ltac:(lia)) as [_ Hp]. by rewrite E in Hp.
Qed.

Hypothesis wraps : overflow_checks = false.

Lemma mul64_wraps {E} x y : returns (E:=E) (fun z => 0 <= z <= u64_max) (mul64 x y).
Proof.
  unfold mul64, plain. destruct (_ && _) eqn:Eb; [cbn; bool_hyps; lia|]. rewrite wraps. cbn.
  pose proof (Z.mod_pos_bound (x * y - 0) (u64_max - 0 + 1)). lia.
Qed.

Lemma device_info_returns {E} raw cs ts :
  0 <= cs <= u64_max -> 0 <= ts <= u64_max ->
  returns (E:=E) (fun p => 0 <= p.1 <= u64_max /\ 0 <= p.2 <= u64_max) (parse_ewf2_device_info raw cs ts).
Proof.
  intros Hcs Hts. unfold parse_ewf2_device_info. destruct (ewf2_table_rows raw) as [[names values]|]; [|done].
  destruct (fold_left _ _ _) as [[b sc] t]. eapply returns_bind; [apply mul64_wraps|]. cbn beta. intros c Hc.
  assert (0 <= (if 0 <? c then c else cs) <= u64_max) by (destruct (0 <? c); lia).
  destruct (_ && _); [|done]. eapply returns_bind; [apply mul64_wraps|]. intros t' Ht'. done.
Qed.

(** The state between two sections. *)
Record v2_open_wf (o : open_state) : Prop := {
  vo_chunk_size : 0 <= o_chunk_size o <= u64_max;
  vo_total_size : 0 <= o_total_size o <= u64_max;
  vo_chunks : Forall chunk_wf (o_chunks o);
}.

Lemma v2_entries_returns n i buf seg chunks :
  0 <= i -> (i + Z.of_nat n) * EWF2_TABLE_ENTRY_SIZE <= zlen buf -> Forall chunk_wf chunks ->
  returns (Forall chunk_wf) (v2_table_entries n i buf seg chunks).
Proof.
  unfold EWF2_TABLE_ENTRY_SIZE. revert i chunks.
  induction n as [|n IH]; intros i chunks Hi Hl Hc; [done|]. cbn [v2_table_entries].
  unfold EWF2_TABLE_ENTRY_SIZE, index_range. rewrite slice_some by lia. cbn [or_panic mbind outcome_bind].
  set (bytes := ztake _ _). assert (zlen bytes = 16) as Hb.
  { unfold bytes. rewrite zlen_ztake, zlen_zdrop. lia. }
  unfold Ewf2TableEntry_parse, EWF2_TABLE_ENTRY_SIZE. rewrite (proj2 (Z.ltb_ge _ _)) by lia.
  cbn [mbind outcome_bind]. apply IH; [lia|lia|].
  apply Forall_app. split; [done|]. constructor; [apply chunk_new_wf|done].
Qed.

Lemma open_v2_section_returns f seg d o :
  file_ok f -> v2_descriptor_in d -> v2_open_wf o -> returns v2_open_wf (open_v2_section f seg d o).
Proof.
  intros Hf [Hd Hsz] Ho. pose proof Ho as [Hcs Hts Hch].
  assert (forall what, returns (fun a => 0 <= a <= i64_max) (v2_data_offset what d)) as Hoff.
  { intros what. unfold v2_data_offset, checked_sub. destruct (_ <=? _) eqn:E; bool_hyps; cbn; [lia|done]. }
  assert (forall what, returns (fun _ => True) (read_v2_text what f d)) as Htext.
  { intros what. unfold read_v2_text. eapply returns_bind; [apply Hoff|]. intros a Ha. cbn beta in Ha.
    eapply returns_bind; [apply file_read_returns; [done|lia|lia]|]. intros buf _.
    unfold maybe_zlib_decompress. destruct (_ && _); [|done]. by destruct (zlib_read_to_end _ _). }
  unfold open_v2_section. destruct (is_encrypted d); [done|].
  destruct (v2_section_type d); try done.
  - destruct (_ && _); [|done]. eapply returns_bind; [apply Htext|]. intros raw _.
    eapply returns_bind; [by apply device_info_returns|]. intros [cs ts] [Hc Ht]. by constructor.
  - destruct (_ && _); [|done]. eapply returns_bind; [apply Htext|]. intros raw _. by constructor.
  - unfold open_v2_sector_table. eapply returns_bind; [apply Hoff|]. intros a Ha. cbn beta in Ha.
    eapply returns_bind; [apply file_read_returns; [done|lia|lia]|]. intros hdr Hh. cbn beta in *.
    unfold Ewf2TableHeader_parse. rewrite (proj2 (Z.ltb_ge _ _)) by lia. cbn [mbind outcome_bind v2_entry_count].
    destruct (_ <? _) eqn:E; [done|]. bool_hyps. unfold MAX_TABLE_ENTRIES, EWF2_TABLE_ENTRY_SIZE in *.
    pose proof (le_u32_range hdr 8). rewrite add64_ok by lia. cbn [mbind outcome_bind].
    rewrite mul64_ok by lia. cbn [mbind outcome_bind].
    eapply returns_bind; [apply file_read_returns; [done|lia|lia]|]. intros buf Hb. cbn beta in *.
    eapply returns_bind; [apply v2_entries_returns; [lia|unfold EWF2_TABLE_ENTRY_SIZE; lia|done]|].
    intros cks Hcks. by constructor.
  - destruct (_ <=? _); [|done]. unfold open_v2_md5. eapply returns_bind; [apply Hoff|]. intros a Ha. cbn beta in Ha.
    eapply returns_bind; [apply file_read_returns; [done|lia|lia]|]. intros h _. by constructor.
  - destruct (_ <=? _); [|done]. unfold open_v2_sha1. eapply returns_bind; [apply Hoff|]. intros a Ha. cbn beta in Ha.
    eapply returns_bind; [apply file_read_returns; [done|lia|lia]|]. intros h _. by constructor.
Qed.

Lemma fold_res_returns {A B} (P : A -> Prop) (Q : B -> Prop) (f : A -> B -> res B) l b :
  (forall a b, P a -> Q b -> returns Q (f a b)) -> Forall P l -> Q b -> returns Q (fold_res f l b).
Proof.
  intros Hf Hl. revert b. induction Hl as [|a l Ha _ IH]; intros b Hb; [done|]. cbn.
  eapply returns_bind; [by apply Hf|]. intros b' Hb'. by apply IH.
Qed.

Lemma open_v2_segment_returns p o :
  file_ok p.2 -> v2_open_wf o -> returns v2_open_wf (open_v2_segment p o).
Proof.
  destruct p as [i f]. intros Hf Ho. unfold open_v2_segment.
  eapply returns_bind; [by apply collect_ewf2_returns|]. intros ds Hds.
  eapply fold_res_returns; [|exact Hds|done]. intros d o' Hd Ho'. by apply open_v2_section_returns.
Qed.

Lemma open_v2_header_returns f : file_ok f -> returns (fun _ => True) (open_v2_header f).
Proof.
  intros Hf. unfold open_v2_header, EWF2_FILE_HEADER_SIZE. eapply returns_bind; [apply file_read_returns; [done|lia|lia]|].
  intros buf Hb. cbn beta in Hb. unfold Ewf2FileHeader_parse, EWF2_FILE_HEADER_SIZE, index_range, index.
  rewrite (proj2 (Z.ltb_ge _ _)) by lia. rewrite (slice_some buf 0 8), (slice_some buf 16 32) by lia.
  cbn [or_panic mbind outcome_bind]. eapply (returns_bind (fun _ => True)); [repeat case_bool_decide; exact I|]. intros b _.
  destruct (get_some buf 8 ltac:(lia)) as [? ->], (get_some buf 9 ltac:(lia)) as [? ->],
    (get_some buf 10 ltac:(lia)) as [? ->], (get_some buf 11 ltac:(lia)) as [? ->]. cbn [or_panic mbind outcome_bind].
  eapply (returns_bind (fun _ => True)).
  { unfold CompressionMethod_from_u16. repeat case_match; exact I. }
  done.
Qed.

Variable path : Type.
Variable file_open : path -> outcome io_error File.
Hypothesis opens_files : forall p f, file_open p = Ok f -> file_ok f.
Hypothesis opens_safely : forall p, no_panic (file_open p).

Lemma file_open_returns p : returns file_ok (from_io (file_open p)).
Proof.
  pose proof (opens_safely p). destruct (file_open p) as [f|e|] eqn:E; [by eapply opens_files|done|done].
Qed.

(** What an open of EWF v2 segments returns. *)
Record v2_reader_wf (r : EwfReader) : Prop := {
  vr_chunk_size : 0 < r_chunk_size r <= u64_max;
  vr_total_size : 0 <= r_total_size r <= u64_max;
  vr_files : exists files, r_segments r = map SrcFile files /\ Forall file_ok files;
  vr_chunks : exists v, r_chunks r = Eager v /\ Forall chunk_wf v;
}.

Lemma open_segments_v2_returns paths cache_size :
  returns v2_reader_wf (open_segments_v2 path file_open paths cache_size).
Proof.
  unfold open_segments_v2. eapply returns_bind.
  { apply (returns_mapM (fun _ => True) (fun hf : Ewf2FileHeader * File => file_ok hf.2)); [|by apply Forall_true].
    intros p _. eapply returns_bind; [apply file_open_returns|]. intros f Hf.
    eapply returns_bind; [by apply open_v2_header_returns|]. intros h _. exact Hf. }
  intros opened [_ Hop]. eapply returns_bind; [apply reorder_returns; by rewrite !length_map|].
  cbn beta. intros ordered Hperm.
  assert (Forall file_ok ordered) as Hord by (rewrite Hperm; by apply List.Forall_map).
  eapply returns_bind.
  { apply (fold_res_returns (fun p => file_ok p.2) v2_open_wf).
    - intros p o Hp Ho. by apply open_v2_segment_returns.
    - unfold enumerate. clear Hperm. generalize 0 as k.
      induction Hord as [|f l Hf _ IH]; intros k; [apply Forall_nil_2|].
      cbn [enumerate_from]. apply Forall_cons; split; [done|apply IH].
    - by constructor. }
  intros o [Hcs Hts Hch].
  set (cs := if o_chunk_size o =? 0 then DEFAULT_V2_CHUNK_SIZE else o_chunk_size o).
  assert (0 < cs <= u64_max) as Hcs'.
  { unfold cs, DEFAULT_V2_CHUNK_SIZE. destruct (_ =? 0) eqn:E; bool_hyps; lia. }
  eapply (returns_bind (fun ts => 0 <= ts <= u64_max)).
  { destruct (o_total_size o =? 0); [apply mul64_wraps|done]. }
  intros ts Hts'. constructor; cbn; [done|done|by exists ordered|by exists (o_chunks o)].
Qed.

(** A reader with a flat table over files that can be read presents an image, when
    its chunks can be allocated. *)
Definition presents_an_image (r : EwfReader) : Prop :=
  exists v, r_chunks r = Eager v /\
    (r_chunk_size r <= i64_max -> image_ok (image_of r v) /\ presents (image_of r v) 0 r).

Variable limit : Z.
Hypothesis file_sizes : forall p f, file_open p = Ok f -> zlen (file_bytes f) <= limit.

Lemma sources_returns paths :
  returns (fun ss => Forall served ss /\ total_len ss <= limit * zlen paths)
    (mapM (fun p => f ← from_io (file_open p); Ok (SrcFile f)) paths).
Proof.
  induction paths as [|p paths IH]; [split; [apply Forall_nil_2|change (zlen []) with 0; cbn; lia]|].
  cbn [mapM]. pose proof (opens_safely p) as Hp.
  destruct (file_open p) as [f|e|] eqn:E; cbn [from_io mbind outcome_bind]; [|done|done].
  eapply returns_bind; [exact IH|]. intros ss [Hs Hl]. cbn [mret outcome_ret returns].
  pose proof (file_ok_serves f (opens_files _ _ E)) as Hserves.
  split; [apply Forall_cons; split; [by exists (file_bytes f)|done]|].
  rewrite total_len_cons, zlen_cons. rewrite (serves_len (s:=SrcFile f) (bs:=file_bytes f)).
  pose proof (file_sizes _ _ E). lia.
Qed.

Lemma v2_presents cache_size paths :
  returns presents_an_image (open_segments_v2 path file_open paths cache_size).
Proof.
  assert (returns (fun r => v2_reader_wf r /\ r_position r = 0 /\ r_cache r = lru_new (Z.max cache_size 1))
            (open_segments_v2 path file_open paths cache_size)) as Hret.
  { pose proof (open_segments_v2_returns paths cache_size) as Hwf. revert Hwf. unfold open_segments_v2.
    destruct (mapM _ paths) as [opened| |]; [|done|done]. cbn [mbind outcome_bind].
    destruct (validate_and_reorder_segments _ _) as [ordered| |]; [|done|done]. cbn [mbind outcome_bind].
    destruct (fold_res _ _ _) as [o| |]; [|done|done]. cbn [mbind outcome_bind].
    destruct (if o_total_size o =? 0 then _ else _) as [ts| |]; [|done|done]. done. }
  eapply returns_weaken; [exact Hret|]. intros r ([Hcs Hts (files & Hseg & Hfiles) (v & Hv & Hch)] & Hpos & Hcache).
  exists v. split; [done|]. intros Hsmall. split.
  - constructor; [split; cbn; lia| |done]. cbn. rewrite Hseg. apply List.Forall_map.
    eapply Forall_impl; [exact Hfiles|]. intros f Hf. exists (file_bytes f). by apply file_ok_serves.
  - constructor; try done; [cbn; rewrite Hv; constructor|].
    intros id page. by rewrite Hcache, lru_get_new.
Qed.

Lemma open_paths_returns paths cache_size :
  MAX_TABLE_ENTRIES * (limit * zlen paths) <= u64_max ->
  returns presents_an_image (open_paths path file_open paths cache_size None).
Proof.
  intros Hmax. unfold open_paths. destruct paths as [|first rest] eqn:Ep; [done|]. rewrite <-Ep in *.
  eapply returns_bind; [apply file_open_returns|]. intros probe Hprobe.
  eapply returns_bind; [apply file_read_returns; [done|lia|lia]|]. intros sig _.
  destruct (is_ewf2_signature sig); [apply v2_presents|].
  eapply returns_bind; [apply sources_returns|]. intros sources [Hs Hl].
  assert (MAX_TABLE_ENTRIES * total_len sources <= u64_max) as Hmax' by (unfold MAX_TABLE_ENTRIES in *; lia).
  pose proof (open_v1_returns sources cache_size None Hs Hmax') as Hret.
  destruct (open_v1 sources cache_size None) as [r|e|] eqn:Hopen; [|done|done].
  destruct (open_presents sources cache_size r Hs Hmax' Hopen) as (v & Hv & Hok & Hr). by exists v.
Qed.

(** C7: opening by path is safe on any files of either format.  In a build whose
    plain arithmetic wraps, on files of any bytes that can be opened and read, the
    open ends with a reader or with an error, and never panics: no index leaves a
    buffer, no walk of sections goes on for ever, whichever format the first file
    announces.  What it returns presents an image, of which every read is
    answered, unless the chunk size - which an EWF v2 image may declare as large
    as it likes - cannot be allocated. *)
Theorem open_paths_safe paths cache_size :
  MAX_TABLE_ENTRIES * (limit * zlen paths) <= u64_max ->
  returns (fun r => exists v, r_chunks r = Eager v /\
            (r_chunk_size r <= i64_max -> forall n off, 0 <= n -> 0 <= off <= u64_max ->
               no_panic (fst (read_at n off r)) /\ fst (read_at n off r) = read_spec (image_of r v) n off))
    (open_paths path file_open paths cache_size None).
Proof.
  intros Hmax. eapply returns_weaken; [by apply open_paths_returns|].
  intros r (v & Hv & Him). exists v. split; [done|]. intros Hcs n off Hn Ho. destruct (Him Hcs) as [Hok Hr].
  by destruct (read_at_serves _ 0 r n off Hok Hr Hn Ho) as (r' & -> & _ & Hp).
Qed.
End OpenSafe2.
