(* ===== verification/LazyOpen.v ===== *)
(** The lazy open refines the eager one: [EwfReader::open_lazy] presents the image that
    [EwfReader::open] presents ([core/src/reader.rs]).

    The two opens walk the same sections in step.  The eager one parses a table when it
    meets it, with the chunk size known so far; the paged one keeps where the table is
    and parses it on first use, with the chunk size of the image.  They agree when the
    geometry of the image comes before its tables, as the format has it. *)

From S2P Require Import Prelude Text Extern Types Sections Source ChunkTable ReaderOpen Reader.

(** * The order of the sections *)

Definition is_volume (d : SectionDescriptor) : bool :=
  text_eqb (section_type d) (str "volume") || text_eqb (section_type d) (str "disk").

(** One section: [seen] says that a table has been met; [None] for a volume behind it. *)
Definition order_step (table_type : text) (seen : bool) (d : SectionDescriptor) : option bool :=
  if is_volume d then if seen then None else Some false
  else if text_eqb (section_type d) table_type then Some true
  else Some seen.

Fixpoint order_sections (table_type : text) (seen : bool) (ds : list SectionDescriptor) : option bool :=
  match ds with
  | [] => Some seen
  | d :: ds => seen ← order_step table_type seen d; order_sections table_type seen ds
  end.

Fixpoint order_segments `{SafeRead} `{Profile} (seen : bool) (segments : list SegmentSource) : option bool :=
  match segments with
  | [] => Some seen
  | s :: segments =>
    match segment_descriptors s with
    | Ok ds =>
      seen ← order_sections (sc_table_type (make_segment_ctx s 0 ds)) seen ds;
      order_segments seen segments
    | _ => None
    end
  end.

(** No volume section follows a table. *)
Definition volume_first `{SafeRead} `{Profile} (segments : list SegmentSource) : bool :=
  match order_segments false segments with Some _ => true | None => false end.

Lemma length_spec_chunks seg_idx chunk_size e es : length (spec_chunks seg_idx chunk_size e es) = length es.
Proof. induction es as [|[c a] es IH]; [done|]. cbn [spec_chunks length]. by rewrite IH. Qed.

Lemma length_omap_le {A B} (f : A -> option B) l : (length (omap f l) <= length l)%nat.
Proof. induction l as [|x l IH]; [done|]. cbn. destruct (f x); cbn; lia. Qed.

(** No section holds more chunks than it declares. *)
Lemma parsed_count `{SafeRead} seg_idx chunk_size e entries base count :
  0 <= count ->
  zlen (spec_chunks seg_idx chunk_size e (entry_addresses entries base (Z.to_nat (Z.min count (zlen entries / 4)))))
  <= count.
Proof.
  intros Hc. unfold zlen at 1. rewrite length_spec_chunks. unfold entry_addresses.
  pose proof (length_omap_le (entry_address entries base) (seqZ 0 (Z.of_nat (Z.to_nat (Z.min count (zlen entries / 4)))))) as Hl.
  rewrite length_seqZ in Hl. lia.
Qed.

Section Alike.
Context `{SafeReadLaws} `{Zlib} `{Profile} `{LruLaws Z (list Chunk)} `{LruLaws Z (list byte)}.
Variable contents : list (list byte).

(** The section that an index entry points to, parsed: entries whose offset does not
    exist are left out. *)
Definition section_parsed (chunk_size : Z) (m : SectionMeta) (cs : list Chunk) : Prop :=
  0 <= entries_file_offset m /\ zlen cs <= meta_entry_count m /\
  exists bs entries,
    get contents (segment_idx m) = Some bs /\
    slice bs (entries_file_offset m) (entries_file_offset m + meta_entry_count m * 4)
      = Some entries /\
    parse_table_section entries (meta_entry_count m) (meta_base_offset m) (segment_idx m)
      chunk_size (sectors_data_end m) = Ok cs.

(** The local variables of the two opens at the same section. *)
Record opens_alike (seen : bool) (e l : open_state) : Prop := {
  oa_chunk_size : o_chunk_size l = o_chunk_size e;
  oa_total_size : o_total_size l = o_total_size e;
  oa_md5 : o_md5 l = o_md5 e;
  oa_sha1 : o_sha1 l = o_sha1 e;
  oa_metadata : o_metadata l = o_metadata e;
  oa_errors : o_errors l = o_errors e;
  oa_sections : exists css, o_chunks e = concat css /\
    Forall2 (section_parsed (o_chunk_size e)) (o_index l) css;
  oa_unseen : seen = false -> o_index l = [];
}.

Lemma alike_start : opens_alike false open_start open_start.
Proof. constructor; try done. exists []. split; [done|constructor]. Qed.

(** A handler that leaves the tables and the geometry alone. *)
Lemma alike_kept seen e l e' l' :
  opens_alike seen e l ->
  o_chunk_size e' = o_chunk_size e -> o_chunk_size l' = o_chunk_size l ->
  o_total_size e' = o_total_size e -> o_total_size l' = o_total_size l ->
  o_chunks e' = o_chunks e -> o_index l' = o_index l ->
  o_md5 l' = o_md5 e' -> o_sha1 l' = o_sha1 e' -> o_metadata l' = o_metadata e' -> o_errors l' = o_errors e' ->
  opens_alike seen e' l'.
Proof.
  intros [] E1 E2 E3 E4 E5 E6 E7 E8 E9 E10. constructor; rewrite ?E1, ?E2, ?E3, ?E4, ?E5, ?E6; try done.
Qed.

Variables (c : segment_ctx) (bs : list byte) (len : Z).
Hypothesis Hserves : serves (sc_source c) bs.
Hypothesis Hcontent : get contents (sc_seg_idx c) = Some bs.
Hypothesis Hlen : len <= i64_max.

Lemma source_served : served (sc_source c).
Proof. by exists bs. Qed.

(** What a successful [read_exact] read. *)
Lemma read_exact_at_ok off n out :
  0 <= off <= u64_max -> 0 < n <= i64_max -> read_exact_at (sc_source c) off n = Ok out ->
  slice bs off (off + n) = Some out.
Proof.
  intros Ho Hn. rewrite (read_exact_at_serves _ bs off n (Hs:=Hserves)) by lia. destruct (_ <? _); [done|].
  rewrite (proj2 (Z.eqb_neq n 0)) by lia. destruct (slice bs off (off + n)); [|done]. by intros <-%Ok_inj.
Qed.

(** The tables. *)
Lemma open_table_alike seen d k e l e' :
  descriptor_in len d -> open_wf k l -> MAX_TABLE_ENTRIES * (k + 1) <= u64_max ->
  opens_alike seen e l -> open_table_eager c d e = Ok e' ->
  exists l', open_table_lazy c d l = Ok l' /\ opens_alike true e' l'.
Proof.
  intros Hd Hl Hmax Ha. destruct (section_data_ok _ _ Hd Hlen) as [Hat Hrange].
  unfold open_table_eager. rewrite Hat. cbn [mbind outcome_bind].
  set (at_ := offset d + SECTION_DESCRIPTOR_SIZE) in *.
  destruct (read_exact_at (sc_source c) at_ 24) as [hdr|er|] eqn:Eh; try done.
  apply read_exact_at_ok in Eh; [|lia|lia]. cbn [mbind outcome_bind].
  pose proof (slice_zlen _ _ _ _ Eh) as Hhl. pose proof (slice_bounds _ _ _ _ Eh) as Hhb.
  pose proof (serves_fits (s:=sc_source c) (bs:=bs)) as Hfits.
  rewrite (le_u32_in hdr 0 (ztake (4 - 0) (zdrop 0 hdr))) by (rewrite slice_some by lia; done).
  rewrite (le_u64_in hdr 8 (ztake (16 - 8) (zdrop 8 hdr))) by (rewrite slice_some by lia; done).
  set (count := le_combine (ztake (4 - 0) _)). set (base := le_combine (ztake (16 - 8) _)).
  destruct (MAX_TABLE_ENTRIES <? count) eqn:Ec; [done|]. bool_hyps.
  assert (0 <= count) as Hc0 by apply le_combine_bound.
  unfold MAX_TABLE_ENTRIES in *. rewrite add64_ok by lia. cbn [mbind outcome_bind].
  rewrite mul64_ok by lia. cbn [mbind outcome_bind].
  destruct (read_exact_at (sc_source c) (at_ + 24) (count * 4)) as [entries|er|] eqn:Ee; try done.
  cbn [mbind outcome_bind].
  assert (slice bs (at_ + 24) (at_ + 24 + count * 4) = Some entries) as Hsl.
  { destruct (decide (count = 0)) as [->|Hne]; [|by apply read_exact_at_ok in Ee; [|lia|lia]].
    rewrite (read_exact_at_serves _ bs _ _ (Hs:=Hserves)) in Ee by lia. rewrite (proj2 (Z.ltb_ge i64_max (at_ + 24))) in Ee by lia.
    apply Ok_inj in Ee as <-. rewrite slice_some by lia. by rewrite Z.add_0_r, Z.sub_diag, ztake_0. }
  pose proof (parse_table_section_eq entries count base (sc_seg_idx c) (o_chunk_size e) (sc_sectors_end c) Hc0) as Hp.
  rewrite Hp. cbn [mbind outcome_bind]. intros <-%Ok_inj.
  unfold open_table_lazy, read_header, MAX_TABLE_ENTRIES. cbn [ref_desc_offset ref_sectors_data_end].
  unfold section_data in Hat. rewrite Hat. cbn [mbind outcome_bind]. fold at_.
  rewrite (serves_read (s:=sc_source c) (bs:=bs)) by lia. cbn [from_io mbind outcome_bind].
  assert (ztake 24 (zdrop at_ bs) = hdr) as ->.
  { apply slice_spec in Eh as (_ & _ & ->). f_equal. lia. }
  rewrite (proj2 (Z.ltb_ge (zlen hdr) 24)) by lia.
  unfold index_range. rewrite (slice_some hdr 0 4), (slice_some hdr 8 16) by lia. cbn [or_panic mbind outcome_bind].
  fold count base. rewrite (proj2 (Z.ltb_ge _ count)) by lia. rewrite add64_ok by lia. cbn [mbind outcome_bind meta_entry_count].
  destruct Hl as [_ _ _ Hn _]. rewrite add64_ok by (unfold MAX_TABLE_ENTRIES in *; lia). cbn [mbind outcome_bind].
  eexists. split; [reflexivity|]. destruct Ha as [E1 E2 E3 E4 E5 E6 (css & Hcs & Hf) _].
  constructor; try done. cbn [o_chunks set_chunks o_index set_index o_chunk_size].
  exists (css ++ [spec_chunks (sc_seg_idx c) (o_chunk_size e) (sc_sectors_end c)
                    (entry_addresses entries base (Z.to_nat (Z.min count (zlen entries / 4))))]).
  split; [rewrite concat_app, Hcs; cbn; by rewrite app_nil_r|]. apply Forall2_app; [done|]. constructor; [|constructor].
  split; [cbn; lia|]. split; [|by exists bs, entries].
  apply parsed_count. done.
Qed.

(** The variables that a handler sets are set alike. *)
Ltac keep_alike :=
  eapply alike_kept; try done;
  match goal with Ha : opens_alike _ ?e ?l |- _ =>
    cbn; by rewrite ?(oa_md5 _ _ _ Ha), ?(oa_sha1 _ _ _ Ha), ?(oa_metadata _ _ _ Ha), ?(oa_errors _ _ _ Ha)
  end.

(** One section. *)
Lemma open_section_alike seen seen' d k e l e' :
  descriptor_in len d -> open_wf k l -> MAX_TABLE_ENTRIES * (k + 1) <= u64_max ->
  order_step (sc_table_type c) seen d = Some seen' ->
  opens_alike seen e l -> open_section false c d e = Ok e' ->
  exists l', open_section true c d l = Ok l' /\ opens_alike seen' e' l' /\ open_wf (k + 1) l'.
Proof.
  intros Hd Hl Hmax Hstep Ha Hrun.
  assert (exists l', open_section true c d l = Ok l' /\ opens_alike seen' e' l') as (l' & Hrun' & Ha').
  2: { exists l'. split; [done|]. split; [done|].
       apply (returns_Ok _ _ _ (open_section_returns true c len d k l source_served Hd Hlen Hl Hmax) Hrun'). }
  revert Hrun. unfold open_section, order_step, is_volume in *.
  destruct (text_eqb (section_type d) (str "volume") || text_eqb (section_type d) (str "disk")).
  { destruct seen; [done|]. injection Hstep as <-. destruct Ha as [E1 E2 E3 E4 E5 E6 (css & Hcs & Hf) Hun].
    unfold open_volume. destruct (section_data d) as [at_|er|]; try done. cbn [mbind outcome_bind].
    destruct (read_exact_at (sc_source c) at_ 94) as [buf|er|]; try done. cbn [mbind outcome_bind].
    destruct (EwfVolume_parse buf) as [vol|er|]; try done. cbn [mbind outcome_bind].
    destruct (EwfVolume_chunk_size vol) as [cs|er|]; try done. cbn [mbind outcome_bind].
    destruct (MAX_CHUNK_SIZE <? cs); [done|].
    destruct (if EwfVolume_total_size vol =? 0 then _ else _) as [ts|er|]; try done. cbn [mbind outcome_bind].
    intros <-%Ok_inj. eexists. split; [reflexivity|]. specialize (Hun eq_refl). rewrite Hun in Hf.
    apply Forall2_nil_inv_l in Hf as ->. constructor; try done.
    exists []. split; [done|]. cbn. rewrite Hun. constructor. }
  destruct (text_eqb (section_type d) (sc_table_type c)).
  { injection Hstep as <-. by eapply open_table_alike. }
  injection Hstep as <-. pose proof (oa_metadata _ _ _ Ha) as Em. rewrite Em.
  assert (forall (f g : list byte -> res open_state) at_ n,
    (forall out, f out = Ok e' -> exists l', g out = Ok l' /\ opens_alike seen e' l') ->
    (out ← read_exact_at (sc_source c) at_ n; f out) = Ok e' ->
    exists l', (out ← read_exact_at (sc_source c) at_ n; g out) = Ok l' /\ opens_alike seen e' l') as Hread.
  { intros f g at_ n Hfg. destruct (read_exact_at _ _ _) as [out|er|]; try done. apply Hfg. }
  assert (e' = e -> exists l', Ok (E:=ewf_error) l = Ok l' /\ opens_alike seen e' l') as Hsame by (intros ->; by exists l).
  unfold open_hash, open_digest, open_header, open_error2, is_none.
  destruct (section_data d) as [at_|er|].
  2,3: repeat match goal with |- context [if ?b then _ else _] => destruct b end; try done; intros He%Ok_inj; by apply Hsame.
  cbn [mbind outcome_bind].
  repeat match goal with |- (if ?b then _ else _) = _ -> _ => destruct b end;
    try (by intros ?%Ok_inj; apply Hsame); apply Hread; intros out.
  - intros <-%Ok_inj. eexists. split; [reflexivity|]. keep_alike.
  - destruct (index_range out 0 16) as [m|er|]; try done. cbn [mbind outcome_bind].
    destruct (index_range out 16 36) as [h|er|]; try done. cbn [mbind outcome_bind].
    intros <-%Ok_inj. eexists. split; [reflexivity|]. keep_alike.
  - destruct (zlib_read_to_end _ _) as [txt|].
    + intros <-%Ok_inj. eexists. split; [reflexivity|]. keep_alike.
    + intros ?%Ok_inj. by apply Hsame.
  - intros <-%Ok_inj. eexists. split; [reflexivity|]. keep_alike.
Qed.

Lemma fold_sections_alike ds : forall seen seen' k e l e',
  Forall (descriptor_in len) ds -> open_wf k l -> MAX_TABLE_ENTRIES * (k + zlen ds) <= u64_max ->
  order_sections (sc_table_type c) seen ds = Some seen' ->
  opens_alike seen e l -> fold_res (open_section false c) ds e = Ok e' ->
  exists l', fold_res (open_section true c) ds l = Ok l' /\ opens_alike seen' e' l' /\ open_wf (k + zlen ds) l'.
Proof.
  induction ds as [|d ds IH]; intros seen seen' k e l e' Hds Hl Hmax Hord Ha Hrun.
  { injection Hord as <-. apply Ok_inj in Hrun as <-. exists l. by rewrite zlen_nil, Z.add_0_r. }
  apply Forall_cons in Hds as [Hd Hds]. rewrite zlen_cons in *. pose proof (zlen_nonneg ds).
  unfold MAX_TABLE_ENTRIES in *. cbn [order_sections fold_res] in *.
  destruct (order_step (sc_table_type c) seen d) as [s1|] eqn:E1; [|done]. cbn [mbind option_bind] in Hord.
  destruct (open_section false c d e) as [e1|er|] eqn:Ee; try done. cbn [mbind outcome_bind] in Hrun.
  destruct (open_section_alike seen s1 d k e l e1) as (l1 & Hrun1 & Ha1 & Hl1); try done; [unfold MAX_TABLE_ENTRIES; lia|].
  destruct (IH s1 seen' (k + 1) e1 l1 e') as (l' & Hrun' & Ha' & Hl'); try done; [lia|].
  exists l'. rewrite Hrun1. cbn [mbind outcome_bind]. rewrite Hrun'. by rewrite Z.add_assoc.
Qed.
End Alike.

(** * All segments *)

Section LazyOpen.
Context `{SafeReadLaws} `{ZlibLaws} `{Profile} `{LruLaws Z (list Chunk)} `{LruLaws Z (list byte)}.

Lemma fold_segments_alike contents ss cs : forall i seen seen' k e l e',
  Forall2 serves ss cs -> (forall j bs, cs !! j = Some bs -> get contents (i + Z.of_nat j) = Some bs) ->
  open_wf k l -> MAX_TABLE_ENTRIES * (k + total_len ss) <= u64_max ->
  order_segments seen ss = Some seen' -> opens_alike contents seen e l ->
  fold_res (open_segment false) (enumerate_from i ss) e = Ok e' ->
  exists l', fold_res (open_segment true) (enumerate_from i ss) l = Ok l' /\
             opens_alike contents seen' e' l' /\ open_wf (k + total_len ss) l'.
Proof.
  intros i seen seen' k e l e' Hs. revert i seen seen' k e l e'.
  induction Hs as [|s bs ss cs Hs Hss IH]; intros i seen seen' k e l e' Hget Hl Hmax Hord Ha Hrun.
  { injection Hord as <-. apply Ok_inj in Hrun as <-. exists l. cbn. by rewrite Z.add_0_r. }
  assert (served s) as Hsv by by exists bs.
  assert (Forall served ss) as Hssv.
  { clear -Hss. induction Hss as [|s' bs' ss cs' Hs' _ IH]; constructor; [by exists bs'|done]. }
  pose proof (served_len s Hsv). pose proof (total_len_nonneg ss Hssv). rewrite total_len_cons in *.
  unfold MAX_TABLE_ENTRIES in *. cbn [order_segments enumerate_from fold_res open_segment] in *.
  destruct (segment_descriptors s) as [ds|er|] eqn:Eds; try done.
  destruct (returns_Ok _ _ _ (segment_descriptors_returns s Hsv) Eds) as [Hds Hlen].
  cbn [mbind outcome_bind] in *. pose proof (zlen_nonneg ds).
  destruct (order_sections _ seen ds) as [s1|] eqn:E1; [|done]. cbn [mbind option_bind] in Hord.
  destruct (fold_res (open_section false (make_segment_ctx s i ds)) ds e) as [e1|er|] eqn:Ee; try done. cbn [mbind outcome_bind] in Hrun.
  destruct (fold_sections_alike contents (make_segment_ctx s i ds) bs (SegmentSource_len s) Hs
              ltac:(cbn; specialize (Hget O bs eq_refl); by rewrite Z.add_0_r in Hget) ltac:(lia)
              ds seen s1 k e l e1) as (l1 & Hrun1 & Ha1 & Hl1); try done; [unfold MAX_TABLE_ENTRIES; lia|].
  destruct (IH (i + 1) s1 seen' (k + SegmentSource_len s) e1 l1 e') as (l' & Hrun' & Ha' & Hl'); try done.
  - intros j b Hj. replace (i + 1 + Z.of_nat j) with (i + Z.of_nat (S j)) by lia. by apply Hget.
  - eapply open_wf_mono; [|exact Hl1]. lia.
  - lia.
  - exists l'. rewrite Hrun1. cbn [mbind outcome_bind]. rewrite Hrun'. by rewrite Z.add_assoc.
Qed.

Lemma served_contents ss : Forall served ss -> exists cs, Forall2 serves ss cs.
Proof. induction 1 as [|s ss [bs Hs] _ (cs & IH)]; [by exists []|]. exists (bs :: cs). by constructor. Qed.

(** The chunks that parsed, against the chunks that the index declares: if none is
    missing every section is stored whole. *)
Lemma parsed_stored contents size k idx css :
  index_from k idx -> Forall2 (section_parsed contents size) idx css ->
  zlen (concat css) <= index_end k idx - k /\
  (index_end k idx - k = zlen (concat css) -> Forall2 (section_stored contents size) idx css).
Proof.
  intros Hi Hf. revert k Hi. induction Hf as [|m cs idx css (Ho & Hle & Hst) Hf IH].
  { intros k _. cbn. split; [rewrite zlen_nil; lia|constructor]. }
  intros k (_ & _ & _ & Hi). destruct (IH _ Hi) as [Hend Hsto]. cbn [index_end concat]. rewrite zlen_app.
  split; [lia|]. intros Heq. constructor; [|apply Hsto; lia]. split; [done|]. split; [lia|done].
Qed.

Lemma lazy_new_ok idx size cap id :
  index_from 0 idx -> index_end 0 idx = id -> id <= u64_max ->
  exists t, LazyChunkTable_new idx size cap = Ok t /\ lazy_len t = id.
Proof.
  intros Hi He Hmax. unfold LazyChunkTable_new. destruct (last idx) as [m|] eqn:El.
  - destruct (index_last _ _ _ Hi El) as (Hl & ? & ? & ?). rewrite add64_ok by lia. cbn. eexists. split; [done|]. cbn. lia.
  - apply last_None in El as ->. cbn in *. eexists. split; [done|]. cbn. lia.
Qed.

(** The paged reader, against the flat one. *)
Lemma open_v1_alike sources cache_size cap r v :
  Forall served sources -> MAX_TABLE_ENTRIES * total_len sources <= u64_max ->
  open_v1 sources cache_size None = Ok r -> volume_first (r_segments r) = true -> r_chunks r = Eager v ->
  exists r', open_v1 sources cache_size (Some cap) = Ok r' /\ zlen v <= chunk_count_of r' /\
    (chunk_count_of r' = zlen v -> presents (image_of r v) 0 r').
Proof.
  intros Hs Hmax Hopen Hvol Hv.
  pose proof (returns_Ok _ _ _ (open_v1_returns sources cache_size None Hs Hmax) Hopen) as (_ & Hperm & _).
  revert Hopen Hvol. unfold open_v1. destruct sources as [|first rest] eqn:Esrc; [done|]. rewrite <-Esrc in *.
  destruct (from_io (SegmentSource_read_at first 8 0)) as [sig|er|]; try (by intros). cbn [mbind outcome_bind].
  destruct (is_ewf2_signature _); [by intros|]. destruct (mapM read_file_header sources) as [headers|er|] eqn:Eh; try (by intros).
  cbn [mbind outcome_bind].
  destruct (validate_and_reorder_segments sources (map segment_number headers)) as [ordered|er|] eqn:Eo; try (by intros).
  cbn [mbind outcome_bind is_none negb].
  destruct (fold_res (open_segment false) (enumerate ordered) open_start) as [e|er|] eqn:Ee; try (by intros).
  cbn [mbind outcome_bind]. destruct (o_chunk_size e =? 0) eqn:Ez; [by intros|]. intros Hr%Ok_inj.
  assert (r_segments r = ordered) as Hseg by by rewrite <-Hr. rewrite Hseg in *.
  unfold volume_first. destruct (order_segments false ordered) as [seen'|] eqn:Eord; [|done]. intros _.
  assert (Forall served ordered) as Hord by by rewrite Hperm.
  pose proof (total_len_nonneg _ Hord) as Hnn. rewrite <-(total_len_perm _ _ Hperm) in Hmax.
  destruct (served_contents ordered Hord) as [contents Hcont].
  destruct (fold_segments_alike contents ordered contents 0 false seen' 0 open_start open_start e) as (l & Hrun & Ha & Hwf);
    try done; [|by apply alike_start|].
  { intros j bs Hj. apply get_spec. rewrite Z.add_0_l, Nat2Z.id. split; [lia|done]. }
  unfold enumerate. rewrite Hrun. cbn [mbind outcome_bind]. destruct Ha as [E1 E2 E3 E4 E5 E6 (css & Hcs & Hf) _].
  rewrite E1, Ez. destruct Hwf as [_ _ _ Hn [Hi He]]. cbn [Z.add] in *.
  assert (o_next_chunk_id l <= u64_max) as Hnext by lia.
  destruct (lazy_new_ok _ (o_chunk_size e) cap _ Hi He Hnext) as (t & Et & Hlen). rewrite Et. cbn [mbind outcome_bind]. eexists. split; [reflexivity|].
  assert (v = concat css) as -> by (rewrite <-Hcs; rewrite <-Hr in Hv; cbn in Hv; congruence).
  destruct (parsed_stored _ _ _ _ _ Hi Hf) as [Hle Hsto]. unfold chunk_count_of. cbn [r_chunks ChunkTable_len].
  rewrite Hlen, <-He. split; [lia|]. intros Heq. rewrite Z.sub_0_r in Hsto. specialize (Hsto Heq).
  assert (r_total_size r = media_size_for match headers with [] => Physical | h :: _ => kind h end
            (o_total_size e) (zlen (concat css)) (o_chunk_size e)) as Htot by (rewrite <-Hr, <-Hcs; done).
  constructor; cbn; rewrite ?E2, ?E3, ?E4, ?Hseg; try done; try by rewrite <-Hr.
  - by rewrite Heq, Htot.
  - econstructor; [done|]. rewrite <-Hr. cbn. by eapply lazy_new_implements.
  - intros id page. by rewrite lru_get_new.
Qed.

(** C17: the lazy open presents the image of the eager one.  On sources that the eager
    open accepts, and where no volume section follows a table, the lazy open succeeds
    with any capacity of the section cache; it never counts fewer chunks; and when no
    table entry was left out, so that the counts agree, both readers present one image
    and every positioned read of the one answers as that of the other. *)
Theorem open_lazy_agrees sources cache_size cap r :
  Forall served sources -> MAX_TABLE_ENTRIES * total_len sources <= u64_max ->
  open_v1 sources cache_size None = Ok r -> volume_first (r_segments r) = true ->
  exists r', open_v1 sources cache_size (Some cap) = Ok r' /\ chunk_count_of r <= chunk_count_of r' /\
    (chunk_count_of r' = chunk_count_of r ->
     (exists im, image_ok im /\ presents im 0 r /\ presents im 0 r') /\
     forall n off, 0 <= n -> 0 <= off <= u64_max -> fst (read_at n off r') = fst (read_at n off r)).
Proof.
  intros Hs Hmax Hopen Hvol. destruct (open_presents sources cache_size r Hs Hmax Hopen) as (v & Hv & Hok & Hr).
  destruct (open_v1_alike sources cache_size cap r v Hs Hmax Hopen Hvol Hv) as (r' & Hopen' & Hle & Heq).
  assert (chunk_count_of r = zlen v) as -> by (unfold chunk_count_of; by rewrite Hv).
  exists r'. split; [done|]. split; [done|]. intros Hc. specialize (Heq Hc). split; [by exists (image_of r v)|].
  intros n off Hn Ho. destruct (read_at_serves _ 0 r n off Hok Hr Hn Ho) as (r1 & -> & _).
  by destruct (read_at_serves _ 0 r' n off Hok Heq Hn Ho) as (r2 & -> & _).
Qed.
End LazyOpen.
