(* ===== verification/Vfs.v ===== *)
(** The adapter to the virtual file system ([core/src/vfs.rs]): the reader as an
    image source of forensic-vfs, an interface that other layers stack on.

    The trait of the other crate is the class [ImageSource]; [presents_media] is the
    contract of its documentation, which the instance is shown to meet. *)

From S2P Require Import Prelude Text Extern Types Sections Source ChunkTable ReaderOpen Reader.

(** The error of the interface that the adapter builds. *)
Inductive VfsError : Type := VfsIo (op : text) (source : ewf_error).

(** ** The interface: a length and positioned reads on a shared source *)
Class ImageSource (S : Type) := {
  source_len : S -> Z;
  source_read_at : Z -> Z -> stateful S VfsError (list byte);
}.

(** A source of [content]: its length, windows at any offset, and none past the end;
    reads leave it such a source. *)
Record presents_media {S} `{ImageSource S} (content : list byte) (P : S -> Prop) : Prop := {
  pm_len s : P s -> source_len s = zlen content;
  pm_read s off n : P s -> 0 <= n -> 0 <= off <= u64_max ->
    exists s', source_read_at off n s = (Ok (ztake n (zdrop off content)), s') /\ P s';
}.

Lemma read_past_end {S} `{ImageSource S} content P (s : S) off n :
  presents_media content P -> P s -> 0 <= n -> zlen content <= off <= u64_max ->
  exists s', source_read_at off n s = (Ok [], s') /\ P s'.
Proof.
  intros Hm Hs Hn Ho. pose proof (zlen_nonneg content).
  destruct (pm_read _ _ Hm s off n Hs Hn ltac:(lia)) as (s' & Hr & Hs'). exists s'. split; [|done].
  rewrite Hr. unfold zdrop. rewrite drop_ge by (unfold zlen in *; lia). unfold ztake. by rewrite take_nil.
Qed.

(** ** The reader as an image source *)

(** [map_err], which keeps the reader's error inside the interface's. *)
Definition vfs_outcome {A} (m : res A) : outcome VfsError A :=
  match m with
  | Ok a => Ok a
  | Err e => Err (VfsIo (str "ewf::read_at") e)
  | Panic => Panic
  end.

Section Adapter.
Context `{SafeRead} `{Zlib} `{Profile} `{!Lru Z (list Chunk)} `{!Lru Z (list byte)}.

Definition vfs_len (r : EwfReader) : Z := r_total_size r.

Definition vfs_read_at (off n : Z) : stateful EwfReader VfsError (list byte) := fun r =>
  let '(m, r') := Reader.read_at n off r in (vfs_outcome m, r').

#[export] Instance EwfReader_ImageSource : ImageSource EwfReader :=
  { source_len := vfs_len; source_read_at := vfs_read_at }.
End Adapter.

(** ** Lemmas *)
Section AdapterLemmas.
Context `{SafeRead} `{ZlibLaws} `{Profile} `{LruLaws Z (list Chunk)} `{LruLaws Z (list byte)}.

Lemma zlen_whole_media im pages :
  image_ok im -> all_pages im = Ok pages -> im_total_size im <= im_chunk_size im * im_count im ->
  zlen (media im pages) = im_total_size im.
Proof.
  intros Hok Hp Hcov. pose proof (io_wf _ Hok) as [_ Hts].
  destruct (all_pages_length _ _ Hok Hp) as [Hlen Hf].
  unfold media. rewrite zlen_ztake, (zlen_concat_pages _ _ Hf), Hlen. lia.
Qed.

Lemma vfs_read_serves im pos r off n :
  image_ok im -> presents im pos r -> 0 <= n -> 0 <= off <= u64_max ->
  exists r', source_read_at off n r = (vfs_outcome (read_spec im n off), r') /\ presents im pos r' /\
             no_panic (vfs_outcome (read_spec im n off)).
Proof.
  intros Hok Hr Hn Ho. destruct (read_at_serves im pos r n off Hok Hr Hn Ho) as (r' & Hrun & Hr' & Hnp).
  exists r'. cbn. unfold vfs_read_at. rewrite Hrun. split_and!; [done|done|].
  by destruct (read_spec im n off).
Qed.

(** C33: the adapter.  The virtual file system sees an opened image as a source of
    exactly the bytes [EwfReader::read_at] delivers, and a chunk that does not decode
    as the I/O error of the interface around the reader's error, never as a panic;
    when every chunk decodes and the chunks cover the declared size, it is a source
    of the media: its length, any window of it, nothing past the end, however many
    reads came before. *)
Theorem vfs_presents_media im pos :
  image_ok im ->
  (forall r off n, presents im pos r -> 0 <= n -> 0 <= off <= u64_max ->
     exists r', source_read_at off n r = (vfs_outcome (read_spec im n off), r') /\ presents im pos r' /\
                no_panic (vfs_outcome (read_spec im n off))) /\
  (forall pages, all_pages im = Ok pages -> im_total_size im <= im_chunk_size im * im_count im ->
     presents_media (media im pages) (presents im pos)).
Proof.
  intros Hok. split; [intros r off n Hr Hn Ho; by apply vfs_read_serves|].
  intros pages Hp Hcov. split.
  - intros r Hr. rewrite zlen_whole_media by done. exact (pr_total_size _ _ _ Hr).
  - intros r off n Hr Hn Ho. destruct (vfs_read_serves im pos r off n Hok Hr Hn Ho) as (r' & Hrun & Hr' & _).
    exists r'. split; [|done]. by rewrite Hrun, (read_spec_media im pages) by (done || lia).
Qed.
End AdapterLemmas.
