(* ===== verification/Hex.v ===== *)
(** Hexadecimal text: the [hex_string] of [forensic/src/bin/ewf_check.rs] and
    [cli/src/handlers.rs], [parse_hex_fixed] of the former and the search pattern of
    the latter, with the part of [str] on bytes they use. *)

From S2P Require Import Prelude Text.

(** ** [str] as bytes *)

(** [str::as_bytes]: UTF-8. *)
Definition utf8_encode_char (c : Z) : list byte :=
  map byte_of_Z
    (if c <? 128 then [c]
     else if c <? 2048 then [192 + c / 64; 128 + c mod 64]
     else if c <? 65536 then [224 + c / 4096; 128 + (c / 64) mod 64; 128 + c mod 64]
     else [240 + c / 262144; 128 + (c / 4096) mod 64; 128 + (c / 64) mod 64; 128 + c mod 64]).

Definition utf8_encode (t : text) : list byte := concat (map utf8_encode_char t).

(** [is_char_boundary] on the bytes of a [str]. *)
Definition is_char_boundary (bs : list byte) (i : Z) : bool :=
  (i =? 0) || (i =? zlen bs) || match get bs i with Some b => negb (is_cont b) | None => false end.

(** [&s[a..b]], which panics out of range or inside a character. *)
Definition str_slice {E} (bs : list byte) (a b : Z) : outcome E (list byte) :=
  if is_char_boundary bs a && is_char_boundary bs b then index_range bs a b else Panic.

(** [u8::from_str_radix(s, 16)], which accepts a leading plus sign. *)
Definition hex_byte (s : text) : option Z := parse_uint 16 255 s.

(** [chunks(2)] *)
Fixpoint chunks2 {A} (l : list A) : list (list A) :=
  match l with
  | a :: b :: l => [a; b] :: chunks2 l
  | [a] => [[a]]
  | [] => []
  end.

(** ** Printing *)

(** [format!("{b:02x}")] *)
Definition hex_pair (b : byte) : text := [digit_char (byteZ b / 16); digit_char (byteZ b mod 16)].

Definition hex_string (bs : list byte) : text := concat (map hex_pair bs).

(** ** [parse_hex_fixed]: the two errors that end the process *)
Inductive hex_error :=
| HexLength (expected got : Z)
| HexDigit (s : text).

Definition parse_hex_fixed (n : Z) (hex : text) : outcome hex_error (list byte) :=
  let bs := utf8_encode hex in
  if negb (zlen bs =? n * 2) then Err (HexLength (n * 2) (zlen bs))
  else
    mapM (fun chunk =>
            let s := default (str "??") (from_utf8 chunk) in
            match hex_byte s with Some b => Ok (byte_of_Z b) | None => Err (HexDigit s) end)
      (chunks2 bs).

(** ** The pattern of a search *)
Inductive pattern_error :=
| OddPattern
| InvalidPattern
| EmptyPattern.

(** [(0..len).step_by(2)] *)
Definition even_indices (len : Z) : list Z := map (fun i => 2 * i) (range 0 ((len + 1) / 2)).

(** [u8::from_str_radix(&s[i..i + 2], 16).ok()] on the bytes of [s]. *)
Definition hex_at {E} (bs : list byte) (i : Z) : outcome E (option byte) :=
  s ← str_slice bs i (i + 2); Ok (byte_of_Z <$> hex_byte (from_utf8_lossy s)).

Definition parse_pattern (pattern_hex : text) : outcome pattern_error (list byte) :=
  let bs := utf8_encode pattern_hex in
  if negb (zlen bs mod 2 =? 0) then Err OddPattern
  else
    pattern ← mapM (fun i => b ← hex_at bs i; ok_or InvalidPattern b) (even_indices (zlen bs));
    match pattern with [] => Err EmptyPattern | _ => Ok pattern end.

(** * Lemmas *)

Lemma hex_byte_pair b : hex_byte (hex_pair b) = Some (byteZ b).
Proof. destruct b; reflexivity. Qed.

Lemma hex_pair_ascii b : Forall (fun c => 0 <= c < 128) (hex_pair b).
Proof. destruct b; (constructor; [done|]; constructor; [done|constructor]). Qed.

Lemma utf8_encode_pair b : concat (map utf8_encode_char (hex_pair b)) = ascii_bytes (hex_pair b).
Proof. destruct b; reflexivity. Qed.

Lemma hex_string_cons b bs : hex_string (b :: bs) = hex_pair b ++ hex_string bs.
Proof. done. Qed.

Lemma utf8_encode_hex_cons b bs :
  utf8_encode (hex_string (b :: bs)) = ascii_bytes (hex_pair b) ++ utf8_encode (hex_string bs).
Proof.
  unfold utf8_encode. rewrite hex_string_cons, map_app, concat_app. f_equal. apply utf8_encode_pair.
Qed.

Lemma zlen_utf8_encode_hex bs : zlen (utf8_encode (hex_string bs)) = 2 * zlen bs.
Proof.
  induction bs as [|b bs IH]; [done|]. rewrite utf8_encode_hex_cons, zlen_app, IH, zlen_cons.
  change (zlen (ascii_bytes (hex_pair b))) with 2. lia.
Qed.

Lemma utf8_encode_hex_app bs1 bs2 :
  utf8_encode (hex_string (bs1 ++ bs2)) = utf8_encode (hex_string bs1) ++ utf8_encode (hex_string bs2).
Proof. unfold utf8_encode, hex_string. by rewrite !map_app, !concat_app, map_app, concat_app. Qed.

Lemma is_cont_ascii c : 0 <= c < 128 -> is_cont (byte_of_Z c) = false.
Proof.
  intros Hc. unfold is_cont. rewrite byteZ_byte_of_Z, Z.mod_small by lia.
  by rewrite (proj2 (Z.leb_gt 128 c)) by lia.
Qed.

Lemma hex_bytes_not_cont bs : Forall (fun b => is_cont b = false) (utf8_encode (hex_string bs)).
Proof.
  induction bs as [|b bs IH]; [constructor|]. rewrite utf8_encode_hex_cons. apply Forall_app.
  split; [|done]. unfold ascii_bytes. apply Forall_map. eapply Forall_impl; [apply hex_pair_ascii|].
  intros c Hc. by apply is_cont_ascii.
Qed.

(** Every position of an ASCII string is a boundary. *)
Lemma is_char_boundary_ascii bs i :
  Forall (fun b => is_cont b = false) bs -> 0 <= i <= zlen bs -> is_char_boundary bs i = true.
Proof.
  intros Hbs Hi. unfold is_char_boundary. destruct (i =? 0); [done|].
  destruct (i =? zlen bs) eqn:E; bool_hyps; [done|]. cbn.
  destruct (get_some bs i) as [b Hb]; [lia|]. rewrite Hb. unfold get in Hb.
  destruct (_ && _); [|done]. by rewrite (Forall_lookup_1 _ _ _ _ Hbs Hb).
Qed.

Lemma fixed_pair b :
  (let s := default (str "??") (from_utf8 (ascii_bytes (hex_pair b))) in
   match hex_byte s with Some b => Ok (byte_of_Z b) | None => Err (HexDigit s) end) = Ok b.
Proof. destruct b; reflexivity. Qed.

(** Round trip of a reference hash.  [hex_string] prints two lower-case digits a
    byte, and [parse_hex_fixed] reads back any byte string of the expected length. *)
Theorem hex_fixed_roundtrip n bs :
  zlen bs = n ->
  zlen (hex_string bs) = 2 * n /\ parse_hex_fixed n (hex_string bs) = Ok bs.
Proof.
  intros <-. split.
  { induction bs as [|b bs IH]; [done|]. rewrite hex_string_cons, zlen_app, IH, zlen_cons.
    change (zlen (hex_pair b)) with 2. lia. }
  unfold parse_hex_fixed. rewrite zlen_utf8_encode_hex.
  rewrite (proj2 (Z.eqb_eq (2 * zlen bs) (zlen bs * 2))) by lia. cbn [negb].
  apply mapM_outcome_ok. induction bs as [|b bs IH]; [constructor|].
  rewrite utf8_encode_hex_cons. cbn [ascii_bytes hex_pair map app chunks2].
  constructor; [apply fixed_pair|exact IH].
Qed.

Lemma hex_at_pair {E} pre b post :
  hex_at (E:=E) (utf8_encode (hex_string (pre ++ b :: post))) (2 * zlen pre) = Ok (Some b).
Proof.
  pose proof (zlen_nonneg pre). pose proof (zlen_nonneg post). unfold hex_at, str_slice.
  rewrite !is_char_boundary_ascii; try apply hex_bytes_not_cont;
    try (rewrite zlen_utf8_encode_hex, zlen_app, zlen_cons; lia).
  cbn [andb]. unfold index_range. rewrite utf8_encode_hex_app, utf8_encode_hex_cons.
  rewrite (slice_at (utf8_encode (hex_string pre)) (ascii_bytes (hex_pair b))
             (utf8_encode (hex_string post))); [|done|by rewrite zlen_utf8_encode_hex|done].
  cbn [or_panic mbind outcome_bind]. rewrite from_utf8_lossy_ascii by apply hex_pair_ascii.
  rewrite hex_byte_pair. cbn. by rewrite byte_of_Z_byteZ.
Qed.

(** A loop over the pairs of digits that [hex_string] prints. *)
Section Pairs.
Context {E B : Type} (h : list byte -> Z -> outcome E B) (g : byte -> B).
Hypothesis Hh : forall pre b post,
  h (utf8_encode (hex_string (pre ++ b :: post))) (2 * zlen pre) = Ok (g b).

Lemma pairs_from pre bs :
  mapM (h (utf8_encode (hex_string (pre ++ bs))))
    (map (fun i => 2 * i) (range (zlen pre) (zlen pre + zlen bs))) = Ok (map g bs).
Proof.
  revert pre. induction bs as [|b bs IH]; intros pre.
  { change (@zlen byte []) with 0. unfold range. by rewrite Z.add_0_r, Z.sub_diag. }
  pose proof (zlen_nonneg bs). unfold range. rewrite zlen_cons, seqZ_cons by lia. cbn [map].
  change (mapM ?f (?a :: ?l)) with (b ← f a; bs ← mapM f l; mret (b :: bs)).
  rewrite Hh. cbn [mbind outcome_bind].
  specialize (IH (pre ++ [b])). rewrite <-app_assoc, zlen_app in IH. cbn [app] in IH.
  change (zlen [b]) with 1 in IH. unfold range in IH.
  replace (Z.succ (zlen pre)) with (zlen pre + 1) by lia.
  replace (Z.pred (zlen pre + (1 + zlen bs) - zlen pre)) with (zlen pre + 1 + zlen bs - (zlen pre + 1)) by lia.
  by rewrite IH.
Qed.

Lemma pairs_mapM bs :
  mapM (h (utf8_encode (hex_string bs))) (even_indices (zlen (utf8_encode (hex_string bs)))) = Ok (map g bs).
Proof.
  rewrite zlen_utf8_encode_hex. unfold even_indices. replace ((2 * zlen bs + 1) / 2) with (zlen bs).
  2: { rewrite Z.add_comm, Z.mul_comm, Z.div_add by lia. done. }
  apply (pairs_from [] bs).
Qed.
End Pairs.

(** Round trip of a search pattern.  Every non-empty byte string printed by
    [hex_string] is the pattern the search parses from it. *)
Theorem pattern_roundtrip bs : bs <> [] -> parse_pattern (hex_string bs) = Ok bs.
Proof.
  intros Hne. unfold parse_pattern.
  assert (zlen (utf8_encode (hex_string bs)) mod 2 = 0) as ->.
  { rewrite zlen_utf8_encode_hex, Z.mul_comm. apply Z.mod_mul. lia. }
  change (negb (0 =? 0)) with false. cbn iota.
  rewrite (pairs_mapM (fun hex i => b ← hex_at hex i; ok_or InvalidPattern b) id).
  - rewrite map_id. cbn [mbind outcome_bind]. by destruct bs.
  - intros pre b post. by rewrite hex_at_pair.
Qed.

(** A pattern with a character of more than one byte is cut inside it. *)
Lemma parse_pattern_panics : parse_pattern [97; 8364] = Panic.
Proof. reflexivity. Qed.

(** A sign is taken for a digit. *)
Lemma parse_pattern_sign : parse_pattern (str "+f") = Ok [byte_of_Z 15].
Proof. reflexivity. Qed.
