(* ===== verification/Logical.v ===== *)
(** Logical evidence files: the file-entry tree of [core/src/logical.rs]. *)

From stdpp Require Import gmap.
From S2P Require Import Prelude Text Extern Types Sections Source Path.

Definition LTREE_HEADER_SIZE : Z := 48.

Record LtreeHeader := {
  data_md5 : list byte;
  ltree_data_size : Z;
  checksum : Z;
}.

Section Header.
Context `{SafeRead}.

Definition LtreeHeader_parse (buf : list byte) : res LtreeHeader :=
  if zlen buf <? LTREE_HEADER_SIZE
  then Err (BufferTooShort LTREE_HEADER_SIZE (zlen buf))
  else
    md5 ← index_range buf 0 16;
    Ok {| data_md5 := md5; ltree_data_size := le_u64 buf 16; checksum := le_u32 buf 24 |}.

(** [probe[24..28].fill(0)] on a header. *)
Definition zero_checksum (hdr : list byte) : list byte :=
  ztake 24 hdr ++ zeros 4 ++ zdrop 28 hdr.

Definition LtreeHeader_verify_checksum `{Adler} (self : LtreeHeader) (buf : list byte) : bool :=
  match slice buf 0 LTREE_HEADER_SIZE with
  | None => false
  | Some hdr => adler32 (zero_checksum hdr) =? checksum self
  end.
End Header.

Record LogicalEntry := {
  le_name : text;
  le_short_name : text;
  le_is_dir : bool;
  le_size : Z;
  le_md5 : option text;
  le_id : Z;
  le_children : list Z;
  le_parent : option Z;
  le_raw : gmap text text;
}.

Inductive logical_warning :=
| WrongValueCount (line values indicators : Z)
| ShortNameSize (line : Z) (declared : text).

Record LogicalTree := {
  entries : list LogicalEntry;
  indicators : list text;
  warnings : list logical_warning;
}.

(** The text and the number of replaced halves. *)
Definition decode_ltree_text (data : list byte) : text * Z :=
  let rs := decode_utf16 (u16_units data) in
  (map (default replacement_character) rs,
   zlen (filter (fun r => r = None) rs)).

Definition malformed {A} (field value : text) : res A := Err (MalformedLogicalField field value).

(** ** The tree *)

(** [line.split('\t').nth(1).and_then(|v| v.trim().parse::<usize>().ok())] *)
Definition sub_count (line : text) : option Z :=
  v ← split tab line !! 1%nat; parse_usize (trim v).

Definition add_warning (w : logical_warning) (t : LogicalTree) : LogicalTree :=
  {| entries := entries t; indicators := indicators t; warnings := warnings t ++ [w] |}.

Definition add_child (idx : Z) (e : LogicalEntry) : LogicalEntry :=
  {| le_name := le_name e; le_short_name := le_short_name e; le_is_dir := le_is_dir e;
     le_size := le_size e; le_md5 := le_md5 e; le_id := le_id e;
     le_children := le_children e ++ [idx]; le_parent := le_parent e; le_raw := le_raw e |}.

(** [tree.entries.push(e)], then the index into the parent's children. *)
Definition push_entry (e : LogicalEntry) (t : LogicalTree) : LogicalTree :=
  let idx := zlen (entries t) in
  let es := entries t ++ [e] in
  {| entries := match le_parent e with
                | Some p => alter (add_child idx) (Z.to_nat p) es
                | None => es
                end;
     indicators := indicators t; warnings := warnings t |}.

Definition raw_fields (names values : list text) : gmap text text :=
  fold_left (fun m kv => <[kv.1 := kv.2]> m) (zip names values) ∅.

Definition raw_get (raw : gmap text text) (k : text) : text := default [] (raw !! k).

Definition entry_md5 (h : text) : option text :=
  match h with
  | [] => None
  | _ => if forallb (Z.eqb 48) h then None else Some h
  end.

(** The short name, and whether its declared size is wrong. *)
Definition entry_short_name (snh : text) : text * option text :=
  match split_once space snh with
  | Some (declared, name) =>
    (name, if bool_decide (parse_usize declared = Some (zlen name + 1)) then None else Some declared)
  | None => (snh, None)
  end.

Definition make_entry (raw : gmap text text) (parent_ : option Z) : LogicalEntry :=
  let get_ := raw_get raw in
  {| le_name := get_ (str "n");
     le_short_name := (entry_short_name (get_ (str "snh"))).1;
     le_is_dir := text_eqb (get_ (str "p")) (str "1");
     le_size := default 0 (parse_u64 (trim (get_ (str "ls"))));
     le_md5 := entry_md5 (get_ (str "ha"));
     le_id := default 0 (parse_u64 (trim (get_ (str "id"))));
     le_children := [];
     le_parent := parent_;
     le_raw := raw |}.

(** One entry pair at line [i] and its sub-entries.  [fuel] bounds the lines left
    from [i]: past the last line the function returns at once, which is what it
    does without fuel. *)
Fixpoint parse_one (fuel : nat) (lines_ : list text) (names : list text) (parent_ : option Z)
    (st : Z * LogicalTree) : Z * LogicalTree :=
  let '(i, tree) := st in
  match fuel with
  | O => st
  | S fuel =>
    match get lines_ i with
    | None => st
    | Some counts =>
      let nsub := default 0 (sub_count counts) in
      match get lines_ (i + 1) with
      | None => (i + 1, tree)
      | Some values_line =>
        let values := split tab values_line in
        let tree := if zlen values =? zlen names then tree
                    else add_warning (WrongValueCount i (zlen values) (zlen names)) tree in
        let raw := raw_fields names values in
        let tree := match (entry_short_name (raw_get raw (str "snh"))).2 with
                    | Some declared => add_warning (ShortNameSize i declared) tree
                    | None => tree
                    end in
        let idx := zlen (entries tree) in
        let tree := push_entry (make_entry raw parent_) tree in
        Z.iter nsub (parse_one fuel lines_ names (Some idx)) (i + 2, tree)
      end
    end
  end.

Definition parse_entry_tree (t : text) : res LogicalTree :=
  let lines_ := map trim_end_cr (split newline t) in
  match position (fun l => text_eqb l (str "entry")) lines_ with
  | None => malformed (str "ltree category") (str "no `entry` category in the ltree text")
  | Some cat =>
    match get lines_ (cat + 2) with
    | None => malformed (str "ltree indicators")
                (str "ltree ends at line " ++ print_dec (zlen lines_)
                 ++ str ", before the indicator row")
    | Some row =>
      let names := split tab row in
      match names with
      | [] => malformed (str "ltree indicators") (str "indicator row is empty")
      | _ =>
        let cursor := cat + 3 in
        match root_line ← get lines_ cursor; sub_count root_line with
        | None =>
          malformed (str "ltree root sub-count")
            (match get lines_ cursor with
             | None => str "no line at index " ++ print_dec cursor
             | Some l => l
             end)
        | Some root_subs =>
          let start := {| entries := []; indicators := names; warnings := [] |} in
          Ok (Z.iter root_subs (parse_one (length lines_) lines_ names None) (cursor + 2, start)).2
        end
      end
    end
  end.

(** ** Extents *)
Record Extent := {
  ext_offset : Z;
  ext_size : Z;
  ext_sparse : bool;
}.

Definition is_sparse_flag (tok : text) : bool := eq_ignore_ascii_case tok (str "s").

(** The [while] that skips type flags: the first hexadecimal token that is not a
    flag, and whether a sparse flag was passed. *)
Fixpoint skip_flags (value : text) (sparse : bool) (toks : list text)
    : res (text * bool * list text) :=
  match toks with
  | [] => malformed (str "be") value
  | tok :: toks =>
    if is_sparse_flag tok || bool_decide (hex_u64 tok = None)
    then skip_flags value (sparse || is_sparse_flag tok) toks
    else Ok (tok, sparse, toks)
  end.

(** The [for _ in 0..count] loop.  Each round but a failing one takes two tokens,
    so the number of tokens bounds the rounds; without a token left a round fails
    as it does in the code. *)
Fixpoint extents_loop (fuel : nat) (value : text) (count : Z) (toks : list text)
    (out : list Extent) : res (list Extent) :=
  if count <=? 0 then Ok out
  else
    match fuel with
    | O => malformed (str "be") value
    | S fuel =>
      '(tok, sparse, toks) ← skip_flags value false toks;
      off ← ok_or (MalformedLogicalField (str "be offset") tok) (hex_u64 tok);
      match toks with
      | [] => malformed (str "be size") value
      | size_tok :: toks =>
        size ← ok_or (MalformedLogicalField (str "be size") size_tok) (hex_u64 size_tok);
        extents_loop fuel value (count - 1) toks
          (out ++ [{| ext_offset := off; ext_size := size; ext_sparse := sparse |}])
      end
    end.

Definition parse_binary_extents (value : text) : res (list Extent) :=
  match split_whitespace value with
  | [] => malformed (str "be extent count") value
  | c :: toks =>
    count ← ok_or (MalformedLogicalField (str "be extent count") value) (parse_usize c);
    extents_loop (S (length toks)) value count toks []
  end.

Definition LogicalEntry_extents (e : LogicalEntry) : res (list Extent) :=
  match le_raw e !! str "be" with
  | None | Some [] => Ok []
  | Some v => parse_binary_extents v
  end.

(** ** Segments *)

(** [format!("{n:02}")] *)
Definition two_digits (n : Z) : text :=
  if n <? 10 then str "0" ++ print_dec n else print_dec n.

Definition segment_ext (prefix : Z) (n : Z) : option text :=
  if n =? 0 then None
  else if n <=? 99 then Some (prefix :: two_digits n)
  else
    let i := n - 100 in
    if 26 * 26 <=? i then None
    else Some [prefix; i / 26 + 65; i mod 26 + 65].

(** [2..=775], stopping at the first extension that does not exist or file that
    is missing. *)
Fixpoint segment_run (is_file : text -> bool) (dir stem : text) (prefix : Z) (first : text)
    (ns : list Z) : list text :=
  match ns with
  | [] => []
  | n :: ns =>
    match segment_ext prefix n with
    | None => []
    | Some ext =>
      let p := path_join dir (stem ++ dot :: ext) in
      if is_file p
      then (if text_eqb p first then [] else [p]) ++ segment_run is_file dir stem prefix first ns
      else []
    end
  end.

(** [char_is_uppercase] is the Unicode property; [is_file] asks the file system. *)
Definition segment_paths (char_is_uppercase : Z -> bool) (is_file : text -> bool)
    (first : text) : list text :=
  match file_stem first, extension first with
  | Some stem, Some ext0 =>
    let upper := match ext0 with c :: _ => char_is_uppercase c | [] => false end in
    let prefix := if upper then 76 else 108 in
    let dir := default (str ".") (parent first) in
    first :: segment_run is_file dir stem prefix first (range 2 776)
  | _, _ => [first]
  end.

Section Find.
Context `{SafeRead} `{Profile}.

(** [f.read_exact] on a file whose cursor is at [off]. *)
Definition file_read_exact (f : File) (off n : Z) : res (list byte) :=
  bs ← from_io (pread f n off);
  if zlen bs <? n then Err (Io UnexpectedEof) else Ok bs.

(** The payload of the [ltree] section whose descriptor is at [off]. *)
Definition read_ltree (f : File) (off : Z) (desc : SectionDescriptor)
    : res (LtreeHeader * list byte) :=
  let payload_len := sat_sub (section_size desc) SECTION_DESCRIPTOR_SIZE in
  if payload_len <? LTREE_HEADER_SIZE
  then Err (BufferTooShort LTREE_HEADER_SIZE payload_len)
  else
    head ← file_read_exact f (off + SECTION_DESCRIPTOR_SIZE) LTREE_HEADER_SIZE;
    header ← LtreeHeader_parse head;
    let body_len := payload_len - LTREE_HEADER_SIZE in
    _ ← vec_zeroed body_len;
    body ← file_read_exact f (off + SECTION_DESCRIPTOR_SIZE + LTREE_HEADER_SIZE) body_len;
    Ok (header, if ltree_data_size header <? zlen body
                then ztake (ltree_data_size header) body else body).

(** The section walk of one segment.  Running out of fuel is a [Panic]. *)
Fixpoint find_ltree_loop (fuel : nat) (f : File) (off : Z) (seen : gset Z)
    : res (option (LtreeHeader * list byte)) :=
  match fuel with
  | O => Panic
  | S fuel =>
    if bool_decide (off ∈ seen) then Ok None
    else if i64_max <? off then Err (Io InvalidInput)
    else
      match file_read_exact f off SECTION_DESCRIPTOR_SIZE with
      | Panic => Panic
      | Err _ => Ok None
      | Ok d =>
        match SectionDescriptor_parse d off with
        | Panic => Panic
        | Err _ => Ok None
        | Ok desc =>
          if text_eqb (section_type desc) (str "ltree")
          then found ← read_ltree f off desc; Ok (Some found)
          else if (next desc =? off) || (next desc =? 0)
                  || text_eqb (section_type desc) (str "done")
          then Ok None
          else find_ltree_loop fuel f (next desc) ({[off]} ∪ seen)
        end
      end
  end.

Definition find_ltree_in (f : File) : res (option (LtreeHeader * list byte)) :=
  match file_read_exact f 0 FILE_HEADER_SIZE with
  | Panic => Panic
  | Err _ => Ok None
  | Ok hdr =>
    _ ← EwfFileHeader_parse hdr;
    find_ltree_loop (S (S (length (file_bytes f)))) f FILE_HEADER_SIZE ∅
  end.

Fixpoint find_ltree_paths (file_open : text -> outcome io_error File) (searched : Z)
    (paths : list text) : res (LtreeHeader * list byte) :=
  match paths with
  | [] => Err (NotLogicalEvidence searched)
  | p :: paths =>
    f ← from_io (file_open p);
    found ← find_ltree_in f;
    match found with
    | Some hb => Ok hb
    | None => find_ltree_paths file_open (searched + 1) paths
    end
  end.

Definition find_ltree (char_is_uppercase : Z -> bool) (is_file : text -> bool)
    (file_open : text -> outcome io_error File) (first : text) : res (LtreeHeader * list byte) :=
  find_ltree_paths file_open 0 (segment_paths char_is_uppercase is_file first).
End Find.

(** ** Reading a file's data

    The media is any [Read + Seek] value. *)
Class Media (M : Type) := {
  media_seek : Z -> stateful M io_error unit;
  media_read_exact : Z -> stateful M io_error (list byte);
}.

Section ReadEntry.
Context `{Profile} `{Media M}.

Definition io {A} (m : stateful M io_error A) : stateful M ewf_error A := fun s =>
  let '(r, s) := m s in (from_io r, s).

(** [iter().map(|e| e.size).sum::<u64>()] *)
Fixpoint sum_sizes {E} (acc : Z) (exs : list Extent) : outcome E Z :=
  match exs with
  | [] => Ok acc
  | ex :: exs => acc ← add64 acc (ext_size ex); sum_sizes acc exs
  end.

(** [out.resize(out.len() + want, 0)] *)
Definition grow {E} (out : list byte) (want : Z) : outcome E (list byte) :=
  len ← add64 (zlen out) want;
  _ ← vec_zeroed len;
  Ok (ztake len out ++ zeros (len - zlen out)).

(** The loop over the extents; [out] is the buffer built so far. *)
Fixpoint read_extents (exs : list Extent) (out : list byte) : stateful M ewf_error (list byte) :=
  match exs with
  | [] => mret out
  | ex :: exs =>
    let want := ext_size ex in
    if ext_sparse ex then out ← lift (grow out want); read_extents exs out
    else
      _ ← io (media_seek (ext_offset ex));
      let start := zlen out in
      out ← lift (grow out want);
      _ ← lift (index_range out start (zlen out));
      bs ← io (media_read_exact (zlen out - start));
      read_extents exs (ztake start out ++ bs)
  end.

(** The duplicate data offset, when it is a positive number. *)
Definition duplicate_offset (e : LogicalEntry) : option Z :=
  v ← le_raw e !! str "du"; o ← parse_u64 (trim v); if 0 <? o then Some o else None.

Definition read_entry (tree : LogicalTree) (idx : Z) : stateful M ewf_error (list byte) :=
  match get (entries tree) idx with
  | None => lift (malformed (str "entry index")
              (str "index " ++ print_dec idx ++ str " of " ++ print_dec (zlen (entries tree))
               ++ str " entries"))
  | Some entry =>
    if le_is_dir entry then mret []
    else
      extents ← lift (LogicalEntry_extents entry);
      (* the comparison is short-circuited *)
      is_placeholder ← lift (if 1 <? le_size entry
                             then sum ← sum_sizes 0 extents; Ok (sum <=? 1)
                             else Ok false);
      match (if is_placeholder : bool then duplicate_offset entry else None) with
      | Some off =>
        _ ← lift (vec_zeroed (le_size entry));
        _ ← io (media_seek off);
        io (media_read_exact (le_size entry))
      | None =>
        out ← read_extents extents [];
        mret (ztake (le_size entry) out)
      end
  end.
End ReadEntry.

(** * Lemmas: segment extensions *)

(** The segment number an extension tail stands for. *)
Definition tail_ordinal (tail : text) : option Z :=
  match tail with
  | [a; b] =>
    if is_ascii_digit a && is_ascii_digit b then Some ((a - 48) * 10 + (b - 48))
    else if is_ascii_upper a && is_ascii_upper b then Some (100 + (a - 65) * 26 + (b - 65))
    else None
  | _ => None
  end.

Lemma segment_ext_ordinal prefix n :
  1 <= n <= 775 ->
  exists tail, segment_ext prefix n = Some (prefix :: tail) /\ tail_ordinal tail = Some n.
Proof.
  intros Hn.
  assert (Hall : forallb (fun n => match segment_ext 0 n with
                                   | Some (0 :: tail) => bool_decide (tail_ordinal tail = Some n)
                                   | _ => false
                                   end) (range 1 776) = true) by (vm_compute; reflexivity).
  rewrite forallb_forall in Hall. specialize (Hall n).
  assert (In n (range 1 776)) as Hin by (apply list_elem_of_In, elem_of_seqZ; lia).
  specialize (Hall Hin). unfold segment_ext in *.
  destruct (n =? 0); [done|]. destruct (n <=? 99).
  - eexists. split; [done|]. by apply bool_decide_eq_true in Hall.
  - destruct (26 * 26 <=? n - 100); [done|]. eexists. split; [done|].
    by apply bool_decide_eq_true in Hall.
Qed.

(** The segment naming scheme.  Exactly the numbers 1 to 775 get an extension: the
    prefix and the tail that stands for the number, its two decimal digits up to 99 and
    two capital letters in base 26 from 100 on.  The enumeration neither skips a
    segment nor names one twice. *)
Theorem segment_ext_spec prefix n m :
  0 <= n -> 0 <= m ->
  (is_Some (segment_ext prefix n) <-> 1 <= n <= 775) /\
  (segment_ext prefix n = segment_ext prefix m -> 1 <= n <= 775 -> n = m) /\
  (1 <= n <= 775 ->
   exists tail, segment_ext prefix n = Some (prefix :: tail) /\ tail_ordinal tail = Some n).
Proof.
  intros Hn Hm. assert (Hnone : forall k, 0 <= k -> ~ 1 <= k <= 775 -> segment_ext prefix k = None).
  { intros k Hk Hout. unfold segment_ext. destruct (k =? 0) eqn:Ez; bool_hyps; [done|].
    rewrite (proj2 (Z.leb_gt k 99)), (proj2 (Z.leb_le _ (k - 100))) by lia. done. }
  split; [|split; [|exact (segment_ext_ordinal prefix n)]].
  - split.
    + intros [e He]. destruct (decide (1 <= n <= 775)); [done|]. by rewrite Hnone in He.
    + intros Hr. destruct (segment_ext_ordinal prefix n Hr) as (t & -> & _). by eexists.
  - intros Heq Hr. destruct (segment_ext_ordinal prefix n Hr) as (t & He & Ho).
    rewrite He in Heq. destruct (decide (1 <= m <= 775)) as [Hr'|Hr']; [|by rewrite Hnone in Heq].
    destruct (segment_ext_ordinal prefix m Hr') as (t' & He' & Ho'). rewrite He' in Heq.
    injection Heq as ->. congruence.
Qed.

(** * Lemmas: the tree *)

(** The indices of the entries whose parent is [i], in order. *)
Definition children_of (es : list LogicalEntry) (i : Z) : list Z :=
  omap (fun je => if bool_decide (le_parent je.2 = Some i) then Some je.1 else None) (enumerate es).

(** Every parent precedes its children, and lists exactly them, in order. *)
Definition tree_wf (t : LogicalTree) : Prop :=
  forall i e, get (entries t) i = Some e ->
    le_children e = children_of (entries t) i /\
    match le_parent e with Some p => 0 <= p < i | None => True end.

Definition parent_in (p : option Z) (t : LogicalTree) : Prop :=
  match p with Some p => 0 <= p < zlen (entries t) | None => True end.

Lemma enumerate_from_app {A} k (l1 l2 : list A) :
  enumerate_from k (l1 ++ l2) = enumerate_from k l1 ++ enumerate_from (k + zlen l1) l2.
Proof.
  revert k. induction l1 as [|x l1 IH]; intros k; cbn; [by rewrite zlen_nil, Z.add_0_r|].
  rewrite IH, zlen_cons. do 3 f_equal. lia.
Qed.

Lemma children_of_snoc es e i :
  children_of (es ++ [e]) i =
  children_of es i ++ (if bool_decide (le_parent e = Some i) then [zlen es] else []).
Proof.
  unfold children_of, enumerate. rewrite enumerate_from_app, omap_app. cbn.
  by case_bool_decide.
Qed.

(** Changing the children lists changes no parent. *)
Lemma children_of_alter es p idx i :
  children_of (alter (add_child idx) p es) i = children_of es i.
Proof.
  unfold children_of, enumerate. generalize 0 as k.
  revert p. induction es as [|e es IH]; intros p k; [done|].
  destruct p as [|p]; cbn; [done|]. change (list_alter (add_child idx) p es) with (alter (add_child idx) p es).
  rewrite IH. done.
Qed.

Lemma children_of_lt es i :
  (forall j e, get es j = Some e -> match le_parent e with Some p => 0 <= p < j | None => True end) ->
  zlen es <= i -> children_of es i = [].
Proof.
  intros Hp Hi. unfold children_of.
  assert (Hgen : forall k l, (forall j e, get l j = Some e ->
    match le_parent e with Some p => p < i | None => True end) ->
    omap (fun je => if bool_decide (le_parent je.2 = Some i) then Some je.1 else None)
      (enumerate_from k l) = []).
  { intros k l. revert k. induction l as [|e l IH]; intros k Hl; [done|]. cbn.
    rewrite IH.
    - case_bool_decide as He; [|done]. specialize (Hl 0 e). rewrite He in Hl.
      assert (get (e :: l) 0 = Some e) by by apply get_spec. specialize (Hl ltac:(done)). lia.
    - intros j e' [Hj He']%get_spec. apply (Hl (j + 1)). apply get_spec.
      split; [lia|]. by replace (Z.to_nat (j + 1)) with (S (Z.to_nat j)) by lia. }
  apply Hgen. intros j e He. pose proof (get_bounds _ _ _ He). specialize (Hp j e He).
  destruct (le_parent e); [lia|done].
Qed.

Lemma get_snoc {A} (l : list A) x i :
  get (l ++ [x]) i = if i =? zlen l then Some x else get l i.
Proof.
  pose proof (zlen_nonneg l). destruct (i =? zlen l) eqn:E; bool_hyps.
  - apply get_spec. split; [lia|]. subst i. unfold zlen. by rewrite Nat2Z.id, lookup_app_r, Nat.sub_diag by lia.
  - destruct (get l i) as [y|] eqn:Ey.
    + apply get_spec in Ey as [Hi Ey]. apply get_spec. split; [done|]. by apply lookup_app_l_Some.
    + apply get_none in Ey. apply get_none. rewrite zlen_app. change (zlen [x]) with 1. lia.
Qed.

Lemma get_alter {A} (f : A -> A) (l : list A) p i :
  0 <= p -> get (alter f (Z.to_nat p) l) i = (if i =? p then f <$> get l i else get l i).
Proof.
  intros Hp. unfold get, zlen. rewrite length_alter.
  destruct (_ && _) eqn:E; [|by destruct (i =? p)]. bool_hyps.
  destruct (i =? p) eqn:Ei; bool_hyps.
  - subst i. apply list_lookup_alter_eq.
  - apply list_lookup_alter_ne. lia.
Qed.

Lemma push_entry_wf e t :
  tree_wf t -> parent_in (le_parent e) t -> le_children e = [] ->
  tree_wf (push_entry e t) /\ zlen (entries (push_entry e t)) = zlen (entries t) + 1.
Proof.
  intros Hwf Hp Hch. unfold push_entry. split.
  2: { cbn. destruct (le_parent e); unfold zlen; rewrite ?length_alter, length_app; cbn; lia. }
  assert (Hnone : children_of (entries t) (zlen (entries t)) = []).
  { apply children_of_lt; [|lia]. intros j e' He'. by apply Hwf. }
  intros i e' He'. cbn [entries] in He' |- *. destruct (le_parent e) as [p|] eqn:Ep; cbn in Hp.
  - rewrite children_of_alter, children_of_snoc, Ep. rewrite get_alter, get_snoc in He' by lia.
    destruct (i =? zlen (entries t)) eqn:Ei; bool_hyps.
    + rewrite (proj2 (Z.eqb_neq i p)) in He' by lia. injection He' as <-. subst i.
      rewrite Hnone, Hch, Ep, bool_decide_eq_false_2 by (intros [=]; lia). split; [done|lia].
    + destruct (i =? p) eqn:Eip; bool_hyps.
      * destruct (get (entries t) i) as [e0|] eqn:E0; [|done]. cbn in He'. injection He' as <-.
        destruct (Hwf i e0 E0) as [Hc Hpp]. cbn. subst p.
        rewrite bool_decide_eq_true_2 by done. by rewrite Hc.
      * destruct (Hwf i e' He') as [Hc Hpp]. rewrite bool_decide_eq_false_2 by (intros [=]; lia).
        by rewrite app_nil_r.
  - rewrite children_of_snoc, Ep. rewrite get_snoc in He'.
    rewrite bool_decide_eq_false_2, app_nil_r by done.
    destruct (i =? zlen (entries t)) eqn:Ei; bool_hyps.
    + injection He' as <-. subst i. by rewrite Hnone, Ep.
    + by apply Hwf.
Qed.

Lemma parse_one_wf fuel lines_ names p st :
  tree_wf st.2 -> parent_in p st.2 ->
  tree_wf (parse_one fuel lines_ names p st).2 /\
  zlen (entries st.2) <= zlen (entries (parse_one fuel lines_ names p st).2).
Proof.
  revert p st. induction fuel as [|fuel IH]; intros p [i t] Hwf Hp; [done|]. cbn [parse_one snd] in *.
  destruct (get lines_ i) as [counts|]; [|done].
  destruct (get lines_ (i + 1)) as [vline|]; [|done].
  set (t1 := if _ =? _ then t else _).
  assert (entries t1 = entries t) as E1 by (unfold t1; by destruct (_ =? _)).
  set (t2 := match _.2 with Some _ => _ | None => _ end).
  assert (entries t2 = entries t) as E2.
  { rewrite <-E1. unfold t2. by destruct (_.2). }
  clearbody t2. clear t1 E1. set (raw := raw_fields _ _).
  destruct (push_entry_wf (make_entry raw p) t2) as [Hwf' Hlen]; [|unfold parent_in in *; by rewrite E2|done|].
  { unfold tree_wf. rewrite E2. exact Hwf. }
  rewrite E2 in Hlen |- *. set (t3 := push_entry _ t2) in *.
  clearbody t3.
  pose proof (Z_iter_invariant (parse_one fuel lines_ names (Some (zlen (entries t))))
    (fun st => tree_wf st.2 /\ zlen (entries t) + 1 <= zlen (entries st.2))
    (default 0 (sub_count counts)) (i + 2, t3)) as [Hw Hl].
  - intros st [Hw Hl]. pose proof (zlen_nonneg (entries t)).
    destruct (IH (Some (zlen (entries t))) st Hw) as [Hw' Hl']; [cbn; lia|]. split; [done|lia].
  - cbn. split; [done|lia].
  - split; [done|lia].
Qed.

Lemma parse_entry_tree_tree t :
  match parse_entry_tree t with
  | Ok tree => tree_wf tree
  | Err (MalformedLogicalField _ _) => True
  | _ => False
  end.
Proof.
  unfold parse_entry_tree, malformed.
  destruct (position _ _) as [cat|]; [|done]. destruct (get _ (cat + 2)) as [row|]; [|done].
  destruct (split tab row) as [|name names] eqn:Es; [done|].
  destruct (root_line ← _; sub_count root_line) as [root_subs|]; [|done].
  set (f := parse_one _ _ _ _).
  pose proof (Z_iter_invariant f (fun st => tree_wf st.2) root_subs) as Hinv. apply Hinv.
  - intros st Hst. unfold f. by apply parse_one_wf.
  - intros i e He. apply get_bounds in He. unfold zlen in He. cbn in He. lia.
Qed.

(** C35: the file tree.  For every text, the parser returns an error or a tree in
    which each parent comes before its children and each entry's child list holds
    exactly the indices of the entries that name it as parent, in order: walking
    the children from the roots reaches each entry once and never cycles. *)
Theorem parse_entry_tree_wf t :
  match parse_entry_tree t with
  | Ok tree => tree_wf tree
  | Err (MalformedLogicalField _ _) => True
  | _ => False
  end.
Proof. apply parse_entry_tree_tree. Qed.

(** * Lemmas: extents *)

Lemma split_ws_from_token cur tok rest :
  Forall (fun c => is_whitespace c = false) tok ->
  split_ws_from cur (tok ++ rest) = split_ws_from (rev tok ++ cur) rest.
Proof.
  intros Ht. revert cur. induction Ht as [|c tok Hc _ IH]; intros cur; [done|].
  cbn. rewrite Hc, IH. by rewrite <-app_assoc.
Qed.

(** A text [split_whitespace] returns as one piece. *)
Definition token (tok : text) : Prop := tok <> [] /\ Forall (fun c => is_whitespace c = false) tok.

Lemma split_whitespace_join toks :
  Forall token toks -> split_whitespace (join space toks) = toks.
Proof.
  unfold split_whitespace. induction 1 as [|tok toks [Hne Hws] Htoks IH]; [done|].
  assert (Hrev : rev tok <> []) by (intros Hr; apply Hne; by rewrite <-(rev_involutive tok), Hr).
  destruct toks as [|tok2 toks].
  - cbn [join]. rewrite <-(app_nil_r tok) at 1. rewrite split_ws_from_token, app_nil_r by done.
    cbn. destruct (rev tok) eqn:E; [done|]. by rewrite <-E, rev_involutive.
  - cbn [join] in IH |- *. rewrite split_ws_from_token, app_nil_r by done.
    cbn [split_ws_from]. change (is_whitespace space) with true. cbn iota.
    destruct (rev tok) eqn:E; [done|]. by rewrite <-E, rev_involutive, IH.
Qed.

Lemma print_digits_token fuel radix n acc :
  2 <= radix <= 16 -> 0 <= n -> Forall (fun c => is_whitespace c = false) acc ->
  Forall (fun c => is_whitespace c = false) (print_digits fuel radix n acc).
Proof.
  intros Hr. revert n acc. induction fuel as [|fuel IH]; intros n acc Hn Hacc; [done|].
  cbn [print_digits]. pose proof (Z.mod_pos_bound n radix).
  assert (Forall (fun c => is_whitespace c = false) (digit_char (n mod radix) :: acc)) as Hacc'.
  { constructor; [|done]. unfold digit_char, is_whitespace. destruct (_ <? 10) eqn:E; bool_hyps;
    repeat (rewrite ?(proj2 (Z.eqb_neq _ _)), ?(proj2 (Z.leb_gt _ 13)), ?(proj2 (Z.leb_gt 8192 _)) by lia);
    rewrite ?andb_false_r; done. }
  destruct (_ =? 0); [done|]. apply IH; [apply Z.div_pos; lia|done].
Qed.

Lemma print_token radix n : 2 <= radix <= 16 -> 0 <= n -> token (print_digits 64 radix n []).
Proof.
  intros Hr Hn. split; [|by apply print_digits_token].
  destruct (print_digits_head 64 radix n []) as (c & t & -> & _); (done || lia).
Qed.

Definition extent_tokens (ex : Extent) : list text :=
  (if ext_sparse ex then [str "S"] else []) ++ [print_hex (ext_offset ex); print_hex (ext_size ex)].

(** The [be] value that describes extents. *)
Definition extents_text (exs : list Extent) : text :=
  join space (print_dec (zlen exs) :: concat (map extent_tokens exs)).

Definition extent_wf (ex : Extent) : Prop :=
  0 <= ext_offset ex <= u64_max /\ 0 <= ext_size ex <= u64_max.

Lemma hex_not_flag n : 0 <= n <= u64_max -> is_sparse_flag (print_hex n) = false.
Proof.
  intros Hn. destruct (is_sparse_flag (print_hex n)) eqn:E; [|done]. exfalso.
  pose proof (hex_u64_print_hex n Hn) as Hp. unfold is_sparse_flag, eq_ignore_ascii_case in E.
  apply text_eqb_true in E. destruct (print_hex n) as [|c [|c' t]]; [done| |done].
  injection E as E. change (to_ascii_lower c = 115) in E.
  unfold to_ascii_lower, is_ascii_upper in E.
  assert (c = 115 \/ c = 83) as [->| ->] by (destruct ((65 <=? c) && (c <=? 90)); lia); done.
Qed.

Lemma extents_loop_tokens value exs rest fuel out :
  Forall extent_wf exs -> (length exs < fuel)%nat ->
  extents_loop fuel value (zlen exs) (concat (map extent_tokens exs) ++ rest) out =
  Ok (out ++ exs).
Proof.
  intros Hexs. revert fuel out. induction Hexs as [|ex exs [Ho Hs] _ IH]; intros fuel out Hf.
  { destruct fuel; [lia|]. cbn. by rewrite app_nil_r. }
  destruct fuel as [|fuel]; [lia|]. cbn [extents_loop]. rewrite zlen_cons.
  pose proof (zlen_nonneg exs). rewrite (proj2 (Z.leb_gt _ 0)) by lia.
  cbn [map concat]. rewrite <-app_assoc.
  assert (Hskip : forall sparse, skip_flags value sparse
    ([print_hex (ext_offset ex); print_hex (ext_size ex)] ++ concat (map extent_tokens exs) ++ rest) =
    Ok (print_hex (ext_offset ex), sparse, print_hex (ext_size ex) :: concat (map extent_tokens exs) ++ rest)).
  { intros sparse. cbn [app skip_flags]. rewrite hex_not_flag, hex_u64_print_hex by done.
    by rewrite bool_decide_eq_false_2 by done. }
  assert (skip_flags value false (extent_tokens ex ++ concat (map extent_tokens exs) ++ rest) =
    Ok (print_hex (ext_offset ex), ext_sparse ex,
        print_hex (ext_size ex) :: concat (map extent_tokens exs) ++ rest)) as ->.
  { unfold extent_tokens at 1. destruct (ext_sparse ex); [exact (Hskip true)|exact (Hskip false)]. }
  cbn [mbind outcome_bind]. rewrite !hex_u64_print_hex by done. cbn [ok_or mbind outcome_bind].
  replace (1 + zlen exs - 1) with (zlen exs) by lia.
  rewrite IH by (cbn in Hf; lia). rewrite <-app_assoc. by destruct ex.
Qed.

(** The extents of a file.  Every list of extents, sparse or stored, is what
    parsing its textual form gives back. *)
Theorem extents_roundtrip exs :
  Forall extent_wf exs -> zlen exs <= u64_max -> parse_binary_extents (extents_text exs) = Ok exs.
Proof.
  intros Hexs Hl. unfold parse_binary_extents, extents_text.
  rewrite split_whitespace_join.
  - pose proof (zlen_nonneg exs). change (parse_usize ?x) with (parse_u64 x).
    rewrite parse_u64_print_dec by lia. cbn [ok_or mbind outcome_bind].
    rewrite <-(app_nil_r (concat _)). rewrite extents_loop_tokens; [done|done|].
    clear. induction exs as [|ex exs IH]; cbn; [lia|]. rewrite length_app.
    unfold extent_tokens at 1. destruct (ext_sparse ex); cbn in *; rewrite ?app_nil_r in *; lia.
  - constructor; [apply print_token; [done|apply zlen_nonneg]|].
    induction Hexs as [|ex exs [Ho Hs] _ IH]; cbn; [constructor|].
    apply Forall_app. split; [|apply IH; rewrite zlen_cons in Hl; lia].
    assert (token (str "S")) by (split; [done|by repeat constructor]).
    pose proof (print_token 16 (ext_offset ex) ltac:(lia) ltac:(lia)).
    pose proof (print_token 16 (ext_size ex) ltac:(lia) ltac:(lia)).
    unfold extent_tokens, print_hex. destruct (ext_sparse ex); cbn [app];
      rewrite !Forall_cons, Forall_nil; tauto.
Qed.

(** * A section size no vector can hold

    The payload length is trusted as the length of a buffer to allocate. *)

Definition oversized_ltree : File := {|
  file_bytes := file_header_bytes Logical 1
    ++ descriptor_bytes (ascii_bytes (str "ltree")) 0 u64_max 0 ++ zeros 48;
  file_schedule := fun _ _ => [];
  file_metadata_len := None |}.

(** A logical container whose [ltree] section declares a size near [u64::MAX] is
    not refused: the allocation of the body panics, in every build. *)
Lemma find_ltree_capacity_overflow (checks : Profile) :
  find_ltree_in (H:=RefRead) oversized_ltree = Panic.
Proof. vm_compute. reflexivity. Qed.
