(* ===== verification/LogicalRead.v ===== *)
(** Reading file data out of a logical container: [LogicalTree::read_entry] of
    [core/src/logical.rs] against the media contract, and the open reader as a
    media that meets the contract. *)

From stdpp Require Import gmap.
From S2P Require Import Prelude Text Extern Types Sections Source ChunkTable ReaderOpen Reader.
From S2P Require Import Path Logical.

(** The bytes of a window that a seek and an exact read deliver. *)
Definition window (bytes : list byte) (off n : Z) : option (list byte) :=
  if i64_max <? off then None
  else if n =? 0 then Some [] else slice bytes off (off + n).

(** The contract of a [Read + Seek] value over [bytes]: [inv] holds between
    operations and [at_] after a successful seek. *)
Class MediaLaws `{Media M} (bytes : list byte) (inv : M -> Prop) (at_ : Z -> M -> Prop) : Prop := {
  media_fits : zlen bytes <= i64_max;
  media_seek_ok m off : inv m -> 0 <= off <= i64_max ->
    exists m', media_seek off m = (Ok tt, m') /\ at_ off m';
  media_seek_far m off : inv m -> i64_max < off <= u64_max ->
    exists e m', media_seek off m = (Err e, m') /\ inv m';
  media_read m off n : at_ off m -> 0 <= off <= i64_max -> 0 <= n <= i64_max ->
    exists m', inv m' /\
      match window bytes off n with
      | Some bs => media_read_exact n m = (Ok bs, m')
      | None => exists e, media_read_exact n m = (Err e, m')
      end;
}.

Section ReadEntryLemmas.
Context `{Profile} `{MediaLaws M bytes inv at_}.

(** The bytes an extent stands for. *)
Definition extent_data (ex : Extent) : option (list byte) :=
  if ext_sparse ex then Some (zeros (ext_size ex)) else window bytes (ext_offset ex) (ext_size ex).

Definition sizes_sum (exs : list Extent) : Z := foldr (fun ex n => ext_size ex + n) 0 exs.

(** The data of a file that is not a directory: the duplicate it points to when
    its own extents hold at most a byte, its extents one after the other
    otherwise, cut to its logical size. *)
Definition entry_data (e : LogicalEntry) (exs : list Extent) : option (list byte) :=
  match (if (1 <? le_size e) && (sizes_sum exs <=? 1) then duplicate_offset e else None) with
  | Some off => window bytes off (le_size e)
  | None => (fun datas => ztake (le_size e) (concat datas)) <$> mapM extent_data exs
  end.

Lemma sizes_sum_cons ex exs : sizes_sum (ex :: exs) = ext_size ex + sizes_sum exs.
Proof. done. Qed.

Lemma sizes_sum_nonneg exs : Forall extent_wf exs -> 0 <= sizes_sum exs.
Proof. unfold extent_wf. induction 1 as [|ex exs Hx _ IH]; [done|]. rewrite sizes_sum_cons. lia. Qed.

Lemma sum_sizes_ok {E} exs acc :
  Forall extent_wf exs -> 0 <= acc -> acc + sizes_sum exs <= u64_max ->
  sum_sizes (E:=E) acc exs = Ok (acc + sizes_sum exs).
Proof.
  intros Hexs. revert acc. induction Hexs as [|ex exs [Ho Hs] Hexs IH]; intros acc Ha Hm.
  { cbn. by rewrite Z.add_0_r. }
  pose proof (sizes_sum_nonneg _ Hexs). rewrite sizes_sum_cons in *. cbn [sum_sizes].
  rewrite add64_ok by lia. cbn [mbind outcome_bind]. rewrite IH by lia. f_equal. lia.
Qed.

(** A seek and an exact read deliver the window or fail. *)
Lemma seek_read m off n {B} (f : list byte -> stateful M ewf_error B) (Q : res B * M -> Prop) :
  inv m -> 0 <= off <= u64_max -> 0 <= n <= i64_max ->
  match window bytes off n with
  | Some bs => forall m', inv m' -> Q (f bs m')
  | None => forall e m', inv m' -> Q (Err (Io e), m')
  end ->
  Q ((_ ← io (media_seek off); bs ← io (media_read_exact n); f bs) m).
Proof.
  intros Hm Ho Hn HQ. rewrite stateful_bind_run. unfold io at 1.
  destruct (decide (off <= i64_max)) as [Hle|Hgt].
  - destruct (media_seek_ok m off Hm) as (m1 & -> & Hat); [lia|]. cbn [from_io].
    rewrite stateful_bind_run. unfold io.
    destruct (media_read m1 off n Hat) as (m2 & Hm2 & Hread); [lia|lia|].
    destruct (window bytes off n) as [bs|].
    + rewrite Hread. cbn. by apply HQ.
    + destruct Hread as [e ->]. cbn. by apply HQ.
  - destruct (media_seek_far m off Hm) as (e & m1 & -> & Hm1); [lia|]. cbn [from_io].
    unfold window in HQ. rewrite (proj2 (Z.ltb_lt i64_max off)) in HQ by lia. by apply HQ.
Qed.

Lemma grow_ok {E} out want :
  0 <= want -> zlen out + want <= i64_max -> grow (E:=E) out want = Ok (out ++ zeros want).
Proof.
  intros Hw Hl. pose proof (zlen_nonneg out). unfold grow. rewrite add64_ok by lia.
  cbn [mbind outcome_bind]. unfold vec_zeroed. rewrite (proj2 (Z.leb_le _ _)) by lia.
  cbn [mbind outcome_bind]. rewrite ztake_all by lia. do 3 f_equal. lia.
Qed.

Lemma window_length off n bs : 0 <= n -> window bytes off n = Some bs -> zlen bs = n.
Proof.
  intros Hn. unfold window. destruct (_ <? _); [done|]. destruct (n =? 0) eqn:E; bool_hyps.
  - intros [= <-]. by rewrite E.
  - intros Hs. apply slice_zlen in Hs. lia.
Qed.

Lemma extent_data_length ex bs : extent_wf ex -> extent_data ex = Some bs -> zlen bs = ext_size ex.
Proof.
  intros [_ Hs]. unfold extent_data. destruct (ext_sparse ex).
  - intros [= <-]. rewrite zlen_zeros. lia.
  - apply window_length. lia.
Qed.

Lemma read_extents_spec exs out m :
  Forall extent_wf exs -> zlen out + sizes_sum exs <= i64_max -> inv m ->
  exists m', inv m' /\
  match mapM extent_data exs with
  | Some datas => read_extents exs out m = (Ok (out ++ concat datas), m')
  | None => exists e, read_extents exs out m = (Err (Io e), m')
  end.
Proof.
  intros Hexs. revert out m. induction Hexs as [|ex exs Hx Hexs IH]; intros out m Hl Hm.
  { exists m. cbn. by rewrite app_nil_r. }
  pose proof (sizes_sum_nonneg _ Hexs). pose proof (zlen_nonneg out). destruct Hx as [Ho Hs].
  rewrite sizes_sum_cons in Hl.
  assert (Hgrow : grow (E:=ewf_error) out (ext_size ex) = Ok (out ++ zeros (ext_size ex)))
    by (apply grow_ok; lia).
  assert (Hnext : forall bs m1, inv m1 -> zlen bs = ext_size ex -> exists m', inv m' /\
    match datas ← mapM extent_data exs; Some (bs :: datas) with
    | Some datas => read_extents exs (out ++ bs) m1 = (Ok (out ++ concat datas), m')
    | None => exists e, read_extents exs (out ++ bs) m1 = (Err (Io e), m')
    end).
  { intros bs m1 Hm1 Hbs. destruct (IH (out ++ bs) m1) as (m' & Hm' & Hr); [|done|].
    - rewrite zlen_app. lia.
    - exists m'. split; [done|]. destruct (mapM extent_data exs) as [datas|]; cbn; [|done].
      by rewrite Hr, <-app_assoc. }
  change (mapM extent_data (ex :: exs)) with
    (bs ← extent_data ex; datas ← mapM extent_data exs; Some (bs :: datas)).
  assert (extent_data ex = if ext_sparse ex then Some (zeros (ext_size ex))
                           else window bytes (ext_offset ex) (ext_size ex)) as -> by done.
  cbn [read_extents]. destruct (ext_sparse ex).
  - rewrite stateful_lift_run, Hgrow. cbn [mbind option_bind]. apply Hnext; [done|].
    rewrite zlen_zeros. lia.
  - set (k := fun bs => read_extents exs (out ++ bs)).
    assert (Hrun : forall m1,
      (_ ← io (media_seek (ext_offset ex));
       out' ← lift (grow out (ext_size ex));
       _ ← lift (index_range out' (zlen out) (zlen out'));
       bs ← io (media_read_exact (zlen out' - zlen out));
       read_extents exs (ztake (zlen out) out' ++ bs)) m1 =
      (_ ← io (media_seek (ext_offset ex)); bs ← io (media_read_exact (ext_size ex)); k bs) m1).
    { intros m1. rewrite !stateful_bind_run. destruct (io _ m1) as [[u| |] m2]; [|done|done].
      rewrite stateful_lift_run, Hgrow. rewrite zlen_app, zlen_zeros, stateful_lift_run.
      unfold index_range. rewrite slice_some by (rewrite ?zlen_app, ?zlen_zeros; lia). cbn [or_panic].
      rewrite ztake_app_len by done. do 3 f_equal. lia. }
    rewrite Hrun. apply (seek_read m (ext_offset ex) (ext_size ex) k); [done|lia|lia|].
    pose proof (window_length (ext_offset ex) (ext_size ex)) as Hwl.
    destruct (window bytes (ext_offset ex) (ext_size ex)) as [bs|]; cbn [mbind option_bind].
    + intros m' Hm'. apply Hnext; [done|]. apply Hwl; [lia|done].
    + intros e m' Hm'. exists m'. split; [done|]. by exists e.
Qed.

Lemma duplicate_offset_range e off : duplicate_offset e = Some off -> 0 <= off <= u64_max.
Proof.
  unfold duplicate_offset. destruct (_ !! _) as [v|]; cbn; [|done].
  destruct (parse_u64 (trim v)) as [o|] eqn:E; cbn; [|done].
  destruct (0 <? o); [|done]. intros [= <-]. by apply parse_uint_range in E.
Qed.

(** C28: extracting a file.  On a media that delivers what a seek and an exact
    read ask for, [read_entry] of a file returns the concatenation of its extents,
    sparse ones as zeros, cut at its logical size; for a deduplicated file (more
    than a byte long, with at most a byte of extents of its own) whose duplicate
    offset is positive it returns that many bytes from the duplicate offset
    instead.  It fails, with an I/O error, exactly when one of those windows is
    not in the media. *)
Theorem read_entry_spec tree idx e exs m :
  get (entries tree) idx = Some e -> le_is_dir e = false ->
  LogicalEntry_extents e = Ok exs -> Forall extent_wf exs ->
  sizes_sum exs <= i64_max -> 0 <= le_size e <= i64_max -> inv m ->
  exists m', inv m' /\
  match entry_data e exs with
  | Some bs => read_entry tree idx m = (Ok bs, m')
  | None => exists er, read_entry tree idx m = (Err (Io er), m')
  end.
Proof.
  intros He Hdir Hexs Hwf Hsum Hsize Hm. pose proof (sizes_sum_nonneg _ Hwf).
  unfold read_entry, entry_data. rewrite He, Hdir, stateful_lift_run, Hexs.
  set (dup := (1 <? le_size e) && (sizes_sum exs <=? 1)).
  assert ((if 1 <? le_size e then sum ← sum_sizes 0 exs; Ok (sum <=? 1) else Ok false) =
          Ok (E:=ewf_error) dup) as ->.
  { unfold dup. destruct (1 <? le_size e); [|done]. by rewrite sum_sizes_ok by (done || lia). }
  assert (Hext : exists m', inv m' /\
    match (fun datas => ztake (le_size e) (concat datas)) <$> mapM extent_data exs with
    | Some bs => (out ← read_extents exs []; mret (ztake (le_size e) out)) m = (Ok bs, m')
    | None => exists er, (out ← read_extents exs []; mret (ztake (le_size e) out)) m = (Err (Io er), m')
    end).
  { destruct (read_extents_spec exs [] m Hwf) as (m' & Hm' & Hr); [done|done|].
    exists m'. split; [done|]. destruct (mapM extent_data exs); cbn.
    - by rewrite stateful_bind_run, Hr.
    - destruct Hr as [er Hr]. exists er. by rewrite stateful_bind_run, Hr. }
  destruct dup; [|exact Hext]. rewrite stateful_lift_run.
  destruct (duplicate_offset e) as [off|] eqn:Ed; [|exact Hext].
  apply duplicate_offset_range in Ed. rewrite stateful_lift_run. unfold vec_zeroed.
  rewrite (proj2 (Z.leb_le (le_size e) i64_max)) by lia.
  pose proof (seek_read m off (le_size e) mret
    (fun rm => exists m', inv m' /\
       match window bytes off (le_size e) with
       | Some bs => rm = (Ok bs, m')
       | None => exists er, rm = (Err (Io er), m')
       end)) as Hsr.
  assert (forall m0, (bs ← io (media_read_exact (le_size e)); mret bs) m0 =
                     io (media_read_exact (le_size e)) m0) as Hret.
  { intros m0. rewrite stateful_bind_run. by destruct (io _ m0) as [[| |] ?]. }
  rewrite stateful_bind_run in Hsr |- *. destruct (io (media_seek off) m) as [[[]| |] m1];
    rewrite ?Hret in Hsr; apply Hsr; try done; destruct (window bytes off (le_size e)); eauto.
Qed.
End ReadEntryLemmas.

(** * The open reader is a media *)

Section ReaderMedia.
Context `{SafeRead} `{ZlibLaws} `{Profile} `{LruLaws Z (list Chunk)} `{LruLaws Z (list byte)}.

(** [std::io::Read::read_exact] on the reader; [got] is the filled part of the
    buffer.  [fuel] bounds the number of reads: each but the last makes progress. *)
Fixpoint reader_read_exact_loop (fuel : nat) (n : Z) (got : list byte)
    : stateful EwfReader io_error (list byte) :=
  match fuel with
  | O => lift (Err UnexpectedEof)
  | S fuel =>
    if n <=? zlen got then mret got
    else
      bs ← reader_read (n - zlen got);
      match bs with
      | [] => lift (Err UnexpectedEof)
      | _ => reader_read_exact_loop fuel n (got ++ bs)
      end
  end.

#[export] Instance reader_media : Media EwfReader := {|
  media_seek off := _ ← reader_seek (Start off); mret tt;
  media_read_exact n := reader_read_exact_loop (S (Z.to_nat n)) n [];
|}.

Definition reader_inv (im : image) (r : EwfReader) : Prop := exists pos, presents im pos r.

Lemma reader_seek_run im r off :
  reader_inv im r -> 0 <= off <= u64_max ->
  if off <=? i64_max
  then reader_seek (Start off) r = (Ok off, set_r_position off r) /\
       presents im off (set_r_position off r)
  else reader_seek (Start off) r = (Err InvalidInput, r).
Proof.
  intros [pos Hr] Ho. unfold reader_seek. rewrite stateful_lift_run. unfold as_i64.
  destruct (off <=? i64_max) eqn:E; bool_hyps.
  - rewrite (proj2 (Z.ltb_ge off 0)) by lia. split; [done|]. by eapply set_position_presents.
  - by rewrite (proj2 (Z.ltb_lt _ 0)) by lia.
Qed.

Lemma read_exact_serves im pages r off n :
  image_ok im -> all_pages im = Ok pages -> im_total_size im <= im_chunk_size im * im_count im ->
  zlen (media im pages) <= i64_max -> presents im off r -> 0 <= off <= i64_max -> 0 <= n <= i64_max ->
  exists r', reader_inv im r' /\
    match window (media im pages) off n with
    | Some bs => media_read_exact n r = (Ok bs, r')
    | None => exists e, media_read_exact n r = (Err e, r')
    end.
Proof.
  intros Hok Hp Htot Hmed Hr Ho Hn. unfold window. rewrite (proj2 (Z.ltb_ge i64_max off)) by lia.
  cbn [media_read_exact reader_media reader_read_exact_loop]. change (@zlen byte []) with 0.
  destruct (n =? 0) eqn:E0; bool_hyps.
  { subst n. exists r. split; [by exists off|]. done. }
  rewrite (proj2 (Z.leb_gt n 0)), Z.sub_0_r by lia. rewrite stateful_bind_run.
  destruct (reader_read_serves im pages off n r Hok Hp Htot Hr) as (r1 & -> & Hr1); [lia|lia|done|].
  set (bs := ztake n (zdrop off (media im pages))) in *.
  assert (zlen bs = Z.min n (Z.max 0 (zlen (media im pages) - off))) as Hlen.
  { unfold bs. rewrite zlen_ztake, zlen_zdrop. lia. }
  pose proof (zlen_nonneg bs). destruct (Z.to_nat n) as [|fuel] eqn:Efuel; [lia|].
  destruct (decide (off + n <= zlen (media im pages))) as [Hin|Hout].
  - rewrite slice_some by lia. replace (off + n - off) with n by lia. fold bs.
    exists r1. split; [by eexists|]. destruct bs as [|b bs'] eqn:Ebs; [change (@zlen byte []) with 0 in Hlen; lia|].
    cbn [reader_read_exact_loop app]. by rewrite (proj2 (Z.leb_le n _)) by lia.
  - rewrite (proj2 (slice_none _ _ _)) by lia.
    destruct bs as [|b bs'] eqn:Ebs; [exists r1; split; [by eexists|by eexists]|].
    rewrite <-Ebs in *. cbn [reader_read_exact_loop app].
    assert (0 < zlen bs) by (rewrite Ebs, zlen_cons; pose proof (zlen_nonneg bs'); lia).
    rewrite (proj2 (Z.leb_gt n _)) by lia. rewrite stateful_bind_run.
    destruct (reader_read_serves im pages (off + zlen bs) (n - zlen bs) r1 Hok Hp Htot Hr1)
      as (r2 & -> & Hr2); [lia|lia|done|].
    rewrite zdrop_ge by lia. exists r2. split; [by eexists|]. unfold ztake. rewrite take_nil.
    by eexists.
Qed.

(** An open reader meets the media contract over its media. *)
Lemma reader_media_laws im pages :
  image_ok im -> all_pages im = Ok pages -> im_total_size im <= im_chunk_size im * im_count im ->
  zlen (media im pages) <= i64_max ->
  MediaLaws (M:=EwfReader) (media im pages) (reader_inv im) (presents im).
Proof.
  intros Hok Hp Htot Hmed. constructor; [done| | |].
  - intros r off Hr Ho. pose proof (reader_seek_run im r off Hr ltac:(lia)) as Hs.
    rewrite (proj2 (Z.leb_le off i64_max)) in Hs by lia. destruct Hs as [Hs Hpr].
    eexists. split; [|exact Hpr]. cbn. by rewrite stateful_bind_run, Hs.
  - intros r off Hr Ho. pose proof (reader_seek_run im r off Hr ltac:(lia)) as Hs.
    rewrite (proj2 (Z.leb_gt off i64_max)) in Hs by lia.
    eexists _, r. split; [cbn; by rewrite stateful_bind_run, Hs|done].
  - intros r off n Hr Ho Hn. by apply read_exact_serves.
Qed.
End ReaderMedia.
