(* ===== verification/Ltree.v ===== *)
(** The entry tree of a logical container: the types of what the parser of
    [core/src/logical.rs] returns, and the round trip of a written tree. *)

From stdpp Require Import gmap.
From S2P Require Import Prelude Text Extern Types Sections Logical.

(** * Pieces of a text *)

Lemma split_pieces c s : Forall (fun p => c ∉ p /\ p ⊆ s) (split c s).
Proof.
  induction s as [|x s IH]; cbn [split]; [constructor; [split; [set_solver|done]|done]|].
  destruct (x =? c) eqn:E; bool_hyps.
  { constructor; [split; set_solver|]. eapply Forall_impl; [exact IH|]. intros p [? ?]. split; set_solver. }
  pose proof (split_nonempty c s) as Hne. destruct (split c s) as [|p ps]; [done|].
  apply Forall_cons in IH as [[Hp1 Hp2] IH]. constructor; [split; set_solver|].
  eapply Forall_impl; [exact IH|]. intros q [? ?]. split; set_solver.
Qed.

Lemma trim_start_subset f s : trim_start_matches f s ⊆ s.
Proof. induction s as [|x s IH]; cbn; [done|]. destruct (f x); set_solver. Qed.

Lemma elem_of_rev (x : Z) s : x ∈ rev s <-> x ∈ s.
Proof. by rewrite !list_elem_of_In, <-in_rev. Qed.

Lemma trim_end_cr_subset s : trim_end_cr s ⊆ s.
Proof.
  intros x. unfold trim_end_cr, trim_end_matches. rewrite elem_of_rev.
  intros Hx%trim_start_subset. by apply elem_of_rev.
Qed.

(** The lines that the parser sees. *)
Definition tree_lines (t : text) : list text := map trim_end_cr (split newline t).

Lemma tree_lines_plain t : Forall (fun l => newline ∉ l) (tree_lines t).
Proof.
  unfold tree_lines. apply Forall_map. eapply Forall_impl; [apply split_pieces|].
  intros l [Hl _] Hc. by apply Hl, trim_end_cr_subset.
Qed.

(** * The types of an entry *)

Lemma raw_fields_in names values k v : raw_fields names values !! k = Some v -> (k, v) ∈ zip names values.
Proof.
  unfold raw_fields.
  assert (forall (l : list (text * text)) (m : gmap text text), fold_left (fun m kv => <[kv.1 := kv.2]> m) l m !! k = Some v ->
    m !! k = Some v \/ (k, v) ∈ l) as Hgen.
  { induction l as [|[k' v'] l IH]; intros m Hm; cbn in Hm; [by left|].
    apply IH in Hm as [Hm|Hm]; [|right; set_solver]. apply lookup_insert_Some in Hm as [[-> ->]|[_ Hm]]; [|by left].
    right. set_solver. }
  intros [Hm|Hm]%Hgen; [by rewrite lookup_empty in Hm|done].
Qed.

Lemma default_u64 o : (forall n, o = Some n -> 0 <= n <= u64_max) -> 0 <= default 0 o <= u64_max.
Proof. intros Ho. destruct o as [n|]; cbn; [by apply Ho|lia]. Qed.

(** An entry is what its row says, under the indicators of the tree: each field of the
    row is one of the declared ones and holds no separator, the numbers fit in 64 bits,
    and a digest is present only when it is not the marker of an absent one. *)
Record entry_typed (names : list text) (e : LogicalEntry) : Prop := {
  et_name : le_name e = raw_get (le_raw e) (str "n");
  et_dir : le_is_dir e = text_eqb (raw_get (le_raw e) (str "p")) (str "1");
  et_size : 0 <= le_size e <= u64_max;
  et_id : 0 <= le_id e <= u64_max;
  et_md5 h : le_md5 e = Some h -> h = raw_get (le_raw e) (str "ha") /\ exists c, c ∈ h /\ c <> 48;
  et_raw k v : le_raw e !! k = Some v -> k ∈ names /\ tab ∉ v /\ newline ∉ v;
}.

Lemma make_entry_typed names line p :
  newline ∉ line -> entry_typed names (make_entry (raw_fields names (split tab line)) p).
Proof.
  intros Hline. constructor; try done; cbn [le_size le_id le_md5 le_raw make_entry].
  - apply default_u64. intros n. by apply parse_uint_range.
  - apply default_u64. intros n. by apply parse_uint_range.
  - intros h. unfold entry_md5. destruct (raw_get _ (str "ha")) as [|c s] eqn:Er; [done|].
    destruct (forallb (Z.eqb 48) (c :: s)) eqn:Ez; [done|]. intros [= <-]. split; [done|].
    apply not_true_iff_false in Ez. rewrite forallb_forall in Ez.
    destruct (decide (Exists (fun c => c <> 48) (c :: s))) as [He|He].
    + apply Exists_exists in He as (x & Hx & Hne). by exists x.
    + destruct Ez. intros x Hx%list_elem_of_In. apply not_Exists_Forall in He; [|solve_decision].
      rewrite Forall_forall in He. specialize (He x Hx). apply Z.eqb_eq. destruct (decide (x = 48)); [done|by destruct He].
  - intros k v Hkv%raw_fields_in. pose proof (elem_of_zip_l _ _ _ _ Hkv) as Hk.
    pose proof (elem_of_zip_r _ _ _ _ Hkv) as Hv. split; [done|].
    pose proof (split_pieces tab line) as Hs. rewrite Forall_forall in Hs. destruct (Hs v Hv) as [Ht Hn]. split; [done|].
    intros Hc. by apply Hline, Hn.
Qed.

Lemma add_child_typed names idx e : entry_typed names e -> entry_typed names (add_child idx e).
Proof. by intros []. Qed.

(** Every entry of the tree is typed, and took two of the lines before [i]. *)
Definition tree_typed (names : list text) (i : Z) (t : LogicalTree) : Prop :=
  indicators t = names /\ Forall (entry_typed names) (entries t) /\ 2 * zlen (entries t) <= i.

Lemma tree_typed_mono names i j t : i <= j -> tree_typed names i t -> tree_typed names j t.
Proof. intros Hij (? & ? & ?). split_and!; try done. lia. Qed.

Lemma push_entry_typed names i e t :
  tree_typed names i t -> entry_typed names e -> tree_typed names (i + 2) (push_entry e t).
Proof.
  intros (Hn & Ht & Hi) He. unfold push_entry, tree_typed. cbn [entries indicators].
  split; [done|]. split.
  - destruct (le_parent e); [apply Forall_alter|]; try by apply Forall_app_2; [|by constructor].
    intros x ? ?. by apply add_child_typed.
  - destruct (le_parent e); unfold zlen in *; rewrite ?length_alter, length_app; cbn [length]; lia.
Qed.

Section Typed.
Variables (lines_ names : list text).
Hypothesis Hplain : Forall (fun l => newline ∉ l) lines_.

Definition walk_typed (st : Z * LogicalTree) : Prop := 0 <= st.1 /\ tree_typed names (Z.min st.1 (zlen lines_)) st.2.

Lemma parse_one_typed fuel p st : walk_typed st -> walk_typed (parse_one fuel lines_ names p st).
Proof.
  revert p st. induction fuel as [|fuel IH]; intros p [i t] [Hi Ht]; [done|]. cbn [parse_one fst snd] in *.
  destruct (get lines_ i) as [counts|]; [|done].
  destruct (get lines_ (i + 1)) as [vline|] eqn:Ev.
  2: { split; [cbn; lia|]. eapply tree_typed_mono; [|exact Ht]. cbn. lia. }
  pose proof (get_bounds _ _ _ Ev) as Hb. apply get_spec in Ev as [_ Ev].
  assert (newline ∉ vline) as Hv by (by eapply Forall_lookup_1 in Hplain).
  apply Z_iter_invariant; [by apply IH|]. split; [cbn; lia|]. cbn [fst snd].
  eapply tree_typed_mono; [|apply push_entry_typed; [|by apply make_entry_typed]].
  2: { destruct ((entry_short_name _).2), (_ =? _); exact Ht. }
  lia.
Qed.
End Typed.

Lemma parse_entry_tree_types t tree :
  parse_entry_tree t = Ok tree ->
  indicators tree <> [] /\ Forall (entry_typed (indicators tree)) (entries tree) /\
  2 * zlen (entries tree) <= zlen (tree_lines t).
Proof.
  unfold parse_entry_tree, malformed. fold (tree_lines t).
  destruct (position _ _) as [cat|] eqn:Ec; [|done]. destruct (get _ (cat + 2)) as [row|] eqn:Er; [|done].
  destruct (split tab row) as [|name names]; [done|].
  destruct (root_line ← _; sub_count root_line) as [root_subs|]; [|done]. intros <-%Ok_inj.
  pose proof (get_bounds _ _ _ Er) as Hb. assert (0 <= cat) as Hcat.
  { apply position_bounds in Ec. lia. }
  set (start := {| entries := []; indicators := name :: names; warnings := [] |}).
  destruct (Z_iter_invariant (parse_one (length (tree_lines t)) (tree_lines t) (name :: names) None)
    (walk_typed (tree_lines t) (name :: names)) root_subs (cat + 3 + 2, start)) as [_ (Hn & Ht & Hl)].
  - intros st. apply parse_one_typed, tree_lines_plain.
  - split; [cbn; lia|]. split; [done|]. split; [by apply Forall_nil_2|].
    change (2 * 0 <= (cat + 3 + 2) `min` zlen (tree_lines t)). lia.
  - rewrite Hn. split; [done|]. split; [done|]. lia.
Qed.

(** C38: what the parser returns is typed.  For every text, each entry of a parsed tree
    holds what its row says: sizes and identifiers fit in 64 bits, an absent digest is
    never taken for a digest, the fields are among the declared ones and hold neither a
    tab nor a newline; and each entry took two lines of the text of its own. *)
Theorem parse_entry_tree_typed t tree :
  parse_entry_tree t = Ok tree ->
  indicators tree <> [] /\ Forall (entry_typed (indicators tree)) (entries tree) /\
  2 * zlen (entries tree) <= zlen (tree_lines t).
Proof. apply parse_entry_tree_types. Qed.

(** * A written tree *)

(** A file or directory: the fields of its row, and what it holds. *)
Inductive node :=
| Node (row : list text) (children : list node).

Lemma node_forest_ind (P : node -> Prop) (Hnode : forall row ch, Forall P ch -> P (Node row ch)) : forall n, P n.
Proof.
  refine (fix F n := match n with Node row ch => Hnode row ch _ end).
  induction ch as [|m ch IH]; constructor; [apply F|exact IH].
Qed.

Fixpoint node_size (n : node) : Z :=
  match n with Node _ ch => 1 + fold_right Z.add 0 (map node_size ch) end.
Definition forest_size (ns : list node) : Z := fold_right Z.add 0 (map node_size ns).

Definition counts_line (ns : list node) : text := str "0" ++ tab :: print_dec (zlen ns).

Fixpoint node_lines (n : node) : list text :=
  match n with Node row ch => counts_line ch :: join tab row :: concat (map node_lines ch) end.
Definition forest_lines (ns : list node) : list text := concat (map node_lines ns).

(** ** The tree that a forest stands for: its nodes in preorder *)

Fixpoint sibling_indices (idx : Z) (ns : list node) : list Z :=
  match ns with
  | [] => []
  | n :: ns => idx :: sibling_indices (idx + node_size n) ns
  end.

Definition add_children (idxs : list Z) (e : LogicalEntry) : LogicalEntry :=
  {| le_name := le_name e; le_short_name := le_short_name e; le_is_dir := le_is_dir e;
     le_size := le_size e; le_md5 := le_md5 e; le_id := le_id e;
     le_children := le_children e ++ idxs; le_parent := le_parent e; le_raw := le_raw e |}.

Section Entries.
Variable names : list text.

Fixpoint node_entries (idx : Z) (parent_ : option Z) (n : node) : list LogicalEntry :=
  match n with
  | Node row ch =>
    add_children (sibling_indices (idx + 1) ch) (make_entry (raw_fields names row) parent_)
    :: (fix forest (idx' : Z) (ns : list node) : list LogicalEntry :=
          match ns with
          | [] => []
          | n :: ns => node_entries idx' (Some idx) n ++ forest (idx' + node_size n) ns
          end) (idx + 1) ch
  end.

Fixpoint forest_entries (idx : Z) (parent_ : option Z) (ns : list node) : list LogicalEntry :=
  match ns with
  | [] => []
  | n :: ns => node_entries idx parent_ n ++ forest_entries (idx + node_size n) parent_ ns
  end.

Lemma node_entries_eq idx p row ch :
  node_entries idx p (Node row ch)
  = add_children (sibling_indices (idx + 1) ch) (make_entry (raw_fields names row) p)
    :: forest_entries (idx + 1) (Some idx) ch.
Proof.
  cbn [node_entries]. f_equal. generalize (idx + 1) as k.
  induction ch as [|n ch IH]; intros k; [done|]. cbn [forest_entries]. by rewrite <-IH.
Qed.

(** A row of the declared width, with separators nowhere and a consistent short name. *)
Definition row_ok (row : list text) : Prop :=
  row <> [] /\ length row = length names /\
  Forall (fun v => tab ∉ v /\ newline ∉ v /\ carriage_return ∉ v) row /\
  (entry_short_name (raw_get (raw_fields names row) (str "snh"))).2 = None.

Inductive node_ok : node -> Prop :=
| node_ok_intro row ch : row_ok row -> Forall node_ok ch -> zlen ch <= u64_max -> node_ok (Node row ch).
End Entries.

Lemma node_size_pos n : 1 <= node_size n.
Proof.
  induction n as [row ch IH] using node_forest_ind. cbn [node_size].
  enough (0 <= fold_right Z.add 0 (map node_size ch)) by lia. induction IH; cbn; lia.
Qed.

Lemma forest_size_nonneg ns : 0 <= forest_size ns.
Proof. induction ns as [|n ns IH]; cbn; [lia|]. pose proof (node_size_pos n). unfold forest_size in IH. lia. Qed.

Lemma forest_size_cons n ns : forest_size (n :: ns) = node_size n + forest_size ns.
Proof. done. Qed.

Lemma node_size_eq row ch : node_size (Node row ch) = 1 + forest_size ch.
Proof. done. Qed.

Lemma zlen_forest_lines ns : zlen (forest_lines ns) = 2 * forest_size ns.
Proof.
  assert (forall n, zlen (node_lines n) = 2 * node_size n) as Hn.
  { intros n. induction n as [row ch IH] using node_forest_ind. rewrite node_size_eq. cbn [node_lines].
    rewrite !zlen_cons. enough (zlen (concat (map node_lines ch)) = 2 * forest_size ch) by lia.
    induction IH as [|m ch Hm _ IH]; [done|]. cbn [map concat]. rewrite zlen_app, forest_size_cons. lia. }
  induction ns as [|n ns IH]; [done|]. unfold forest_lines in *. cbn [map concat].
  rewrite zlen_app, forest_size_cons, Hn. lia.
Qed.

Lemma zlen_node_entries names : forall n idx p, zlen (node_entries names idx p n) = node_size n.
Proof.
  intros n. induction n as [row ch IH] using node_forest_ind. intros idx p.
  rewrite node_entries_eq, zlen_cons, node_size_eq. f_equal. generalize (idx + 1) as k, (Some idx) as q.
  induction IH as [|m ch Hm _ IH]; intros k q; [done|]. cbn [forest_entries]. by rewrite zlen_app, Hm, IH.
Qed.

(** ** The parser on written lines *)

Lemma trim_start_none p s : Forall (fun c => p c = false) s -> trim_start_matches p s = s.
Proof. destruct 1 as [|c s Hc _]; cbn; [done|by rewrite Hc]. Qed.

Lemma trim_end_none p s : Forall (fun c => p c = false) s -> trim_end_matches p s = s.
Proof.
  intros Hs. unfold trim_end_matches. rewrite trim_start_none, rev_involutive; [done|].
  by apply Forall_rev.
Qed.

Lemma sub_count_counts ns : zlen ns <= u64_max -> sub_count (counts_line ns) = Some (zlen ns).
Proof.
  intros Hn. pose proof (zlen_nonneg ns). unfold sub_count, counts_line.
  destruct (print_token 10 (zlen ns)) as [Hne Htok]; [lia|lia|]. fold (print_dec (zlen ns)) in *.
  rewrite split_app by (rewrite list_elem_of_In; cbn; intros [?|[]]; done). rewrite split_no_sep.
  2: { intros Hc. rewrite Forall_forall in Htok. specialize (Htok _ Hc). done. }
  cbn [lookup list_lookup mbind option_bind]. unfold trim. rewrite trim_start_none, trim_end_none by done.
  by apply parse_u64_print_dec.
Qed.

Lemma Z_iter_cons {A B} (f : A -> A) (x : B) l a : Z.iter (zlen (x :: l)) f a = Z.iter (zlen l) f (f a).
Proof.
  unfold zlen. cbn [length]. rewrite !iter_nat_of_Z by lia. rewrite !Zabs2Nat.id. cbn [iter_nat nat_rect].
  induction (length l) as [|n IH]; cbn; [done|]. by rewrite IH.
Qed.

Definition linked (p : option Z) (idxs : list Z) (es : list LogicalEntry) : list LogicalEntry :=
  match p with Some p => alter (add_children idxs) (Z.to_nat p) es | None => es end.

Lemma linked_nil p es : linked p [] es = es.
Proof.
  destruct p as [p|]; [|done]. apply list_alter_id. intros e. unfold add_children. rewrite app_nil_r. by destruct e.
Qed.

Lemma linked_linked p a b es : linked p b (linked p a es) = linked p (a ++ b) es.
Proof.
  destruct p as [p|]; [|done]. cbn. rewrite list_alter_alter_eq. apply list_alter_ext; [|done].
  intros e _. cbn. unfold add_children. cbn. by rewrite app_assoc.
Qed.

Lemma zlen_linked p idxs es : zlen (linked p idxs es) = zlen es.
Proof. destruct p; [|done]. unfold zlen. cbn. by rewrite length_alter. Qed.

Lemma linked_app p idxs es fs :
  match p with Some p => 0 <= p < zlen es | None => True end -> linked p idxs (es ++ fs) = linked p idxs es ++ fs.
Proof. destruct p as [p|]; [|done]. intros Hp. cbn. apply alter_app_l. unfold zlen in Hp. lia. Qed.

Lemma linked_last idxs es e : linked (Some (zlen es)) idxs (es ++ [e]) = es ++ [add_children idxs e].
Proof. cbn. unfold zlen. rewrite Nat2Z.id. rewrite alter_app_r_alt by lia. by rewrite Nat.sub_diag. Qed.

Section ParseWritten.
Variables lines_ names : list text.

Definition grown (t : LogicalTree) (es : list LogicalEntry) : LogicalTree :=
  {| entries := es; indicators := indicators t; warnings := warnings t |}.

Definition parent_of (p : option Z) (es : list LogicalEntry) : Prop :=
  match p with Some p => 0 <= p < zlen es | None => True end.

(** [parse_one] on the lines of [n] at [i] appends its entries and links it to its parent. *)
Definition parses (fuel : nat) (n : node) : Prop :=
  forall i t p before_ rest,
    lines_ = before_ ++ node_lines n ++ rest -> zlen before_ = i -> parent_of p (entries t) ->
    parse_one fuel lines_ names p (i, t)
    = (i + 2 * node_size n,
       grown t (linked p [zlen (entries t)] (entries t) ++ node_entries names (zlen (entries t)) p n)).

Lemma parse_forest fuel ns i t p before_ rest :
  Forall (parses fuel) ns ->
  lines_ = before_ ++ forest_lines ns ++ rest -> zlen before_ = i -> parent_of p (entries t) ->
  Z.iter (zlen ns) (parse_one fuel lines_ names p) (i, t)
  = (i + 2 * forest_size ns,
     grown t (linked p (sibling_indices (zlen (entries t)) ns) (entries t)
              ++ forest_entries names (zlen (entries t)) p ns)).
Proof.
  intros Hns. revert i t before_. induction Hns as [|n ns Hn _ IH]; intros i t before_ Hl Hi Hp.
  { cbn. rewrite linked_nil, app_nil_r, Z.add_0_r. by destruct t. }
  unfold forest_lines in Hl. cbn [map concat] in Hl. rewrite <-app_assoc in Hl.
  rewrite Z_iter_cons, (Hn i t p _ _ Hl Hi Hp). rewrite app_assoc in Hl.
  pose proof (zlen_forest_lines [n]) as Hsz. unfold forest_lines in Hsz. cbn [map concat] in Hsz.
  rewrite app_nil_r, forest_size_cons in Hsz. change (forest_size []) with 0 in Hsz.
  set (t1 := grown t _).
  assert (zlen (entries t1) = zlen (entries t) + node_size n) as Hlen.
  { cbn. by rewrite zlen_app, zlen_linked, zlen_node_entries. }
  rewrite (IH _ t1 _ Hl); [|rewrite zlen_app; lia|].
  2: { destruct p as [p|]; [|done]. cbn [parent_of] in *. pose proof (node_size_pos n). lia. }
  rewrite forest_size_cons, Hlen. f_equal; [lia|]. cbn [grown entries indicators warnings t1 sibling_indices forest_entries].
  unfold grown. cbn. f_equal. rewrite app_assoc. f_equal.
  rewrite linked_app, linked_linked by (destruct p; [rewrite zlen_linked|]; done). done.
Qed.

Lemma forest_sizes ns fuel : forest_size ns <= Z.of_nat fuel -> Forall (fun n => node_size n <= Z.of_nat fuel) ns.
Proof.
  intros Hs. induction ns as [|n ns IH]; [done|]. rewrite forest_size_cons in Hs.
  pose proof (node_size_pos n). pose proof (forest_size_nonneg ns). constructor; [lia|]. apply IH. lia.
Qed.

Lemma push_entry_linked t e :
  le_children e = [] -> parent_of (le_parent e) (entries t) ->
  push_entry e t = grown t (linked (le_parent e) [zlen (entries t)] (entries t) ++ [e]).
Proof.
  intros He Hp. unfold push_entry, grown. f_equal. destruct (le_parent e) as [p|]; [|done].
  rewrite <-linked_app by done. reflexivity.
Qed.

Lemma parse_node n : node_ok names n -> forall fuel, node_size n <= Z.of_nat fuel -> parses fuel n.
Proof.
  induction n as [row ch IH] using node_forest_ind. intros Hok fuel Hf.
  inversion Hok as [? ? (Hne & Hlen & Hrow & Hsnh) Hch Hcount Heq]; subst.
  rewrite node_size_eq in Hf. pose proof (forest_size_nonneg ch). destruct fuel as [|fuel]; [lia|].
  intros i t p before_ rest Hl Hi Hp. cbn [node_lines] in Hl. fold (forest_lines ch) in Hl. cbn [app] in Hl.
  cbn [parse_one].
  assert (get lines_ i = Some (counts_line ch)) as ->.
  { rewrite Hl, <-Hi. apply get_spec. split; [apply zlen_nonneg|]. unfold zlen. by rewrite Nat2Z.id, list_lookup_middle. }
  assert (get lines_ (i + 1) = Some (join tab row)) as ->.
  { apply get_spec. split; [pose proof (zlen_nonneg before_); lia|].
    rewrite Hl, <-Hi, cons_middle, app_assoc. apply list_lookup_middle. rewrite length_app. cbn. unfold zlen. lia. }
  assert (Forall (fun v => tab ∉ v) row) as Htab by (eapply Forall_impl; [exact Hrow|]; by intros v [? _]).
  rewrite split_join by done. assert (zlen row =? zlen names = true) as -> by (unfold zlen; rewrite Hlen; apply Z.eqb_refl).
  rewrite Hsnh, (sub_count_counts ch Hcount). cbn [default from_option id].
  rewrite push_entry_linked by done. cbn [le_parent make_entry].
  set (e := make_entry _ p). set (idx := zlen (entries t)).
  set (es := linked p [idx] (entries t)). assert (zlen es = idx) as Hes by apply zlen_linked.
  rewrite (parse_forest fuel ch (i + 2) (grown t (es ++ [e])) (Some idx) (before_ ++ [counts_line ch; join tab row]) rest).
  - rewrite node_size_eq, node_entries_eq. f_equal; [lia|]. unfold grown. cbn [entries indicators warnings]. f_equal.
    rewrite zlen_app, Hes. change (zlen [e]) with 1. rewrite <-Hes at 1. rewrite linked_last, <-app_assoc. done.
  - assert (Forall (fun n => node_size n <= Z.of_nat fuel) ch) as Hsz by (apply forest_sizes; lia).
    rewrite Forall_forall in *. intros m Hm. apply (IH m Hm (Hch m Hm)). by apply Hsz.
  - by rewrite Hl, <-app_assoc.
  - rewrite zlen_app, Hi. done.
  - cbn. rewrite zlen_app, Hes. change (zlen [e]) with 1. pose proof (zlen_nonneg (entries t)). unfold idx. lia.
Qed.
End ParseWritten.

(** ** A whole text *)

(** A text of lines, each ended as the system that wrote it ends them. *)
Definition written_lines (eol : text) (ls : list text) : text := join newline (map (fun l => l ++ eol) ls).

Definition line_ok (l : text) : Prop := newline ∉ l /\ carriage_return ∉ l.

Lemma tree_lines_written eol ls :
  eol = [] \/ eol = [carriage_return] -> ls <> [] -> Forall line_ok ls -> tree_lines (written_lines eol ls) = ls.
Proof.
  intros He Hne Hls. unfold tree_lines, written_lines. rewrite split_join.
  - rewrite map_map. induction Hls as [|l ls [_ Hcr] Hls IH]; [done|]. cbn [map]. f_equal.
    + unfold trim_end_cr, trim_end_matches. rewrite rev_app_distr.
      assert (trim_start_matches (Z.eqb carriage_return) (rev l) = rev l) as Ht.
      { apply trim_start_none, Forall_rev, Forall_forall. intros c Hc. apply Z.eqb_neq. by intros <-. }
      destruct He as [->| ->]; cbn; rewrite ?Z.eqb_refl, Ht; apply rev_involutive.
    + destruct ls; [done|]. by apply IH.
  - destruct ls; done.
  - apply Forall_map. eapply Forall_impl; [exact Hls|]. intros l [Hn _]. cbn.
    rewrite elem_of_app. intros [?|Hc]; [done|]. destruct He as [->| ->]; cbn in Hc; [by apply not_elem_of_nil in Hc|].
    by apply list_elem_of_singleton in Hc.
Qed.

Definition category_lines (count names root : list text) (forest : list node) : list text :=
  [str "entry"; join tab count; join tab names; counts_line forest; join tab root] ++ forest_lines forest.

Definition fields_ok (row : list text) : Prop := Forall (fun v => tab ∉ v /\ newline ∉ v /\ carriage_return ∉ v) row.

Lemma join_line_ok row : fields_ok row -> line_ok (join tab row).
Proof.
  induction 1 as [|v row (Ht & Hn & Hc) Hrow IH]; [split; apply not_elem_of_nil|]. cbn. destruct row; [done|].
  destruct IH. split; rewrite elem_of_app, elem_of_cons; intros [?|[?|?]]; done.
Qed.

Lemma counts_line_ok ns : line_ok (counts_line ns).
Proof.
  pose proof (zlen_nonneg ns) as Hz. destruct (print_token 10 (zlen ns)) as [_ Htok]; [lia|lia|]. fold (print_dec (zlen ns)) in Htok.
  rewrite Forall_forall in Htok. unfold counts_line. split; rewrite elem_of_app, elem_of_cons;
    (intros [Hc|[Hc|Hc%Htok]]; [|done|done]); apply list_elem_of_In in Hc; cbn in Hc; intuition discriminate.
Qed.

Lemma node_lines_ok names n : node_ok names n -> Forall line_ok (node_lines n).
Proof.
  induction n as [row ch IH] using node_forest_ind. inversion 1 as [? ? (_ & _ & Hrow & _) Hch _]; subst.
  cbn [node_lines]. constructor; [apply counts_line_ok|]. constructor; [by apply join_line_ok|].
  apply Forall_concat, Forall_map. rewrite Forall_forall in *. intros m Hm. apply (IH m Hm). by apply Hch.
Qed.

Lemma category_lines_ok count names root forest :
  fields_ok count -> fields_ok names -> fields_ok root -> Forall (node_ok names) forest ->
  Forall line_ok (category_lines count names root forest).
Proof.
  intros Hc Hn Hr Hf. unfold category_lines. apply Forall_app_2.
  - repeat (constructor; [by apply join_line_ok || apply counts_line_ok || (split; apply (bool_decide_unpack _); vm_compute; exact I)|]).
    constructor.
  - apply Forall_concat, Forall_map. eapply Forall_impl; [exact Hf|]. apply node_lines_ok.
Qed.

(** ** Decoding *)

Lemma decode_ltree_written t : Forall is_scalar t -> decode_ltree_text (utf16_bytes t) = (t, 0).
Proof.
  intros Ht. unfold decode_ltree_text. rewrite decode_utf16_bytes by done.
  f_equal; [rewrite map_map; cbn; apply map_id|].
  clear Ht. induction t as [|c t IH]; [done|]. cbn [map]. by rewrite filter_cons_False by done.
Qed.

(** ** The round trip *)

Definition forest_tree (names : list text) (forest : list node) : LogicalTree :=
  {| entries := forest_entries names 0 None forest; indicators := names; warnings := [] |}.

Lemma parse_category before_ count names root forest after :
  Forall (fun l => l <> str "entry") before_ ->
  names <> [] -> fields_ok names -> Forall (node_ok names) forest -> zlen forest <= u64_max ->
  forall t, tree_lines t = before_ ++ category_lines count names root forest ++ after ->
  parse_entry_tree t = Ok (forest_tree names forest).
Proof.
  intros Hbefore Hne Hnames Hforest Hcount t Ht. unfold parse_entry_tree. fold (tree_lines t). rewrite Ht.
  set (ls := before_ ++ _). unfold position.
  assert (position_from (fun l => text_eqb l (str "entry")) 0 ls = Some (zlen before_)) as ->.
  { unfold ls, category_lines. cbn [app]. rewrite position_from_app; [by rewrite Z.add_0_l| |by apply text_eqb_refl].
    eapply Forall_impl; [exact Hbefore|]. intros l Hl. by apply bool_decide_eq_false. }
  assert (get ls (zlen before_ + 2) = Some (join tab names)) as ->.
  { apply (get_at (before_ ++ [str "entry"; join tab count]) _ (counts_line forest :: join tab root :: forest_lines forest ++ after));
      [unfold ls; by rewrite <-app_assoc|by rewrite zlen_app]. }
  assert (get ls (zlen before_ + 3) = Some (counts_line forest)) as ->.
  { apply (get_at (before_ ++ [str "entry"; join tab count; join tab names]) _ (join tab root :: forest_lines forest ++ after));
      [unfold ls; by rewrite <-app_assoc|by rewrite zlen_app]. }
  rewrite split_join; [|done|by eapply Forall_impl; [exact Hnames|]; intros v [? _]].
  cbn [mbind option_bind]. rewrite sub_count_counts by done. destruct names as [|n0 names]; [done|]. f_equal.
  set (start := {| entries := []; indicators := n0 :: names; warnings := [] |}).
  rewrite (parse_forest ls (n0 :: names) (length ls) forest _ start None
    (before_ ++ [str "entry"; join tab count; join tab (n0 :: names); counts_line forest; join tab root]) after).
  - done.
  - assert (forest_size forest <= Z.of_nat (length ls)) as Hsz.
    { pose proof (zlen_forest_lines forest) as Hz. pose proof (forest_size_nonneg forest).
      unfold ls, category_lines. rewrite !length_app. unfold zlen in Hz. lia. }
    apply forest_sizes in Hsz. rewrite Forall_forall in *. intros n Hn. apply parse_node; auto.
  - unfold ls, category_lines. by rewrite <-!app_assoc.
  - rewrite zlen_app. unfold zlen at 2. cbn [length]. lia.
  - done.
Qed.

(** The text of an ltree, with one category of entries. *)
Record document := {
  d_eol : text;
  d_before : list text;
  d_count : list text;
  d_names : list text;
  d_root : list text;
  d_forest : list node;
  d_after : list text;
}.

Definition document_text (d : document) : text :=
  written_lines (d_eol d)
    (d_before d ++ category_lines (d_count d) (d_names d) (d_root d) (d_forest d) ++ d_after d).

Record document_ok (d : document) : Prop := {
  do_eol : d_eol d = [] \/ d_eol d = [carriage_return];
  do_before : Forall line_ok (d_before d) /\ Forall (fun l => l <> str "entry") (d_before d);
  do_after : Forall line_ok (d_after d);
  do_rows : fields_ok (d_count d) /\ fields_ok (d_names d) /\ fields_ok (d_root d);
  do_names : d_names d <> [];
  do_forest : Forall (node_ok (d_names d)) (d_forest d) /\ zlen (d_forest d) <= u64_max;
  do_scalar : Forall is_scalar (document_text d);
}.

Definition document_tree (d : document) : LogicalTree := forest_tree (d_names d) (d_forest d).

Lemma document_parses d :
  document_ok d ->
  decode_ltree_text (utf16_bytes (document_text d)) = (document_text d, 0) /\
  parse_entry_tree (document_text d) = Ok (document_tree d).
Proof.
  intros [He [Hb Hbe] Ha (Hc & Hn & Hr) Hne [Hf Hz] Hs]. split; [by apply decode_ltree_written|].
  eapply parse_category; try done. apply tree_lines_written; [done| |].
  - unfold category_lines. by destruct (d_before d).
  - apply Forall_app_2; [done|]. apply Forall_app_2; [by apply category_lines_ok|done].
Qed.

(** C36: a written file tree is read back.  Any forest of named rows, of any shape and
    depth, written as the [entry] category of an ltree in UTF-16 - after any other lines
    and before any others, with either line ending - is decoded without a replacement and
    parsed without a warning to its nodes in preorder, each with the fields of its row,
    the index of its parent and those of its children. *)
Theorem ltree_roundtrip d :
  document_ok d ->
  decode_ltree_text (utf16_bytes (document_text d)) = (document_text d, 0) /\
  parse_entry_tree (document_text d) = Ok (document_tree d).
Proof. apply document_parses. Qed.
