(* ===== verification/Anomaly.v ===== *)
(** The anomalies of the integrity analyser: the public types of
    [forensic/src/integrity.rs], their severities and their machine codes. *)

From S2P Require Import Prelude Text.

(** The five levels of [forensicnomicon::report::Severity]. *)
Inductive Severity := Info | Low | Medium | High | Critical.

#[export] Instance Severity_eq_dec : EqDecision Severity.
Proof. solve_decision. Defined.

Inductive EwfIntegrityAnomaly :=
| InvalidSignature
| SegmentNumberZero
| SectionDescriptorCrcMismatch (offset : Z) (section_type : text) (computed : Z) (stored : Z)
| SectionChainBroken (at_offset : Z) (next_offset : Z)
| SectionGapNonZero (gap_offset : Z) (gap_size : Z)
| VolumeSectionMissing
| UnknownSectionType (offset : Z) (type_name : text)
| DoneSectionMissing
| SectorsSectionMissing
| TableSectionMissing
| ChunkSizeInvalid (sectors_per_chunk : Z) (bytes_per_sector : Z)
| SectorCountMismatch (declared : Z) (expected : Z)
| BytesPerSectorInvalid (bytes_per_sector : Z)
| TableChunkCountMismatch (in_volume : Z) (in_table : Z)
| TableHeaderAdler32Mismatch (computed : Z) (stored : Z)
| TableEntryOutOfBounds (chunk_index : Z) (entry_offset : Z) (file_size : Z)
| TableEntryOutsideSectorsRange (chunk_index : Z) (entry_offset : Z) (sectors_start : Z) (sectors_end : Z)
| SectionGapZero (gap_offset : Z) (gap_size : Z)
| HashMismatch (computed : list byte) (stored : list byte)
| HashSectionMissing
| Table2Mismatch (offset : Z)
| BadSectorsPresent (count : Z)
| SegmentOutOfOrder (segment_number : Z) (expected : Z)
| DigestSha1Mismatch (computed : list byte) (stored : list byte)
| DigestSha256Mismatch (computed : list byte) (stored : list byte)
| ExternalMd5Mismatch (computed : list byte) (expected : list byte)
| ExternalSha1Mismatch (computed : list byte) (expected : list byte)
| Ewf2SectionDataHashMismatch (offset : Z) (section_type_id : Z) (computed : list byte) (stored : list byte)
| Ewf2EncryptedSection (offset : Z)
| Ewf2HashSectionMissing
| VolumeBodyCrcMismatch (computed : Z) (stored : Z)
| MediaTypeUnknown (media_type : Z)
| SetIdentifierMismatch (segment : Z)
| Ewf2MediaInfoMissing
| Ewf2ChunkTableChecksumMismatch (computed : Z) (stored : Z)
| ChunkChecksumMismatch (chunk_index : Z) (computed : Z) (stored : Z)
| ChunkDecompressionError (chunk_index : Z)
| UnsupportedCompressionAlgorithm (method_id : Z)
| ExternalSha256Mismatch (computed : list byte) (expected : list byte)
| Ewf2MediaInfoParseFailed.

#[export] Instance EwfIntegrityAnomaly_eq_dec : EqDecision EwfIntegrityAnomaly.
Proof. solve_decision. Defined.

Definition severity (a : EwfIntegrityAnomaly) : Severity :=
  match a with
  | InvalidSignature => Critical
  | SegmentNumberZero => High
  | SectionDescriptorCrcMismatch _ _ _ _ => High
  | SectionChainBroken _ _ => Critical
  | SectionGapNonZero _ _ => Medium
  | VolumeSectionMissing => Critical
  | UnknownSectionType _ _ => Medium
  | DoneSectionMissing => Medium
  | SectorsSectionMissing => High
  | TableSectionMissing => High
  | ChunkSizeInvalid _ _ => High
  | SectorCountMismatch _ _ => High
  | BytesPerSectorInvalid _ => High
  | TableChunkCountMismatch _ _ => High
  | TableHeaderAdler32Mismatch _ _ => High
  | TableEntryOutOfBounds _ _ _ => High
  | TableEntryOutsideSectorsRange _ _ _ _ => High
  | SectionGapZero _ _ => Info
  | HashMismatch _ _ => High
  | HashSectionMissing => Medium
  | Table2Mismatch _ => High
  | BadSectorsPresent _ => Medium
  | SegmentOutOfOrder _ _ => High
  | DigestSha1Mismatch _ _ => High
  | DigestSha256Mismatch _ _ => High
  | ExternalMd5Mismatch _ _ => Critical
  | ExternalSha1Mismatch _ _ => Critical
  | Ewf2SectionDataHashMismatch _ _ _ _ => High
  | Ewf2EncryptedSection _ => Medium
  | Ewf2HashSectionMissing => Medium
  | VolumeBodyCrcMismatch _ _ => High
  | MediaTypeUnknown _ => Medium
  | SetIdentifierMismatch _ => High
  | Ewf2MediaInfoMissing => Medium
  | Ewf2ChunkTableChecksumMismatch _ _ => High
  | ChunkChecksumMismatch _ _ _ => High
  | ChunkDecompressionError _ => High
  | UnsupportedCompressionAlgorithm _ => High
  | ExternalSha256Mismatch _ _ => Critical
  | Ewf2MediaInfoParseFailed => High
  end.

Definition code (a : EwfIntegrityAnomaly) : text :=
  match a with
  | InvalidSignature => str "EWF-INVALID-SIGNATURE"
  | SegmentNumberZero => str "EWF-SEGMENT-NUMBER-ZERO"
  | SectionDescriptorCrcMismatch _ _ _ _ => str "EWF-SECTION-DESCRIPTOR-CRC-MISMATCH"
  | SectionChainBroken _ _ => str "EWF-SECTION-CHAIN-BROKEN"
  | SectionGapNonZero _ _ => str "EWF-SECTION-GAP-NON-ZERO"
  | VolumeSectionMissing => str "EWF-VOLUME-SECTION-MISSING"
  | UnknownSectionType _ _ => str "EWF-UNKNOWN-SECTION-TYPE"
  | DoneSectionMissing => str "EWF-DONE-SECTION-MISSING"
  | SectorsSectionMissing => str "EWF-SECTORS-SECTION-MISSING"
  | TableSectionMissing => str "EWF-TABLE-SECTION-MISSING"
  | ChunkSizeInvalid _ _ => str "EWF-CHUNK-SIZE-INVALID"
  | SectorCountMismatch _ _ => str "EWF-SECTOR-COUNT-MISMATCH"
  | BytesPerSectorInvalid _ => str "EWF-BYTES-PER-SECTOR-INVALID"
  | TableChunkCountMismatch _ _ => str "EWF-TABLE-CHUNK-COUNT-MISMATCH"
  | TableHeaderAdler32Mismatch _ _ => str "EWF-TABLE-HEADER-ADLER32-MISMATCH"
  | TableEntryOutOfBounds _ _ _ => str "EWF-TABLE-ENTRY-OUT-OF-BOUNDS"
  | TableEntryOutsideSectorsRange _ _ _ _ => str "EWF-TABLE-ENTRY-OUTSIDE-SECTORS-RANGE"
  | SectionGapZero _ _ => str "EWF-SECTION-GAP-ZERO"
  | HashMismatch _ _ => str "EWF-HASH-MISMATCH"
  | HashSectionMissing => str "EWF-HASH-SECTION-MISSING"
  | Table2Mismatch _ => str "EWF-TABLE2-MISMATCH"
  | BadSectorsPresent _ => str "EWF-BAD-SECTORS-PRESENT"
  | SegmentOutOfOrder _ _ => str "EWF-SEGMENT-OUT-OF-ORDER"
  | DigestSha1Mismatch _ _ => str "EWF-DIGEST-SHA1-MISMATCH"
  | DigestSha256Mismatch _ _ => str "EWF-DIGEST-SHA256-MISMATCH"
  | ExternalMd5Mismatch _ _ => str "EWF-EXTERNAL-MD5-MISMATCH"
  | ExternalSha1Mismatch _ _ => str "EWF-EXTERNAL-SHA1-MISMATCH"
  | Ewf2SectionDataHashMismatch _ _ _ _ => str "EWF-EWF2-SECTION-DATA-HASH-MISMATCH"
  | Ewf2EncryptedSection _ => str "EWF-EWF2-ENCRYPTED-SECTION"
  | Ewf2HashSectionMissing => str "EWF-EWF2-HASH-SECTION-MISSING"
  | VolumeBodyCrcMismatch _ _ => str "EWF-VOLUME-BODY-CRC-MISMATCH"
  | MediaTypeUnknown _ => str "EWF-MEDIA-TYPE-UNKNOWN"
  | SetIdentifierMismatch _ => str "EWF-SET-IDENTIFIER-MISMATCH"
  | Ewf2MediaInfoMissing => str "EWF-EWF2-MEDIA-INFO-MISSING"
  | Ewf2ChunkTableChecksumMismatch _ _ => str "EWF-EWF2-CHUNK-TABLE-CHECKSUM-MISMATCH"
  | ChunkChecksumMismatch _ _ _ => str "EWF-CHUNK-CHECKSUM-MISMATCH"
  | ChunkDecompressionError _ => str "EWF-CHUNK-DECOMPRESSION-ERROR"
  | UnsupportedCompressionAlgorithm _ => str "EWF-UNSUPPORTED-COMPRESSION-ALGORITHM"
  | ExternalSha256Mismatch _ _ => str "EWF-EXTERNAL-SHA256-MISMATCH"
  | Ewf2MediaInfoParseFailed => str "EWF-EWF2-MEDIA-INFO-PARSE-FAILED"
  end.

Record AnalysisProgress := {
  chunks_done : Z;
  chunks_total : option Z;
  bytes_done : Z;
}.

Record ComputedHashes := {
  hash_md5 : list byte;
  hash_sha1 : list byte;
  hash_sha256 : list byte;
}.

Record EwfHeaderMetadata := {
  hm_description : text;
  hm_case_number : text;
  hm_evidence_number : text;
  hm_examiner_name : text;
  hm_acquisition_date : text;
  hm_system_date : text;
  hm_password_hash : text;
  hm_acquisition_software : text;
}.
