(* ===== verification/Messages.v ===== *)
(** The text of an anomaly: [Display] in [forensic/src/integrity.rs]. *)

From S2P Require Import Prelude Text Hex Anomaly.

(** The characters of the messages that are not ASCII. *)
Definition em_dash : text := [8212].
Definition at_least : text := [8805].
Definition times : text := [215].

(** [format!("{:0kx}")] *)
Definition hex_padded (k : nat) (n : Z) : text :=
  let digits := print_hex n in replicate (k - length digits) 48 ++ digits.

Definition hex (bytes : list byte) : text := hex_string bytes.

Definition message (a : EwfIntegrityAnomaly) : text :=
  match a with
  | InvalidSignature =>
    str "invalid EWF signature " ++ em_dash ++ str " not a valid E01/Ex01 file"
  | SegmentNumberZero =>
    str "segment number is zero (expected " ++ at_least ++ str " 1)"
  | SectionDescriptorCrcMismatch offset section_type computed stored =>
    str "section '" ++ section_type ++ str "' at 0x" ++ print_hex offset ++
    str ": descriptor CRC mismatch (computed 0x" ++ hex_padded 8 computed ++ str ", stored 0x" ++
    hex_padded 8 stored ++ str ")"
  | SectionChainBroken at_offset next_offset =>
    str "section chain broken at 0x" ++ print_hex at_offset ++ str ": next pointer 0x" ++
    print_hex next_offset ++ str " is invalid"
  | SectionGapNonZero gap_offset gap_size =>
    str "non-zero data in " ++ print_dec gap_size ++ str "-byte gap at 0x" ++
    print_hex gap_offset ++ str " " ++ em_dash ++ str " possible hidden data"
  | VolumeSectionMissing =>
    str "volume/disk section missing in segment 1"
  | UnknownSectionType offset type_name =>
    str "unknown section type '" ++ type_name ++ str "' at 0x" ++ print_hex offset
  | DoneSectionMissing =>
    str "done section missing from final segment"
  | SectorsSectionMissing =>
    str "sectors section missing " ++ em_dash ++ str " chunk data not found in segment"
  | TableSectionMissing =>
    str "table section missing " ++ em_dash ++ str " chunk offset table not found in segment"
  | ChunkSizeInvalid sectors_per_chunk bytes_per_sector =>
    str "invalid chunk size: " ++ print_dec sectors_per_chunk ++ str " sectors " ++ times ++
    str " " ++ print_dec bytes_per_sector ++ str " bytes/sector"
  | SectorCountMismatch declared expected =>
    str "sector count mismatch: declared " ++ print_dec declared ++ str ", expected " ++
    print_dec expected
  | BytesPerSectorInvalid bytes_per_sector =>
    str "invalid bytes_per_sector: " ++ print_dec bytes_per_sector ++
    str " (expected 512 or 4096)"
  | TableChunkCountMismatch in_volume in_table =>
    str "chunk count mismatch: volume declares " ++ print_dec in_volume ++ str ", table has " ++
    print_dec in_table
  | TableHeaderAdler32Mismatch computed stored =>
    str "table header Adler-32 mismatch: computed 0x" ++ hex_padded 8 computed ++
    str ", stored 0x" ++ hex_padded 8 stored
  | TableEntryOutOfBounds chunk_index entry_offset file_size =>
    str "table entry for chunk " ++ print_dec chunk_index ++ str " points outside file: 0x" ++
    print_hex entry_offset ++ str " " ++ at_least ++ str " 0x" ++ print_hex file_size
  | TableEntryOutsideSectorsRange chunk_index entry_offset sectors_start sectors_end =>
    str "table entry for chunk " ++ print_dec chunk_index ++ str " at 0x" ++
    print_hex entry_offset ++ str " is outside sectors section [0x" ++ print_hex sectors_start ++
    str "..0x" ++ print_hex sectors_end ++ str "]"
  | SectionGapZero gap_offset gap_size =>
    str "zero-padded " ++ print_dec gap_size ++ str "-byte gap at 0x" ++ print_hex gap_offset
  | HashMismatch computed stored =>
    str "MD5 mismatch: computed " ++ hex computed ++ str ", stored " ++ hex stored
  | HashSectionMissing =>
    str "hash section missing " ++ em_dash ++ str " cannot verify MD5"
  | Table2Mismatch offset =>
    str "table2 body differs from table at byte offset " ++ print_dec offset ++ str " " ++
    em_dash ++ str " one redundant copy is corrupt"
  | BadSectorsPresent count =>
    str "error2 section reports " ++ print_dec count ++
    str " unreadable sector range(s) from acquisition"
  | SegmentOutOfOrder segment_number expected =>
    str "segment " ++ print_dec segment_number ++ str " found where segment " ++
    print_dec expected ++ str " was expected"
  | DigestSha1Mismatch computed stored =>
    str "SHA-1 mismatch: computed " ++ hex computed ++ str ", stored " ++ hex stored
  | DigestSha256Mismatch computed stored =>
    str "SHA-256 mismatch: computed " ++ hex computed ++ str ", stored " ++ hex stored
  | ExternalMd5Mismatch computed expected =>
    str "MD5 does not match chain-of-custody reference: computed " ++ hex computed ++
    str ", expected " ++ hex expected
  | ExternalSha1Mismatch computed expected =>
    str "SHA-1 does not match chain-of-custody reference: computed " ++ hex computed ++
    str ", expected " ++ hex expected
  | ExternalSha256Mismatch computed expected =>
    str "SHA-256 does not match chain-of-custody reference: computed " ++ hex computed ++
    str ", expected " ++ hex expected
  | Ewf2SectionDataHashMismatch offset section_type_id computed stored =>
    str "EWF v2 section (type 0x" ++ hex_padded 2 section_type_id ++ str ") at 0x" ++
    print_hex offset ++ str ": data integrity hash mismatch (computed " ++ hex computed ++
    str ", stored " ++ hex stored ++ str ")"
  | Ewf2EncryptedSection offset =>
    str "EWF v2 encrypted section at 0x" ++ print_hex offset ++ str " " ++ em_dash ++
    str " content not verifiable"
  | Ewf2HashSectionMissing =>
    str "EWF v2 hash section missing from final segment"
  | VolumeBodyCrcMismatch computed stored =>
    str "volume section body CRC mismatch (computed 0x" ++ hex_padded 8 computed ++
    str ", stored 0x" ++ hex_padded 8 stored ++ str ")"
  | MediaTypeUnknown media_type =>
    str "unknown media_type 0x" ++ hex_padded 2 media_type
  | SetIdentifierMismatch segment =>
    str "set_identifier GUID mismatch in segment " ++ print_dec segment ++ str " " ++ em_dash ++
    str " segments may be from different acquisitions"
  | Ewf2MediaInfoMissing =>
    str "EWF v2 media information section missing"
  | Ewf2ChunkTableChecksumMismatch computed stored =>
    str "EWF v2 chunk table checksum mismatch (computed 0x" ++ hex_padded 8 computed ++
    str ", stored 0x" ++ hex_padded 8 stored ++ str ")"
  | ChunkChecksumMismatch chunk_index computed stored =>
    str "chunk " ++ print_dec chunk_index ++ str ": Adler-32 mismatch (computed 0x" ++
    hex_padded 8 computed ++ str ", stored 0x" ++ hex_padded 8 stored ++ str ")"
  | ChunkDecompressionError chunk_index =>
    str "chunk " ++ print_dec chunk_index ++ str ": zlib decompression failed " ++ em_dash ++
    str " chunk data is corrupt"
  | UnsupportedCompressionAlgorithm method_id =>
    str "EWF v2 file header specifies unsupported compression algorithm 0x" ++
    hex_padded 4 method_id ++ str " " ++ em_dash ++ str " only deflate (0/1) is supported"
  | Ewf2MediaInfoParseFailed =>
    str "EWF v2 media information section body could not be decompressed or decoded"
  end.

(** ** [Observation], the trait the reports of other tools are built from *)
Definition observation_severity (a : EwfIntegrityAnomaly) : option Severity := Some (severity a).
Definition observation_code (a : EwfIntegrityAnomaly) : text := code a.
Definition observation_note (a : EwfIntegrityAnomaly) : text := message a.
