(* ===== verification/IntegrityV1.v ===== *)
(** The EWF v1 integrity analyser: [forensic/src/integrity.rs].

    A function that pushes anomalies on [issues] and reports progress is a
    stateful computation over the log of both, in order. *)

From S2P Require Import Prelude Text Extern Types Sections Anomaly.

Definition DVF_SIGNATURE : list byte := map byte_of_Z [100; 118; 102; 9; 13; 10; 255; 0].
Definition VOLUME_DATA_MIN : Z := 24.
Definition VALID_MEDIA_TYPES : list Z := [0; 1; 3; 14; 16].

Definition KNOWN_TYPES : list text :=
  [str "header"; str "header2"; str "volume"; str "disk"; str "table";
   str "table2"; str "sectors"; str "hash"; str "digest"; str "error2";
   str "session"; str "done"; str "next"; str "data"; str "ltree";
   str "ltreedata"].

(** ** Bounds-checked reads: zero when out of range *)
Definition array_at (n : Z) (data : list byte) (off : Z) : list byte :=
  default (zeros n) (slice data off (sat_add off n)).
Definition le_u16_at (data : list byte) (off : Z) : Z := le_combine (array_at 2 data off).
Definition le_u32_at (data : list byte) (off : Z) : Z := le_combine (array_at 4 data off).
Definition le_u64_at (data : list byte) (off : Z) : Z := le_combine (array_at 8 data off).

(** ** The log *)
Inductive event :=
| Issue (a : EwfIntegrityAnomaly)
| Progress (p : AnalysisProgress).

Definition issues_of (es : list event) : list EwfIntegrityAnomaly :=
  omap (fun e => match e with Issue a => Some a | Progress _ => None end) es.
Definition progress_of (es : list event) : list AnalysisProgress :=
  omap (fun e => match e with Issue _ => None | Progress p => Some p end) es.

(** The analyser has no error value: it reports or panics. *)
Abbreviation checked := (stateful (list event) Empty_set).

Definition emit (e : event) : checked unit := with_state (fun log => (tt, log ++ [e])).
Definition push (a : EwfIntegrityAnomaly) : checked unit := emit (Issue a).
Definition push_if (b : bool) (a : EwfIntegrityAnomaly) : checked unit :=
  if b then push a else mret tt.

(** [let Ok(x) = m else ..] *)
Definition attempt {E A} (m : outcome E A) : checked (option A) :=
  match m with Ok a => mret (Some a) | Err _ => mret None | Panic => lift Panic end.

(** ** Sections *)
Record Section_ := {
  type_name : text;
  sec_offset : Z;
  sec_size : Z;
}.

Definition named (n : text) (s : Section_) : bool := text_eqb (type_name s) n.
Definition find_section (n : text) (ss : list Section_) : option Section_ := List.find (named n) ss.

Record VolumeGeometry := {
  g_chunk_count : Z;
  g_sectors_per_chunk : Z;
  g_bytes_per_sector : Z;
  g_sector_count : Z;
  g_set_identifier : list byte;
}.

(** [u32::is_power_of_two] *)
Definition is_power_of_two (x : Z) : bool := (0 <? x) && (Z.land x (x - 1) =? 0).

Section V1.
Context `{SafeRead} `{Adler} `{Zlib} `{Digests}.

Definition desc_size : Z := SECTION_DESCRIPTOR_SIZE.

Definition check_gap (data : list byte) (section_end next_ : Z) : checked unit :=
  let gap_size := sat_sub next_ section_end in
  let non_zero := match slice data section_end next_ with
                  | Some s => existsb (fun b => negb (byteZ b =? 0)) s
                  | None => false
                  end in
  if non_zero then push (SectionGapNonZero section_end gap_size)
  else push (SectionGapZero section_end gap_size).

(** The loop of [walk_sections_v1] from [pos].  Running out of fuel is a [Panic]. *)
Fixpoint walk_loop (fuel : nat) (data : list byte) (pos : Z) (sections : list Section_)
    : checked (list Section_) :=
  match fuel with
  | O => lift Panic
  | S fuel =>
    let file_size := zlen data in
    if zlen data <? sat_add pos desc_size then mret sections
    else
      raw ← lift (index_range data pos (sat_add pos desc_size));
      parsed ← attempt (SectionDescriptor_parse raw pos);
      match parsed with
      | None => mret sections
      | Some desc =>
        _ ← (if SectionDescriptor_verify_crc desc raw then mret tt
             else covered ← lift (index_range raw SectionDescriptor_crc_covers.1
                                    SectionDescriptor_crc_covers.2);
                  push (SectionDescriptorCrcMismatch pos (section_type desc)
                          (adler32 covered) (stored_crc desc)));
        _ ← push_if (negb (existsb (text_eqb (section_type desc)) KNOWN_TYPES))
              (UnknownSectionType pos (section_type desc));
        let section_end := sat_add pos (section_size desc) in
        let sections := sections ++ [{| type_name := section_type desc; sec_offset := pos;
                                        sec_size := section_size desc |}] in
        if text_eqb (section_type desc) (str "done") || text_eqb (section_type desc) (str "next")
        then mret sections
        else if (next desc =? 0) || (file_size <? next desc) || (next desc <=? pos)
        then _ ← push (SectionChainBroken pos (next desc)); mret sections
        else
          _ ← (if section_end <? next desc then check_gap data section_end (next desc)
               else mret tt);
          walk_loop fuel data (next desc) sections
      end
  end.

Definition walk_sections_v1 (data : list byte) : checked (list Section_) :=
  walk_loop (S (length data)) data FILE_HEADER_SIZE [].

(** ** The volume *)
Definition check_geometry (v : EwfVolume) : checked unit :=
  let spc := sectors_per_chunk v in
  _ ← push_if (negb (existsb (Z.eqb (media_type v)) VALID_MEDIA_TYPES))
        (MediaTypeUnknown (media_type v));
  _ ← push_if (negb (bytes_per_sector v =? 512) && negb (bytes_per_sector v =? 4096))
        (BytesPerSectorInvalid (bytes_per_sector v));
  _ ← push_if ((spc =? 0) || negb (is_power_of_two spc))
        (ChunkSizeInvalid spc (bytes_per_sector v));
  let max_sectors := sat_mul (chunk_count v) spc in
  let min_sectors := sat_sub max_sectors spc in
  if is_power_of_two spc then
    push_if ((max_sectors <? sector_count v)
             || ((0 <? chunk_count v) && (sector_count v <=? min_sectors)))
      (SectorCountMismatch (sector_count v) max_sectors)
  else mret tt.

Definition check_volume_v1 (data : list byte) (desc_offset section_size : Z)
    : checked (option VolumeGeometry) :=
  let data_start := sat_add desc_offset desc_size in
  if zlen data <? sat_add data_start VOLUME_DATA_MIN then mret None
  else
    let body_len := sat_sub section_size desc_size in
    let vol_end := Z.min (sat_add data_start body_len) (zlen data) in
    vol ← lift (index_range data data_start vol_end);
    parsed ← attempt (EwfVolume_parse vol);
    match parsed with
    | None => mret None
    | Some v =>
      _ ← check_geometry v;
      _ ← (if bool_decide (EwfVolume_verify_crc v vol = Some false) then
             covered ← lift (index_range vol EwfVolume_crc_covers.1 EwfVolume_crc_covers.2);
             push (VolumeBodyCrcMismatch (adler32 covered) (default 0 (vol_stored_crc v)))
           else mret tt);
      mret (Some {| g_chunk_count := chunk_count v;
                    g_sectors_per_chunk := sectors_per_chunk v;
                    g_bytes_per_sector := bytes_per_sector v;
                    g_sector_count := sector_count v;
                    g_set_identifier := set_identifier v |})
    end.

(** ** The table *)

(** Where an entry may point: [absolute] against the file and the sectors. *)
Definition check_entry (i absolute file_size : Z) (sectors_range : option (Z * Z)) : checked unit :=
  if file_size <=? absolute then push (TableEntryOutOfBounds i absolute file_size)
  else
    match sectors_range with
    | Some (sec_start, sec_end) =>
      push_if ((absolute <? sec_start) || (sec_end <=? absolute))
        (TableEntryOutsideSectorsRange i absolute sec_start sec_end)
    | None => mret tt
    end.

(** The loop over the entries, which stops at the first one outside the data. *)
Fixpoint check_entries (fuel : nat) (i entry_count : Z) (data : list byte)
    (entries_start base_offset file_size : Z) (sectors_range : option (Z * Z)) : checked unit :=
  match fuel with
  | O => lift Panic
  | S fuel =>
    if entry_count <=? i then mret tt
    else
      let entry_off := sat_add entries_start (sat_mul i 4) in
      match slice data entry_off (sat_add entry_off 4) with
      | None => mret tt
      | Some entry_bytes =>
        parsed ← attempt (TableEntry_parse entry_bytes);
        match parsed with
        | None => mret tt
        | Some entry =>
          _ ← check_entry i (sat_add base_offset (chunk_offset entry)) file_size sectors_range;
          check_entries fuel (i + 1) entry_count data entries_start base_offset file_size
            sectors_range
        end
      end
  end.

Definition check_table_v1 (data : list byte) (desc_offset : Z)
    (volume_chunk_count : option Z) (file_size : Z) (sectors_range : option (Z * Z))
    : checked unit :=
  let data_start := sat_add desc_offset desc_size in
  if zlen data <? sat_add data_start TABLE_HEADER_SIZE then mret tt
  else
    tbl ← lift (index_range data data_start (zlen data));
    parsed ← attempt (TableHeader_parse tbl);
    match parsed with
    | None => mret tt
    | Some header =>
      _ ← (if bool_decide (TableHeader_verify_crc header tbl = Some false) then
             covered ← lift (index_range tbl TableHeader_crc_covers.1 TableHeader_crc_covers.2);
             push (TableHeaderAdler32Mismatch (adler32 covered) (tbl_stored_crc header))
           else mret tt);
      _ ← match volume_chunk_count with
          | Some vol_count =>
            push_if (negb (entry_count header =? vol_count))
              (TableChunkCountMismatch vol_count (entry_count header))
          | None => mret tt
          end;
      check_entries (S (length data)) 0 (entry_count header) data
        (sat_add data_start TABLE_HEADER_SIZE) (base_offset header) file_size sectors_range
    end.

(** ** The chunks of a segment *)

(** The closure [entry_at]: the compressed flag and the relative offset of entry
    [idx], when its four bytes are in range. *)
Definition entry_at (data : list byte) (entries_start idx : Z) : option (bool * Z) :=
  let off := sat_add entries_start (sat_mul idx 4) in
  bytes ← slice data off (sat_add off 4);
  match TableEntry_parse bytes with
  | Ok e => Some (compressed e, chunk_offset e)
  | _ => None
  end.

(** The loop from entry [i]; it stops at the first entry that is out of range or
    whose bytes are not a non-empty range of the data.  Every round but the last
    reads four more bytes of the data, whose length bounds the rounds. *)
Fixpoint segment_chunks_loop (fuel : nat) (data : list byte)
    (entries_start base_offset entry_count sectors_body_end i : Z) : list (Z * Z * bool) :=
  match fuel with
  | O => []
  | S fuel =>
    if entry_count <=? i then []
    else
      match entry_at data entries_start i with
      | None => []
      | Some (compressed, rel) =>
        let start := sat_add base_offset rel in
        let end_ :=
          if sat_add i 1 <? entry_count then
            '(_, next_rel) ← entry_at data entries_start (sat_add i 1);
            Some (sat_add base_offset next_rel)
          else Some (Z.min sectors_body_end (zlen data)) in
        match end_ with
        | None => []
        | Some end_ =>
          if (end_ <=? start) || (zlen data <? end_) then []
          else (start, end_, compressed)
               :: segment_chunks_loop fuel data entries_start base_offset entry_count
                    sectors_body_end (i + 1)
        end
      end
  end.

Definition iter_segment_chunks (data : list byte) (sections : list Section_)
    : checked (list (Z * Z * bool)) :=
  match find_section (str "table") sections, find_section (str "sectors") sections with
  | Some table, Some sectors =>
    let tbl_data_start := sat_add (sec_offset table) desc_size in
    if zlen data <? sat_add tbl_data_start TABLE_HEADER_SIZE then mret []
    else
      tbl ← lift (index_range data tbl_data_start (zlen data));
      parsed ← attempt (TableHeader_parse tbl);
      match parsed with
      | None => mret []
      | Some header =>
        mret (segment_chunks_loop (S (length data)) data
                (sat_add tbl_data_start TABLE_HEADER_SIZE) (base_offset header)
                (entry_count header) (sat_add (sec_offset sectors) (sec_size sectors)) 0)
      end
  | _, _ => mret []
  end.

(** ** Hashing *)

(** The locals of the hash loop; [hs_data] is what the three hashers were fed. *)
Record hash_state := {
  hs_remaining : Z;
  hs_data : list byte;
  hs_chunk_idx : Z;
}.

(** The separate checksum of an uncompressed chunk, when its range holds one. *)
Definition check_chunk_checksum (idx chunk_size : Z) (compressed : bool) (raw : list byte)
    : checked unit :=
  let has_checksum := negb compressed && (chunk_size <? zlen raw) in
  if has_checksum && (sat_add chunk_size 4 <=? zlen raw) then
    let stored := le_u32_at raw chunk_size in
    body ← lift (index_range raw 0 chunk_size);
    let computed := adler32 body in
    push_if (negb (computed =? stored)) (ChunkChecksumMismatch idx computed stored)
  else mret tt.

(** What a chunk contributes to the hashes; [None] when it does not inflate. *)
Definition chunk_data (compressed : bool) (raw : list byte) (to_hash : Z) : option (list byte) :=
  if compressed then
    decompressed ← zlib_read_to_end raw (Some (sat_add to_hash 1));
    Some (ztake (Z.min (zlen decompressed) to_hash) decompressed)
  else Some (ztake (Z.min (zlen raw) to_hash) raw).

(** The inner loop; the flag tells whether it broke out of the outer one. *)
Fixpoint hash_chunks (seg_data : list byte) (chunk_size total_bytes : Z)
    (chunks : list (Z * Z * bool)) (h : hash_state) : checked (hash_state * bool) :=
  match chunks with
  | [] => mret (h, false)
  | (start, end_, compressed) :: chunks =>
    if hs_remaining h =? 0 then mret (h, true)
    else
      let to_hash := Z.min (hs_remaining h) chunk_size in
      raw ← lift (index_range seg_data start end_);
      let idx := hs_chunk_idx h in
      let next_idx := sat_add idx 1 in
      _ ← check_chunk_checksum idx chunk_size compressed raw;
      let remaining := sat_sub (hs_remaining h) to_hash in
      match chunk_data compressed raw to_hash with
      | None =>
        _ ← push (ChunkDecompressionError idx);
        hash_chunks seg_data chunk_size total_bytes chunks
          {| hs_remaining := remaining; hs_data := hs_data h; hs_chunk_idx := next_idx |}
      | Some bytes =>
        _ ← emit (Progress {| chunks_done := next_idx; chunks_total := None;
                              bytes_done := sat_sub total_bytes remaining |});
        hash_chunks seg_data chunk_size total_bytes chunks
          {| hs_remaining := remaining; hs_data := hs_data h ++ bytes; hs_chunk_idx := next_idx |}
      end
  end.

(** The ['outer] loop over the segments and their sections. *)
Fixpoint hash_segments (chunk_size total_bytes : Z)
    (segs : list (list byte * list Section_)) (h : hash_state) : checked hash_state :=
  match segs with
  | [] => mret h
  | (seg_data, sections) :: segs =>
    chunks ← iter_segment_chunks seg_data sections;
    '(h, broke) ← hash_chunks seg_data chunk_size total_bytes chunks h;
    if broke : bool then mret h else hash_segments chunk_size total_bytes segs h
  end.

Definition digests_of (data : list byte) : ComputedHashes :=
  {| hash_md5 := md5 data; hash_sha1 := sha1 data; hash_sha256 := sha256 data |}.

Definition geometry_chunk_size (g : VolumeGeometry) : Z :=
  sat_mul (g_sectors_per_chunk g) (g_bytes_per_sector g).
Definition geometry_total_bytes (g : VolumeGeometry) : Z :=
  sat_mul (g_sector_count g) (g_bytes_per_sector g).

Definition hash_start (total_bytes : Z) : hash_state :=
  {| hs_remaining := total_bytes; hs_data := []; hs_chunk_idx := 0 |}.

(** The comparison with the [hash] section of the last segment. *)
Definition check_stored_md5 (last_data : list byte) (last_sections : list Section_)
    (computed : list byte) : checked unit :=
  match find_section (str "hash") last_sections with
  | Some hash_sec =>
    let body_start := sat_add (sec_offset hash_sec) desc_size in
    match slice last_data body_start (sat_add body_start 16) with
    | Some stored => push_if (negb (bool_decide (computed = stored))) (HashMismatch computed stored)
    | None => mret tt
    end
  | None => push HashSectionMissing
  end.

(** The comparison with the SHA-1 of the [digest] section, unless it is zero. *)
Definition check_stored_sha1 (last_data : list byte) (last_sections : list Section_)
    (computed : list byte) : checked unit :=
  match find_section (str "digest") last_sections with
  | Some digest_sec =>
    let body_start := sat_add (sec_offset digest_sec) desc_size in
    match slice last_data (sat_add body_start 16) (sat_add body_start 36) with
    | Some stored =>
      push_if (negb (bool_decide (stored = zeros 20)) && negb (bool_decide (computed = stored)))
        (DigestSha1Mismatch computed stored)
    | None => mret tt
    end
  | None => mret tt
  end.

(** The hashes a caller expects. *)
Record expected_hashes := {
  expected_md5 : option (list byte);
  expected_sha1 : option (list byte);
  expected_sha256 : option (list byte);
}.

Definition check_expected (mk : list byte -> list byte -> EwfIntegrityAnomaly)
    (computed : list byte) (expected : option (list byte)) : checked unit :=
  match expected with
  | Some e => push_if (negb (bool_decide (computed = e))) (mk computed e)
  | None => mret tt
  end.

Definition check_external (c : ComputedHashes) (ex : expected_hashes) : checked unit :=
  _ ← check_expected ExternalMd5Mismatch (hash_md5 c) (expected_md5 ex);
  _ ← check_expected ExternalSha1Mismatch (hash_sha1 c) (expected_sha1 ex);
  check_expected ExternalSha256Mismatch (hash_sha256 c) (expected_sha256 ex).

Definition check_hash_all_segments (segments : list (list byte))
    (all_sections : list (list Section_)) (geom : VolumeGeometry) (ex : expected_hashes)
    : checked unit :=
  let total_bytes := geometry_total_bytes geom in
  h ← hash_segments (geometry_chunk_size geom) total_bytes (zip segments all_sections)
        (hash_start total_bytes);
  let computed := digests_of (hs_data h) in
  match last all_sections, last segments with
  | Some last_sections, Some last_data =>
    _ ← check_stored_md5 last_data last_sections (hash_md5 computed);
    _ ← check_stored_sha1 last_data last_sections (hash_sha1 computed);
    check_external computed ex
  | _, _ => mret tt
  end.

(** ** The analysis of all segments *)
Record v1_state := {
  v1_geometry : option VolumeGeometry;
  v1_all_sections : list (list Section_);
  v1_total_entries : Z;
}.

(** The signature and the segment number of a segment of at least 13 bytes. *)
Definition check_segment_header (data : list byte) (idx : Z) : checked unit :=
  let expected_seg_num := wrap16 (sat_add idx 1) in
  sig ← lift (index_range data 0 8);
  _ ← push_if (negb (bool_decide (sig = EVF_SIGNATURE)) && negb (bool_decide (sig = DVF_SIGNATURE))
               && negb (bool_decide (sig = LVF_SIGNATURE))) InvalidSignature;
  let seg_num := le_u16_at data 9 in
  if seg_num =? 0 then push SegmentNumberZero
  else push_if (negb (seg_num =? expected_seg_num)) (SegmentOutOfOrder seg_num expected_seg_num).

Definition is_volume (s : Section_) : bool := named (str "volume") s || named (str "disk") s.

(** The volume of a segment; the geometry afterwards. *)
Definition check_segment_volume (data : list byte) (idx : Z) (sections : list Section_)
    (geometry : option VolumeGeometry) : checked (option VolumeGeometry) :=
  match List.find is_volume sections with
  | Some vol_sec =>
    if idx =? 0 then check_volume_v1 data (sec_offset vol_sec) (sec_size vol_sec)
    else
      later ← check_volume_v1 data (sec_offset vol_sec) (sec_size vol_sec);
      _ ← match geometry, later with
          | Some base, Some later_geom =>
            let base_guid := g_set_identifier base in
            let later_guid := g_set_identifier later_geom in
            let neither_zero := negb (bool_decide (base_guid = zeros 16))
                                && negb (bool_decide (later_guid = zeros 16)) in
            push_if (neither_zero && negb (bool_decide (base_guid = later_guid)))
              (SetIdentifierMismatch (sat_add idx 1))
          | _, _ => mret tt
          end;
      mret geometry
  | None => _ ← push_if (idx =? 0) VolumeSectionMissing; mret geometry
  end.

(** The table of a segment; the total number of entries afterwards. *)
Definition check_segment_table (data : list byte) (vol_count : option Z)
    (sections : list Section_) (total : Z) : checked Z :=
  let sectors_section := find_section (str "sectors") sections in
  let sectors_range :=
    (fun s => (sat_add (sec_offset s) desc_size, sat_add (sec_offset s) (sec_size s)))
      <$> sectors_section in
  _ ← push_if (bool_decide (sectors_section = None)) SectorsSectionMissing;
  match find_section (str "table") sections with
  | Some table =>
    let data_start := sat_add (sec_offset table) desc_size in
    let total := if sat_add data_start 4 <=? zlen data
                 then sat_add32 total (le_u32_at data data_start) else total in
    _ ← check_table_v1 data (sec_offset table) vol_count (zlen data) sectors_range;
    mret total
  | None => _ ← push TableSectionMissing; mret total
  end.

(** The body of a section, when it is in the data. *)
Definition section_body (data : list byte) (s : Section_) : option (list byte) :=
  slice data (sat_add (sec_offset s) desc_size) (sat_add (sec_offset s) (sec_size s)).

(** The first position at which two bodies differ. *)
Definition first_difference (b1 b2 : list byte) : option Z :=
  position (fun ab => negb (bool_decide (fst ab = snd ab))) (zip b1 b2).

Definition check_table2 (data : list byte) (sections : list Section_) : checked unit :=
  match find_section (str "table") sections, find_section (str "table2") sections with
  | Some t1, Some t2 =>
    match section_body data t1, section_body data t2 with
    | Some body1, Some body2 =>
      if zlen body1 =? zlen body2 then
        match first_difference body1 body2 with
        | Some off => push (Table2Mismatch off)
        | None => mret tt
        end
      else push (Table2Mismatch 0)
    | _, _ => mret tt
    end
  | _, _ => mret tt
  end.

Definition check_error2 (data : list byte) (sections : list Section_) : checked unit :=
  match find_section (str "error2") sections with
  | Some e2 =>
    let body_start := sat_add (sec_offset e2) desc_size in
    if sat_add body_start 4 <=? zlen data then
      let count := le_u32_at data body_start in
      push_if (0 <? count) (BadSectorsPresent count)
    else mret tt
  | None => mret tt
  end.

(** One round of the segment loop over [n] segments. *)
Definition analyse_segment_v1 (n idx : Z) (data : list byte) (st : v1_state) : checked v1_state :=
  let multi := 1 <? n in
  let is_last := idx =? sat_sub n 1 in
  if zlen data <? FILE_HEADER_SIZE then
    _ ← push (SectionChainBroken 0 0);
    mret {| v1_geometry := v1_geometry st; v1_all_sections := v1_all_sections st ++ [[]];
            v1_total_entries := v1_total_entries st |}
  else
    _ ← check_segment_header data idx;
    sections ← walk_sections_v1 data;
    geometry ← check_segment_volume data idx sections (v1_geometry st);
    let vol_count := if negb multi && (idx =? 0) then g_chunk_count <$> geometry else None in
    total ← check_segment_table data vol_count sections (v1_total_entries st);
    _ ← check_table2 data sections;
    _ ← check_error2 data sections;
    _ ← push_if (is_last && negb (existsb (named (str "done")) sections)) DoneSectionMissing;
    mret {| v1_geometry := geometry; v1_all_sections := v1_all_sections st ++ [sections];
            v1_total_entries := total |}.

Fixpoint analyse_segments_v1 (n : Z) (segs : list (Z * list byte)) (st : v1_state)
    : checked v1_state :=
  match segs with
  | [] => mret st
  | (idx, data) :: segs => st ← analyse_segment_v1 n idx data st; analyse_segments_v1 n segs st
  end.

Definition v1_start : v1_state :=
  {| v1_geometry := None; v1_all_sections := []; v1_total_entries := 0 |}.

(** What follows the segment loop. *)
Definition finish_v1 (segments : list (list byte)) (ex : expected_hashes) (st : v1_state)
    : checked unit :=
  _ ← match v1_geometry st with
      | Some geom =>
        push_if ((1 <? zlen segments) && negb (v1_total_entries st =? g_chunk_count geom))
          (TableChunkCountMismatch (g_chunk_count geom) (v1_total_entries st))
      | None => mret tt
      end;
  match v1_geometry st with
  | Some geom => check_hash_all_segments segments (v1_all_sections st) geom ex
  | None => mret tt
  end.

Definition analyse_all_ewf1 (segments : list (list byte)) (ex : expected_hashes) : checked unit :=
  st ← analyse_segments_v1 (zlen segments) (enumerate segments) v1_start;
  finish_v1 segments ex st.

(** ** The copy that reports progress

    [analyse_all_ewf1_with_progress] repeats the analysis instead of sharing it. *)
Definition analyse_segment_v1_with_progress (n idx : Z) (data : list byte) (st : v1_state)
    : checked v1_state :=
  let expected_seg_num := wrap16 (sat_add idx 1) in
  if zlen data <? FILE_HEADER_SIZE then
    _ ← push (SectionChainBroken 0 0);
    mret {| v1_geometry := v1_geometry st; v1_all_sections := v1_all_sections st ++ [[]];
            v1_total_entries := v1_total_entries st |}
  else
    sig ← lift (index_range data 0 8);
    _ ← (if negb (bool_decide (sig = EVF_SIGNATURE)) && negb (bool_decide (sig = DVF_SIGNATURE))
            && negb (bool_decide (sig = LVF_SIGNATURE))
         then push InvalidSignature else mret tt);
    _ ← (if le_u16_at data 9 =? 0 then push SegmentNumberZero
         else if negb (le_u16_at data 9 =? expected_seg_num)
         then push (SegmentOutOfOrder (le_u16_at data 9) expected_seg_num) else mret tt);
    sections ← walk_sections_v1 data;
    geometry ←
      match List.find is_volume sections with
      | Some vol_sec =>
        if idx =? 0 then check_volume_v1 data (sec_offset vol_sec) (sec_size vol_sec)
        else
          later ← check_volume_v1 data (sec_offset vol_sec) (sec_size vol_sec);
          _ ← match v1_geometry st, later with
              | Some base, Some later_geom =>
                if negb (bool_decide (g_set_identifier base = zeros 16))
                   && negb (bool_decide (g_set_identifier later_geom = zeros 16))
                   && negb (bool_decide (g_set_identifier base = g_set_identifier later_geom))
                then push (SetIdentifierMismatch (sat_add idx 1)) else mret tt
              | _, _ => mret tt
              end;
          mret (v1_geometry st)
      | None =>
        _ ← (if idx =? 0 then push VolumeSectionMissing else mret tt);
        mret (v1_geometry st)
      end;
    let vol_count := if negb (1 <? n) && (idx =? 0) then g_chunk_count <$> geometry else None in
    let sectors_section := find_section (str "sectors") sections in
    let sectors_range :=
      (fun s => (sat_add (sec_offset s) desc_size, sat_add (sec_offset s) (sec_size s)))
        <$> sectors_section in
    _ ← (if bool_decide (sectors_section = None) then push SectorsSectionMissing else mret tt);
    total ←
      match find_section (str "table") sections with
      | Some table =>
        let data_start := sat_add (sec_offset table) desc_size in
        _ ← check_table_v1 data (sec_offset table) vol_count (zlen data) sectors_range;
        mret (if sat_add data_start 4 <=? zlen data
              then sat_add32 (v1_total_entries st) (le_u32_at data data_start)
              else v1_total_entries st)
      | None => _ ← push TableSectionMissing; mret (v1_total_entries st)
      end;
    _ ← check_table2 data sections;
    _ ← check_error2 data sections;
    _ ← (if (idx =? sat_sub n 1) && negb (existsb (named (str "done")) sections)
         then push DoneSectionMissing else mret tt);
    mret {| v1_geometry := geometry; v1_all_sections := v1_all_sections st ++ [sections];
            v1_total_entries := total |}.

Fixpoint analyse_segments_v1_with_progress (n : Z) (segs : list (Z * list byte)) (st : v1_state)
    : checked v1_state :=
  match segs with
  | [] => mret st
  | (idx, data) :: segs =>
    st ← analyse_segment_v1_with_progress n idx data st;
    analyse_segments_v1_with_progress n segs st
  end.

Definition analyse_all_ewf1_with_progress (segments : list (list byte)) (ex : expected_hashes)
    : checked unit :=
  st ← analyse_segments_v1_with_progress (zlen segments) (enumerate segments) v1_start;
  _ ← (if 1 <? zlen segments then
         match v1_geometry st with
         | Some geom =>
           if negb (v1_total_entries st =? g_chunk_count geom)
           then push (TableChunkCountMismatch (g_chunk_count geom) (v1_total_entries st))
           else mret tt
         | None => mret tt
         end
       else mret tt);
  match v1_geometry st with
  | Some geom => check_hash_all_segments segments (v1_all_sections st) geom ex
  | None => mret tt
  end.

(** ** Hashes without an analysis *)
Fixpoint compute_chunks (seg_data : list byte) (chunk_size : Z)
    (chunks : list (Z * Z * bool)) (remaining : Z) (data : list byte)
    : checked (Z * list byte * bool) :=
  match chunks with
  | [] => mret (remaining, data, false)
  | (start, end_, compressed) :: chunks =>
    if remaining =? 0 then mret (remaining, data, true)
    else
      let to_hash := Z.min remaining chunk_size in
      raw ← lift (index_range seg_data start end_);
      match chunk_data compressed raw to_hash with
      | None => compute_chunks seg_data chunk_size chunks (sat_sub remaining to_hash) data
      | Some bytes =>
        compute_chunks seg_data chunk_size chunks (sat_sub remaining to_hash) (data ++ bytes)
      end
  end.

Fixpoint compute_segments (chunk_size : Z) (segs : list (list byte * list Section_))
    (remaining : Z) (data : list byte) : checked (list byte) :=
  match segs with
  | [] => mret data
  | (seg_data, sections) :: segs =>
    chunks ← iter_segment_chunks seg_data sections;
    '(remaining, data, broke) ← compute_chunks seg_data chunk_size chunks remaining data;
    if broke : bool then mret data else compute_segments chunk_size segs remaining data
  end.

(** [compute_hashes_ewf1]; the anomalies of its walks go to vectors it drops. *)
Definition compute_hashes_ewf1 (segments : list (list byte)) : checked (option ComputedHashes) :=
  match segments with
  | [] => mret None
  | first :: _ =>
    if zlen first <? FILE_HEADER_SIZE then mret None
    else
      sig ← lift (index_range first 0 8);
      if negb (bool_decide (sig = EVF_SIGNATURE)) && negb (bool_decide (sig = DVF_SIGNATURE))
         && negb (bool_decide (sig = LVF_SIGNATURE))
      then mret None
      else
        sections_first ← walk_sections_v1 first;
        match List.find is_volume sections_first with
        | None => mret None
        | Some vol_sec =>
          geom ← check_volume_v1 first (sec_offset vol_sec) (sec_size vol_sec);
          match geom with
          | None => mret None
          | Some geom =>
            all_sections ← mapM walk_sections_v1 segments;
            data ← compute_segments (geometry_chunk_size geom) (zip segments all_sections)
                     (geometry_total_bytes geom) [];
            mret (Some (digests_of data))
          end
        end
  end.
End V1.
