(* ===== verification/IntegrityV1Props.v ===== *)
(** The EWF v1 analyser never panics, its section walk is a strictly increasing
    chain inside the segment, its progress copy does what it does, and its hashes
    are those of [compute_hashes]. *)

From Stdlib Require Import Sorted.
From S2P Require Import Prelude Text Extern Types Sections Anomaly IntegrityV1.

(** * What a computation reports

    No computation of the analyser looks at the log: it appends a fixed list of
    events.  [reports Q c]: it returns a value that satisfies [Q], without a panic,
    and appends only [internal] events: none is a verdict on a hash of the media. *)
Definition internal (e : event) : Prop :=
  match e with
  | Issue (HashMismatch _ _) | Issue (DigestSha1Mismatch _ _)
  | Issue (DigestSha256Mismatch _ _) | Issue (ExternalMd5Mismatch _ _)
  | Issue (ExternalSha1Mismatch _ _) | Issue (ExternalSha256Mismatch _ _) => False
  | _ => True
  end.

Definition reports {A} (Q : A -> Prop) (c : checked A) : Prop :=
  exists a es, Q a /\ Forall internal es /\ forall log, c log = (Ok a, log ++ es).

Lemma reports_bind {A B} (P : A -> Prop) (Q : B -> Prop) (c : checked A) f :
  reports P c -> (forall a, P a -> reports Q (f a)) -> reports Q (c ≫= f).
Proof.
  intros (a & es & Ha & Hes & Hc) Hf. destruct (Hf a Ha) as (b & es' & Hb & Hes' & Hfa).
  exists b, (es ++ es'). split; [done|]. split; [by apply Forall_app|]. intros log.
  by rewrite stateful_bind_run, Hc, Hfa, app_assoc.
Qed.

Lemma reports_ret {A} (Q : A -> Prop) (a : A) : Q a -> reports Q (mret a).
Proof. intros Ha. exists a, []. split; [done|]. split; [done|]. intros log. by rewrite app_nil_r. Qed.

Lemma reports_lift {A} (Q : A -> Prop) (m : outcome Empty_set A) : returns Q m -> reports Q (lift m).
Proof.
  destruct m as [a|[]|]; [|done]. intros Ha. exists a, [].
  split; [done|]. split; [done|]. intros log. by rewrite app_nil_r.
Qed.

Lemma reports_weaken {A} (P Q : A -> Prop) (c : checked A) :
  reports P c -> (forall a, P a -> Q a) -> reports Q c.
Proof. intros (a & es & Ha & Hes & Hc) HPQ. exists a, es. auto. Qed.

Lemma reports_index_range {A} (l : list A) a b :
  0 <= a <= b -> b <= zlen l ->
  reports (fun r => slice l a b = Some r) (lift (index_range l a b)).
Proof.
  intros Ha Hb. apply reports_lift. unfold index_range.
  destruct (slice l a b) eqn:Es; [done|]. apply slice_none in Es. lia.
Qed.

Lemma reports_emit e : internal e -> reports (fun _ => True) (emit e).
Proof. intros He. exists tt, [e]. split; [done|]. split; [by constructor|]. done. Qed.

Lemma reports_push a : internal (Issue a) -> reports (fun _ => True) (push a).
Proof. apply reports_emit. Qed.

Lemma reports_push_if b a : internal (Issue a) -> reports (fun _ => True) (push_if b a).
Proof. intros Ha. destruct b; [by apply reports_push|by apply reports_ret]. Qed.

Lemma reports_attempt {E A} (Q : A -> Prop) (m : outcome E A) :
  returns Q m -> reports (fun o => match o with Some a => Q a | None => True end) (attempt m).
Proof. destruct m; [intros HQ; by apply reports_ret|intros _; by apply reports_ret|done]. Qed.

#[export] Hint Resolve reports_emit reports_push reports_push_if : ewf.
#[export] Hint Extern 1 (internal _) => exact I : ewf.

(** A step whose result is ignored. *)
Lemma reports_then {A B} (Q : B -> Prop) (c : checked A) (d : checked B) :
  reports (fun _ => True) c -> reports Q d -> reports Q (_ ← c; d).
Proof. intros Hc Hd. eapply reports_bind; [exact Hc|]. by intros _ _. Qed.

Section Safe.
Context `{SafeReadLaws} `{Adler} `{Zlib} `{Digests}.

Lemma reports_check_gap data a b : reports (fun _ => True) (check_gap data a b).
Proof. unfold check_gap. destruct (match slice data a b with Some _ => _ | None => _ end); auto with ewf. Qed.

(** A section of the walk: it starts at or after [lo], its descriptor is in the
    data and its size is a 64-bit value. *)
Definition section_in (data : list byte) (s : Section_) : Prop :=
  FILE_HEADER_SIZE <= sec_offset s /\ sec_offset s + SECTION_DESCRIPTOR_SIZE <= zlen data /\
  0 <= sec_size s <= u64_max.

(** Offsets strictly increase. *)
Definition ascending (ss : list Section_) : Prop :=
  StronglySorted Z.lt (map sec_offset ss).

Lemma ascending_snoc ss s :
  ascending ss -> Forall (fun s' => sec_offset s' < sec_offset s) ss -> ascending (ss ++ [s]).
Proof.
  unfold ascending. induction ss as [|s' ss IH]; intros Ha Hf; cbn; [by repeat constructor|].
  inversion_clear Ha as [|? ? Ha' Hall]. apply Forall_cons in Hf as [Hs Hf].
  constructor; [by apply IH|]. rewrite map_app. apply Forall_app. split; [done|]. by repeat constructor.
Qed.

Definition walk_result (data : list byte) (ss : list Section_) : Prop :=
  Forall (section_in data) ss /\ ascending ss.

Lemma walk_loop_reports fuel data pos ss :
  zlen data <= i64_max -> FILE_HEADER_SIZE <= pos -> zlen data - pos < Z.of_nat fuel ->
  (0 < fuel)%nat -> walk_result data ss -> Forall (fun s => sec_offset s < pos) ss ->
  reports (walk_result data) (walk_loop fuel data pos ss).
Proof.
  intros Hd. revert pos ss. induction fuel as [|fuel IH]; intros pos ss Hp Hfuel Hpos [Hin Hasc] Hlt; [lia|].
  cbn [walk_loop]. unfold desc_size, SECTION_DESCRIPTOR_SIZE, FILE_HEADER_SIZE, sat_add in *.
  destruct (_ <? _) eqn:E; bool_hyps; [by apply reports_ret|].
  eapply reports_bind; [apply reports_index_range; lia|]. cbn beta. intros raw Hraw.
  apply slice_zlen in Hraw as Hrl.
  eapply reports_bind; [apply reports_attempt, descriptor_parse_returns|]. cbn beta.
  intros [desc|]; [|intros _; by apply reports_ret]. intros (Ho & Hn & Hs).
  apply reports_then.
  { destruct (SectionDescriptor_verify_crc desc raw); [by apply reports_ret|].
    eapply reports_bind; [apply reports_index_range; cbn; unfold SECTION_DESCRIPTOR_CRC_OFFSET; lia|].
    auto with ewf. }
  apply reports_then; [auto with ewf|].
  set (s := {| type_name := _; sec_offset := _; sec_size := _ |}).
  assert (Hw : walk_result data (ss ++ [s])).
  { split; [|by apply ascending_snoc]. apply Forall_app. split; [done|]. constructor; [|done].
    unfold section_in, SECTION_DESCRIPTOR_SIZE, FILE_HEADER_SIZE. cbn. lia. }
  destruct (_ || _) eqn:Edone; [by apply reports_ret|].
  destruct ((_ =? 0) || _ || _) eqn:Estop.
  { apply reports_then; [auto with ewf|by apply reports_ret]. }
  bool_hyps. apply reports_then.
  { destruct (_ <? next desc); [apply reports_check_gap|by apply reports_ret]. }
  apply IH; [lia|lia|lia|done|]. apply Forall_app. split.
  - eapply Forall_impl; [exact Hlt|]. cbn. lia.
  - constructor; [cbn; lia|done].
Qed.

Lemma walk_sections_reports data :
  zlen data <= i64_max -> reports (walk_result data) (walk_sections_v1 data).
Proof.
  intros Hd. apply walk_loop_reports; [done|done|unfold FILE_HEADER_SIZE, zlen; lia|lia| |constructor].
  split; constructor.
Qed.

(** ** The handlers *)

Lemma reports_ret_any {A} (a : A) : reports (fun _ => True) (mret a).
Proof. by apply reports_ret. Qed.
#[local] Hint Resolve reports_ret_any reports_check_gap : ewf.

(** Close a goal that is a chain of pushes and returns under tests. *)
Ltac logs :=
  repeat first
    [ apply reports_then
    | match goal with
      | |- reports _ (if ?b then _ else _) => destruct b eqn:?
      | |- reports _ (match ?o with Some _ => _ | None => _ end) => destruct o eqn:?
      | |- reports _ (let '(_, _) := ?p in _) => destruct p
      end
    | solve [auto with ewf] ].

Definition geometry_wf (g : VolumeGeometry) : Prop :=
  0 <= g_chunk_count g <= u32_max /\ 0 <= g_sectors_per_chunk g <= u32_max /\
  0 <= g_bytes_per_sector g <= u32_max /\ 0 <= g_sector_count g <= u64_max.

Definition opt_wf {A} (P : A -> Prop) (o : option A) : Prop :=
  match o with Some a => P a | None => True end.

Lemma reports_check_geometry v : reports (fun _ => True) (check_geometry v).
Proof. unfold check_geometry. logs. Qed.

Lemma reports_check_volume data s :
  section_in data s -> zlen data <= i64_max ->
  reports (opt_wf geometry_wf) (check_volume_v1 data (sec_offset s) (sec_size s)).
Proof.
  unfold section_in, SECTION_DESCRIPTOR_SIZE, FILE_HEADER_SIZE. intros (Ho & He & Hs) Hd.
  unfold check_volume_v1, desc_size, SECTION_DESCRIPTOR_SIZE, VOLUME_DATA_MIN, sat_add, sat_sub.
  destruct (_ <? _) eqn:E; bool_hyps; [by apply reports_ret|].
  eapply reports_bind; [apply reports_index_range; lia|]. cbn beta. intros vol _.
  eapply reports_bind; [apply reports_attempt, volume_parse_returns|]. cbn beta.
  intros [v|]; [|intros _; by apply reports_ret]. intros (Hcc & Hspc & Hbps & Hsc & Hcrc).
  apply reports_then; [apply reports_check_geometry|]. apply reports_then.
  - case_bool_decide as Hv; [|by apply reports_ret]. eapply reports_bind; [|auto with ewf].
    apply reports_index_range; cbn; unfold VOLUME_BODY_CRC_OFFSET; [lia|]. specialize (Hcrc Hv). lia.
  - apply reports_ret. done.
Qed.

Lemma reports_check_entries fuel i count data start base fs range_ :
  0 <= i -> 0 <= start -> zlen data <= i64_max -> zlen data - i < Z.of_nat fuel -> (0 < fuel)%nat ->
  reports (fun _ => True) (check_entries fuel i count data start base fs range_).
Proof.
  intros Hi Hst Hd. revert i Hi. induction fuel as [|fuel IH]; intros i Hi Hfuel Hpos; [lia|].
  cbn [check_entries]. destruct (count <=? i); [auto with ewf|].
  destruct (slice data _ _) as [bytes|] eqn:Es; [|auto with ewf].
  apply slice_bounds in Es. unfold sat_add, sat_mul in Es.
  eapply reports_bind; [apply reports_attempt, table_entry_parse_returns|]. cbn beta.
  intros [e|] _; [|auto with ewf]. apply reports_then; [unfold check_entry; logs|].
  apply IH; lia.
Qed.

Lemma reports_check_table data s vc fs range_ :
  section_in data s -> zlen data <= i64_max ->
  reports (fun _ => True) (check_table_v1 data (sec_offset s) vc fs range_).
Proof.
  unfold section_in, SECTION_DESCRIPTOR_SIZE, FILE_HEADER_SIZE. intros (Ho & He & Hs) Hd.
  unfold check_table_v1, desc_size, SECTION_DESCRIPTOR_SIZE, TABLE_HEADER_SIZE.
  destruct (_ <? _) eqn:E; bool_hyps; [auto with ewf|]. unfold sat_add in E.
  eapply reports_bind; [apply reports_index_range; unfold sat_add; lia|]. cbn beta. intros tbl Htbl.
  eapply reports_bind; [apply reports_attempt, table_header_parse_returns|]. cbn beta.
  intros [h|]; [|auto with ewf]. intros (Htl & Hec & Hb).
  apply reports_then.
  { case_bool_decide; [|auto with ewf]. eapply reports_bind; [|auto with ewf].
    apply reports_index_range; cbn; unfold TABLE_HEADER_CRC_OFFSET; lia. }
  apply reports_then; [logs|].
  apply reports_check_entries; [lia|unfold sat_add; lia|done|unfold zlen; lia|lia].
Qed.

(** A chunk range the hash loop can index. *)
Definition chunk_in (data : list byte) (c : Z * Z * bool) : Prop :=
  0 <= c.1.1 < c.1.2 /\ c.1.2 <= zlen data.

Lemma entry_at_range data start idx c rel : entry_at data start idx = Some (c, rel) -> 0 <= rel.
Proof.
  unfold entry_at. destruct (slice data _ _) as [bytes|]; cbn; [|done].
  pose proof (table_entry_parse_returns bytes) as Hr.
  destruct (TableEntry_parse bytes); [|done|done]. intros [= <- <-]. cbn in Hr. lia.
Qed.

Lemma segment_chunks_in fuel data start base count send i :
  0 <= base -> Forall (chunk_in data) (segment_chunks_loop fuel data start base count send i).
Proof.
  intros Hb. revert i. induction fuel as [|fuel IH]; intros i; [constructor|]. cbn [segment_chunks_loop].
  destruct (count <=? i); [constructor|]. destruct (entry_at data start i) as [[c rel]|] eqn:Ee; [|constructor].
  apply entry_at_range in Ee. destruct (if _ <? count then _ else _) as [e|]; [|constructor].
  destruct (_ || _) eqn:E; [constructor|]. bool_hyps. constructor; [|apply IH].
  unfold chunk_in, sat_add in *. cbn. lia.
Qed.

Lemma reports_iter_chunks data ss :
  Forall (section_in data) ss -> zlen data <= i64_max ->
  reports (Forall (chunk_in data)) (iter_segment_chunks data ss).
Proof.
  intros Hss Hd. unfold iter_segment_chunks, find_section.
  destruct (List.find _ ss) as [table|] eqn:Et; [|by apply reports_ret].
  destruct (List.find (named (str "sectors")) ss) as [sectors|]; [|by apply reports_ret].
  apply find_some in Et as [Hin _]. rewrite List.Forall_forall in Hss. specialize (Hss _ Hin).
  revert Hss. unfold section_in, desc_size, SECTION_DESCRIPTOR_SIZE, FILE_HEADER_SIZE, TABLE_HEADER_SIZE.
  intros (Ho & He & Hs). destruct (_ <? _) eqn:E; bool_hyps; [by apply reports_ret|]. unfold sat_add in E.
  eapply reports_bind; [apply reports_index_range; unfold sat_add; lia|]. cbn beta. intros tbl _.
  eapply reports_bind; [apply reports_attempt, table_header_parse_returns|]. cbn beta.
  intros [h|]; [|intros _; by apply reports_ret]. intros (_ & _ & Hb). apply reports_ret.
  apply segment_chunks_in. lia.
Qed.

(** ** The hash loop *)

(** The value a computation returns. *)
Definition value {A} (c : checked A) : option A :=
  match fst (c []) with Ok a => Some a | _ => None end.

Lemma reports_value {A} (Q : A -> Prop) (c : checked A) :
  reports Q c -> reports (fun a => Q a /\ value c = Some a) c.
Proof.
  intros (a & es & Ha & Hes & Hc). exists a, es. split; [|done]. split; [done|].
  unfold value. by rewrite Hc.
Qed.

Lemma value_reports {A} (Q : A -> Prop) (c : checked A) a :
  reports Q c -> value c = Some a -> Q a.
Proof. intros (b & es & Hb & _ & Hc). unfold value. rewrite Hc. cbn. by intros [= <-]. Qed.

(** Reference definition: what the chunks of a segment feed to the hashers. *)
Fixpoint hash_spec (seg_data : list byte) (chunk_size : Z) (chunks : list (Z * Z * bool))
    (remaining : Z) (data : list byte) : Z * list byte * bool :=
  match chunks with
  | [] => (remaining, data, false)
  | (start, end_, compressed) :: chunks =>
    if remaining =? 0 then (remaining, data, true)
    else
      let to_hash := Z.min remaining chunk_size in
      let raw := default [] (slice seg_data start end_) in
      hash_spec seg_data chunk_size chunks (sat_sub remaining to_hash)
        (data ++ default [] (chunk_data compressed raw to_hash))
  end.

Lemma reports_chunk_checksum idx cs compressed raw :
  0 <= cs -> zlen raw <= i64_max ->
  reports (fun _ => True) (check_chunk_checksum idx cs compressed raw).
Proof.
  intros Hcs Hr. unfold check_chunk_checksum. destruct (_ && _) eqn:E; [|auto with ewf]. bool_hyps.
  unfold sat_add in *. eapply reports_bind; [apply reports_index_range; lia|]. auto with ewf.
Qed.

Lemma slice_some_of {A} (l : list A) a b : 0 <= a <= b -> b <= zlen l -> exists s, slice l a b = Some s.
Proof. intros Ha Hb. destruct (slice l a b) eqn:E; [eauto|]. apply slice_none in E. lia. Qed.

Lemma reports_hash_chunks seg_data cs total chunks h :
  0 <= cs -> zlen seg_data <= i64_max -> Forall (chunk_in seg_data) chunks ->
  reports (fun r => (hs_remaining r.1, hs_data r.1, r.2) =
                    hash_spec seg_data cs chunks (hs_remaining h) (hs_data h))
    (hash_chunks seg_data cs total chunks h).
Proof.
  intros Hcs Hd Hch. revert h. induction Hch as [|[[st en] comp] chunks [Hse Hen] _ IH]; intros h.
  { by apply reports_ret. }
  cbn [hash_chunks hash_spec fst snd] in *. destruct (_ =? 0); [by apply reports_ret|].
  destruct (slice_some_of seg_data st en) as [raw Hraw]; [lia|lia|]. rewrite Hraw.
  change (default [] (Some raw)) with raw.
  eapply reports_bind; [apply reports_index_range; lia|]. cbn beta. rewrite Hraw. intros ? [= <-].
  apply reports_then.
  { apply reports_chunk_checksum; [done|]. apply slice_zlen in Hraw. lia. }
  destruct (chunk_data comp raw _) as [bytes|].
  - apply reports_then; [auto with ewf|]. eapply reports_weaken; [apply IH|done].
  - apply reports_then; [auto with ewf|]. cbn [from_option]. rewrite app_nil_r.
    eapply reports_weaken; [apply IH|done].
Qed.

Lemma reports_compute_chunks seg_data cs chunks remaining data :
  Forall (chunk_in seg_data) chunks ->
  reports (fun r => r = hash_spec seg_data cs chunks remaining data)
    (compute_chunks seg_data cs chunks remaining data).
Proof.
  intros Hch. revert remaining data.
  induction Hch as [|[[st en] comp] chunks [Hse Hen] _ IH]; intros remaining data.
  { by apply reports_ret. }
  cbn [compute_chunks hash_spec fst snd] in *. destruct (_ =? 0); [by apply reports_ret|].
  destruct (slice_some_of seg_data st en) as [raw Hraw]; [lia|lia|]. rewrite Hraw.
  change (default [] (Some raw)) with raw.
  eapply reports_bind; [apply reports_index_range; lia|]. cbn beta. rewrite Hraw. intros ? [= <-].
  destruct (chunk_data comp raw _) as [bytes|]; [apply IH|].
  cbn [from_option]. rewrite app_nil_r. apply IH.
Qed.

(** The chunks of a walked segment. *)
Definition chunks_of (data : list byte) (ss : list Section_) : list (Z * Z * bool) :=
  default [] (value (iter_segment_chunks data ss)).

Fixpoint hash_spec_segments (chunk_size : Z) (segs : list (list byte * list Section_))
    (remaining : Z) (data : list byte) : list byte :=
  match segs with
  | [] => data
  | (seg_data, ss) :: segs =>
    let '(remaining, data, broke) :=
      hash_spec seg_data chunk_size (chunks_of seg_data ss) remaining data in
    if broke then data else hash_spec_segments chunk_size segs remaining data
  end.

(** A segment of bounded length with its walk. *)
Definition walked (p : list byte * list Section_) : Prop :=
  zlen p.1 <= i64_max /\ Forall (section_in p.1) p.2.

Lemma reports_chunks_of data ss :
  walked (data, ss) ->
  reports (fun c => c = chunks_of data ss /\ Forall (chunk_in data) c) (iter_segment_chunks data ss).
Proof.
  intros [Hd Hss]. pose proof (reports_iter_chunks data ss Hss Hd) as Hr.
  eapply reports_weaken; [by apply reports_value|]. cbn. intros c [Hc Hv].
  unfold chunks_of. by rewrite Hv.
Qed.

Lemma reports_hash_segments cs total segs h :
  0 <= cs -> Forall walked segs ->
  reports (fun r => hs_data r = hash_spec_segments cs segs (hs_remaining h) (hs_data h))
    (hash_segments cs total segs h).
Proof.
  intros Hcs Hw. revert h. induction Hw as [|[d ss] segs Hd _ IH]; intros h; [by apply reports_ret|].
  cbn [hash_segments hash_spec_segments]. eapply reports_bind; [by apply reports_chunks_of|].
  cbn beta. intros c [-> Hc]. destruct Hd as [Hd Hss].
  eapply reports_bind; [by apply reports_hash_chunks|]. cbn beta. intros [h' broke] <-. cbn [fst snd].
  destruct broke; [by apply reports_ret|apply IH].
Qed.

Lemma reports_compute_segments cs segs remaining data :
  Forall walked segs ->
  reports (fun r => r = hash_spec_segments cs segs remaining data)
    (compute_segments cs segs remaining data).
Proof.
  intros Hw. revert remaining data.
  induction Hw as [|[d ss] segs Hd _ IH]; intros remaining data; [by apply reports_ret|].
  cbn [compute_segments hash_spec_segments]. eapply reports_bind; [by apply reports_chunks_of|].
  cbn beta. intros c [-> Hc].
  eapply reports_bind; [by apply reports_compute_chunks|]. cbn beta. intros r ->.
  destruct (hash_spec d cs (chunks_of d ss) remaining data) as [[r' d'] broke].
  destruct broke; [by apply reports_ret|apply IH].
Qed.

(** ** The segment loop *)

Definition sections_of (data : list byte) : list Section_ :=
  default [] (value (walk_sections_v1 data)).

Lemma reports_sections_of data :
  zlen data <= i64_max ->
  reports (fun ss => ss = sections_of data /\ walk_result data ss) (walk_sections_v1 data).
Proof.
  intros Hd. eapply reports_weaken; [apply reports_value; by apply walk_sections_reports|].
  cbn beta. intros ss [Hw Hv]. unfold sections_of. by rewrite Hv.
Qed.

(** A segment too short for a file header has no section. *)
Lemma sections_of_short data : zlen data < FILE_HEADER_SIZE -> sections_of data = [].
Proof.
  intros Hd. assert ((zlen data <? sat_add FILE_HEADER_SIZE desc_size) = true) as Hlt.
  { unfold desc_size, SECTION_DESCRIPTOR_SIZE, FILE_HEADER_SIZE, sat_add in *. lia. }
  unfold sections_of, value, walk_sections_v1. cbn [walk_loop]. by rewrite Hlt.
Qed.

(** The geometry of the image: what the volume of the first segment gives. *)
Definition first_geometry (data : list byte) : option VolumeGeometry :=
  match List.find is_volume (sections_of data) with
  | Some v => default None (value (check_volume_v1 data (sec_offset v) (sec_size v)))
  | None => None
  end.

Definition next_geometry (idx : Z) (data : list byte) (g : option VolumeGeometry) :=
  if idx =? 0 then (if zlen data <? FILE_HEADER_SIZE then g else
                      match List.find is_volume (sections_of data) with
                      | Some _ => first_geometry data
                      | None => g
                      end)
  else g.

Lemma reports_volume_value data s :
  section_in data s -> zlen data <= i64_max ->
  reports (fun g => g = default None (value (check_volume_v1 data (sec_offset s) (sec_size s))) /\
                    opt_wf geometry_wf g) (check_volume_v1 data (sec_offset s) (sec_size s)).
Proof.
  intros Hs Hd. eapply reports_weaken; [apply reports_value; by apply reports_check_volume|].
  cbn beta. intros g [Hw Hv]. by rewrite Hv.
Qed.

Lemma find_section_in data ss p s :
  Forall (section_in data) ss -> List.find p ss = Some s -> section_in data s.
Proof. intros Hss [Hin _]%find_some. rewrite List.Forall_forall in Hss. by apply Hss. Qed.

Lemma reports_segment_header data idx :
  FILE_HEADER_SIZE <= zlen data -> reports (fun _ => True) (check_segment_header data idx).
Proof.
  unfold FILE_HEADER_SIZE. intros Hd. unfold check_segment_header.
  eapply reports_bind; [apply reports_index_range; lia|]. cbn beta. intros sig _. logs.
Qed.

Lemma reports_segment_volume data idx ss g :
  ss = sections_of data -> walk_result data ss -> zlen data <= i64_max ->
  FILE_HEADER_SIZE <= zlen data -> opt_wf geometry_wf g ->
  reports (fun g' => g' = next_geometry idx data g /\ opt_wf geometry_wf g')
    (check_segment_volume data idx ss g).
Proof.
  intros Hss [Hin _] Hd Hl Hg. unfold check_segment_volume, next_geometry.
  rewrite (proj2 (Z.ltb_ge _ _)) by lia. rewrite <-Hss.
  destruct (List.find is_volume ss) as [v|] eqn:Ev.
  - pose proof (reports_volume_value data v (find_section_in _ _ _ _ Hin Ev) Hd) as Hv.
    destruct (idx =? 0).
    + eapply reports_weaken; [exact Hv|]. cbn. intros g' [-> Hw].
      unfold first_geometry in *. rewrite <-Hss, Ev. done.
    + eapply reports_bind; [exact Hv|]. cbn beta. intros later _.
      apply reports_then; [|by apply reports_ret]. logs.
  - apply reports_then; [auto with ewf|]. apply reports_ret. by destruct (idx =? 0).
Qed.

Lemma reports_segment_table data vc ss total :
  walk_result data ss -> zlen data <= i64_max ->
  reports (fun _ => True) (check_segment_table data vc ss total).
Proof.
  intros [Hin _] Hd. unfold check_segment_table, find_section. apply reports_then; [auto with ewf|].
  destruct (List.find (named (str "table")) ss) as [t|] eqn:Et; [|logs].
  apply reports_then; [|auto with ewf]. apply reports_check_table; [|done]. by eapply find_section_in.
Qed.

Lemma reports_analyse_segment n idx data st :
  zlen data <= i64_max -> opt_wf geometry_wf (v1_geometry st) ->
  reports (fun st' => v1_geometry st' = next_geometry idx data (v1_geometry st) /\
                      v1_all_sections st' = v1_all_sections st ++ [sections_of data] /\
                      opt_wf geometry_wf (v1_geometry st'))
    (analyse_segment_v1 n idx data st).
Proof.
  intros Hd Hg. unfold analyse_segment_v1. destruct (zlen data <? FILE_HEADER_SIZE) eqn:E; bool_hyps.
  - apply reports_then; [auto with ewf|]. apply reports_ret. cbn.
    rewrite sections_of_short by done. unfold next_geometry.
    rewrite (proj2 (Z.ltb_lt _ _)) by lia. by destruct (idx =? 0).
  - apply reports_then; [by apply reports_segment_header|].
    eapply reports_bind; [by apply reports_sections_of|]. cbn beta. intros ss [Hss Hw].
    eapply reports_bind; [by apply (reports_segment_volume data idx ss (v1_geometry st))|].
    cbn beta. intros g [Hgeq Hgw].
    eapply reports_bind; [by apply reports_segment_table|]. cbn beta. intros total _.
    apply reports_then; [unfold check_table2; logs|].
    apply reports_then; [unfold check_error2; logs|].
    apply reports_then; [auto with ewf|]. apply reports_ret. cbn. by rewrite Hss.
Qed.

Lemma reports_analyse_segments n segs st :
  Forall (fun p => zlen p.2 <= i64_max) segs -> opt_wf geometry_wf (v1_geometry st) ->
  reports (fun st' =>
      v1_geometry st' = fold_left (fun g p => next_geometry p.1 p.2 g) segs (v1_geometry st) /\
      v1_all_sections st' = v1_all_sections st ++ map (fun p => sections_of p.2) segs /\
      opt_wf geometry_wf (v1_geometry st'))
    (analyse_segments_v1 n segs st).
Proof.
  intros Hsegs. revert st. induction Hsegs as [|[idx data] segs Hd _ IH]; intros st Hg.
  { apply reports_ret. cbn. by rewrite app_nil_r. }
  cbn [analyse_segments_v1]. eapply reports_bind; [by apply reports_analyse_segment|].
  cbn beta. intros st1 (Hg1 & Ha1 & Hw1). eapply reports_weaken; [by apply IH|].
  cbn beta. intros st2 (Hg2 & Ha2 & Hw2). cbn [fold_left map fst snd].
  split; [by rewrite Hg2, Hg1|]. split; [|done]. by rewrite Ha2, Ha1, <-app_assoc.
Qed.

(** Only the first segment sets the geometry. *)
Lemma fold_next_geometry k segs g :
  0 < k -> fold_left (fun g p => next_geometry p.1 p.2 g) (enumerate_from k segs) g = g.
Proof.
  revert k. induction segs as [|d segs IH]; intros k Hk; [done|]. cbn.
  unfold next_geometry at 2. rewrite (proj2 (Z.eqb_neq k 0)) by lia. apply IH. lia.
Qed.

Definition image_geometry (segs : list (list byte)) : option VolumeGeometry :=
  match segs with
  | [] => None
  | d :: _ => if zlen d <? FILE_HEADER_SIZE then None else first_geometry d
  end.

Lemma fold_geometry segs :
  fold_left (fun g p => next_geometry p.1 p.2 g) (enumerate segs) None = image_geometry segs.
Proof.
  destruct segs as [|d segs]; [done|]. unfold enumerate. cbn [enumerate_from fold_left fst snd].
  rewrite fold_next_geometry by lia. unfold next_geometry, image_geometry. cbn [Z.eqb].
  change (0 =? 0) with true. cbn iota. destruct (_ <? _); [done|]. unfold first_geometry.
  by destruct (List.find is_volume (sections_of d)).
Qed.

(** ** External references *)

Definition mismatch_if (mk : list byte -> list byte -> EwfIntegrityAnomaly) (computed : list byte)
    (expected : option (list byte)) : list event :=
  match expected with
  | Some e => if bool_decide (computed = e) then [] else [Issue (mk computed e)]
  | None => []
  end.

Definition external_events (c : ComputedHashes) (ex : expected_hashes) : list event :=
  mismatch_if ExternalMd5Mismatch (hash_md5 c) (expected_md5 ex)
  ++ mismatch_if ExternalSha1Mismatch (hash_sha1 c) (expected_sha1 ex)
  ++ mismatch_if ExternalSha256Mismatch (hash_sha256 c) (expected_sha256 ex).

Lemma check_expected_run mk computed expected log :
  check_expected mk computed expected log = (Ok tt, log ++ mismatch_if mk computed expected).
Proof.
  unfold check_expected, mismatch_if. destruct expected as [e|]; [|cbn; by rewrite app_nil_r].
  case_bool_decide; cbn; [by rewrite app_nil_r|done].
Qed.

Lemma check_external_run c ex log :
  check_external c ex log = (Ok tt, log ++ external_events c ex).
Proof.
  unfold check_external. rewrite stateful_bind_run, check_expected_run, stateful_bind_run,
    check_expected_run, check_expected_run. unfold external_events. by rewrite !app_assoc.
Qed.

(** ** The hashes stored in the last segment *)

Definition stored_md5_events (data : list byte) (ss : list Section_) (computed : list byte)
    : list event :=
  match find_section (str "hash") ss with
  | Some h => mismatch_if HashMismatch computed
                (slice data (sat_add (sec_offset h) desc_size)
                   (sat_add (sat_add (sec_offset h) desc_size) 16))
  | None => [Issue HashSectionMissing]
  end.

(** An all-zero digest is not a reference. *)
Definition stored_sha1_events (data : list byte) (ss : list Section_) (computed : list byte)
    : list event :=
  match find_section (str "digest") ss with
  | Some d => mismatch_if DigestSha1Mismatch computed
                (stored ← slice data (sat_add (sat_add (sec_offset d) desc_size) 16)
                            (sat_add (sat_add (sec_offset d) desc_size) 36);
                 if bool_decide (stored = zeros 20) then None else Some stored)
  | None => []
  end.

Lemma check_stored_md5_run data ss computed log :
  check_stored_md5 data ss computed log = (Ok tt, log ++ stored_md5_events data ss computed).
Proof.
  unfold check_stored_md5, stored_md5_events. destruct (find_section _ ss) as [h|]; [|done].
  destruct (slice _ _ _) as [stored|]; [|cbn; by rewrite app_nil_r]. cbn.
  case_bool_decide; cbn; [by rewrite app_nil_r|done].
Qed.

Lemma check_stored_sha1_run data ss computed log :
  check_stored_sha1 data ss computed log = (Ok tt, log ++ stored_sha1_events data ss computed).
Proof.
  unfold check_stored_sha1, stored_sha1_events.
  destruct (find_section _ ss) as [d|]; [|cbn; by rewrite app_nil_r].
  destruct (slice _ _ _) as [stored|]; [|cbn; by rewrite app_nil_r]. cbn.
  case_bool_decide; cbn; [by rewrite app_nil_r|].
  case_bool_decide; cbn; [by rewrite app_nil_r|done].
Qed.

(** The verdicts on hashes [c]: against the hashes stored in the last segment, then
    against the references. *)
Definition verdict_v1 (segs : list (list byte)) (c : ComputedHashes) (ex : expected_hashes)
    : list event :=
  let ld := default [] (last segs) in
  stored_md5_events ld (sections_of ld) (hash_md5 c)
  ++ stored_sha1_events ld (sections_of ld) (hash_sha1 c)
  ++ external_events c ex.

(** ** The whole analysis *)

(** The data the hashers of an image with geometry [g] are fed. *)
Definition image_data (segs : list (list byte)) (g : VolumeGeometry) : list byte :=
  hash_spec_segments (geometry_chunk_size g) (zip segs (map sections_of segs))
    (geometry_total_bytes g) [].

Definition short_enough (segs : list (list byte)) : Prop := Forall (fun d => zlen d <= i64_max) segs.

Lemma walked_all segs : short_enough segs -> Forall walked (zip segs (map sections_of segs)).
Proof.
  induction 1 as [|d segs Hd _ IH]; [constructor|]. constructor; [|exact IH].
  split; [done|]. cbn [fst snd].
  destruct (reports_sections_of d Hd) as (ss & es & [Hss Hw] & _ & _). rewrite <-Hss. apply Hw.
Qed.

Lemma geometry_chunk_size_nonneg g : geometry_wf g -> 0 <= geometry_chunk_size g.
Proof. intros (_ & ? & ? & _). unfold geometry_chunk_size, sat_mul. nia. Qed.

(** The final checks: internal events, then the verdicts. *)
Lemma check_hash_run segs g :
  short_enough segs -> segs <> [] -> geometry_wf g ->
  exists es, Forall internal es /\ forall ex log,
    check_hash_all_segments segs (map sections_of segs) g ex log =
    (Ok tt, log ++ es ++ verdict_v1 segs (digests_of (image_data segs g)) ex).
Proof.
  intros Hs Hne Hg. pose proof (reports_hash_segments (geometry_chunk_size g)
    (geometry_total_bytes g) _ (hash_start (geometry_total_bytes g))
    (geometry_chunk_size_nonneg g Hg) (walked_all segs Hs)) as (h & es1 & Hh & Hes1 & Hrun1).
  destruct (last segs) as [ld|] eqn:Eld; [|by apply last_None in Eld].
  assert (last (map sections_of segs) = Some (sections_of ld)) as Els.
  { change (map sections_of segs) with (sections_of <$> segs). by rewrite fmap_last, Eld. }
  exists es1. split; [done|]. intros ex log.
  unfold check_hash_all_segments, verdict_v1. rewrite stateful_bind_run, Hrun1, Els, Eld.
  change (default [] (Some ld)) with ld.
  cbn [hash_start hs_remaining hs_data] in Hh. fold (image_data segs g) in Hh. rewrite Hh.
  rewrite stateful_bind_run, check_stored_md5_run, stateful_bind_run, check_stored_sha1_run,
    check_external_run. by rewrite !app_assoc.
Qed.

(** What an analysis appends to the log: anomalies of its own, a function of the
    segments alone, then the verdicts on the hashes of the image. *)
Lemma analyse_v1_run segs :
  short_enough segs ->
  exists es, Forall internal es /\ forall ex log,
    analyse_all_ewf1 segs ex log =
    (Ok tt, log ++ es ++ match image_geometry segs with
                         | Some g => verdict_v1 segs (digests_of (image_data segs g)) ex
                         | None => []
                         end).
Proof.
  intros Hs.
  assert (Hen : Forall (fun p => zlen p.2 <= i64_max) (enumerate segs)).
  { unfold enumerate. generalize 0. induction Hs as [|d segs Hd _ IH]; intros k; constructor; [done|apply IH]. }
  destruct (reports_analyse_segments (zlen segs) (enumerate segs) v1_start Hen I)
    as (st & es1 & (Hg & Hall & Hw) & Hes1 & Hrun1).
  cbn [v1_start v1_geometry v1_all_sections app] in Hg, Hall. rewrite fold_geometry in Hg.
  assert (map (fun p => sections_of p.2) (enumerate segs) = map sections_of segs) as Hmap.
  { unfold enumerate. generalize 0. clear. induction segs as [|d segs IH]; intros k; cbn; [done|]. by rewrite IH. }
  rewrite Hmap in Hall.
  unfold analyse_all_ewf1, finish_v1.
  destruct (v1_geometry st) as [g|] eqn:Egeo.
  - assert (segs <> []) as Hne by (intros ->; done).
    destruct (check_hash_run segs g Hs Hne Hw) as (es2 & Hes2 & Hrun2).
    set (b := (1 <? zlen segs) && negb (v1_total_entries st =? g_chunk_count g)).
    set (es := if b then [Issue (TableChunkCountMismatch (g_chunk_count g) (v1_total_entries st))] else []).
    exists (es1 ++ es ++ es2). split.
    { repeat (apply Forall_app; split); try done. unfold es. destruct b; [|done]. by repeat constructor. }
    intros ex log. rewrite stateful_bind_run, Hrun1, Egeo, stateful_bind_run, Hall.
    assert (forall l, push_if b (TableChunkCountMismatch (g_chunk_count g) (v1_total_entries st)) l =
      (Ok tt, l ++ es)) as ->.
    { intros l. unfold es. destruct b; cbn; [done|by rewrite app_nil_r]. }
    rewrite Hrun2, <-Hg. by rewrite <-!app_assoc.
  - exists es1. split; [done|]. intros ex log. rewrite stateful_bind_run, Hrun1, Egeo, <-Hg.
    cbn. by rewrite app_nil_r.
Qed.

Lemma reports_sections_all segs :
  short_enough segs -> reports (fun r => r = map sections_of segs) (mapM walk_sections_v1 segs).
Proof.
  induction 1 as [|d segs Hd _ IH]; [by apply reports_ret|].
  change (mapM walk_sections_v1 (d :: segs)) with
    (b ← walk_sections_v1 d; bs ← mapM walk_sections_v1 segs; mret (b :: bs)).
  eapply reports_bind; [by apply reports_sections_of|]. cbn beta. intros ss [-> _].
  eapply reports_bind; [exact IH|]. cbn beta. intros bs ->. by apply reports_ret.
Qed.

(** [compute_hashes_ewf1] hashes the same data. *)
Lemma compute_hashes_v1_run segs :
  short_enough segs ->
  reports (fun r => match r with
                    | Some c => exists g, image_geometry segs = Some g /\
                                          c = digests_of (image_data segs g)
                    | None => True
                    end) (compute_hashes_ewf1 segs).
Proof.
  intros Hs. unfold compute_hashes_ewf1. destruct segs as [|first rest] eqn:Esegs; [by apply reports_ret|].
  rewrite <-Esegs in *.
  assert (zlen first <= i64_max) as Hd by (rewrite Esegs in Hs; by inversion Hs).
  destruct (zlen first <? FILE_HEADER_SIZE) eqn:E; bool_hyps; [by apply reports_ret|].
  eapply reports_bind; [apply reports_index_range; unfold FILE_HEADER_SIZE in E; lia|].
  cbn beta. intros sig _. destruct (_ && _); [by apply reports_ret|].
  eapply reports_bind; [by apply reports_sections_of|]. cbn beta. intros ss [Hss [Hin _]].
  destruct (List.find is_volume ss) as [v|] eqn:Ev; [|by apply reports_ret].
  pose proof (find_section_in _ _ _ _ Hin Ev) as Hv.
  eapply reports_bind; [by apply (reports_volume_value first v Hv Hd)|]. cbn beta.
  intros g [Hg Hgw]. destruct g as [g|]; [|by apply reports_ret].
  assert (image_geometry segs = Some g) as Hgeo.
  { rewrite Esegs. cbn. rewrite (proj2 (Z.ltb_ge _ _)) by done. unfold first_geometry.
    by rewrite <-Hss, Ev, <-Hg. }
  eapply reports_bind; [by apply reports_sections_all|]. cbn beta. intros all ->.
  eapply reports_bind; [by apply reports_compute_segments, walked_all|]. cbn beta.
  intros data ->. apply reports_ret. by exists g.
Qed.

(** ** The copy that reports progress *)

Lemma with_progress_segment n idx data st :
  same_run (analyse_segment_v1_with_progress n idx data st) (analyse_segment_v1 n idx data st).
Proof.
  unfold analyse_segment_v1_with_progress, analyse_segment_v1. destruct (_ <? _); [done|].
  unfold check_segment_header. setoid_rewrite stateful_bind_assoc.
  apply same_run_bind_r. intros sig. setoid_rewrite stateful_bind_assoc.
  apply same_run_bind_r. intros []. apply same_run_bind; [|by destruct (le_u16_at data 9 =? 0)].
  intros []. apply same_run_bind_r. intros sections. apply same_run_bind; [|done].
  intros geometry. unfold check_segment_table. setoid_rewrite stateful_bind_assoc.
  apply same_run_bind_r. intros [].
  destruct (find_section (str "table") sections) as [t|]; [|done].
  setoid_rewrite stateful_bind_assoc. done.
Qed.

Lemma with_progress_segments n segs st :
  same_run (analyse_segments_v1_with_progress n segs st) (analyse_segments_v1 n segs st).
Proof.
  revert st. induction segs as [|[idx data] segs IH]; intros st; [done|].
  cbn [analyse_segments_v1_with_progress analyse_segments_v1].
  apply same_run_bind; [exact IH|apply with_progress_segment].
Qed.

Lemma with_progress_v1 segs ex :
  same_run (analyse_all_ewf1_with_progress segs ex) (analyse_all_ewf1 segs ex).
Proof.
  unfold analyse_all_ewf1_with_progress, analyse_all_ewf1, finish_v1.
  apply same_run_bind; [|apply with_progress_segments]. intros st.
  destruct (v1_geometry st) as [g|], (1 <? zlen segs); try done.
Qed.

(** C14: the analyser survives any evidence.  For every list of segments, whatever
    their bytes and however many, the analysis and the computation of the hashes
    end without a panic: every walk and every loop terminates and every index is in
    range; the sections a walk finds lie in the segment at increasing offsets.  The
    copy that reports progress has the same result and the same log. *)
Theorem analyse_ewf1_safe segs ex :
  short_enough segs ->
  (exists es, analyse_all_ewf1 segs ex [] = (Ok tt, es) /\
              analyse_all_ewf1_with_progress segs ex [] = (Ok tt, es)) /\
  (exists c es, compute_hashes_ewf1 segs [] = (Ok c, es)) /\
  (forall d, d ∈ segs -> exists ss es, walk_sections_v1 d [] = (Ok ss, es) /\ walk_result d ss).
Proof.
  intros Hs. split; [|split].
  - destruct (analyse_v1_run segs Hs) as (es & _ & Hrun). eexists.
    rewrite with_progress_v1. split; apply Hrun.
  - destruct (compute_hashes_v1_run segs Hs) as (c & es & _ & _ & Hrun). eexists _, _. apply Hrun.
  - intros d Hd. unfold short_enough in Hs. rewrite Forall_forall in Hs.
    destruct (reports_sections_of d (Hs d Hd)) as (ss & es & [_ Hw] & _ & Hrun).
    eexists _, _. split; [apply Hrun|done].
Qed.

(** C11: the analysis judges the hashes [compute_hashes] returns.  When the latter
    returns digests, the analysis ends with the verdicts on those digests - the MD5
    stored in the last segment, the SHA-1 stored there, then each external reference,
    one mismatch for each that differs and none for one that is equal - and reports no
    other verdict on a hash before them. *)
Theorem hash_verdict_v1 segs c :
  short_enough segs -> value (compute_hashes_ewf1 segs) = Some (Some c) ->
  exists es, Forall internal es /\ forall ex,
    snd (analyse_all_ewf1 segs ex []) = es ++ verdict_v1 segs c ex.
Proof.
  intros Hs Hc. destruct (analyse_v1_run segs Hs) as (es & Hes & Hrun).
  pose proof (value_reports _ _ _ (compute_hashes_v1_run segs Hs) Hc) as (g & Hg & ->).
  exists es. split; [done|]. intros ex. by rewrite Hrun, Hg.
Qed.
End Safe.
