(* ===== verification/IntegrityV2.v ===== *)
(** The EWF v2 (Ex01) side of the integrity analyser: [forensic/src/integrity.rs]. *)

From S2P Require Import Prelude Text Extern Types Sections Ewf2 Anomaly IntegrityV1.

Definition EVF2_FILE_HEADER_SIZE : Z := 32.
Definition EVF2_SECTION_DESCRIPTOR_SIZE : Z := 64.
Definition EVF2_DATA_FLAG_ENCRYPTED : Z := 2.
Definition EVF2_CHUNK_FLAG_COMPRESSED : Z := 1.
Definition EVF2_TYPE_MEDIA_INFO : Z := 2.
Definition EVF2_TYPE_CHUNK_TABLE : Z := 4.
Definition EVF2_TYPE_MD5_HASH : Z := 8.
Definition EVF2_TYPE_SHA1_HASH : Z := 9.
Definition EVF2_TYPE_SHA256_HASH : Z := 10.
Definition EVF2_CHUNK_TABLE_HEADER_SIZE : Z := 32.
Definition EVF2_CHUNK_TABLE_ENTRY_SIZE : Z := 16.

(** What the backward walk of one segment collects. *)
Record v2_scan := {
  has_hash : bool;
  has_media_info : bool;
  chunk_table_body : option (Z * Z);
  stored_sector_md5 : option (list byte);
  stored_sector_sha1 : option (list byte);
  stored_sector_sha256 : option (list byte);
}.

Definition v2_scan_start : v2_scan :=
  {| has_hash := false; has_media_info := false; chunk_table_body := None;
     stored_sector_md5 := None; stored_sector_sha1 := None; stored_sector_sha256 := None |}.

(** The fields of a raw descriptor the analyser reads. *)
Record v2_descriptor := {
  d_section_type : Z;
  d_data_flags : Z;
  d_prev_offset : Z;
  d_data_size : Z;
  d_stored_hash : list byte;
}.

Definition read_v2_descriptor (desc : list byte) : v2_descriptor :=
  {| d_section_type := le_u32_at desc 0; d_data_flags := le_u32_at desc 4;
     d_prev_offset := le_u64_at desc 8; d_data_size := le_u64_at desc 16;
     d_stored_hash := array_at 16 desc 32 |}.

Definition d_encrypted (d : v2_descriptor) : bool :=
  negb (Z.land (d_data_flags d) EVF2_DATA_FLAG_ENCRYPTED =? 0).

(** The fields of entry [i] of a chunk table, when the table has it. *)
Definition v2_table_entry (tbl : list byte) (i : Z) : option (Z * Z * Z) :=
  let entry_off := sat_add EVF2_CHUNK_TABLE_HEADER_SIZE (sat_mul i EVF2_CHUNK_TABLE_ENTRY_SIZE) in
  if zlen tbl <? sat_add entry_off EVF2_CHUNK_TABLE_ENTRY_SIZE then None
  else Some (le_u64_at tbl entry_off, le_u32_at tbl (sat_add entry_off 8),
             le_u32_at tbl (sat_add entry_off 12)).

Section V2.
Context `{SafeRead} `{Adler} `{Zlib} `{Digests}.

(** ** The sections of a segment *)

(** Whether a [media_info] body inflates to UTF-16LE text. *)
Definition parse_media_info_body (body : list byte) : bool :=
  match body with
  | [] => false
  | _ =>
    match zlib_read_to_end body None with
    | None => false
    | Some decompressed =>
      let text_bytes :=
        if bool_decide (ztake 2 decompressed = map byte_of_Z [255; 254])
        then zdrop 2 decompressed else decompressed in
      if negb (zlen text_bytes mod 2 =? 0) then false
      else bool_decide (is_Some (from_utf16 (u16_units text_bytes)))
    end
  end.

(** The first [n] bytes of the body of a hash section, which replace [old]. *)
Definition stored_prefix (n : Z) (data : list byte) (data_size body_start body_end : Z)
    (old : option (list byte)) : checked (option (list byte)) :=
  if n <=? data_size then
    match slice data body_start body_end with
    | Some body => h ← lift (index_range body 0 n); mret (Some h)
    | None => mret old
    end
  else mret old.

Definition check_data_hash (data : list byte) (desc_offset body_start body_end : Z)
    (d : v2_descriptor) : checked unit :=
  if bool_decide (d_stored_hash d = zeros 16) then mret tt
  else
    match slice data body_start body_end with
    | Some body =>
      let computed := md5 body in
      push_if (negb (bool_decide (computed = d_stored_hash d)))
        (Ewf2SectionDataHashMismatch desc_offset (d_section_type d) computed (d_stored_hash d))
    | None => mret tt
    end.

(** The match on the section type. *)
Definition scan_section (data : list byte) (body_start body_end : Z) (d : v2_descriptor)
    (s : v2_scan) : checked v2_scan :=
  if d_section_type d =? EVF2_TYPE_MEDIA_INFO then
    _ ← push_if (negb (match slice data body_start body_end with
                       | Some body => parse_media_info_body body
                       | None => false
                       end)) Ewf2MediaInfoParseFailed;
    mret {| has_hash := has_hash s; has_media_info := true;
            chunk_table_body := chunk_table_body s; stored_sector_md5 := stored_sector_md5 s;
            stored_sector_sha1 := stored_sector_sha1 s;
            stored_sector_sha256 := stored_sector_sha256 s |}
  else if d_section_type d =? EVF2_TYPE_CHUNK_TABLE then
    mret {| has_hash := has_hash s; has_media_info := has_media_info s;
            chunk_table_body := Some (body_start, body_end);
            stored_sector_md5 := stored_sector_md5 s;
            stored_sector_sha1 := stored_sector_sha1 s;
            stored_sector_sha256 := stored_sector_sha256 s |}
  else if d_section_type d =? EVF2_TYPE_MD5_HASH then
    h ← stored_prefix 16 data (d_data_size d) body_start body_end (stored_sector_md5 s);
    mret {| has_hash := true; has_media_info := has_media_info s;
            chunk_table_body := chunk_table_body s; stored_sector_md5 := h;
            stored_sector_sha1 := stored_sector_sha1 s;
            stored_sector_sha256 := stored_sector_sha256 s |}
  else if d_section_type d =? EVF2_TYPE_SHA1_HASH then
    h ← stored_prefix 20 data (d_data_size d) body_start body_end (stored_sector_sha1 s);
    mret {| has_hash := true; has_media_info := has_media_info s;
            chunk_table_body := chunk_table_body s; stored_sector_md5 := stored_sector_md5 s;
            stored_sector_sha1 := h; stored_sector_sha256 := stored_sector_sha256 s |}
  else if d_section_type d =? EVF2_TYPE_SHA256_HASH then
    h ← stored_prefix 32 data (d_data_size d) body_start body_end (stored_sector_sha256 s);
    mret {| has_hash := true; has_media_info := has_media_info s;
            chunk_table_body := chunk_table_body s; stored_sector_md5 := stored_sector_md5 s;
            stored_sector_sha1 := stored_sector_sha1 s; stored_sector_sha256 := h |}
  else mret s.

Definition check_v2_section (data : list byte) (desc_offset : Z) (d : v2_descriptor)
    (s : v2_scan) : checked v2_scan :=
  let body_end := desc_offset in
  let body_start := sat_sub desc_offset (d_data_size d) in
  if d_encrypted d then _ ← push (Ewf2EncryptedSection desc_offset); mret s
  else
    _ ← check_data_hash data desc_offset body_start body_end d;
    scan_section data body_start body_end d s.

(** The backward walk from the descriptor at [desc_offset]. *)
Fixpoint walk_v2 (fuel : nat) (data : list byte) (desc_offset : Z) (s : v2_scan)
    : checked v2_scan :=
  match fuel with
  | O => lift Panic
  | S fuel =>
    if (zlen data <? sat_add desc_offset EVF2_SECTION_DESCRIPTOR_SIZE)
       || (desc_offset <? EVF2_FILE_HEADER_SIZE) then mret s
    else
      desc ← lift (index_range data desc_offset (sat_add desc_offset EVF2_SECTION_DESCRIPTOR_SIZE));
      let d := read_v2_descriptor desc in
      s ← check_v2_section data desc_offset d s;
      if (d_prev_offset d =? 0) || (desc_offset <=? d_prev_offset d) then mret s
      else walk_v2 fuel data (d_prev_offset d) s
  end.

(** ** The chunks of a segment *)

Definition check_v2_chunk_checksum (data : list byte) (i file_offset chunk_data_size raw_size : Z)
    (chunk_raw : list byte) : checked unit :=
  if 4 <=? chunk_data_size then
    let crc_start := sat_add file_offset raw_size in
    match slice data crc_start (sat_add crc_start 4) with
    | Some crc_bytes =>
      let stored_crc := le_combine crc_bytes in
      let computed_crc := adler32 chunk_raw in
      push_if (negb (computed_crc =? stored_crc)) (ChunkChecksumMismatch i computed_crc stored_crc)
    | None => mret tt
    end
  else mret tt.

(** What chunk data contributes to the hashes. *)
Definition v2_chunk_data (flags : Z) (chunk_raw : list byte) : option (list byte) :=
  if negb (Z.land flags EVF2_CHUNK_FLAG_COMPRESSED =? 0) then zlib_read_to_end chunk_raw None
  else Some chunk_raw.

(** The loop from entry [i]; the hashers were fed [fed].  Every round but the last
    reads sixteen more bytes of the table, whose length bounds the rounds. *)
Fixpoint verify_v2_chunks (fuel : nat) (data tbl : list byte) (chunk_count i : Z)
    (fed : list byte) : checked (list byte) :=
  match fuel with
  | O => lift Panic
  | S fuel =>
    if chunk_count <=? i then mret fed
    else
      match v2_table_entry tbl i with
      | None => mret fed
      | Some (file_offset, chunk_data_size, flags) =>
        let raw_size := sat_sub chunk_data_size 4 in
        match slice data file_offset (sat_add file_offset raw_size) with
        | None => mret fed
        | Some chunk_raw =>
          _ ← check_v2_chunk_checksum data i file_offset chunk_data_size raw_size chunk_raw;
          match v2_chunk_data flags chunk_raw with
          | None =>
            _ ← push (ChunkDecompressionError i);
            verify_v2_chunks fuel data tbl chunk_count (i + 1) fed
          | Some bytes =>
            _ ← emit (Progress {| chunks_done := sat_add i 1; chunks_total := Some chunk_count;
                                  bytes_done := sat_mul (sat_add i 1) raw_size |});
            verify_v2_chunks fuel data tbl chunk_count (i + 1) (fed ++ bytes)
          end
        end
      end
  end.

Definition check_chunk_table_checksum (tbl : list byte) (chunk_count : Z) : checked unit :=
  let checksum_off :=
    sat_add EVF2_CHUNK_TABLE_HEADER_SIZE (sat_mul chunk_count EVF2_CHUNK_TABLE_ENTRY_SIZE) in
  if sat_add checksum_off 4 <=? zlen tbl then
    entries ← lift (index_range tbl EVF2_CHUNK_TABLE_HEADER_SIZE checksum_off);
    let computed_cs := adler32 entries in
    let stored_cs := le_u32_at tbl checksum_off in
    push_if (negb (computed_cs =? stored_cs)) (Ewf2ChunkTableChecksumMismatch computed_cs stored_cs)
  else mret tt.

(** A comparison that reports with [mk computed stored]. *)
Definition check_stored (mk : list byte -> list byte -> EwfIntegrityAnomaly)
    (computed : list byte) (stored : option (list byte)) : checked unit :=
  match stored with
  | Some s => push_if (negb (bool_decide (computed = s))) (mk computed s)
  | None => mret tt
  end.

Definition verify_ewf2_sector_data (data : list byte) (ct_start ct_end : Z)
    (stored_md5 stored_sha1 stored_sha256 : option (list byte))
    : checked (option ComputedHashes) :=
  match slice data ct_start ct_end with
  | None => mret None
  | Some tbl =>
    if zlen tbl <? EVF2_CHUNK_TABLE_HEADER_SIZE + EVF2_CHUNK_TABLE_ENTRY_SIZE then mret None
    else
      let chunk_count := le_u64_at tbl 8 in
      _ ← check_chunk_table_checksum tbl chunk_count;
      fed ← verify_v2_chunks (S (length tbl)) data tbl chunk_count 0 [];
      let computed := digests_of fed in
      _ ← check_stored HashMismatch (hash_md5 computed) stored_md5;
      _ ← check_stored DigestSha1Mismatch (hash_sha1 computed) stored_sha1;
      _ ← check_stored DigestSha256Mismatch (hash_sha256 computed) stored_sha256;
      mret (Some computed)
  end.

(** ** Hashes without an analysis *)

(** The walk of [compute_hashes_ewf2] for the chunk table of a segment. *)
Fixpoint find_v2_table (fuel : nat) (data : list byte) (desc_offset : Z) (found : option (Z * Z))
    : outcome Empty_set (option (Z * Z)) :=
  match fuel with
  | O => Panic
  | S fuel =>
    if (zlen data <? sat_add desc_offset EVF2_SECTION_DESCRIPTOR_SIZE)
       || (desc_offset <? EVF2_FILE_HEADER_SIZE) then Ok found
    else
      desc ← index_range data desc_offset (sat_add desc_offset EVF2_SECTION_DESCRIPTOR_SIZE);
      let d := read_v2_descriptor desc in
      let body_end := desc_offset in
      let body_start := sat_sub desc_offset (d_data_size d) in
      let found := if negb (d_encrypted d) && (d_section_type d =? EVF2_TYPE_CHUNK_TABLE)
                   then Some (body_start, body_end) else found in
      if (d_prev_offset d =? 0) || (desc_offset <=? d_prev_offset d) then Ok found
      else find_v2_table fuel data (d_prev_offset d) found
  end.

(** The loop over the entries of a table: what it feeds the hashers and whether
    it found a chunk. *)
Fixpoint compute_v2_chunks (fuel : nat) (data tbl : list byte) (chunk_count i : Z)
    (fed : list byte) (found : bool) : outcome Empty_set (list byte * bool) :=
  match fuel with
  | O => Panic
  | S fuel =>
    if chunk_count <=? i then Ok (fed, found)
    else
      match v2_table_entry tbl i with
      | None => Ok (fed, found)
      | Some (file_offset, chunk_data_size, flags) =>
        let raw_size := sat_sub chunk_data_size 4 in
        match slice data file_offset (sat_add file_offset raw_size) with
        | None => Ok (fed, found)
        | Some chunk_raw =>
          match v2_chunk_data flags chunk_raw with
          | None => compute_v2_chunks fuel data tbl chunk_count (i + 1) fed found
          | Some bytes => compute_v2_chunks fuel data tbl chunk_count (i + 1) (fed ++ bytes) true
          end
        end
      end
  end.

Definition compute_v2_segment (data : list byte) (fed : list byte) (found : bool)
    : outcome Empty_set (list byte * bool) :=
  if zlen data <? EVF2_FILE_HEADER_SIZE + EVF2_SECTION_DESCRIPTOR_SIZE then Ok (fed, found)
  else
    body ← find_v2_table (S (length data)) data
             (sat_sub (zlen data) EVF2_SECTION_DESCRIPTOR_SIZE) None;
    match body with
    | None => Ok (fed, found)
    | Some (ct_start, ct_end) =>
      match slice data ct_start ct_end with
      | None => Ok (fed, found)
      | Some tbl =>
        if zlen tbl <? EVF2_CHUNK_TABLE_HEADER_SIZE + EVF2_CHUNK_TABLE_ENTRY_SIZE
        then Ok (fed, found)
        else compute_v2_chunks (S (length tbl)) data tbl (le_u64_at tbl 8) 0 fed found
      end
    end.

Fixpoint compute_v2_segments (segments : list (list byte)) (fed : list byte) (found : bool)
    : outcome Empty_set (list byte * bool) :=
  match segments with
  | [] => Ok (fed, found)
  | data :: segments =>
    '(fed, found) ← compute_v2_segment data fed found; compute_v2_segments segments fed found
  end.

Definition compute_hashes_ewf2 (segments : list (list byte))
    : outcome Empty_set (option ComputedHashes) :=
  '(fed, found) ← compute_v2_segments segments [] false;
  Ok (if found : bool then Some (digests_of fed) else None).

(** ** The analysis of all segments *)
Record v2_stored := {
  final_stored_md5 : option (list byte);
  final_stored_sha1 : option (list byte);
  final_stored_sha256 : option (list byte);
}.

Definition check_v2_header (data : list byte) (idx : Z) : checked unit :=
  let expected_seg_num := wrap32 (sat_add idx 1) in
  sig ← lift (index_range data 0 8);
  _ ← push_if (negb (bool_decide (sig = EVF2_SIGNATURE)) && negb (bool_decide (sig = LEF2_SIGNATURE)))
        InvalidSignature;
  let seg_num := le_u32_at data 12 in
  _ ← (if seg_num =? 0 then push SegmentNumberZero
       else push_if (negb (seg_num =? expected_seg_num))
              (SegmentOutOfOrder (wrap16 seg_num) (wrap16 expected_seg_num)));
  let compression_method := le_u16_at data 10 in
  push_if (1 <? compression_method) (UnsupportedCompressionAlgorithm compression_method).

(** One round of the segment loop over [n] segments. *)
Definition analyse_segment_v2 (n idx : Z) (data : list byte) (final : v2_stored)
    : checked v2_stored :=
  if zlen data <? EVF2_FILE_HEADER_SIZE + EVF2_SECTION_DESCRIPTOR_SIZE then
    _ ← push (SectionChainBroken 0 0); mret final
  else
    _ ← check_v2_header data idx;
    s ← walk_v2 (S (length data)) data (sat_sub (zlen data) EVF2_SECTION_DESCRIPTOR_SIZE)
          v2_scan_start;
    let is_last := idx =? sat_sub n 1 in
    _ ← push_if (is_last && negb (has_hash s)) Ewf2HashSectionMissing;
    _ ← push_if ((idx =? 0) && negb (has_media_info s)) Ewf2MediaInfoMissing;
    let final := if is_last
                 then {| final_stored_md5 := stored_sector_md5 s;
                         final_stored_sha1 := stored_sector_sha1 s;
                         final_stored_sha256 := stored_sector_sha256 s |}
                 else final in
    match chunk_table_body s with
    | Some (ct_start, ct_end) =>
      _ ← verify_ewf2_sector_data data ct_start ct_end None None None; mret final
    | None => mret final
    end.

Fixpoint analyse_segments_v2 (n : Z) (segs : list (Z * list byte)) (final : v2_stored)
    : checked v2_stored :=
  match segs with
  | [] => mret final
  | (idx, data) :: segs =>
    final ← analyse_segment_v2 n idx data final; analyse_segments_v2 n segs final
  end.

(** The comparison across segments, then with the references. *)
Definition finish_v2 (segments : list (list byte)) (ex : expected_hashes) (final : v2_stored)
    : checked unit :=
  computed ← lift (compute_hashes_ewf2 segments);
  match computed with
  | Some c =>
    _ ← check_stored HashMismatch (hash_md5 c) (final_stored_md5 final);
    _ ← check_stored DigestSha1Mismatch (hash_sha1 c) (final_stored_sha1 final);
    _ ← check_stored DigestSha256Mismatch (hash_sha256 c) (final_stored_sha256 final);
    check_external c ex
  | None => mret tt
  end.

Definition analyse_all_ewf2_impl (segments : list (list byte)) (ex : expected_hashes)
    : checked unit :=
  final ← analyse_segments_v2 (zlen segments) (enumerate segments)
            {| final_stored_md5 := None; final_stored_sha1 := None; final_stored_sha256 := None |};
  finish_v2 segments ex final.
End V2.
