(* ===== verification/Integrity.v ===== *)
(** The public analysers: [EwfIntegrity] of [forensic/src/integrity.rs] on slices,
    with the acquisition metadata, and [EwfIntegrityPath] of
    [forensic/src/integrity_path.rs] on files.

    The file system of the latter is two parameters: the bytes a path maps to (or
    the error of opening or mapping it) and whether a path exists. *)

From S2P Require Import Prelude Text Extern Types Sections Ewf2 Path Anomaly IntegrityV1.
From S2P Require Import IntegrityV2.

(** ** Acquisition metadata *)
Definition no_metadata : EwfHeaderMetadata :=
  {| hm_description := []; hm_case_number := []; hm_evidence_number := []; hm_examiner_name := [];
     hm_acquisition_date := []; hm_system_date := []; hm_password_hash := [];
     hm_acquisition_software := [] |}.

(** The match on a key. *)
Definition set_metadata (key val : text) (m : EwfHeaderMetadata) : EwfHeaderMetadata :=
  let at_key k := text_eqb key k in
  {| hm_description := if at_key (str "a") then val else hm_description m;
     hm_case_number := if at_key (str "c") then val else hm_case_number m;
     hm_evidence_number := if at_key (str "e") then val else hm_evidence_number m;
     hm_examiner_name := if at_key (str "t") then val else hm_examiner_name m;
     hm_acquisition_date := if at_key (str "m") then val else hm_acquisition_date m;
     hm_system_date := if at_key (str "u") then val else hm_system_date m;
     hm_password_hash := if at_key (str "p") then val else hm_password_hash m;
     hm_acquisition_software := if at_key (str "r") then val else hm_acquisition_software m |}.

Definition parse_header_text (txt : text) : option EwfHeaderMetadata :=
  let ls := filter (fun l => l <> []) (map trim_end_cr (lines txt)) in
  match ls with
  | _ :: _ :: line2 :: line3 :: _ =>
    let keys := split tab line2 in
    let vals := split tab line3 in
    Some (fold_left (fun m '(i, key) => set_metadata key (default [] (get vals i)) m)
            (enumerate keys) no_metadata)
  | _ => None
  end.

Section Api.
Context `{SafeRead} `{Adler} `{Zlib} `{Digests}.

Definition parse_header_section (data : list byte) : outcome Empty_set (option EwfHeaderMetadata) :=
  if zlen data <? FILE_HEADER_SIZE + SECTION_DESCRIPTOR_SIZE then Ok None
  else
    let desc_off := FILE_HEADER_SIZE in
    rest ← index_range data desc_off (zlen data);
    match SectionDescriptor_parse rest desc_off with
    | Panic => Panic
    | Err _ => Ok None
    | Ok desc =>
      if negb (text_eqb (section_type desc) (str "header")) then Ok None
      else
        let body_start := sat_add desc_off SECTION_DESCRIPTOR_SIZE in
        let body_end := Z.min (sat_add desc_off (section_size desc)) (zlen data) in
        if body_end <=? body_start then Ok None
        else
          compressed ← index_range data body_start body_end;
          match zlib_read_to_end compressed None with
          | None => Ok None
          | Some bytes =>
            match from_utf8 bytes with None => Ok None | Some txt => Ok (parse_header_text txt) end
          end
    end.

(** ** [EwfIntegrity] *)
Record EwfIntegrity := {
  segments : list (list byte);
  expected : expected_hashes;
}.

Definition no_expected : expected_hashes :=
  {| expected_md5 := None; expected_sha1 := None; expected_sha256 := None |}.

Definition EwfIntegrity_new (data : list byte) : EwfIntegrity :=
  {| segments := [data]; expected := no_expected |}.
Definition EwfIntegrity_from_segments (segs : list (list byte)) : EwfIntegrity :=
  {| segments := segs; expected := no_expected |}.

Definition set_md5 (h : list byte) (e : expected_hashes) : expected_hashes :=
  {| expected_md5 := Some h; expected_sha1 := expected_sha1 e;
     expected_sha256 := expected_sha256 e |}.
Definition set_sha1 (h : list byte) (e : expected_hashes) : expected_hashes :=
  {| expected_md5 := expected_md5 e; expected_sha1 := Some h;
     expected_sha256 := expected_sha256 e |}.
Definition set_sha256 (h : list byte) (e : expected_hashes) : expected_hashes :=
  {| expected_md5 := expected_md5 e; expected_sha1 := expected_sha1 e;
     expected_sha256 := Some h |}.

Definition with_expected_md5 (self : EwfIntegrity) (h : list byte) : EwfIntegrity :=
  {| segments := segments self; expected := set_md5 h (expected self) |}.
Definition with_expected_sha1 (self : EwfIntegrity) (h : list byte) : EwfIntegrity :=
  {| segments := segments self; expected := set_sha1 h (expected self) |}.
Definition with_expected_sha256 (self : EwfIntegrity) (h : list byte) : EwfIntegrity :=
  {| segments := segments self; expected := set_sha256 h (expected self) |}.

(** The loop of [header_metadata]: the first segment that has metadata. *)
Fixpoint first_metadata (segs : list (list byte)) : outcome Empty_set (option EwfHeaderMetadata) :=
  match segs with
  | [] => Ok None
  | data :: segs =>
    meta ← parse_header_section data;
    match meta with Some m => Ok (Some m) | None => first_metadata segs end
  end.

Definition header_metadata (self : EwfIntegrity) : outcome Empty_set (option EwfHeaderMetadata) :=
  first_metadata (segments self).

(** The test the entry points share: an EWF v2 signature on the first segment. *)
Definition first_is_ewf2 (segs : list (list byte)) : outcome Empty_set bool :=
  let first := default [] (head segs) in
  if 8 <=? zlen first then
    sig ← index_range first 0 8;
    Ok (bool_decide (sig = EVF2_SIGNATURE) || bool_decide (sig = LEF2_SIGNATURE))
  else Ok false.

(** The value of a computation of the analyser, and what it logs. *)
Definition value_of {A} (c : checked A) : outcome Empty_set A := fst (c []).
Definition logged {A} (c : checked A) : outcome Empty_set (list event) :=
  match c [] with
  | (Ok _, es) => Ok es
  | (Err e, _) => Err e
  | (Panic, _) => Panic
  end.

Definition compute_hashes (self : EwfIntegrity) : outcome Empty_set (option ComputedHashes) :=
  v2 ← first_is_ewf2 (segments self);
  if v2 : bool then compute_hashes_ewf2 (segments self)
  else value_of (compute_hashes_ewf1 (segments self)).

Definition analyse (self : EwfIntegrity) : outcome Empty_set (list EwfIntegrityAnomaly) :=
  v2 ← first_is_ewf2 (segments self);
  es ← logged (if v2 : bool then analyse_all_ewf2_impl (segments self) (expected self)
               else analyse_all_ewf1 (segments self) (expected self));
  Ok (issues_of es).

(** The anomalies, and the snapshots the callback receives. *)
Definition analyse_with_progress (self : EwfIntegrity)
    : outcome Empty_set (list EwfIntegrityAnomaly * list AnalysisProgress) :=
  v2 ← first_is_ewf2 (segments self);
  es ← logged (if v2 : bool then analyse_all_ewf2_impl (segments self) (expected self)
               else analyse_all_ewf1_with_progress (segments self) (expected self));
  Ok (issues_of es, progress_of es).
End Api.

(** ** Segment discovery of [integrity_path.rs] *)
Definition is_x (c : Z) : bool := (c =? 120) || (c =? 88).

(** The prefix character, whether an x follows it and the number of digits. *)
Definition parse_ewf_extension (ext : text) : option (Z * bool * Z) :=
  match ext with
  | [] => None
  | prefix :: rest =>
    if negb (is_ascii_alphabetic prefix) then None
    else
      let has_x := match rest with c :: _ => is_x c | [] => false end in
      let rest := trim_start_matches is_x rest in
      if forallb is_ascii_digit rest && negb (bool_decide (rest = []))
      then Some (prefix, has_x, zlen rest) else None
  end.

(** [format!("{n:0width$}")] *)
Definition zero_padded (width n : Z) : text :=
  let digits := print_dec n in replicate (Z.to_nat (width - zlen digits)) 48 ++ digits.

Definition make_ewf_extension (prefix : Z) (has_x : bool) (digit_count n : Z) : text :=
  let width := Z.max digit_count 2 in
  let x := if has_x then str "x" else [] in
  prefix :: x ++ zero_padded width n.

Section PathApi.
Context `{SafeRead} `{Adler} `{Zlib} `{Digests}.
Variable exists_ : text -> bool.
Variable open_map : text -> outcome io_error (list byte).

(** The loop over the segment numbers from [n], which are at most 999. *)
Fixpoint discover_loop (fuel : nat) (candidate : Z -> text) (n : Z) : list text :=
  match fuel with
  | O => []
  | S fuel =>
    if exists_ (candidate n)
    then candidate n :: (if 999 <=? n then [] else discover_loop fuel candidate (n + 1))
    else []
  end.

Definition discover_segments (base : text) : list text :=
  match extension base with
  | None => [base]
  | Some ext =>
    match parse_ewf_extension ext with
    | None => [base]
    | Some (prefix_char, has_x, digits) =>
      match file_stem base with
      | None => [base]
      | Some stem =>
        let dir := default (str ".") (parent base) in
        let candidate n :=
          path_join dir (stem ++ dot :: make_ewf_extension prefix_char has_x digits n) in
        match discover_loop 1000 candidate 1 with
        | [] => [base]
        | segments => segments
        end
      end
    end
  end.

(** ** [EwfIntegrityPath] *)
Record EwfIntegrityPath := {
  ip_segment_paths : list text;
  ip_expected : expected_hashes;
}.

Definition EwfIntegrityPath_from_path (path : text) : EwfIntegrityPath :=
  {| ip_segment_paths := discover_segments path; ip_expected := no_expected |}.
Definition EwfIntegrityPath_from_paths (paths : list text) : EwfIntegrityPath :=
  {| ip_segment_paths := paths; ip_expected := no_expected |}.
Definition ip_with_expected_md5 (self : EwfIntegrityPath) (h : list byte) : EwfIntegrityPath :=
  {| ip_segment_paths := ip_segment_paths self; ip_expected := set_md5 h (ip_expected self) |}.
Definition ip_with_expected_sha1 (self : EwfIntegrityPath) (h : list byte) : EwfIntegrityPath :=
  {| ip_segment_paths := ip_segment_paths self; ip_expected := set_sha1 h (ip_expected self) |}.
Definition ip_with_expected_sha256 (self : EwfIntegrityPath) (h : list byte) : EwfIntegrityPath :=
  {| ip_segment_paths := ip_segment_paths self; ip_expected := set_sha256 h (ip_expected self) |}.

(** Every segment mapped, in order; the first error wins. *)
Definition map_segments (self : EwfIntegrityPath) : outcome io_error (list (list byte)) :=
  mapM open_map (ip_segment_paths self).

(** The checker over the mapped segments with the references that are set. *)
Definition path_checker (self : EwfIntegrityPath) (seg_refs : list (list byte)) : EwfIntegrity :=
  let checker := EwfIntegrity_from_segments seg_refs in
  let checker := match expected_md5 (ip_expected self) with
                 | Some h => with_expected_md5 checker h | None => checker end in
  let checker := match expected_sha1 (ip_expected self) with
                 | Some h => with_expected_sha1 checker h | None => checker end in
  match expected_sha256 (ip_expected self) with
  | Some h => with_expected_sha256 checker h | None => checker end.

Definition path_compute_hashes (self : EwfIntegrityPath)
    : outcome io_error (option ComputedHashes) :=
  seg_refs ← map_segments self;
  infallible (compute_hashes (EwfIntegrity_from_segments seg_refs)).

Definition path_analyse (self : EwfIntegrityPath) : outcome io_error (list EwfIntegrityAnomaly) :=
  seg_refs ← map_segments self;
  infallible (analyse (path_checker self seg_refs)).

Definition zero_hashes : ComputedHashes :=
  {| hash_md5 := zeros 16; hash_sha1 := zeros 20; hash_sha256 := zeros 32 |}.

Definition analyse_and_compute_hashes (self : EwfIntegrityPath)
    : outcome io_error (list EwfIntegrityAnomaly * ComputedHashes) :=
  seg_refs ← map_segments self;
  anomalies ← infallible (analyse (path_checker self seg_refs));
  hashes ← infallible (compute_hashes (EwfIntegrity_from_segments seg_refs));
  Ok (anomalies, default zero_hashes hashes).

Definition path_analyse_with_progress (self : EwfIntegrityPath)
    : outcome io_error (list EwfIntegrityAnomaly * list AnalysisProgress) :=
  seg_refs ← map_segments self;
  infallible (analyse_with_progress (path_checker self seg_refs)).
End PathApi.
