(* ===== verification/IntegrityProps.v ===== *)
(** The EWF v2 analyser never panics and judges the hashes [compute_hashes]
    returns; what the public entry points promise on either format. *)

From S2P Require Import Prelude Text Extern Types Sections Ewf2 Path Anomaly.
From S2P Require Import IntegrityV1 IntegrityV1Props IntegrityV2 Integrity.

Lemma array_at_length n data off : 0 <= n -> 0 <= off -> off + n <= u64_max -> zlen (array_at n data off) = n.
Proof.
  intros Hn Ho Hb. unfold array_at, sat_add. destruct (slice _ _ _) as [s|] eqn:Es; cbn.
  - apply slice_zlen in Es. lia.
  - rewrite zlen_zeros; lia.
Qed.

Lemma le_u64_at_range data off : 0 <= off <= i64_max -> 0 <= le_u64_at data off <= u64_max.
Proof.
  intros Ho. unfold le_u64_at. pose proof (le_combine_bound (array_at 8 data off)) as Hb.
  rewrite array_at_length in Hb by lia. change (256 ^ 8) with 18446744073709551616 in Hb. lia.
Qed.

Lemma le_u32_at_range data off : 0 <= off <= i64_max -> 0 <= le_u32_at data off <= u32_max.
Proof.
  intros Ho. unfold le_u32_at. pose proof (le_combine_bound (array_at 4 data off)) as Hb.
  rewrite array_at_length in Hb by lia. change (256 ^ 4) with 4294967296 in Hb. lia.
Qed.

Lemma check_stored_run mk computed stored log :
  check_stored mk computed stored log = (Ok tt, log ++ mismatch_if mk computed stored).
Proof.
  unfold check_stored, mismatch_if. destruct stored as [e|]; [|cbn; by rewrite app_nil_r].
  case_bool_decide; cbn; [by rewrite app_nil_r|done].
Qed.

Section Safe.
Context `{SafeReadLaws} `{Adler} `{Zlib} `{Digests}.

(** ** The backward walk *)

Lemma reports_stored_prefix n data size body_start body_end old :
  0 <= n -> body_start = sat_sub body_end size -> n <= body_end ->
  reports (fun _ => True) (stored_prefix n data size body_start body_end old).
Proof.
  intros Hn -> Hb. unfold stored_prefix, sat_sub. destruct (n <=? size) eqn:E; bool_hyps;
    [|by apply reports_ret]. destruct (slice _ _ _) as [body|] eqn:Es; [|by apply reports_ret].
  apply slice_zlen in Es. eapply reports_bind; [apply reports_index_range; lia|].
  intros h _. by apply reports_ret.
Qed.

(** What a section does to the chunk table found so far. *)
Definition table_found (desc_offset : Z) (d : v2_descriptor) (found : option (Z * Z)) : option (Z * Z) :=
  if negb (d_encrypted d) && (d_section_type d =? EVF2_TYPE_CHUNK_TABLE)
  then Some (sat_sub desc_offset (d_data_size d), desc_offset) else found.

Lemma reports_check_section data off d s :
  EVF2_FILE_HEADER_SIZE <= off ->
  reports (fun s' => chunk_table_body s' = table_found off d (chunk_table_body s))
    (check_v2_section data off d s).
Proof.
  intros Ho. unfold EVF2_FILE_HEADER_SIZE in Ho. unfold check_v2_section, table_found.
  destruct (d_encrypted d); [apply reports_then; [auto with ewf|by apply reports_ret]|].
  apply reports_then.
  { unfold check_data_hash. case_bool_decide; [by apply reports_ret|].
    destruct (slice _ _ _); [auto with ewf|by apply reports_ret]. }
  unfold scan_section, EVF2_TYPE_MEDIA_INFO, EVF2_TYPE_CHUNK_TABLE, EVF2_TYPE_MD5_HASH,
    EVF2_TYPE_SHA1_HASH, EVF2_TYPE_SHA256_HASH. cbn [negb andb].
  destruct (_ =? 2) eqn:E2; bool_hyps.
  { rewrite (proj2 (Z.eqb_neq _ 4)) by lia. apply reports_then; [auto with ewf|by apply reports_ret]. }
  destruct (_ =? 4) eqn:E4; bool_hyps; [by apply reports_ret|].
  destruct (d_section_type d =? 8); [|destruct (d_section_type d =? 9);
    [|destruct (d_section_type d =? 10); [|by apply reports_ret]]];
    (eapply reports_bind; [apply reports_stored_prefix; (done || lia)|
     intros h _; by apply reports_ret]).
Qed.

Lemma reports_walk_v2 fuel data off s :
  zlen data <= i64_max -> 0 <= off < Z.of_nat fuel ->
  reports (fun s' => find_v2_table fuel data off (chunk_table_body s) = Ok (chunk_table_body s'))
    (walk_v2 fuel data off s).
Proof.
  intros Hd. revert off s. induction fuel as [|fuel IH]; intros off s Hf; [lia|].
  cbn [walk_v2 find_v2_table].
  destruct (_ || _) eqn:E; bool_hyps; [by apply reports_ret..|].
  unfold EVF2_SECTION_DESCRIPTOR_SIZE, sat_add in *.
  eapply reports_bind; [apply reports_index_range; lia|]. cbn beta. intros desc Hdesc.
  unfold index_range at 1. rewrite Hdesc. cbn [or_panic mbind outcome_bind].
  set (d := read_v2_descriptor desc).
  assert (0 <= d_prev_offset d) as Hprev by (apply le_u64_at_range; lia). clearbody d.
  eapply reports_bind; [by apply reports_check_section|]. cbn beta. intros s' Hs'.
  fold (table_found off d (chunk_table_body s)). rewrite <-Hs'.
  destruct (_ || _) eqn:E'; bool_hyps; [by apply reports_ret..|]. apply IH. lia.
Qed.

(** ** The chunks *)

(** The table holds the entry it yields, which is a natural number. *)
Lemma v2_table_entry_range tbl i fo cs fl :
  v2_table_entry tbl i = Some (fo, cs, fl) -> 0 <= i -> zlen tbl <= i64_max ->
  i < zlen tbl /\ 0 <= fo <= u64_max /\ 0 <= cs <= u32_max.
Proof.
  unfold v2_table_entry, EVF2_CHUNK_TABLE_HEADER_SIZE, EVF2_CHUNK_TABLE_ENTRY_SIZE, sat_add, sat_mul.
  destruct (_ <? _) eqn:E; [done|]. bool_hyps. intros [= <- <- <-] Hi Ht.
  split; [lia|]. split; [apply le_u64_at_range|apply le_u32_at_range]; lia.
Qed.

Lemma reports_v2_checksum data i fo cs rs raw :
  reports (fun _ => True) (check_v2_chunk_checksum data i fo cs rs raw).
Proof.
  unfold check_v2_chunk_checksum. destruct (4 <=? cs); [|by apply reports_ret].
  destruct (slice _ _ _); [auto with ewf|by apply reports_ret].
Qed.

Lemma reports_verify_chunks fuel data tbl count i fed :
  zlen tbl <= i64_max -> 0 <= i -> zlen tbl - i < Z.of_nat fuel -> (0 < fuel)%nat ->
  reports (fun fed' => forall found, exists found',
             compute_v2_chunks fuel data tbl count i fed found = Ok (fed', found'))
    (verify_v2_chunks fuel data tbl count i fed).
Proof.
  intros Ht. revert i fed. induction fuel as [|fuel IH]; intros i fed Hi Hf Hpos; [lia|].
  cbn [verify_v2_chunks compute_v2_chunks].
  destruct (count <=? i); [apply reports_ret; by eauto|].
  destruct (v2_table_entry tbl i) as [[[fo cs] fl]|] eqn:Ee; [|apply reports_ret; by eauto].
  apply v2_table_entry_range in Ee as (Hlt & _ & _); [|done..].
  destruct (slice data fo _) as [raw|]; [|apply reports_ret; by eauto].
  apply reports_then; [apply reports_v2_checksum|].
  destruct (v2_chunk_data fl raw) as [bytes|]; apply reports_then; auto with ewf.
  - eapply reports_weaken; [apply IH; lia|]. cbn beta. intros fed' Hfed found. apply Hfed.
  - apply IH; lia.
Qed.

Lemma reports_table_checksum tbl count :
  0 <= count -> zlen tbl <= i64_max -> reports (fun _ => True) (check_chunk_table_checksum tbl count).
Proof.
  intros Hc Ht. unfold check_chunk_table_checksum, EVF2_CHUNK_TABLE_HEADER_SIZE,
    EVF2_CHUNK_TABLE_ENTRY_SIZE, sat_add, sat_mul in *.
  destruct (_ <=? _) eqn:E; bool_hyps; [|by apply reports_ret].
  eapply reports_bind; [apply reports_index_range; lia|]. auto with ewf.
Qed.

Lemma stored_none mk computed : reports (fun _ => True) (check_stored mk computed None).
Proof. by apply reports_ret. Qed.

(** The table of a segment when it can hold an entry. *)
Definition usable_table (data : list byte) (body : Z * Z) : option (list byte) :=
  match slice data body.1 body.2 with
  | Some tbl => if zlen tbl <? EVF2_CHUNK_TABLE_HEADER_SIZE + EVF2_CHUNK_TABLE_ENTRY_SIZE
                then None else Some tbl
  | None => None
  end.

Definition table_chunks (data tbl fed : list byte) (found : bool) : outcome Empty_set (list byte * bool) :=
  compute_v2_chunks (S (length tbl)) data tbl (le_u64_at tbl 8) 0 fed found.

Lemma reports_verify_data data ct_start ct_end :
  zlen data <= i64_max ->
  reports (fun r => match usable_table data (ct_start, ct_end) with
                    | None => r = None
                    | Some tbl => exists fed, r = Some (digests_of fed) /\
                        forall found, exists found', table_chunks data tbl [] found = Ok (fed, found')
                    end)
    (verify_ewf2_sector_data data ct_start ct_end None None None).
Proof.
  intros Hd. unfold verify_ewf2_sector_data, usable_table. cbn [fst snd].
  destruct (slice data ct_start ct_end) as [tbl|] eqn:Et; [|by apply reports_ret].
  assert (zlen tbl <= zlen data) by (pose proof (slice_bounds _ _ _ _ Et);
    apply slice_zlen in Et; lia). destruct (zlen tbl <? _) eqn:E; [by apply reports_ret|].
  apply reports_then; [apply reports_table_checksum; [apply le_u64_at_range|]; lia|].
  eapply reports_bind; [apply reports_verify_chunks; unfold zlen in *; lia|].
  cbn beta. intros fed Hfed. do 3 (apply reports_then; [apply stored_none|]).
  apply reports_ret. by exists fed.
Qed.

(** ** [compute_hashes_ewf2] *)

Lemma walk_v2_found data :
  zlen data <= i64_max ->
  reports (fun s' => find_v2_table (S (length data)) data
                       (sat_sub (zlen data) EVF2_SECTION_DESCRIPTOR_SIZE) None
                     = Ok (chunk_table_body s'))
    (walk_v2 (S (length data)) data (sat_sub (zlen data) EVF2_SECTION_DESCRIPTOR_SIZE) v2_scan_start).
Proof.
  intros Hd. apply (reports_walk_v2 _ _ _ v2_scan_start); [done|].
  unfold sat_sub, EVF2_SECTION_DESCRIPTOR_SIZE, zlen. lia.
Qed.

(** The chunk table of a segment is the one the analysis finds. *)
Lemma compute_segment_spec data fed found :
  zlen data <= i64_max ->
  exists body, find_v2_table (S (length data)) data
                 (sat_sub (zlen data) EVF2_SECTION_DESCRIPTOR_SIZE) None = Ok body /\
    compute_v2_segment data fed found =
    if zlen data <? EVF2_FILE_HEADER_SIZE + EVF2_SECTION_DESCRIPTOR_SIZE then Ok (fed, found)
    else match body ≫= usable_table data with
         | Some tbl => table_chunks data tbl fed found
         | None => Ok (fed, found)
         end.
Proof.
  intros Hd. destruct (walk_v2_found data Hd) as (s & es & Hs & _ & _).
  exists (chunk_table_body s). split; [done|]. unfold compute_v2_segment. rewrite Hs.
  destruct (_ <? _); [done|]. cbn [mbind outcome_bind].
  destruct (chunk_table_body s) as [[a b]|]; [|done]. cbn [mbind option_bind]. unfold usable_table.
  cbn [fst snd]. destruct (slice data a b) as [tbl|]; [|done]. by destruct (zlen tbl <? _).
Qed.

Lemma usable_table_zlen data body tbl :
  usable_table data body = Some tbl -> zlen data <= i64_max -> zlen tbl <= i64_max.
Proof.
  unfold usable_table. destruct (slice data body.1 body.2) as [t|] eqn:Et; [|done].
  destruct (_ <? _); [done|]. intros [= <-] Hd. pose proof (slice_bounds _ _ _ _ Et).
  apply slice_zlen in Et. lia.
Qed.

Lemma table_chunks_ok data tbl fed found :
  zlen tbl <= i64_max -> exists r, table_chunks data tbl fed found = Ok r.
Proof.
  intros Ht. destruct (reports_verify_chunks (S (length tbl)) data tbl (le_u64_at tbl 8) 0 fed)
    as (fed' & es & Hf & _ & _); [done|lia|unfold zlen; lia|lia|].
  destruct (Hf found) as [found' Hr]. unfold table_chunks. rewrite Hr. by eexists.
Qed.

Lemma compute_segment_ok data fed found :
  zlen data <= i64_max -> exists r, compute_v2_segment data fed found = Ok r.
Proof.
  intros Hd. destruct (compute_segment_spec data fed found Hd) as (body & _ & ->).
  destruct (_ <? _); [by eexists|]. destruct (body ≫= usable_table data) as [tbl|] eqn:Et; [|by eexists].
  destruct body as [body|]; [|done]. apply table_chunks_ok. by eapply usable_table_zlen.
Qed.

Lemma compute_hashes_v2_ok segs : short_enough segs -> exists o, compute_hashes_ewf2 segs = Ok o.
Proof.
  intros Hs. unfold compute_hashes_ewf2.
  assert (Hr : forall fed found, exists r, compute_v2_segments segs fed found = Ok r).
  { induction Hs as [|d segs Hd _ IH]; intros fed found; [by eexists|]. cbn [compute_v2_segments].
    destruct (compute_segment_ok d fed found Hd) as [[fed' found'] ->]. apply IH. }
  destruct (Hr [] false) as [[fed found] ->]. by eexists.
Qed.

(** ** The whole analysis *)

(** What the walk of a segment collects. *)
Definition scan_of (data : list byte) : v2_scan :=
  default v2_scan_start
    (value (walk_v2 (S (length data)) data
              (sat_sub (zlen data) EVF2_SECTION_DESCRIPTOR_SIZE) v2_scan_start)).

Definition no_stored : v2_stored :=
  {| final_stored_md5 := None; final_stored_sha1 := None; final_stored_sha256 := None |}.

(** The hashes stored in the last segment. *)
Definition stored_of (data : list byte) : v2_stored :=
  {| final_stored_md5 := stored_sector_md5 (scan_of data);
     final_stored_sha1 := stored_sector_sha1 (scan_of data);
     final_stored_sha256 := stored_sector_sha256 (scan_of data) |}.

Definition next_final (n idx : Z) (data : list byte) (final : v2_stored) : v2_stored :=
  if zlen data <? EVF2_FILE_HEADER_SIZE + EVF2_SECTION_DESCRIPTOR_SIZE then final
  else if idx =? sat_sub n 1 then stored_of data else final.

Lemma reports_v2_header data idx : 8 <= zlen data -> reports (fun _ => True) (check_v2_header data idx).
Proof.
  intros Hd. unfold check_v2_header. eapply reports_bind; [apply reports_index_range; lia|].
  intros sig _. apply reports_then; [auto with ewf|]. apply reports_then; [|auto with ewf].
  destruct (_ =? 0); auto with ewf.
Qed.

Lemma reports_analyse_segment_v2 n idx data final :
  zlen data <= i64_max ->
  reports (fun final' => final' = next_final n idx data final) (analyse_segment_v2 n idx data final).
Proof.
  intros Hd. unfold analyse_segment_v2, next_final. destruct (_ <? _) eqn:E; bool_hyps.
  { apply reports_then; [auto with ewf|by apply reports_ret]. }
  unfold EVF2_FILE_HEADER_SIZE, EVF2_SECTION_DESCRIPTOR_SIZE in E.
  apply reports_then; [apply reports_v2_header; lia|].
  eapply reports_bind; [apply reports_value, (walk_v2_found data Hd)|]. cbn beta. intros s [_ Hs].
  assert (scan_of data = s) as Hscan by (unfold scan_of; by rewrite Hs).
  do 2 (apply reports_then; [auto with ewf|]). unfold stored_of. rewrite Hscan.
  destruct (chunk_table_body s) as [[a b]|]; [|by apply reports_ret].
  eapply reports_bind; [by apply reports_verify_data|]. intros r _. by apply reports_ret.
Qed.

Lemma reports_analyse_segments_v2 n segs final :
  Forall (fun p => zlen p.2 <= i64_max) segs ->
  reports (fun final' => final' = fold_left (fun f p => next_final n p.1 p.2 f) segs final)
    (analyse_segments_v2 n segs final).
Proof.
  intros Hs. revert final. induction Hs as [|[idx data] segs Hd _ IH]; intros final; [by apply reports_ret|].
  cbn [analyse_segments_v2 fold_left fst snd].
  eapply reports_bind; [by apply reports_analyse_segment_v2|]. cbn beta. intros f ->. apply IH.
Qed.

(** Only the last segment sets the stored hashes. *)
Definition last_stored (segs : list (list byte)) : v2_stored :=
  match last segs with
  | Some d => if zlen d <? EVF2_FILE_HEADER_SIZE + EVF2_SECTION_DESCRIPTOR_SIZE
              then no_stored else stored_of d
  | None => no_stored
  end.

Lemma fold_next_final segs k n :
  0 <= k -> n = k + zlen segs ->
  fold_left (fun f p => next_final n p.1 p.2 f) (enumerate_from k segs) no_stored = last_stored segs.
Proof.
  revert k. induction segs as [|d segs IH]; intros k Hk Hn; [done|]. rewrite zlen_cons in Hn.
  cbn [enumerate_from fold_left fst snd]. destruct segs as [|d' segs].
  - unfold last_stored, next_final. cbn [enumerate_from fold_left last].
    change (zlen (@nil (list byte))) with 0 in Hn. rewrite (proj2 (Z.eqb_eq k _)); [done|].
    unfold sat_sub. lia.
  - rewrite zlen_cons in Hn. pose proof (zlen_nonneg segs).
    assert (next_final n k d no_stored = no_stored) as ->.
    { unfold next_final, sat_sub. destruct (_ <? _); [done|]. by rewrite (proj2 (Z.eqb_neq k _)) by lia. }
    rewrite (IH (k + 1)); [done|lia|rewrite zlen_cons; lia].
Qed.

(** The verdicts on hashes [c]. *)
Definition verdict_v2 (segs : list (list byte)) (c : ComputedHashes) (ex : expected_hashes)
    : list event :=
  mismatch_if HashMismatch (hash_md5 c) (final_stored_md5 (last_stored segs))
  ++ mismatch_if DigestSha1Mismatch (hash_sha1 c) (final_stored_sha1 (last_stored segs))
  ++ mismatch_if DigestSha256Mismatch (hash_sha256 c) (final_stored_sha256 (last_stored segs))
  ++ external_events c ex.

Lemma short_enough_enumerate segs :
  short_enough segs -> Forall (fun p => zlen p.2 <= i64_max) (enumerate segs).
Proof.
  intros Hs. unfold enumerate. generalize 0.
  induction Hs as [|d segs Hd _ IH]; intros k; constructor; [done|apply IH].
Qed.

Lemma analyse_v2_run segs :
  short_enough segs ->
  exists es computed, Forall internal es /\ compute_hashes_ewf2 segs = Ok computed /\
    forall ex log, analyse_all_ewf2_impl segs ex log =
      (Ok tt, log ++ es ++ match computed with Some c => verdict_v2 segs c ex | None => [] end).
Proof.
  intros Hs. destruct (compute_hashes_v2_ok segs Hs) as [computed Hc].
  destruct (reports_analyse_segments_v2 (zlen segs) (enumerate segs) no_stored
              (short_enough_enumerate segs Hs)) as (final & es & Hf & Hes & Hrun).
  unfold enumerate in Hf. rewrite fold_next_final in Hf by lia.
  exists es, computed. split; [done|]. split; [done|]. intros ex log.
  unfold analyse_all_ewf2_impl. fold no_stored. rewrite stateful_bind_run, Hrun. subst final.
  unfold finish_v2. rewrite Hc, stateful_lift_run. destruct computed as [c|]; [|by rewrite app_nil_r].
  do 3 rewrite stateful_bind_run, check_stored_run. rewrite check_external_run. unfold verdict_v2.
  by rewrite !app_assoc.
Qed.
End Safe.
