(* ===== verification/IntegrityApi.v ===== *)
(** What the public analysers promise, on either format: the theorems about
    [EwfIntegrity] and [EwfIntegrityPath]. *)

From S2P Require Import Prelude Text Extern Types Sections Ewf2 Path Anomaly.
From S2P Require Import IntegrityV1 IntegrityV1Props IntegrityV2 Integrity IntegrityProps.

(** An anomaly that compares a hash of the media with a reference the caller gave. *)
Definition is_external (a : EwfIntegrityAnomaly) : bool :=
  match a with
  | ExternalMd5Mismatch _ _ | ExternalSha1Mismatch _ _ | ExternalSha256Mismatch _ _ => true
  | _ => false
  end.

Definition external_of (as_ : list EwfIntegrityAnomaly) : list EwfIntegrityAnomaly :=
  List.filter is_external as_.

(** One mismatch for each reference that differs, MD5 first. *)
Definition external_issues (c : ComputedHashes) (ex : expected_hashes) : list EwfIntegrityAnomaly :=
  issues_of (external_events c ex).

Lemma issues_of_app es1 es2 : issues_of (es1 ++ es2) = issues_of es1 ++ issues_of es2.
Proof. apply omap_app. Qed.

Lemma external_of_app as1 as2 : external_of (as1 ++ as2) = external_of as1 ++ external_of as2.
Proof. apply List.filter_app. Qed.

Lemma external_of_internal es : Forall internal es -> external_of (issues_of es) = [].
Proof.
  induction 1 as [|e es He _ IH]; [done|]. destruct e as [a|p]; [|done].
  cbn. unfold external_of, issues_of in IH. by destruct a; cbn in *.
Qed.

Lemma external_of_mismatch mk computed expected :
  (forall a b, is_external (mk a b) = false) ->
  external_of (issues_of (mismatch_if mk computed expected)) = [].
Proof.
  intros Hmk. unfold mismatch_if. destruct expected as [e|]; [|done]. case_bool_decide; [done|].
  cbn. by rewrite Hmk.
Qed.

Lemma external_of_external mk computed expected :
  (forall a b, is_external (mk a b) = true) ->
  external_of (issues_of (mismatch_if mk computed expected)) =
  issues_of (mismatch_if mk computed expected).
Proof.
  intros Hmk. unfold mismatch_if. destruct expected as [e|]; [|done]. case_bool_decide; [done|].
  cbn. by rewrite Hmk.
Qed.

Lemma external_of_external_events c ex : external_of (issues_of (external_events c ex)) = external_issues c ex.
Proof.
  unfold external_issues, external_events. rewrite !issues_of_app, !external_of_app.
  by rewrite !external_of_external by done.
Qed.

Section Api.
Context `{SafeReadLaws} `{Adler} `{Zlib} `{Digests}.

Lemma external_of_verdict_v1 segs c ex :
  external_of (issues_of (verdict_v1 segs c ex)) = external_issues c ex.
Proof.
  unfold verdict_v1. rewrite !issues_of_app, !external_of_app, external_of_external_events.
  assert (forall d ss h, external_of (issues_of (stored_md5_events d ss h)) = []) as ->.
  { intros d ss h. unfold stored_md5_events. destruct (find_section _ ss); [|done].
    by apply external_of_mismatch. }
  assert (forall d ss h, external_of (issues_of (stored_sha1_events d ss h)) = []) as ->; [|done].
  intros d ss h. unfold stored_sha1_events. destruct (find_section _ ss); [|done].
  by apply external_of_mismatch.
Qed.

Lemma external_of_verdict_v2 segs c ex :
  external_of (issues_of (verdict_v2 segs c ex)) = external_issues c ex.
Proof.
  unfold verdict_v2. rewrite !issues_of_app, !external_of_app, external_of_external_events.
  by rewrite !external_of_mismatch by done.
Qed.

Lemma first_is_ewf2_ok segs : exists b, first_is_ewf2 segs = Ok b.
Proof.
  unfold first_is_ewf2. destruct (8 <=? _) eqn:E; bool_hyps; [|by eexists].
  unfold index_range. rewrite slice_some by lia. by eexists.
Qed.

(** One analysis, whichever format and entry point: the log of the analysis and the
    digests of [compute_hashes]. *)
Lemma api_run segs ex :
  short_enough segs ->
  exists v2 es o, first_is_ewf2 segs = Ok v2 /\
    compute_hashes (EwfIntegrity_from_segments segs) = Ok o /\
    logged (if v2 : bool then analyse_all_ewf2_impl segs ex else analyse_all_ewf1 segs ex) = Ok es /\
    logged (if v2 : bool then analyse_all_ewf2_impl segs ex
            else analyse_all_ewf1_with_progress segs ex) = Ok es /\
    forall c, o = Some c -> external_of (issues_of es) = external_issues c ex.
Proof.
  intros Hs. destruct (first_is_ewf2_ok segs) as [v2 Hv2]. unfold compute_hashes, logged.
  cbn [segments EwfIntegrity_from_segments]. rewrite Hv2. cbn [mbind outcome_bind].
  destruct v2.
  - destruct (analyse_v2_run segs Hs) as (es & o & Hes & Ho & Hrun).
    eexists true, _, o. split; [done|]. split; [done|]. rewrite Hrun.
    split; [done|]. split; [done|]. intros c ->. cbn [app].
    by rewrite issues_of_app, external_of_app, external_of_internal, external_of_verdict_v2.
  - destruct (analyse_v1_run segs Hs) as (es & Hes & Hrun).
    destruct (compute_hashes_v1_run segs Hs) as (o & es' & Ho & _ & Hrun').
    eexists false, _, o. split; [done|]. unfold value_of. rewrite Hrun', with_progress_v1, Hrun.
    split; [done|]. split; [done|]. split; [done|]. intros c ->. destruct Ho as (g & -> & ->).
    cbn [app]. by rewrite issues_of_app, external_of_app, external_of_internal, external_of_verdict_v1.
Qed.

(** C15: the EWF v2 analyser survives any evidence and judges the hashes
    [compute_hashes] returns.  For every list of segments both end without a panic -
    the backward walk and every chunk loop terminate and every index is in range -
    and the analysis ends with the verdicts on those digests, against the hashes
    stored in the last segment and the external references, reporting no other
    verdict; without digests there is no verdict at all. *)
Theorem analyse_ewf2_spec segs :
  short_enough segs ->
  exists es computed, Forall internal es /\ compute_hashes_ewf2 segs = Ok computed /\
    forall ex, analyse_all_ewf2_impl segs ex [] =
      (Ok tt, es ++ match computed with Some c => verdict_v2 segs c ex | None => [] end).
Proof.
  intros Hs. destruct (analyse_v2_run segs Hs) as (es & computed & Hes & Hc & Hrun).
  exists es, computed. split; [done|]. split; [done|]. intros ex. apply Hrun.
Qed.

(** The two EWF v2 hashing loops agree.  On an image of one segment, the digests
    the verification of the chunk table found by the analysis returns are those of
    [compute_hashes], whenever the latter returns any. *)
Theorem ewf2_hashing_agrees data ct_start ct_end c :
  zlen data <= i64_max -> chunk_table_body (scan_of data) = Some (ct_start, ct_end) ->
  compute_hashes_ewf2 [data] = Ok (Some c) ->
  value (verify_ewf2_sector_data data ct_start ct_end None None None) = Some (Some c).
Proof.
  intros Hd Htab. destruct (compute_segment_spec data [] false Hd) as (body & Hbody & Hseg).
  pose proof (reports_value _ _ (walk_v2_found data Hd)) as (s & es & [Hfound Hs] & _ & _).
  assert (scan_of data = s) as Hscan by (unfold scan_of; by rewrite Hs).
  rewrite Hscan in Htab. rewrite Hfound, Htab in Hbody. injection Hbody as <-.
  unfold compute_hashes_ewf2. cbn [compute_v2_segments]. rewrite Hseg.
  destruct (zlen data <? _); [done|]. cbn [mbind option_bind].
  destruct (reports_verify_data data ct_start ct_end Hd) as (r & es' & Hr & _ & Hrun).
  unfold value. rewrite Hrun. cbn [fst].
  destruct (usable_table data (ct_start, ct_end)) as [tbl|]; [|done].
  destruct Hr as (fed & -> & Hfed). destruct (Hfed false) as (found' & Hrun'). rewrite Hrun'.
  cbn [mbind outcome_bind]. destruct found'; [|done]. by intros [= <-].
Qed.

(** C29: the contract of the public analyser on either format.  For every image and
    references, [analyse], [analyse_with_progress] and [compute_hashes] end without
    a panic, the first two return the same anomalies, and when the last returns
    digests the external mismatches among the anomalies are exactly the references
    that differ from those digests. *)
Theorem analyse_contract self :
  short_enough (segments self) ->
  exists issues snapshots o,
    analyse self = Ok issues /\ analyse_with_progress self = Ok (issues, snapshots) /\
    compute_hashes self = Ok o /\
    forall c, o = Some c -> external_of issues = external_issues c (expected self).
Proof.
  intros Hs. destruct (api_run (segments self) (expected self) Hs) as (v2 & es & o & Hv2 & Hc & Ha & Hp & Hex).
  exists (issues_of es), (progress_of es), o. unfold analyse, analyse_with_progress.
  rewrite Hv2. cbn [mbind outcome_bind]. rewrite Ha, Hp. split; [done|]. split; [done|].
  split; [|done]. unfold compute_hashes in *. cbn [segments EwfIntegrity_from_segments] in Hc.
  by rewrite Hv2 in Hc |- *.
Qed.

Section Paths.
Variable exists_ : text -> bool.
Variable open_map : text -> outcome io_error (list byte).

(** The path-based checker carries every reference over. *)
Lemma path_checker_eq self segs :
  path_checker self segs = {| segments := segs; expected := ip_expected self |}.
Proof.
  unfold path_checker. destruct self as [paths [m s1 s2]]. by destruct m, s1, s2.
Qed.

(** The path-based analyser is the slice-based one on the content of the files.
    When every segment maps, in order, each entry point returns what [EwfIntegrity]
    returns on those bytes with the same references, the combined call returning
    both the anomalies and the digests (zeroes when there are none). *)
Theorem path_analysis_spec self contents :
  Forall2 (fun p d => open_map p = Ok d) (ip_segment_paths self) contents ->
  short_enough contents ->
  exists issues snapshots o,
    path_analyse open_map self = Ok issues /\
    path_analyse_with_progress open_map self = Ok (issues, snapshots) /\
    path_compute_hashes open_map self = Ok o /\
    analyse_and_compute_hashes open_map self = Ok (issues, default zero_hashes o) /\
    analyse {| segments := contents; expected := ip_expected self |} = Ok issues /\
    compute_hashes (EwfIntegrity_from_segments contents) = Ok o.
Proof.
  intros Hmap Hs. assert (map_segments open_map self = Ok contents) as Hm by by apply mapM_outcome_ok.
  destruct (api_run contents (ip_expected self) Hs) as (v2 & es & o & Hv2 & Hc & Ha & Hp & _).
  exists (issues_of es), (progress_of es), o.
  assert (analyse {| segments := contents; expected := ip_expected self |} = Ok (issues_of es)) as Han.
  { unfold analyse. cbn [segments expected]. rewrite Hv2. cbn [mbind outcome_bind]. by rewrite Ha. }
  assert (analyse_with_progress {| segments := contents; expected := ip_expected self |} =
          Ok (issues_of es, progress_of es)) as Hanp.
  { unfold analyse_with_progress. cbn [segments expected]. rewrite Hv2. cbn [mbind outcome_bind].
    by rewrite Hp. }
  unfold path_analyse, path_analyse_with_progress, path_compute_hashes, analyse_and_compute_hashes.
  rewrite Hm. cbn [mbind outcome_bind]. rewrite !path_checker_eq, Han, Hanp, Hc. done.
Qed.
(** ** Discovery *)

Lemma discover_loop_spec fuel c n :
  1 <= n <= 999 -> 999 - n < Z.of_nat fuel ->
  exists k, n - 1 <= k <= 999 /\ discover_loop exists_ fuel c n = map c (range n (k + 1)) /\
    Forall (fun i => exists_ (c i) = true) (range n (k + 1)) /\
    (k = 999 \/ exists_ (c (k + 1)) = false).
Proof.
  revert n. induction fuel as [|fuel IH]; intros n Hn Hf; [lia|]. cbn [discover_loop].
  destruct (exists_ (c n)) eqn:Ec.
  - destruct (999 <=? n) eqn:E9; bool_hyps.
    + exists n. unfold range. replace (n + 1 - n) with 1 by lia. cbn. split; [lia|].
      split; [done|]. split; [by repeat constructor|]. left. lia.
    + destruct (IH (n + 1)) as (k & Hk & -> & Hall & Hend); [lia..|].
      exists k. split; [lia|]. unfold range in *. rewrite (seqZ_cons n) by lia.
      replace (Z.succ n) with (n + 1) by lia.
      replace (Z.pred (k + 1 - n)) with (k + 1 - (n + 1)) by lia.
      split; [done|]. split; [by constructor|done].
  - exists (n - 1). unfold range. replace (n - 1 + 1 - n) with 0 by lia. cbn.
    split; [lia|]. split; [done|]. split; [done|]. right. by replace (n - 1 + 1) with n by lia.
Qed.

(** The path of segment [n] of the set [base] belongs to. *)
Definition sibling (base : text) (n : Z) : option text :=
  ext ← extension base;
  '(p, x, d) ← parse_ewf_extension ext;
  stem ← file_stem base;
  Some (path_join (default (str ".") (parent base)) (stem ++ dot :: make_ewf_extension p x d n)).

(** Segment discovery.  Discovery never returns an empty list; unless it returns
    the given path alone, it returns the paths of the segments 1 to [k] of its set,
    in order, all of which exist, and stops at 999 or where the next is missing:
    never at the letter extensions the documentation names. *)
Theorem discover_segments_spec base :
  let l := discover_segments exists_ base in
  l = [base] \/
  exists k, 1 <= k <= 999 /\ map Some l = map (sibling base) (range 1 (k + 1)) /\
    Forall (fun p => exists_ p = true) l /\
    (k = 999 \/ exists p, sibling base (k + 1) = Some p /\ exists_ p = false).
Proof.
  cbn zeta. unfold discover_segments, sibling.
  destruct (extension base) as [ext|]; [|by left].
  cbn [mbind option_bind]. destruct (parse_ewf_extension ext) as [[[p x] d]|]; [|by left].
  cbn [mbind option_bind]. destruct (file_stem base) as [stem|]; [|by left]. cbn [mbind option_bind].
  set (c n := path_join _ (stem ++ dot :: make_ewf_extension p x d n)).
  destruct (discover_loop_spec 1000 c 1) as (k & Hk & Heq & Hall & Hend); [lia..|].
  rewrite Heq. destruct (decide (k = 0)) as [->|Hne]; [by left|]. right. exists k.
  split; [lia|]. assert (Hne' : map c (range 1 (k + 1)) <> []).
  { unfold range. rewrite seqZ_cons by lia. done. }
  destruct (map c (range 1 (k + 1))) as [|q l] eqn:El; [done|]. rewrite <-El.
  split; [by rewrite map_map|]. split; [by apply Forall_map|].
  destruct Hend as [->|Hend]; [by left|]. right. by eexists.
Qed.
End Paths.
End Api.
