(* ===== verification/Recover.v ===== *)
(** Tolerant recovery of a damaged EWF v1 image: [forensic/src/recover.rs].

    The output file is the list of the bytes written to it.  Writing can fail: the
    parameter [device] is the error, if any, of writing some bytes after those
    already written, [create] and [flush] those of creating and flushing the file.
    The text of an error is not modelled. *)

From S2P Require Import Prelude Text Extern Types Sections Path.

Inductive recover_error :=
| NoSegments
| NotEwfV1
| NoGeometry
| ImplausibleChunkSize (chunk_size : Z)
| RecoverIo (e : io_error).

Record RecoveryReport := {
  rr_image_size : Z;
  rr_chunk_size : Z;
  rr_chunks_total : Z;
  rr_recovered_primary : Z;
  rr_recovered_table2 : Z;
  rr_zero_filled : Z;
  rr_crc_flagged : Z;
  rr_bytes_recovered : Z;
  rr_bytes_zero_filled : Z;
  rr_truncation_offset : option Z;
  rr_lost_chunks : list Z;
  rr_crc_flagged_chunks : list Z;
}.

Record section := {
  s_type_name : text;
  s_offset : Z;
  s_size : Z;
}.

Record Geometry := {
  geo_chunk_count : Z;
  geo_sectors_per_chunk : Z;
  geo_bytes_per_sector : Z;
  geo_sector_count : Z;
}.

Definition is_type (n : text) (s : section) : bool := text_eqb (s_type_name s) n.

Definition RECOVER_MAX_CHUNK_SIZE : Z := 64 * 1024 * 1024.

Section Recover.
Context `{SafeRead} `{Adler} `{Zlib}.



(** The loop from [pos].  Running out of fuel is a [Panic]. *)
Fixpoint walk_sections_loop (fuel : nat) (data : list byte) (pos : Z) (sections : list section)
    : outcome Empty_set (list section * option Z) :=
  match fuel with
  | O => Panic
  | S fuel =>
    let file_size := zlen data in
    if zlen data <? sat_add pos SECTION_DESCRIPTOR_SIZE
    then Ok (sections, if pos <? file_size then Some pos else None)
    else
      raw ← index_range data pos (sat_add pos SECTION_DESCRIPTOR_SIZE);
      match SectionDescriptor_parse raw pos with
      | Panic => Panic
      | Err _ => Ok (sections, Some pos)
      | Ok desc =>
        let sections := sections ++ [{| s_type_name := section_type desc; s_offset := pos;
                                        s_size := section_size desc |}] in
        if text_eqb (section_type desc) (str "done") || text_eqb (section_type desc) (str "next")
        then Ok (sections, None)
        else if (next desc =? 0) || (next desc <=? pos) then Ok (sections, None)
        else if file_size <? next desc then Ok (sections, Some (next desc))
        else walk_sections_loop fuel data (next desc) sections
      end
  end.

Definition walk_sections (data : list byte) : outcome Empty_set (list section * option Z) :=
  walk_sections_loop (S (length data)) data FILE_HEADER_SIZE [].

Definition read_geometry (data : list byte) (sections : list section) : outcome Empty_set (option Geometry) :=
  match List.find (fun s => is_type (str "volume") s || is_type (str "disk") s) sections with
  | None => Ok None
  | Some vol =>
    let data_start := sat_add (s_offset vol) SECTION_DESCRIPTOR_SIZE in
    let body_len := sat_sub (s_size vol) SECTION_DESCRIPTOR_SIZE in
    let vol_end := Z.min (sat_add data_start body_len) (zlen data) in
    match slice data data_start vol_end with
    | None => Ok None
    | Some body =>
      match EwfVolume_parse body with
      | Panic => Panic
      | Err _ => Ok None
      | Ok parsed =>
        if (sectors_per_chunk parsed =? 0) || (bytes_per_sector parsed =? 0) then Ok None
        else Ok (Some {| geo_chunk_count := chunk_count parsed;
                         geo_sectors_per_chunk := sectors_per_chunk parsed;
                         geo_bytes_per_sector := bytes_per_sector parsed;
                         geo_sector_count := sector_count parsed |})
      end
    end
  end.

(** ** The tables *)
Record TableRef := {
  tr_entry_count : Z;
  tr_base_offset : Z;
  tr_entries_file_offset : Z;
}.

Definition table_ref (data : list byte) (sections : list section) (name : text)
    : outcome Empty_set (option TableRef) :=
  match List.find (is_type name) sections with
  | None => Ok None
  | Some sec =>
    let hdr_start := sat_add (s_offset sec) SECTION_DESCRIPTOR_SIZE in
    match slice data hdr_start (sat_add hdr_start TABLE_HEADER_SIZE) with
    | None => Ok None
    | Some hdr =>
      match TableHeader_parse hdr with
      | Panic => Panic
      | Err _ => Ok None
      | Ok header =>
        Ok (Some {| tr_entry_count := entry_count header; tr_base_offset := base_offset header;
                    tr_entries_file_offset := sat_add hdr_start TABLE_HEADER_SIZE |})
      end
    end
  end.

Definition sectors_data_end (sections : list section) (data_len : Z) : option Z :=
  sec ← List.find (is_type (str "sectors")) sections;
  Some (Z.min (sat_add (s_offset sec) (s_size sec)) data_len).

(** The compressed flag and the absolute offset of entry [i]. *)
Definition entry_at (data : list byte) (t : TableRef) (i : Z) : outcome Empty_set (option (bool * Z)) :=
  let off := sat_add (tr_entries_file_offset t) (sat_mul i 4) in
  match slice data off (sat_add off 4) with
  | None => Ok None
  | Some bytes =>
    match TableEntry_parse bytes with
    | Panic => Panic
    | Err _ => Ok None
    | Ok e => Ok (Some (compressed e, sat_add (tr_base_offset t) (chunk_offset e)))
    end
  end.

Definition chunk_range (data : list byte) (t : TableRef) (i : Z) (sectors_end : option Z)
    : outcome Empty_set (option (Z * Z * bool)) :=
  entry ← entry_at data t i;
  match entry with
  | None => Ok None
  | Some (compressed, start) =>
    end_ ← (if sat_add i 1 <? tr_entry_count t then
              next_entry ← entry_at data t (sat_add i 1);
              Ok (option_map snd next_entry)
            else Ok (Some (default (zlen data) sectors_end)));
    match end_ with
    | None => Ok None
    | Some end_ =>
      if (end_ <=? start) || (zlen data <? end_) then Ok None
      else Ok (Some (start, end_, compressed))
    end
  end.

(** The bytes of a chunk, at most [chunk_size], and whether its checksum holds. *)
Definition decode_chunk (raw : list byte) (compressed : bool) (chunk_size : Z)
    : outcome Empty_set (option (list byte * bool)) :=
  if compressed then
    let limit := sat_add chunk_size 1 in
    match zlib_read_to_end raw (Some limit) with
    | None => Ok None
    | Some [] => Ok None
    | Some out => Ok (Some (ztake chunk_size out, true))
    end
  else
    crc_ok ← (if sat_add chunk_size 4 <=? zlen raw then
                b0 ← index raw chunk_size;
                b1 ← index raw (chunk_size + 1);
                b2 ← index raw (chunk_size + 2);
                b3 ← index raw (chunk_size + 3);
                body ← index_range raw 0 chunk_size;
                Ok (adler32 body =? le_combine [b0; b1; b2; b3])
              else Ok true);
    let take := Z.min (zlen raw) chunk_size in
    bytes ← index_range raw 0 take;
    Ok (Some (bytes, crc_ok)).

(** The loop of [locate_chunk], [running] chunks into the image at segment [seg_idx]. *)
Fixpoint locate_loop (counts : list Z) (seg_idx running idx : Z) : option (Z * Z) :=
  match counts with
  | [] => None
  | count :: counts =>
    if idx <? sat_add running count then Some (seg_idx, sat_sub idx running)
    else locate_loop counts (seg_idx + 1) (sat_add running count) idx
  end.

Definition locate_chunk (seg_entry_counts : list Z) (idx : Z) : option (Z * Z) :=
  locate_loop seg_entry_counts 0 0 idx.

(** ** The plan of a recovery: what is read of the segments before the first chunk *)
Record segment_plan := {
  sp_data : list byte;
  sp_primary : option TableRef;
  sp_fallback : option TableRef;
  sp_sectors_end : option Z;
}.

(** [p.as_ref().or(f.as_ref()).map_or(0, ..)] *)
Definition plan_count (p : segment_plan) : Z :=
  match sp_primary p, sp_fallback p with
  | Some t, _ => tr_entry_count t
  | None, Some t => tr_entry_count t
  | None, None => 0
  end.

Definition plan_segment (seg : list byte) (sections : list section) : outcome Empty_set segment_plan :=
  p ← table_ref seg sections (str "table");
  f ← table_ref seg sections (str "table2");
  Ok {| sp_data := seg; sp_primary := p; sp_fallback := f;
        sp_sectors_end := sectors_data_end sections (zlen seg) |}.

(** The closure [decode_from] on a table of a segment. *)
Definition decode_from (chunk_size : Z) (p : segment_plan) (table : option TableRef) (local : Z)
    : outcome Empty_set (option (list byte * bool)) :=
  match table with
  | None => Ok None
  | Some t =>
    r ← chunk_range (sp_data p) t local (sp_sectors_end p);
    match r with
    | None => Ok None
    | Some (s, e, c) => raw ← index_range (sp_data p) s e; decode_chunk raw c chunk_size
    end
  end.

(** The bytes of a chunk, whether they come from [table2] and whether the checksum
    holds: the primary table when it is good, else the better of the two. *)
Definition decode_at (plans : list segment_plan) (chunk_size idx : Z)
    : outcome Empty_set (option (list byte * bool * bool)) :=
  match locate_chunk (map plan_count plans) idx with
  | None => Ok None
  | Some (seg_idx, local) =>
    p ← index plans seg_idx;
    from_primary ← decode_from chunk_size p (sp_primary p) local;
    match from_primary with
    | Some (bytes, true) => Ok (Some (bytes, false, true))
    | other =>
      from_t2 ← decode_from chunk_size p (sp_fallback p) local;
      Ok match other, from_t2 with
         | _, Some (bytes, true) => Some (bytes, true, true)
         | Some (bytes, _), _ => Some (bytes, false, false)
         | None, Some (bytes, false) => Some (bytes, true, false)
         | None, None => None
         end
    end
  end.
End Recover.

(** ** Writing *)
Section Output.
Context `{SafeRead} `{Adler} `{Zlib}.
Variable device : list byte -> list byte -> option io_error.

Abbreviation writer := (stateful (list byte) recover_error).

Definition write_all (bytes : list byte) : writer unit := fun out =>
  match device out bytes with
  | Some e => (Err (RecoverIo e), out)
  | None => (Ok tt, out ++ bytes)
  end.

Definition BLOCK : Z := 8 * 1024.

(** Every round writes at least one byte of the [left] zeros. *)
Fixpoint write_zeros_loop (fuel : nat) (left : Z) : writer unit :=
  match fuel with
  | O => if 0 <? left then lift Panic else mret tt
  | S fuel =>
    if 0 <? left then
      let take := Z.min left BLOCK in
      block ← lift (index_range (zeros BLOCK) 0 take);
      _ ← write_all block;
      write_zeros_loop fuel (sat_sub left take)
    else mret tt
  end.

Definition write_zeros (n : Z) : writer unit := write_zeros_loop (Z.to_nat n) n.

(** ** The recovery *)

(** The counters of [recover_segments]. *)
Record recovery := {
  rc_primary : Z;
  rc_table2 : Z;
  rc_zero_filled : Z;
  rc_crc_flagged : Z;
  rc_bytes_recovered : Z;
  rc_bytes_zero_filled : Z;
  rc_lost_chunks : list Z;
  rc_crc_flagged_chunks : list Z;
  rc_remaining : Z;
}.

Definition recovery_start (image_size : Z) : recovery :=
  {| rc_primary := 0; rc_table2 := 0; rc_zero_filled := 0; rc_crc_flagged := 0;
     rc_bytes_recovered := 0; rc_bytes_zero_filled := 0; rc_lost_chunks := [];
     rc_crc_flagged_chunks := []; rc_remaining := image_size |}.

(** [truncate] or [resize] to the logical length. *)
Definition fit (logical : Z) (bytes : list byte) : list byte :=
  if logical <? zlen bytes then ztake logical bytes
  else if zlen bytes <? logical then bytes ++ zeros (logical - zlen bytes) else bytes.

(** One round of the chunk loop. *)
Definition recover_chunk (plans : list segment_plan) (chunk_size idx : Z) (st : recovery)
    : writer recovery :=
  let logical := Z.min (rc_remaining st) chunk_size in
  decoded ← lift (infallible (decode_at plans chunk_size idx));
  match decoded with
  | Some (bytes, via_table2, crc_ok) =>
    _ ← write_all (fit logical bytes);
    mret {| rc_primary := if via_table2 : bool then rc_primary st else sat_add (rc_primary st) 1;
            rc_table2 := if via_table2 then sat_add (rc_table2 st) 1 else rc_table2 st;
            rc_zero_filled := rc_zero_filled st;
            rc_crc_flagged := if crc_ok : bool then rc_crc_flagged st
                              else sat_add (rc_crc_flagged st) 1;
            rc_bytes_recovered := sat_add (rc_bytes_recovered st) logical;
            rc_bytes_zero_filled := rc_bytes_zero_filled st;
            rc_lost_chunks := rc_lost_chunks st;
            rc_crc_flagged_chunks := if crc_ok then rc_crc_flagged_chunks st
                                     else rc_crc_flagged_chunks st ++ [idx];
            rc_remaining := sat_sub (rc_remaining st) logical |}
  | None =>
    _ ← write_zeros logical;
    mret {| rc_primary := rc_primary st; rc_table2 := rc_table2 st;
            rc_zero_filled := sat_add (rc_zero_filled st) 1;
            rc_crc_flagged := rc_crc_flagged st;
            rc_bytes_recovered := rc_bytes_recovered st;
            rc_bytes_zero_filled := sat_add (rc_bytes_zero_filled st) logical;
            rc_lost_chunks := rc_lost_chunks st ++ [idx];
            rc_crc_flagged_chunks := rc_crc_flagged_chunks st;
            rc_remaining := sat_sub (rc_remaining st) logical |}
  end.

Fixpoint recover_chunks (plans : list segment_plan) (chunk_size : Z) (indices : list Z)
    (st : recovery) : writer recovery :=
  match indices with
  | [] => mret st
  | idx :: indices =>
    if rc_remaining st =? 0 then mret st
    else st ← recover_chunk plans chunk_size idx st; recover_chunks plans chunk_size indices st
  end.

(** The [while bytes_remaining > 0] loop: every round writes at least one byte. *)
Fixpoint fill_rest (fuel : nat) (chunk_size : Z) (st : recovery) : writer recovery :=
  match fuel with
  | O => if 0 <? rc_remaining st then lift Panic else mret st
  | S fuel =>
    if 0 <? rc_remaining st then
      let logical := Z.min (rc_remaining st) chunk_size in
      _ ← write_zeros logical;
      fill_rest fuel chunk_size
        {| rc_primary := rc_primary st; rc_table2 := rc_table2 st;
           rc_zero_filled := rc_zero_filled st; rc_crc_flagged := rc_crc_flagged st;
           rc_bytes_recovered := rc_bytes_recovered st;
           rc_bytes_zero_filled := sat_add (rc_bytes_zero_filled st) logical;
           rc_lost_chunks := rc_lost_chunks st;
           rc_crc_flagged_chunks := rc_crc_flagged_chunks st;
           rc_remaining := sat_sub (rc_remaining st) logical |}
    else mret st
  end.

Definition report_of (image_size chunk_size chunks_total : Z) (truncation : option Z)
    (st : recovery) : RecoveryReport :=
  {| rr_image_size := image_size; rr_chunk_size := chunk_size; rr_chunks_total := chunks_total;
     rr_recovered_primary := rc_primary st; rr_recovered_table2 := rc_table2 st;
     rr_zero_filled := rc_zero_filled st; rr_crc_flagged := rc_crc_flagged st;
     rr_bytes_recovered := rc_bytes_recovered st; rr_bytes_zero_filled := rc_bytes_zero_filled st;
     rr_truncation_offset := truncation; rr_lost_chunks := rc_lost_chunks st;
     rr_crc_flagged_chunks := rc_crc_flagged_chunks st |}.

(** The first truncation among the walks. *)
Definition first_truncation (walks : list (list section * option Z)) : option Z :=
  fold_left (fun t w => match t with Some _ => t | None => snd w end) walks None.

(** What precedes the creation of the output: the geometry and the plans. *)
Record recovery_plan := {
  pl_geometry : Geometry;
  pl_chunk_size : Z;
  pl_truncation : option Z;
  pl_segments : list segment_plan;
}.

Definition plan_recovery (segments : list (list byte)) : outcome recover_error recovery_plan :=
  let first := default [] (head segments) in
  if (zlen first <? FILE_HEADER_SIZE)
     || negb (bool_decide (ztake (zlen EVF_SIGNATURE) first = EVF_SIGNATURE))
  then Err NotEwfV1
  else
    walks ← infallible (mapM walk_sections segments);
    sections0 ← index walks 0;
    geom ← infallible (read_geometry first (fst sections0));
    match geom with
    | None => Err NoGeometry
    | Some geom =>
      let chunk_size := sat_mul (geo_sectors_per_chunk geom) (geo_bytes_per_sector geom) in
      if (chunk_size =? 0) || (RECOVER_MAX_CHUNK_SIZE <? chunk_size)
      then Err (ImplausibleChunkSize chunk_size)
      else
        plans ← infallible (mapM (fun '(seg, walk) => plan_segment seg (fst walk))
                              (zip segments walks));
        Ok {| pl_geometry := geom; pl_chunk_size := chunk_size;
              pl_truncation := first_truncation walks; pl_segments := plans |}
    end.

Definition pl_image_size (p : recovery_plan) : Z :=
  sat_mul (geo_sector_count (pl_geometry p)) (geo_bytes_per_sector (pl_geometry p)).

Variable create flush : option io_error.

Definition io_step (failure : option io_error) : writer unit :=
  match failure with Some e => lift (Err (RecoverIo e)) | None => mret tt end.

Definition recover_segments (segments : list (list byte)) : writer RecoveryReport :=
  plan ← lift (plan_recovery segments);
  let image_size := pl_image_size plan in
  let chunk_size := pl_chunk_size plan in
  let total_chunks := geo_chunk_count (pl_geometry plan) in
  _ ← io_step create;
  st ← recover_chunks (pl_segments plan) chunk_size (range 0 total_chunks)
         (recovery_start image_size);
  st ← fill_rest (Z.to_nat (rc_remaining st)) chunk_size st;
  _ ← io_step flush;
  mret (report_of image_size chunk_size total_chunks (pl_truncation plan) st).

(** ** [EwfRecover] *)
Variable open_map : text -> outcome io_error (list byte).

Definition map_io {A} (m : outcome io_error A) : outcome recover_error A :=
  match m with Ok a => Ok a | Err e => Err (RecoverIo e) | Panic => Panic end.

Definition recover_to_raw (segment_paths : list text) : writer RecoveryReport :=
  match segment_paths with
  | [] => lift (Err NoSegments)
  | _ => segments ← lift (map_io (mapM open_map segment_paths)); recover_segments segments
  end.
End Output.

(** ** Discovery *)
Section Discovery.
Variable exists_ : text -> bool.

(** [format!("E{n:02}")], of either case. *)
Definition segment_extension (upper : bool) (n : Z) : text :=
  let digits := print_dec n in
  (if upper then 69 else 101) :: replicate (2 - length digits) 48 ++ digits.

(** The loop from segment [n]; it goes on while files exist, which bounds it on a
    real file system: [fuel] stands for the number of files there are. *)
Fixpoint sibling_loop (fuel : nat) (base : text) (upper : bool) (n : Z) : option (list text) :=
  match fuel with
  | O => None
  | S fuel =>
    let candidate := with_extension base (segment_extension upper n) in
    if exists_ candidate then cons candidate <$> sibling_loop fuel base upper (sat_add32 n 1)
    else Some []
  end.

Definition discover_segments (fuel : nat) (base : text) : option (list text) :=
  match extension base with
  | None => Some [base]
  | Some ext =>
    let lower := map to_ascii_lower ext in
    match lower with
    | c :: (_ :: _ :: [] as digits) =>
      if negb (c =? 101) || negb (forallb is_ascii_digit digits) then Some [base]
      else
        let upper := match ext with c :: _ => is_ascii_upper c | [] => false end in
        cons base <$> sibling_loop fuel base upper 2
    | _ => Some [base]
    end
  end.
End Discovery.
