(* ===== verification/RecoverProps.v ===== *)
(** Recovery never aborts on a damaged chunk: the output is the whole image, block
    by block what could be decoded or zeroes, and the report accounts for it. *)

From S2P Require Import Prelude Text Extern Types Sections Path Recover.

Section Plan.
Context `{SafeReadLaws} `{Adler} `{Zlib}.

Definition section_ok (data : list byte) (s : section) : Prop :=
  0 <= s_offset s /\ s_offset s + SECTION_DESCRIPTOR_SIZE <= zlen data /\ 0 <= s_size s <= u64_max.

Lemma walk_loop_returns fuel data pos ss :
  zlen data <= i64_max -> 0 <= pos -> zlen data - pos < Z.of_nat fuel -> (0 < fuel)%nat ->
  Forall (section_ok data) ss ->
  returns (fun w => Forall (section_ok data) w.1) (walk_sections_loop fuel data pos ss).
Proof.
  intros Hd. revert pos ss. induction fuel as [|fuel IH]; intros pos ss Hp Hfuel Hpos Hss; [lia|].
  cbn [walk_sections_loop]. unfold SECTION_DESCRIPTOR_SIZE, sat_add in *.
  destruct (_ <? _) eqn:E; bool_hyps; [done|].
  unfold index_range. rewrite slice_some by lia. cbn [or_panic mbind outcome_bind].
  pose proof (descriptor_parse_returns (ztake (Z.min u64_max (pos + 76) - pos) (zdrop pos data)) pos) as Hr.
  destruct (SectionDescriptor_parse _ pos) as [desc| |]; [|done|done]. destruct Hr as (Ho & Hn & Hs).
  set (s := {| s_type_name := _; s_offset := _; s_size := _ |}).
  assert (Hss' : Forall (section_ok data) (ss ++ [s])).
  { apply Forall_app. split; [done|]. constructor; [|done].
    unfold section_ok, SECTION_DESCRIPTOR_SIZE. cbn. lia. }
  destruct (_ || _); [done|]. destruct ((_ =? 0) || _) eqn:E0; [done|]. destruct (_ <? next desc) eqn:E1; [done|].
  bool_hyps. apply IH; (lia || done).
Qed.

Lemma walk_returns data :
  zlen data <= i64_max -> returns (fun w => Forall (section_ok data) w.1) (walk_sections data).
Proof.
  intros Hd. apply walk_loop_returns; [done|done|unfold FILE_HEADER_SIZE, zlen; lia|lia|constructor].
Qed.

Definition geometry_ok (g : Geometry) : Prop :=
  0 <= geo_chunk_count g <= u32_max /\ 0 < geo_sectors_per_chunk g <= u32_max /\
  0 < geo_bytes_per_sector g <= u32_max /\ 0 <= geo_sector_count g <= u64_max.

Lemma geometry_returns data ss :
  returns (fun g => match g with Some g => geometry_ok g | None => True end) (read_geometry data ss).
Proof.
  unfold read_geometry. destruct (List.find _ ss) as [vol|]; [|done].
  destruct (slice data _ _) as [body|]; [|done].
  pose proof (volume_parse_returns body) as Hv. destruct (EwfVolume_parse body) as [v| |]; [|done|done].
  destruct (_ || _) eqn:E; [done|]. bool_hyps. unfold geometry_ok. cbn in *. lia.
Qed.

Definition table_ok (t : TableRef) : Prop :=
  0 <= tr_entry_count t <= u32_max /\ 0 <= tr_base_offset t /\ 0 <= tr_entries_file_offset t.

Definition opt_ok {A} (P : A -> Prop) (o : option A) : Prop :=
  match o with Some a => P a | None => True end.

Lemma table_ref_returns data ss name :
  Forall (section_ok data) ss -> returns (opt_ok table_ok) (table_ref data ss name).
Proof.
  intros Hss. unfold table_ref. destruct (List.find _ ss) as [sec|] eqn:Ef; [|done].
  apply find_some in Ef as [Hin _]. rewrite List.Forall_forall in Hss. specialize (Hss _ Hin).
  unfold section_ok, SECTION_DESCRIPTOR_SIZE in Hss. destruct (slice data _ _) as [hdr|]; [|done].
  pose proof (table_header_parse_returns hdr) as Hh.
  destruct (TableHeader_parse hdr) as [h| |]; [|done|done]. cbn. unfold table_ok. cbn.
  unfold sat_add, SECTION_DESCRIPTOR_SIZE, TABLE_HEADER_SIZE. cbn in Hh. lia.
Qed.

Definition plan_ok (p : segment_plan) : Prop :=
  zlen (sp_data p) <= i64_max /\ opt_ok table_ok (sp_primary p) /\ opt_ok table_ok (sp_fallback p).

Lemma plan_segment_returns seg ss :
  zlen seg <= i64_max -> Forall (section_ok seg) ss -> returns plan_ok (plan_segment seg ss).
Proof.
  intros Hd Hss. unfold plan_segment. eapply returns_bind; [by apply table_ref_returns|].
  cbn beta. intros p Hp. eapply returns_bind; [by apply table_ref_returns|]. cbn beta. intros f Hf. done.
Qed.

(** ** Decoding one chunk *)

Lemma recover_entry_at_returns data t i :
  table_ok t -> returns (opt_ok (fun e => 0 <= e.2)) (entry_at data t i).
Proof.
  intros (_ & Hb & _). unfold entry_at. destruct (slice data _ _) as [bytes|]; [|done].
  pose proof (table_entry_parse_returns bytes) as He.
  destruct (TableEntry_parse bytes) as [e| |]; [|done|done]. cbn in *. unfold sat_add. lia.
Qed.

Lemma chunk_range_returns data t i send :
  table_ok t ->
  returns (opt_ok (fun r => 0 <= r.1.1 < r.1.2 /\ r.1.2 <= zlen data)) (chunk_range data t i send).
Proof.
  intros Ht. unfold chunk_range. eapply returns_bind; [by apply recover_entry_at_returns|].
  cbn beta. intros [[c start]|]; [|done]. intros Hs. cbn in Hs.
  eapply (returns_bind (fun _ => True)).
  - destruct (_ <? _); [|done]. eapply returns_bind; [by apply recover_entry_at_returns|]. done.
  - intros [end_|] _; [|done]. destruct (_ || _) eqn:E; [done|]. bool_hyps. cbn. lia.
Qed.

Lemma decode_chunk_returns raw c cs :
  0 <= cs <= i64_max - 4 ->
  returns (fun _ => True) (decode_chunk raw c cs).
Proof.
  intros Hcs. unfold decode_chunk. destruct c.
  { destruct (zlib_read_to_end raw _) as [[|b out]|]; done. }
  eapply (returns_bind (fun _ => True)).
  - unfold sat_add. destruct (_ <=? _) eqn:E; bool_hyps; [|done].
    repeat (eapply (returns_bind (fun _ => True)); [|intros ? _]);
      try (unfold index, index_range; rewrite ?slice_some by lia;
           match goal with |- context [get raw ?i] => destruct (get_some raw i) as [? ->]; [lia|] end; done).
    + unfold index_range. by rewrite slice_some by lia.
    + done.
  - intros ok _. unfold index_range. pose proof (zlen_nonneg raw). by rewrite slice_some by lia.
Qed.

Lemma decode_from_returns cs p t local :
  plan_ok p -> opt_ok table_ok t -> 0 <= cs <= i64_max - 4 ->
  returns (fun _ => True) (decode_from cs p t local).
Proof.
  intros Hp Ht Hcs. unfold decode_from. destruct t as [t|]; [|done].
  eapply returns_bind; [by apply chunk_range_returns|]. cbn beta. intros [[[s e] c]|]; [|done].
  cbn. intros [Hs He]. unfold index_range. rewrite slice_some by lia. cbn.
  by apply decode_chunk_returns.
Qed.

Lemma locate_loop_range counts seg running idx s l :
  locate_loop counts seg running idx = Some (s, l) -> seg <= s < seg + zlen counts.
Proof.
  revert seg running. induction counts as [|c counts IH]; intros seg running; [done|].
  cbn [locate_loop]. rewrite zlen_cons. pose proof (zlen_nonneg counts).
  destruct (_ <? _); [intros [= <- _]; lia|]. intros Hl%IH. lia.
Qed.

Lemma decode_at_returns plans cs idx :
  Forall plan_ok plans -> 0 <= cs <= i64_max - 4 ->
  returns (fun _ => True) (decode_at plans cs idx).
Proof.
  intros Hp Hcs. unfold decode_at, locate_chunk.
  destruct (locate_loop _ 0 0 idx) as [[seg local]|] eqn:El; [|done].
  apply locate_loop_range in El.
  assert (zlen (map plan_count plans) = zlen plans) as Hl by (unfold zlen; by rewrite length_map).
  rewrite Hl in El. destruct (get_some plans seg) as [p Hget]; [lia|].
  unfold index. rewrite Hget. cbn [or_panic mbind outcome_bind].
  assert (plan_ok p) as Hpok.
  { unfold get in Hget. destruct (_ && _); [|done]. by eapply Forall_lookup_1. }
  eapply returns_bind; [by apply decode_from_returns; [|apply Hpok|]|]. cbn beta. intros from_primary _.
  assert (Hrest : returns (fun _ => True)
     (from_t2 ← decode_from cs p (sp_fallback p) local;
      Ok match from_primary, from_t2 with
         | _, Some (bytes, true) => Some (bytes, true, true)
         | Some (bytes, _), _ => Some (bytes, false, false)
         | None, Some (bytes, false) => Some (bytes, true, false)
         | None, None => None
         end)).
  { eapply returns_bind; [by apply decode_from_returns; [|apply Hpok|]|]. done. }
  by destruct from_primary as [[bytes []]|].
Qed.

(** ** The plan *)

Definition mappable (segs : list (list byte)) : Prop := Forall (fun d => zlen d <= i64_max) segs.

Definition recovery_plan_ok (p : recovery_plan) : Prop :=
  0 < pl_chunk_size p <= RECOVER_MAX_CHUNK_SIZE /\ geometry_ok (pl_geometry p) /\
  Forall plan_ok (pl_segments p).

Lemma returns_infallible {E A} (Q : A -> Prop) (m : outcome Empty_set A) :
  returns Q m -> returns (E:=E) Q (infallible m).
Proof. by destruct m as [a|[]|]. Qed.

Lemma infallible_ok {E A} (m : outcome Empty_set A) a : infallible (E:=E) m = Ok a -> m = Ok a.
Proof. destruct m as [b|[]|]; cbn; [|done]. by intros <-%Ok_inj. Qed.

Lemma walked_zip segs walks :
  mappable segs -> Forall2 (fun d w => walk_sections d = Ok w) segs walks ->
  Forall (fun sw => zlen sw.1 <= i64_max /\ Forall (section_ok sw.1) sw.2.1) (zip segs walks).
Proof.
  intros Hs Hws. induction Hws as [|d w segs walks Hw _ IH]; [constructor|].
  apply Forall_cons in Hs as [Hd Hs]. cbn [zip zip_with]. constructor; [|by apply IH].
  split; [done|]. cbn. by apply (returns_Ok _ _ _ (walk_returns d Hd)).
Qed.

Lemma plan_recovery_returns segs : mappable segs -> returns recovery_plan_ok (plan_recovery segs).
Proof.
  intros Hs. unfold plan_recovery. destruct (_ || _) eqn:E; [done|]. bool_hyps.
  eapply (returns_bind (fun walks => Forall2 (fun d w => walk_sections d = Ok w) segs walks)).
  { assert (returns (fun _ => True) (mapM walk_sections segs)) as Hm.
    { eapply returns_weaken; [apply (returns_mapM (fun d => zlen d <= i64_max) (fun _ => True))|done].
      - intros d Hd. eapply returns_weaken; [by apply walk_returns|done].
      - done. }
    apply returns_infallible. destruct (mapM walk_sections segs) as [walks| |] eqn:Ew; [|done|done].
    by apply mapM_outcome_ok. }
  intros walks Hws. pose proof (Forall2_length _ _ _ Hws) as Hlen.
  assert (0 < zlen walks) as Hw.
  { destruct segs as [|d segs];
      [match goal with Hx : FILE_HEADER_SIZE <= _ |- _ => by vm_compute in Hx end|].
    unfold zlen. rewrite <-Hlen. cbn. lia. }
  destruct (get_some walks 0) as [w0 Hw0]; [lia|]. unfold index at 1. rewrite Hw0. cbn [or_panic mbind outcome_bind].
  eapply returns_bind; [apply returns_infallible, geometry_returns|]. cbn beta.
  intros [g|]; [|done]. intros Hg. destruct ((_ =? 0) || _) eqn:Ec; [done|]. bool_hyps.
  eapply (returns_bind (Forall plan_ok)).
  { apply returns_infallible. eapply returns_weaken; [apply (returns_mapM
      (fun sw => zlen sw.1 <= i64_max /\ Forall (section_ok sw.1) sw.2.1) plan_ok)|].
    - intros [seg w] [Hd Hw']. by apply plan_segment_returns.
    - by apply walked_zip.
    - cbn beta. tauto. }
  intros plans Hp. cbn. split; [|done]. cbn.
  unfold geometry_ok in Hg. unfold sat_mul in *. nia.
Qed.
End Plan.

(** * What a recovery writes *)
Section Run.
Context `{SafeReadLaws} `{Adler} `{Zlib}.
Variable device : list byte -> list byte -> option io_error.
Variable create flush : option io_error.

Abbreviation writer := (stateful (list byte) recover_error).

(** An error the operating system can give. *)
Definition os_fault (e : io_error) : Prop :=
  create = Some e \/ flush = Some e \/ exists out bs, device out bs = Some e.

(** [m] appends some bytes and returns a value, which satisfy [Q], unless the
    operating system gives an error. *)
Definition writes {A} (Q : A -> list byte -> Prop) (m : writer A) : Prop :=
  forall out, match m out with
              | (Ok a, out') => exists bs, out' = out ++ bs /\ Q a bs
              | (Err (RecoverIo e), _) => os_fault e
              | _ => False
              end.

Lemma writes_ret {A} (Q : A -> list byte -> Prop) a : Q a [] -> writes Q (mret a).
Proof. intros HQ out. cbn. exists []. by rewrite app_nil_r. Qed.

Lemma writes_bind {A B} (P : A -> list byte -> Prop) (Q : B -> list byte -> Prop) (m : writer A) f :
  writes P m -> (forall a bs, P a bs -> writes (fun b bs' => Q b (bs ++ bs')) (f a)) ->
  writes Q (m ≫= f).
Proof.
  intros Hm Hf out. rewrite stateful_bind_run. specialize (Hm out).
  destruct (m out) as [[a|e|] out']; [|done|done]. destruct Hm as (bs & -> & Ha).
  specialize (Hf a bs Ha (out ++ bs)). destruct (f a _) as [[b|e|] out'']; [|done|done].
  destruct Hf as (bs' & -> & Hb). exists (bs ++ bs'). by rewrite app_assoc.
Qed.

Lemma writes_weaken {A} (P Q : A -> list byte -> Prop) (m : writer A) :
  writes P m -> (forall a bs, P a bs -> Q a bs) -> writes Q m.
Proof.
  intros Hm HPQ out. specialize (Hm out). destruct (m out) as [[a|e|] out']; [|done|done].
  destruct Hm as (bs & -> & Ha). exists bs. auto.
Qed.

Lemma writes_all bytes : writes (fun _ bs => bs = bytes) (write_all device bytes).
Proof.
  intros out. unfold write_all. destruct (device out bytes) as [e|] eqn:E; [|by exists bytes].
  right; right. eauto.
Qed.

Lemma zeros_app a b : 0 <= a -> 0 <= b -> zeros a ++ zeros b = zeros (a + b).
Proof. intros. unfold zeros. rewrite Z2Nat.inj_add, replicate_add by lia. done. Qed.

Lemma ztake_zeros a b : 0 <= a <= b -> ztake a (zeros b) = zeros a.
Proof. intros. unfold ztake, zeros. rewrite take_replicate. f_equal. lia. Qed.

Lemma writes_zeros_loop fuel n :
  0 <= n <= Z.of_nat fuel -> writes (fun _ bs => bs = zeros n) (write_zeros_loop device fuel n).
Proof.
  revert n. induction fuel as [|fuel IH]; intros n Hn; cbn [write_zeros_loop].
  { rewrite (proj2 (Z.ltb_ge _ _)) by lia. apply writes_ret. by replace n with 0 by lia. }
  destruct (0 <? n) eqn:E; bool_hyps.
  2: { apply writes_ret. by replace n with 0 by lia. }
  assert (0 < Z.min n BLOCK <= BLOCK) as Hb by (unfold BLOCK; lia).
  unfold index_range. rewrite slice_some by (rewrite ?zlen_zeros; lia).
  cbn [or_panic]. change (zdrop 0 (zeros BLOCK)) with (zeros BLOCK).
  rewrite Z.sub_0_r, ztake_zeros by lia.
  eapply (writes_bind (fun a bs => a = zeros (Z.min n BLOCK) /\ bs = [])).
  { intros out. cbn. exists []. by rewrite app_nil_r. }
  intros ? ? [-> ->]. eapply writes_bind; [apply writes_all|]. cbn beta. intros [] ? ->.
  eapply writes_weaken; [apply IH; unfold sat_sub; lia|]. cbn beta. intros [] ? ->.
  rewrite app_nil_l, zeros_app by (unfold sat_sub; lia). f_equal. unfold sat_sub. lia.
Qed.

Lemma writes_zeros n : 0 <= n -> writes (fun _ bs => bs = zeros n) (write_zeros device n).
Proof. intros. apply writes_zeros_loop. lia. Qed.

(** ** The chunk loop *)

(** What chunk [idx] decodes to. *)
Definition decoded (plans : list segment_plan) (cs idx : Z) : option (list byte * bool * bool) :=
  match decode_at plans cs idx with Ok r => r | _ => None end.

Definition lost (plans : list segment_plan) (cs idx : Z) : bool :=
  match decoded plans cs idx with None => true | Some _ => false end.
Definition flagged (plans : list segment_plan) (cs idx : Z) : bool :=
  match decoded plans cs idx with Some (_, _, false) => true | _ => false end.

(** The block of the output at chunk [idx]: the decoded bytes cut or padded to the
    part of the image the chunk stands for, or zeroes. *)
Definition block (plans : list segment_plan) (cs image idx : Z) : list byte :=
  let logical := Z.min (image - idx * cs) cs in
  match decoded plans cs idx with
  | Some (bytes, _, _) => fit logical bytes
  | None => zeros logical
  end.

Lemma zlen_fit n bs : 0 <= n -> zlen (fit n bs) = n.
Proof.
  intros Hn. unfold fit. destruct (n <? zlen bs) eqn:E1; bool_hyps; [rewrite zlen_ztake; lia|].
  destruct (zlen bs <? n) eqn:E2; bool_hyps; [|lia]. rewrite zlen_app, zlen_zeros; lia.
Qed.

Lemma zlen_block plans cs image idx :
  0 <= Z.min (image - idx * cs) cs -> zlen (block plans cs image idx) = Z.min (image - idx * cs) cs.
Proof.
  intros Hn. unfold block. destruct (decoded plans cs idx) as [[[bytes t2] ok]|].
  - by apply zlen_fit.
  - rewrite zlen_zeros; lia.
Qed.

(** The counters once the first [k] chunks are done and [bs] is written. *)
Record progress (plans : list segment_plan) (cs image k : Z) (st : recovery) (bs : list byte) : Prop := {
  pr_remaining : rc_remaining st = Z.max 0 (image - k * cs);
  pr_started : k = 0 \/ (k - 1) * cs < image;
  pr_blocks : bs = concat (map (block plans cs image) (range 0 k));
  pr_count : 0 <= rc_primary st /\ 0 <= rc_table2 st /\ 0 <= rc_zero_filled st /\
             rc_primary st + rc_table2 st + rc_zero_filled st = k;
  pr_bytes : 0 <= rc_bytes_recovered st /\ 0 <= rc_bytes_zero_filled st /\
             rc_bytes_recovered st + rc_bytes_zero_filled st = image - rc_remaining st;
  pr_lost : rc_lost_chunks st = List.filter (lost plans cs) (range 0 k) /\
            rc_zero_filled st = zlen (rc_lost_chunks st);
  pr_flagged : rc_crc_flagged_chunks st = List.filter (flagged plans cs) (range 0 k) /\
               rc_crc_flagged st = zlen (rc_crc_flagged_chunks st);
}.

Lemma range_snoc k : 0 <= k -> range 0 (k + 1) = range 0 k ++ [k].
Proof.
  intros Hk. unfold range. rewrite !Z.sub_0_r.
  rewrite seqZ_app by lia. by rewrite Z.add_0_l.
Qed.

Lemma filter_snoc {A} (f : A -> bool) l x :
  List.filter f (l ++ [x]) = List.filter f l ++ if f x then [x] else [].
Proof. by rewrite List.filter_app. Qed.

Lemma zlen_filter_range f k : 0 <= k -> zlen (List.filter f (range 0 k)) <= k.
Proof.
  intros Hk. unfold zlen. pose proof (List.filter_length_le f (range 0 k)) as Hl.
  unfold range in Hl. rewrite length_seqZ in Hl. unfold range. lia.
Qed.

Lemma progress_start plans cs image :
  0 <= image -> progress plans cs image 0 (recovery_start image) [].
Proof. intros Hi. split; cbn; lia || done. Qed.

Lemma recover_chunk_progress plans cs image k st bs :
  Forall plan_ok plans -> 0 < cs <= i64_max - 4 -> image <= u64_max -> 0 <= k < u32_max ->
  progress plans cs image k st bs -> 0 < rc_remaining st ->
  writes (fun st' bs' => progress plans cs image (k + 1) st' (bs ++ bs'))
    (recover_chunk device plans cs k st).
Proof.
  intros Hp Hcs Himg Hk [Hrem Hst Hbs Hcount Hbytes [Hlost Hnl] [Hfl Hnf]] Hpos.
  assert (Hmin : Z.min (rc_remaining st) cs = Z.min (image - k * cs) cs) by lia.
  pose proof (zlen_filter_range (flagged plans cs) k) as Hflk. rewrite <-Hfl in Hflk.
  pose proof (decode_at_returns plans cs k Hp ltac:(lia)) as Hdec.
  unfold recover_chunk. rewrite Hmin.
  assert (Hblock : forall bs', bs' = block plans cs image k ->
            bs ++ bs' = concat (map (block plans cs image) (range 0 (k + 1)))).
  { intros bs' ->. rewrite range_snoc, map_app, concat_app by lia. cbn.
    by rewrite app_nil_r, Hbs. }
  destruct (decode_at plans cs k) as [d| |] eqn:Ed; [|by destruct e|done].
  cbn [infallible]. eapply (writes_bind (fun a b => a = d /\ b = [])).
  { intros out. cbn. exists []. by rewrite app_nil_r. }
  intros ? ? [-> ->]. unfold block, decoded in Hblock. rewrite Ed in Hblock.
  destruct d as [[[bytes t2] ok]|].
  - eapply writes_bind; [apply writes_all|]. cbn beta. intros [] ? ->. apply writes_ret.
    rewrite app_nil_l, app_nil_r. split; cbn.
    + unfold sat_sub. lia.
    + lia.
    + by apply Hblock.
    + unfold sat_add. destruct t2; lia.
    + unfold sat_add, sat_sub. lia.
    + rewrite range_snoc, filter_snoc by lia. unfold lost at 2, decoded. rewrite Ed.
      by rewrite app_nil_r, <-Hlost.
    + rewrite range_snoc, filter_snoc by lia. unfold flagged at 2, decoded. rewrite Ed.
      destruct ok; rewrite <-Hfl; [by rewrite app_nil_r|]. split; [done|].
      rewrite zlen_app. unfold sat_add. change (zlen [k]) with 1. lia.
  - eapply writes_bind; [apply writes_zeros; lia|]. cbn beta. intros [] ? ->. apply writes_ret.
    rewrite app_nil_l, app_nil_r. split; cbn.
    + unfold sat_sub. lia.
    + lia.
    + by apply Hblock.
    + unfold sat_add. lia.
    + unfold sat_add, sat_sub. lia.
    + rewrite range_snoc, filter_snoc by lia. unfold lost at 2, decoded. rewrite Ed.
      rewrite <-Hlost. split; [done|]. rewrite zlen_app. unfold sat_add. change (zlen [k]) with 1. lia.
    + rewrite range_snoc, filter_snoc by lia. unfold flagged at 2, decoded. rewrite Ed.
      by rewrite app_nil_r, <-Hfl.
Qed.

(** The loop stops at the last chunk or when the image is full. *)
Lemma recover_chunks_progress plans cs image total k st bs :
  Forall plan_ok plans -> 0 < cs <= i64_max - 4 -> image <= u64_max ->
  0 <= k <= total -> total <= u32_max -> progress plans cs image k st bs ->
  writes (fun st' bs' => exists k', k <= k' <= total /\ progress plans cs image k' st' (bs ++ bs') /\
                                    (k' = total \/ rc_remaining st' = 0))
    (recover_chunks device plans cs (range k total) st).
Proof.
  intros Hp Hcs Himg Hk Htot. remember (Z.to_nat (total - k)) as n eqn:En.
  revert k st bs Hk En. induction n as [|n IH]; intros k st bs Hk En Hpr.
  { assert (k = total) as -> by lia. unfold range. rewrite Z.sub_diag. apply writes_ret.
    exists total. rewrite app_nil_r. split; [lia|]. split; [done|by left]. }
  unfold range. rewrite seqZ_cons by lia. cbn [recover_chunks].
  destruct (rc_remaining st =? 0) eqn:E0; bool_hyps.
  { apply writes_ret. exists k. rewrite app_nil_r. split; [lia|]. split; [done|by right]. }
  eapply writes_bind; [apply (recover_chunk_progress plans cs image k st bs); try done; [lia|]|].
  { destruct Hpr as [Hrem]. lia. }
  cbn beta. intros st1 bs1 Hpr1.
  replace (seqZ (Z.succ k) (Z.pred (total - k))) with (range (k + 1) total) by (unfold range; f_equal; lia).
  eapply writes_weaken; [apply (IH (k + 1) st1 (bs ++ bs1)); [lia|lia|done]|]. cbn beta.
  intros st2 bs2 (k' & Hk' & Hpr2 & Hend). exists k'. split; [lia|]. by rewrite app_assoc.
Qed.

(** The loop over what the chunks leave of the image changes only the last counters. *)
Lemma fill_rest_writes fuel cs st :
  0 < cs -> 0 <= rc_remaining st <= Z.of_nat fuel -> 0 <= rc_bytes_zero_filled st ->
  rc_bytes_zero_filled st + rc_remaining st <= u64_max ->
  writes (fun st' bs => bs = zeros (rc_remaining st) /\
            st' = {| rc_primary := rc_primary st; rc_table2 := rc_table2 st;
                     rc_zero_filled := rc_zero_filled st; rc_crc_flagged := rc_crc_flagged st;
                     rc_bytes_recovered := rc_bytes_recovered st;
                     rc_bytes_zero_filled := rc_bytes_zero_filled st + rc_remaining st;
                     rc_lost_chunks := rc_lost_chunks st;
                     rc_crc_flagged_chunks := rc_crc_flagged_chunks st; rc_remaining := 0 |})
    (fill_rest device fuel cs st).
Proof.
  intros Hcs. revert st. induction fuel as [|fuel IH]; intros st Hr Hz Hsum; cbn [fill_rest].
  { assert (rc_remaining st = 0) as H0' by lia. rewrite H0'. apply writes_ret. split; [done|].
    rewrite Z.add_0_r. destruct st. cbn in *. by subst. }
  destruct (0 <? rc_remaining st) eqn:E; bool_hyps.
  2: { assert (rc_remaining st = 0) as H0' by lia. rewrite H0'. apply writes_ret. split; [done|].
       rewrite Z.add_0_r. destruct st. cbn in *. by subst. }
  eapply writes_bind; [apply writes_zeros; lia|]. cbn beta. intros [] ? ->.
  eapply writes_weaken; [apply IH; cbn; unfold sat_sub, sat_add; lia|]. cbn.
  unfold sat_sub, sat_add. intros st' bs [-> ->].
  split; [rewrite zeros_app by lia; f_equal; lia|]. f_equal; lia.
Qed.

Lemma zlen_concat_blocks plans cs image k :
  0 < cs -> 0 <= image -> 0 <= k -> (k = 0 \/ (k - 1) * cs < image) ->
  zlen (concat (map (block plans cs image) (range 0 k))) = Z.min image (k * cs).
Proof.
  intros Hcs Hi Hk. remember (Z.to_nat k) as n eqn:En. revert k Hk En.
  induction n as [|n IH]; intros k Hk En Hs.
  { assert (k = 0) as -> by lia. transitivity 0; [done|lia]. }
  destruct Hs as [->|Hs]; [lia|]. replace k with ((k - 1) + 1) at 1 by lia.
  assert (k * cs = (k - 1) * cs + cs /\ (k - 1 - 1) * cs = (k - 1) * cs - cs) as [Hk1 Hk2] by lia.
  rewrite range_snoc, map_app, concat_app, zlen_app by lia. rewrite IH; [|lia|lia|lia].
  cbn [map concat]. rewrite app_nil_r, zlen_block by lia. lia.
Qed.

(** ** The whole recovery *)

(** The chunks the recovery visits: all of them, or those that cover the image. *)
Definition visited (total cs image : Z) : Z := Z.min total ((image + cs - 1) / cs).

Lemma visited_eq total cs image k :
  0 < cs -> 0 <= image -> 0 <= k <= total -> (k = 0 \/ (k - 1) * cs < image) ->
  (k = total \/ image <= k * cs) -> k = visited total cs image.
Proof.
  intros Hcs Hi Hk Hs He. unfold visited.
  pose proof (Z.div_mod (image + cs - 1) cs ltac:(lia)) as Hdm.
  pose proof (Z.mod_pos_bound (image + cs - 1) cs Hcs) as Hm.
  set (q := (image + cs - 1) / cs) in *. clearbody q.
  assert (k <= q) by (destruct Hs as [->|Hs]; nia). destruct He as [->|He]; nia.
Qed.

Definition rr_total (p : recovery_plan) : Z := geo_chunk_count (pl_geometry p).
Definition pl_visited (p : recovery_plan) : Z :=
  visited (rr_total p) (pl_chunk_size p) (pl_image_size p).

(** The report and the output of a recovery that follows the plan [p]. *)
Record accounted (p : recovery_plan) (r : RecoveryReport) (out : list byte) : Prop := {
  ac_image_size : rr_image_size r = pl_image_size p;
  ac_total : rr_chunks_total r = rr_total p;
  ac_truncation : rr_truncation_offset r = pl_truncation p;
  ac_output : out = concat (map (block (pl_segments p) (pl_chunk_size p) (pl_image_size p))
                              (range 0 (pl_visited p)))
                    ++ zeros (pl_image_size p - Z.min (pl_image_size p) (pl_visited p * pl_chunk_size p));
  ac_length : zlen out = rr_image_size r;
  ac_chunks : rr_recovered_primary r + rr_recovered_table2 r + rr_zero_filled r = pl_visited p;
  ac_bytes : rr_bytes_recovered r + rr_bytes_zero_filled r = rr_image_size r;
  ac_lost : rr_lost_chunks r =
              List.filter (lost (pl_segments p) (pl_chunk_size p)) (range 0 (pl_visited p)) /\
            rr_zero_filled r = zlen (rr_lost_chunks r);
  ac_flagged : rr_crc_flagged_chunks r =
                 List.filter (flagged (pl_segments p) (pl_chunk_size p)) (range 0 (pl_visited p)) /\
               rr_crc_flagged r = zlen (rr_crc_flagged_chunks r);
}.

Lemma io_step_writes failure :
  (forall e, failure = Some e -> os_fault e) -> writes (fun _ bs => bs = []) (io_step failure).
Proof.
  intros Hf out. destruct failure as [e|]; cbn; [by apply Hf|]. exists []. by rewrite app_nil_r.
Qed.

Lemma pl_image_size_range p : recovery_plan_ok p -> 0 <= pl_image_size p <= u64_max.
Proof.
  intros (_ & (_ & _ & Hb & Hs) & _). unfold pl_image_size, sat_mul. nia.
Qed.

Lemma recover_writes segs p :
  recovery_plan_ok p -> plan_recovery segs = Ok p ->
  writes (accounted p) (recover_segments device create flush segs).
Proof.
  intros Hp Hplan. pose proof (pl_image_size_range p Hp) as Himg.
  destruct Hp as (Hcs & Hgeo & Hsegs). unfold RECOVER_MAX_CHUNK_SIZE in Hcs.
  unfold recover_segments. rewrite Hplan.
  eapply (writes_bind (fun a bs => a = p /\ bs = [])).
  { intros out. cbn. exists []. by rewrite app_nil_r. }
  intros ? ? [-> ->]. eapply writes_bind; [apply io_step_writes; by left|]. cbn beta. intros [] ? ->.
  eapply writes_bind.
  { apply (recover_chunks_progress (pl_segments p) (pl_chunk_size p) (pl_image_size p)
             (rr_total p) 0 _ []); [done|lia|lia| | |apply progress_start; lia];
      unfold rr_total; destruct Hgeo; lia. }
  cbn beta. intros st bs (k & Hk & Hpr & Hend). rewrite app_nil_l in Hpr.
  destruct Hpr as [Hrem Hst Hbs Hcount Hbytes [Hlost Hnl] [Hfl Hnf]].
  assert (k = pl_visited p) as ->.
  { apply visited_eq; [lia|lia|lia|done|]. destruct Hend as [->|Hend]; [by left|right]. lia. }
  eapply writes_bind; [apply fill_rest_writes; lia|]. cbn beta. intros st' bs' [-> ->].
  eapply writes_bind; [apply io_step_writes; intros e He; right; by left|]. cbn beta. intros [] ? ->.
  apply writes_ret. rewrite app_nil_r, !app_nil_l.
  assert (Hmax : rc_remaining st = pl_image_size p - Z.min (pl_image_size p) (pl_visited p * pl_chunk_size p)) by lia.
  split; cbn; try lia; try done.
  - by rewrite Hbs, Hmax.
  - rewrite Hbs, zlen_app, zlen_concat_blocks, zlen_zeros; (lia || done).
Qed.

(** C10: recovery is total and accounts for every byte.  For any segments, a recovery
    never panics and never fails on a damaged chunk: unless no geometry can be
    established - which fails before the output is created - or the operating system
    gives an error, it returns a report, the output is exactly as long as the image,
    it is for each visited chunk in order the bytes that chunk decodes to, cut or
    padded to its part of the image, or zeroes, then zeroes; the report has the
    chunk total of the geometry and the first truncation of the walks, its chunk
    counts add up to the chunks visited, its byte counts to the size of the image,
    and its lists are, in ascending order, the chunks that decode to nothing and
    those whose checksum fails. *)
Theorem recover_spec segs :
  mappable segs ->
  match plan_recovery segs with
  | Panic => False
  | Err e => recover_segments device create flush segs [] = (Err e, [])
  | Ok p =>
    match recover_segments device create flush segs [] with
    | (Ok r, out) => accounted p r out
    | (Err (RecoverIo e), _) => os_fault e
    | _ => False
    end
  end.
Proof.
  intros Hs. pose proof (plan_recovery_returns segs Hs) as Hp.
  destruct (plan_recovery segs) as [p|e|] eqn:Hplan; [|unfold recover_segments; by rewrite Hplan|done].
  pose proof (recover_writes segs p Hp Hplan []) as Hw.
  destruct (recover_segments _ _ _ segs []) as [[r|e|] out]; [|done|done].
  by destruct Hw as (bs & -> & Hr).
Qed.

Lemma slice_concat_blocks plans cs image n idx rest :
  0 < cs -> 0 <= image -> 0 <= idx < n -> (n - 1) * cs < image ->
  slice (concat (map (block plans cs image) (range 0 n)) ++ rest) (idx * cs)
    (Z.min image ((idx + 1) * cs)) = Some (block plans cs image idx).
Proof.
  intros Hcs Hi Hn Hlast.
  assert (idx * cs < image) by nia.
  assert ((idx + 1) * cs = idx * cs + cs) as Hsucc by lia.
  assert (range 0 n = range 0 idx ++ idx :: range (idx + 1) n) as ->.
  { unfold range. replace (n - 0) with ((idx - 0) + (1 + (n - (idx + 1)))) by lia.
    rewrite seqZ_app by lia. f_equal. rewrite seqZ_cons by lia. f_equal; [lia|f_equal; lia]. }
  rewrite map_app, concat_app, map_cons, concat_cons, <-!app_assoc.
  eapply slice_at; [done| |].
  - rewrite zlen_concat_blocks; [lia|lia|lia|lia|right; nia].
  - rewrite zlen_block; lia.
Qed.

Lemma fit_eq n bs : 0 <= n -> fit n bs = ztake n (bs ++ zeros n).
Proof.
  intros Hn. unfold fit. pose proof (zlen_nonneg bs). destruct (n <? zlen bs) eqn:E; bool_hyps.
  { by rewrite ztake_app_le by lia. }
  destruct (zlen bs <? n) eqn:E2; bool_hyps.
  - unfold ztake, zeros, zlen in *. rewrite take_app, take_ge, take_replicate by lia.
    do 2 f_equal. lia.
  - by rewrite ztake_app_len by lia.
Qed.

(** What the tables of segment [sp] deliver for its chunk [local]: the primary table
    if its chunk has a good checksum, else [table2] if that one has. *)
Definition delivers (cs : Z) (sp : segment_plan) (local : Z) (bytes : list byte) : Prop :=
  decode_from cs sp (sp_primary sp) local = Ok (Some (bytes, true)) \/
  exists bad, decode_from cs sp (sp_primary sp) local = Ok bad /\
    (forall bs, bad <> Some (bs, true)) /\
    decode_from cs sp (sp_fallback sp) local = Ok (Some (bytes, true)).

Lemma decoded_delivers plans cs idx seg local sp bytes :
  locate_chunk (map plan_count plans) idx = Some (seg, local) -> get plans seg = Some sp ->
  delivers cs sp local bytes -> exists via, decoded plans cs idx = Some (bytes, via, true).
Proof.
  intros Hloc Hsp Hd. unfold decoded, decode_at. rewrite Hloc. unfold index. rewrite Hsp.
  cbn [or_panic mbind outcome_bind]. destruct Hd as [->|(bad & -> & Hbad & Ht2)]; cbn [mbind outcome_bind].
  { by exists false. }
  destruct bad as [[bs [|]]|]; [by destruct (Hbad bs)| |]; rewrite Ht2; by exists true.
Qed.

(** The block of a visited chunk is at its own offset. *)
Lemma output_block p r out idx :
  recovery_plan_ok p -> accounted p r out -> 0 <= idx < pl_visited p ->
  0 < Z.min (pl_image_size p - idx * pl_chunk_size p) (pl_chunk_size p) /\
  slice out (idx * pl_chunk_size p) (Z.min (pl_image_size p) ((idx + 1) * pl_chunk_size p))
  = Some (block (pl_segments p) (pl_chunk_size p) (pl_image_size p) idx).
Proof.
  intros Hp Hac Hidx. pose proof (pl_image_size_range p Hp) as Himg. destruct Hp as (Hcs & _ & _).
  assert ((idx * pl_chunk_size p < pl_image_size p) /\ (pl_visited p - 1) * pl_chunk_size p < pl_image_size p)
    as [Hin Hlast].
  { unfold pl_visited, visited in *.
    pose proof (Z.div_mod (pl_image_size p + pl_chunk_size p - 1) (pl_chunk_size p) ltac:(lia)) as Hdm.
    pose proof (Z.mod_pos_bound (pl_image_size p + pl_chunk_size p - 1) (pl_chunk_size p) ltac:(lia)).
    set (q := (_ + _ - 1) / _) in *. clearbody q. split; nia. }
  split; [lia|]. rewrite (ac_output _ _ _ Hac). apply slice_concat_blocks; lia.
Qed.

(** C27: damage stays local.  In the output of a recovery the block of every visited
    chunk is at its own offset and depends on what that chunk decodes to alone: a
    chunk that its primary table, or failing that [table2], delivers with a good
    checksum is there verbatim, cut or padded to its part of the image, whatever
    happened to the other chunks. *)
Theorem recovered_block_local p r out idx :
  recovery_plan_ok p -> accounted p r out -> 0 <= idx < pl_visited p ->
  let logical := Z.min (pl_image_size p - idx * pl_chunk_size p) (pl_chunk_size p) in
  let here := slice out (idx * pl_chunk_size p)
                (Z.min (pl_image_size p) ((idx + 1) * pl_chunk_size p)) in
  here = Some (block (pl_segments p) (pl_chunk_size p) (pl_image_size p) idx) /\
  forall seg local sp bytes,
    locate_chunk (map plan_count (pl_segments p)) idx = Some (seg, local) ->
    get (pl_segments p) seg = Some sp -> delivers (pl_chunk_size p) sp local bytes ->
    here = Some (ztake logical (bytes ++ zeros logical)).
Proof.
  intros Hp Hac Hidx logical here. destruct (output_block p r out idx Hp Hac Hidx) as [Hpos Hhere].
  split; [exact Hhere|]. intros seg local sp bytes Hloc Hsp Hd. unfold here. rewrite Hhere.
  destruct (decoded_delivers _ _ _ _ _ _ _ Hloc Hsp Hd) as [via Hdec].
  unfold block. rewrite Hdec. fold logical. f_equal. apply fit_eq. lia.
Qed.

(** The report's partition: the three counts add up to [chunks_total] exactly when
    the last declared chunk is needed to cover the image. *)
Lemma report_partition p r out :
  recovery_plan_ok p -> accounted p r out ->
  (rr_recovered_primary r + rr_recovered_table2 r + rr_zero_filled r = rr_total p <->
   rr_total p = 0 \/ (rr_total p - 1) * pl_chunk_size p < pl_image_size p).
Proof.
  intros Hp Hac. pose proof (pl_image_size_range p Hp) as Himg. destruct Hp as (Hcs & (Hcc & _) & _).
  rewrite (ac_chunks _ _ _ Hac). unfold pl_visited, visited, rr_total.
  pose proof (Z.div_mod (pl_image_size p + pl_chunk_size p - 1) (pl_chunk_size p) ltac:(lia)) as Hdm.
  pose proof (Z.mod_pos_bound (pl_image_size p + pl_chunk_size p - 1) (pl_chunk_size p) ltac:(lia)).
  set (q := (_ + _ - 1) / _) in *. clearbody q.
  split; [intros Heq; right; nia|]. intros [->|Hlt]; [nia|]. nia.
Qed.
End Run.
