(* ===== verification/EwfCheck.v ===== *)
(** The command [ewf-check]: [forensic/src/bin/ewf_check.rs].

    The options, the filter by severity, the exit code and the escaping of JSON
    strings; what is printed is in Report.  The progress bar is outside the program. *)

From S2P Require Import Prelude Text Json Extern Types Anomaly IntegrityV1 Integrity Hex.

(** ** Severities *)
Definition severity_rank (s : Severity) : Z :=
  match s with Info => 0 | Low => 1 | Medium => 2 | High => 3 | Critical => 4 end.

Definition severity_gte (a min : Severity) : bool := severity_rank min <=? severity_rank a.

Definition severity_label (s : Severity) : text :=
  match s with
  | Info => str "info" | Low => str "low" | Medium => str "medium" | High => str "high"
  | Critical => str "critical"
  end.

Definition anomaly_kind (a : EwfIntegrityAnomaly) : text :=
  match a with
  | InvalidSignature => str "InvalidSignature"
  | SegmentNumberZero => str "SegmentNumberZero"
  | SectionDescriptorCrcMismatch _ _ _ _ => str "SectionDescriptorCrcMismatch"
  | SectionChainBroken _ _ => str "SectionChainBroken"
  | SectionGapNonZero _ _ => str "SectionGapNonZero"
  | VolumeSectionMissing => str "VolumeSectionMissing"
  | UnknownSectionType _ _ => str "UnknownSectionType"
  | DoneSectionMissing => str "DoneSectionMissing"
  | SectorsSectionMissing => str "SectorsSectionMissing"
  | TableSectionMissing => str "TableSectionMissing"
  | ChunkSizeInvalid _ _ => str "ChunkSizeInvalid"
  | SectorCountMismatch _ _ => str "SectorCountMismatch"
  | BytesPerSectorInvalid _ => str "BytesPerSectorInvalid"
  | TableChunkCountMismatch _ _ => str "TableChunkCountMismatch"
  | TableHeaderAdler32Mismatch _ _ => str "TableHeaderAdler32Mismatch"
  | TableEntryOutOfBounds _ _ _ => str "TableEntryOutOfBounds"
  | TableEntryOutsideSectorsRange _ _ _ _ => str "TableEntryOutsideSectorsRange"
  | SectionGapZero _ _ => str "SectionGapZero"
  | HashMismatch _ _ => str "HashMismatch"
  | HashSectionMissing => str "HashSectionMissing"
  | Table2Mismatch _ => str "Table2Mismatch"
  | BadSectorsPresent _ => str "BadSectorsPresent"
  | SegmentOutOfOrder _ _ => str "SegmentOutOfOrder"
  | DigestSha1Mismatch _ _ => str "DigestSha1Mismatch"
  | DigestSha256Mismatch _ _ => str "DigestSha256Mismatch"
  | ExternalMd5Mismatch _ _ => str "ExternalMd5Mismatch"
  | ExternalSha1Mismatch _ _ => str "ExternalSha1Mismatch"
  | Ewf2SectionDataHashMismatch _ _ _ _ => str "Ewf2SectionDataHashMismatch"
  | Ewf2EncryptedSection _ => str "Ewf2EncryptedSection"
  | Ewf2HashSectionMissing => str "Ewf2HashSectionMissing"
  | VolumeBodyCrcMismatch _ _ => str "VolumeBodyCrcMismatch"
  | MediaTypeUnknown _ => str "MediaTypeUnknown"
  | SetIdentifierMismatch _ => str "SetIdentifierMismatch"
  | Ewf2MediaInfoMissing => str "Ewf2MediaInfoMissing"
  | Ewf2ChunkTableChecksumMismatch _ _ => str "Ewf2ChunkTableChecksumMismatch"
  | ChunkChecksumMismatch _ _ _ => str "ChunkChecksumMismatch"
  | ChunkDecompressionError _ => str "ChunkDecompressionError"
  | UnsupportedCompressionAlgorithm _ => str "UnsupportedCompressionAlgorithm"
  | ExternalSha256Mismatch _ _ => str "ExternalSha256Mismatch"
  | Ewf2MediaInfoParseFailed => str "Ewf2MediaInfoParseFailed"
  end.

(** ** The options *)
Record options := {
  min_severity : Severity;
  json_mode : bool;
  print_hashes : bool;
  show_progress : bool;
  hash_md5_opt : option (list byte);
  hash_sha1_opt : option (list byte);
  hash_sha256_opt : option (list byte);
  paths : list text;
}.

Definition default_options : options :=
  {| min_severity := Info; json_mode := false; print_hashes := false; show_progress := false;
     hash_md5_opt := None; hash_sha1_opt := None; hash_sha256_opt := None; paths := [] |}.

Inductive usage_error :=
| UnknownSeverity (level : text)
| UnknownOption (arg : text)
| BadHash (e : hex_error)
| NoPaths.

(** [str::strip_prefix] *)
Fixpoint strip_prefix (p s : text) : option text :=
  match p, s with
  | [], _ => Some s
  | x :: p, y :: s => if x =? y then strip_prefix p s else None
  | _ :: _, [] => None
  end.

Definition one_of (names : list text) (s : text) : bool := existsb (text_eqb s) names.

Definition parse_severity (val : text) : outcome usage_error Severity :=
  if one_of [str "info"; str "Info"] val then Ok Info
  else if one_of [str "low"; str "Low"] val then Ok Low
  else if one_of [str "medium"; str "Medium"; str "warning"; str "Warning"] val then Ok Medium
  else if one_of [str "high"; str "High"; str "error"; str "Error"] val then Ok High
  else if one_of [str "critical"; str "Critical"] val then Ok Critical
  else Err (UnknownSeverity val).

Definition hash_option (n : Z) (hex : text) : outcome usage_error (option (list byte)) :=
  match parse_hex_fixed n hex with
  | Ok h => Ok (Some h) | Err e => Err (BadHash e) | Panic => Panic
  end.

(** One round of the loop over the arguments. *)
Definition parse_arg (o : options) (arg : text) : outcome usage_error options :=
  let '{| min_severity := sev; json_mode := js; print_hashes := ph; show_progress := sp;
          hash_md5_opt := m; hash_sha1_opt := s1; hash_sha256_opt := s2; paths := ps |} := o in
  match strip_prefix (str "--min-severity=") arg with
  | Some val => sev ← parse_severity val; Ok (Build_options sev js ph sp m s1 s2 ps)
  | None =>
    if text_eqb arg (str "--json") then Ok (Build_options sev true ph sp m s1 s2 ps)
    else if text_eqb arg (str "--print-hashes") then Ok (Build_options sev js true sp m s1 s2 ps)
    else if text_eqb arg (str "--progress") then Ok (Build_options sev js ph true m s1 s2 ps)
    else
      match strip_prefix (str "--hash-md5=") arg with
      | Some hex => m ← hash_option 16 hex; Ok (Build_options sev js ph sp m s1 s2 ps)
      | None =>
        match strip_prefix (str "--hash-sha1=") arg with
        | Some hex => s1 ← hash_option 20 hex; Ok (Build_options sev js ph sp m s1 s2 ps)
        | None =>
          match strip_prefix (str "--hash-sha256=") arg with
          | Some hex => s2 ← hash_option 32 hex; Ok (Build_options sev js ph sp m s1 s2 ps)
          | None =>
            match arg with
            | 45 :: _ => Err (UnknownOption arg)
            | _ => Ok (Build_options sev js ph sp m s1 s2 (ps ++ [arg]))
            end
          end
        end
      end
  end.

Fixpoint parse_args (args : list text) (o : options) : outcome usage_error options :=
  match args with
  | [] => match paths o with [] => Err NoPaths | _ => Ok o end
  | arg :: args => o ← parse_arg o arg; parse_args args o
  end.

(** ** The run *)

(** How the process ends. *)
Inductive run_end :=
| Usage (e : option usage_error)
| Help
| Version
| Failed (e : io_error)
| Report (visible : list EwfIntegrityAnomaly) (hashes : option ComputedHashes).

Definition exit_code (r : run_end) : Z :=
  match r with
  | Usage _ | Failed _ => 2
  | Help | Version => 0
  | Report visible _ => match visible with [] => 0 | _ => 1 end
  end.

Section Main.
Context `{SafeRead} `{Adler} `{Zlib} `{Digests}.
Variable exists_ : text -> bool.
Variable open_map : text -> outcome io_error (list byte).

(** One path is the first of a set, several are the set. *)
Definition checker_of (paths : list text) : EwfIntegrityPath :=
  match paths with
  | [p] => EwfIntegrityPath_from_path exists_ p
  | _ => EwfIntegrityPath_from_paths paths
  end.

Definition configured (o : options) : EwfIntegrityPath :=
  let checker := checker_of (paths o) in
  let checker := match hash_md5_opt o with
                 | Some h => ip_with_expected_md5 checker h | None => checker end in
  let checker := match hash_sha1_opt o with
                 | Some h => ip_with_expected_sha1 checker h | None => checker end in
  match hash_sha256_opt o with Some h => ip_with_expected_sha256 checker h | None => checker end.

Definition run_options (o : options) : outcome Empty_set run_end :=
  let analysis :=
    if show_progress o
    then '(anomalies, _) ← path_analyse_with_progress open_map (configured o); Ok anomalies
    else path_analyse open_map (configured o) in
  match analysis with
  | Panic => Panic
  | Err e => Ok (Failed e)
  | Ok findings =>
    let visible := List.filter (fun a => severity_gte (severity a) (min_severity o)) findings in
    if print_hashes o then
      match path_compute_hashes open_map (checker_of (paths o)) with
      | Panic => Panic
      | Err e => Ok (Failed e)
      | Ok hashes => Ok (Report visible hashes)
      end
    else Ok (Report visible None)
  end.

Definition main (args : list text) : outcome Empty_set run_end :=
  if bool_decide (args = []) then Ok (Usage None)
  else if existsb (fun a => one_of [str "--help"; str "-h"] a) args then Ok Help
  else if existsb (fun a => one_of [str "--version"; str "-V"] a) args then Ok Version
  else
    match parse_args args default_options with
    | Panic => Panic
    | Err e => Ok (Usage (Some e))
    | Ok o => run_options o
    end.
End Main.

(** ** JSON strings *)

(** [format!("\\u{:04x}")] *)
Definition unicode_escape (c : Z) : text :=
  let digits := print_hex c in
  backslash :: 117 :: replicate (4 - length digits) 48 ++ digits.

Definition escape_char (c : Z) : text :=
  if c =? quote then [backslash; quote]
  else if c =? backslash then [backslash; backslash]
  else if c =? 10 then [backslash; 110]
  else if c =? 13 then [backslash; 114]
  else if c =? 9 then [backslash; 116]
  else if c <? 32 then unicode_escape c
  else [c].

Definition json_escape (s : text) : text := concat (map escape_char s).
