(* ===== verification/EwfCheckProps.v ===== *)
(** What [ewf-check] promises: the exit code and the anomalies it shows, and the
    escaping of JSON strings. *)

From S2P Require Import Prelude Text Json Extern Types Anomaly IntegrityV1 IntegrityV1Props.
From S2P Require Import Integrity IntegrityApi Hex EwfCheck.

(** ** JSON strings *)

(** Reference: the text between the quotes of a JSON string (RFC 8259), with the
    escapes the program uses. *)
Fixpoint json_unescape (s : text) : option text :=
  match s with
  | [] => Some []
  | c :: s =>
    if c =? quote then None
    else if c <? 32 then None
    else if c =? backslash then
      match s with
      | e :: s =>
        if e =? quote then cons quote <$> json_unescape s
        else if e =? backslash then cons backslash <$> json_unescape s
        else if e =? 110 then cons 10 <$> json_unescape s
        else if e =? 114 then cons 13 <$> json_unescape s
        else if e =? 116 then cons 9 <$> json_unescape s
        else if e =? 117 then
          match s with
          | d1 :: d2 :: d3 :: d4 :: s =>
            c ← parse_digits 16 65535 0 [d1; d2; d3; d4]; cons c <$> json_unescape s
          | _ => None
          end
        else None
      | [] => None
      end
    else cons c <$> json_unescape s
  end.

Lemma unescape_escape_char c rest :
  0 <= c -> json_unescape (escape_char c ++ rest) = cons c <$> json_unescape rest.
Proof.
  intros Hc. destruct (decide (c < 32)) as [Hlt|Hge].
  - assert (c ∈ seqZ 0 32) as Hin by (apply elem_of_seqZ; lia). vm_compute in Hin.
    repeat (apply elem_of_cons in Hin as [->|Hin]; [reflexivity|]). by apply not_elem_of_nil in Hin.
  - unfold escape_char, quote, backslash.
    destruct (c =? 34) eqn:E1; bool_hyps; [by subst|]. destruct (c =? 92) eqn:E2; bool_hyps; [by subst|].
    rewrite (proj2 (Z.eqb_neq c 10)), (proj2 (Z.eqb_neq c 13)), (proj2 (Z.eqb_neq c 9)),
      (proj2 (Z.ltb_ge c 32)) by lia.
    cbn [app json_unescape]. unfold quote, backslash.
    by rewrite (proj2 (Z.eqb_neq c 34)), (proj2 (Z.ltb_ge c 32)), (proj2 (Z.eqb_neq c 92)) by lia.
Qed.

(** [json_escape] is a JSON string for every text: read back by the grammar of
    JSON strings - no bare quote, no control character, known escapes only - it is
    the text, whatever characters an image put into it. *)
Theorem json_escape_roundtrip s :
  Forall (Z.le 0) s -> json_unescape (json_escape s) = Some s.
Proof.
  induction 1 as [|c s Hc _ IH]; [done|]. unfold json_escape. cbn [map concat].
  rewrite unescape_escape_char by done. fold (json_escape s). by rewrite IH.
Qed.

(** ** The exit code *)
Section Main.
Context `{SafeReadLaws} `{Adler} `{Zlib} `{Digests}.
Variable exists_ : text -> bool.
Variable open_map : text -> outcome io_error (list byte).

Definition references (o : options) : expected_hashes :=
  {| expected_md5 := hash_md5_opt o; expected_sha1 := hash_sha1_opt o;
     expected_sha256 := hash_sha256_opt o |}.

Lemma configured_eq o :
  configured exists_ o =
  {| ip_segment_paths := ip_segment_paths (checker_of exists_ (paths o)); ip_expected := references o |}.
Proof.
  unfold configured, references. destruct o as [sev js ph sp m s1 s2 ps]. cbn.
  unfold checker_of, EwfIntegrityPath_from_path, EwfIntegrityPath_from_paths.
  destruct ps as [|p [|q ps]], m, s1, s2; reflexivity.
Qed.

(** What a run reports of an analysis that returns. *)
Lemma run_options_analysed o contents issues ps hashes :
  Forall2 (fun p d => open_map p = Ok d) (ip_segment_paths (checker_of exists_ (paths o))) contents ->
  let self := {| segments := contents; expected := references o |} in
  analyse self = Ok issues -> analyse_with_progress self = Ok (issues, ps) ->
  compute_hashes {| segments := contents; expected := no_expected |} = Ok hashes ->
  run_options exists_ open_map o =
  Ok (Report (List.filter (fun a => severity_gte (severity a) (min_severity o)) issues)
       (if print_hashes o then hashes else None)).
Proof.
  intros Hmap self Han Hanp Hc.
  assert (mapM open_map (ip_segment_paths (checker_of exists_ (paths o))) = Ok contents) as Hm
    by by apply mapM_outcome_ok.
  unfold run_options. rewrite configured_eq.
  unfold path_analyse, path_analyse_with_progress, path_compute_hashes, map_segments.
  cbn [ip_segment_paths]. rewrite Hm. cbn [mbind outcome_bind]. rewrite path_checker_eq.
  cbn [ip_expected]. fold self. rewrite Han, Hanp. unfold EwfIntegrity_from_segments. rewrite Hc.
  cbn [infallible mbind outcome_bind].
  destruct (show_progress o), (print_hashes o); reflexivity.
Qed.

(** C31: [ewf-check] tells the truth by its exit code.  On segments that can be mapped
    it ends with a report, never with a panic: it shows exactly the anomalies of the
    analysis with the given references at or above the severity asked for, in order,
    and exits with 0 when every anomaly is below that severity and with 1 otherwise,
    with or without progress, JSON or digests. *)
Theorem ewf_check_exit o contents :
  Forall2 (fun p d => open_map p = Ok d) (ip_segment_paths (checker_of exists_ (paths o))) contents ->
  short_enough contents ->
  exists issues hashes,
    analyse {| segments := contents; expected := references o |} = Ok issues /\
    let r := Report (List.filter (fun a => severity_gte (severity a) (min_severity o)) issues) hashes in
    run_options exists_ open_map o = Ok r /\
    ((exit_code r = 0 /\
      Forall (fun a => severity_rank (severity a) < severity_rank (min_severity o)) issues) \/
     (exit_code r = 1 /\
      Exists (fun a => severity_rank (min_severity o) <= severity_rank (severity a)) issues)).
Proof.
  intros Hmap Hs. destruct (api_run contents (references o) Hs) as (v2 & es & h & Hv2 & Hc & Ha & Hp & _).
  set (self := {| segments := contents; expected := references o |}).
  assert (analyse self = Ok (issues_of es)) as Han.
  { unfold analyse. cbn [segments expected self]. rewrite Hv2. cbn [mbind outcome_bind]. by rewrite Ha. }
  assert (analyse_with_progress self = Ok (issues_of es, progress_of es)) as Hanp.
  { unfold analyse_with_progress. cbn [segments expected self]. rewrite Hv2. cbn [mbind outcome_bind].
    by rewrite Hp. }
  exists (issues_of es), (if print_hashes o then h else None). split; [done|]. cbn zeta.
  set (shown := List.filter _ _). split.
  - eapply run_options_analysed; [done|exact Han|exact Hanp|exact Hc].
  - assert (Hin : forall a, List.In a shown <-> List.In a (issues_of es) /\
       severity_rank (min_severity o) <= severity_rank (severity a)).
    { intros a. unfold shown. rewrite List.filter_In. unfold severity_gte. by rewrite Z.leb_le. }
    destruct shown as [|a l] eqn:Esh; cbn; [left|right]; (split; [done|]).
    + apply List.Forall_forall. intros a Hina. apply Z.nle_gt. intros Hle.
      by apply (proj2 (Hin a) (conj Hina Hle)).
    + apply List.Exists_exists. exists a. apply Hin. by left.
Qed.
End Main.
