(* ===== verification/Report.v ===== *)
(** What [ewf-check] prints: [print_text], [print_json] and the error of JSON mode in
    [forensic/src/bin/ewf_check.rs], and that the JSON is JSON. *)

From S2P Require Import Prelude Text Json Extern Types Hex Anomaly Messages IntegrityV1 Integrity EwfCheck.

(** ** The text report *)

Definition severity_tag (s : Severity) : text :=
  match s with
  | Critical => str "[CRITICAL]"
  | High => str "[HIGH]    "
  | Medium => str "[MEDIUM]  "
  | Low => str "[LOW]     "
  | Info => str "[INFO]    "
  end.

Definition println (s : text) : text := s ++ [newline].

Definition print_text (visible : list EwfIntegrityAnomaly) (min_severity : Severity) : text :=
  match visible with
  | [] => println (str "clean " ++ em_dash ++ str " 0 anomalies at or above " ++ severity_label min_severity)
  | _ =>
    println (print_dec (zlen visible) ++ str " anomaly/anomalies found:" ++ [newline])
    ++ concat (map (fun a => println (severity_tag (severity a) ++ str " " ++ message a)) visible)
  end.

Definition hash_lines (h : ComputedHashes) : text :=
  println [] ++ println (str "MD5:    " ++ hex_string (hash_md5 h))
  ++ println (str "SHA-1:  " ++ hex_string (hash_sha1 h))
  ++ println (str "SHA-256: " ++ hex_string (hash_sha256 h)).

(** ** The JSON report *)

(** A key of the format strings, with the colon after it. *)
Definition key (k : text) : text := quoted k ++ str ": ".

Definition json_anomaly (i : Z) (anomaly : EwfIntegrityAnomaly) : text :=
  let sep := if i =? 0 then [newline] else str "," ++ [newline] in
  sep ++ str "    {" ++ key (str "severity") ++ quoted (severity_label (severity anomaly)) ++ str ", "
  ++ key (str "kind") ++ quoted (anomaly_kind anomaly) ++ str ", "
  ++ key (str "message") ++ quoted (json_escape (message anomaly)) ++ str "}".

Definition json_hashes (h : ComputedHashes) : text :=
  str "," ++ [newline] ++ str "  " ++ key (str "hashes") ++ str "{" ++ [newline]
  ++ str "    " ++ key (str "md5") ++ quoted (hex_string (hash_md5 h)) ++ str "," ++ [newline]
  ++ str "    " ++ key (str "sha1") ++ quoted (hex_string (hash_sha1 h)) ++ str "," ++ [newline]
  ++ str "    " ++ key (str "sha256") ++ quoted (hex_string (hash_sha256 h)) ++ [newline]
  ++ str "  }".

Definition print_json (visible : list EwfIntegrityAnomaly) (hashes : option ComputedHashes) : text :=
  let clean := match visible with [] => true | _ => false end in
  let out := str "{" ++ [newline] ++ str "  " ++ key (str "clean") ++ bool_text clean ++ str "," ++ [newline]
             ++ str "  " ++ key (str "anomaly_count") ++ print_dec (zlen visible) ++ str "," ++ [newline]
             ++ str "  " ++ key (str "anomalies") ++ str "[" in
  let out := out ++ concat (map (fun '(i, a) => json_anomaly i a) (enumerate visible)) in
  let out := if negb clean then out ++ [newline] ++ str "  " else out in
  let out := out ++ str "]" in
  let out := match hashes with Some h => out ++ json_hashes h | None => out end in
  println (out ++ [newline] ++ str "}").

Definition json_error (e : text) : text := println (str "{" ++ key (str "error") ++ quoted (json_escape e) ++ str "}").

(** ** What a run prints on its standard output *)
Section Stdout.
Variable io_message : io_error -> text.

(** [None] for the help, the version and the usage errors, whose text is left out. *)
Definition stdout (o : options) (r : run_end) : option text :=
  match r with
  | Failed e => Some (if json_mode o then json_error (io_message e) else [])
  | Report visible hashes =>
    Some (if json_mode o then print_json visible hashes
          else print_text visible (min_severity o) ++ match hashes with Some h => hash_lines h | None => [] end)
  | Usage _ | Help | Version => None
  end.
End Stdout.
