(* ===== verification/ReportProps.v ===== *)
(** The JSON that [ewf-check] prints by hand is JSON, and says what was found. *)

From S2P Require Import Prelude Text Json Extern Types Hex Anomaly Messages IntegrityV1 Integrity EwfCheck Report.

(** ** Characters *)

(** A character: not negative. *)
Definition proper (s : text) : Prop := Forall (Z.le 0) s.

Lemma proper_app s t : proper s -> proper t -> proper (s ++ t).
Proof. apply Forall_app_2. Qed.

Lemma proper_str s : proper (str s).
Proof. apply List.Forall_map, Forall_true. intros a. lia. Qed.

Lemma proper_digit d : 0 <= d -> 0 <= digit_char d.
Proof. unfold digit_char. destruct (_ <? _); lia. Qed.

Lemma proper_digits fuel radix n acc : 0 < radix -> proper acc -> proper (print_digits fuel radix n acc).
Proof.
  intros Hr. revert n acc. induction fuel as [|fuel IH]; intros n acc Ha; [done|]. cbn [print_digits].
  assert (proper (digit_char (n mod radix) :: acc)) as Ha'.
  { constructor; [|done]. apply proper_digit. pose proof (Z.mod_pos_bound n radix Hr). lia. }
  destruct (_ =? 0); [done|by apply IH].
Qed.

Lemma proper_dec n : proper (print_dec n).
Proof. apply proper_digits; [lia|constructor]. Qed.

Lemma proper_hex n : proper (print_hex n).
Proof. apply proper_digits; [lia|constructor]. Qed.

Lemma proper_padded k n : proper (hex_padded k n).
Proof. apply proper_app; [|apply proper_hex]. apply Forall_replicate. lia. Qed.

Lemma proper_hash bs : proper (hex bs).
Proof.
  unfold hex, hex_string. apply Forall_concat, List.Forall_map, Forall_true. intros b.
  pose proof (byteZ_range b) as Hb. repeat constructor; apply proper_digit; Z.to_euclidean_division_equations; lia.
Qed.

(** The pieces of a message, one by one. *)
Ltac proper_pieces :=
  repeat match goal with
  | |- proper (_ ++ _) => apply proper_app
  | |- proper (str _) => apply proper_str
  | |- proper (print_dec _) => apply proper_dec
  | |- proper (print_hex _) => apply proper_hex
  | |- proper (hex_padded _ _) => apply proper_padded
  | |- proper (hex _) => apply proper_hash
  end.

(** The names an anomaly takes from the image are texts. *)
Definition named_properly (a : EwfIntegrityAnomaly) : Prop :=
  match a with
  | SectionDescriptorCrcMismatch _ n _ _ | UnknownSectionType _ n => proper n
  | _ => True
  end.

Lemma proper_message a : named_properly a -> proper (message a).
Proof.
  assert (proper em_dash /\ proper at_least /\ proper times) as (H1 & H2 & H3) by (repeat constructor; lia).
  destruct a; cbn [named_properly message]; intros Hn; proper_pieces; done.
Qed.

(** ** Strings of the grammar *)

Lemma escape_char_text c : 0 <= c -> char_text c (escape_char c).
Proof.
  intros Hc. destruct (decide (c < 32)) as [Hlt|Hge].
  - assert (c ∈ seqZ 0 32) as Hin by (apply elem_of_seqZ; lia). vm_compute in Hin.
    repeat (apply elem_of_cons in Hin as [->|Hin];
      [first [apply ct_escaped; reflexivity | apply ct_hex; reflexivity]|]). by apply not_elem_of_nil in Hin.
  - unfold escape_char. destruct (c =? quote) eqn:E1; bool_hyps; [subst; by apply ct_escaped|].
    destruct (c =? backslash) eqn:E2; bool_hyps; [subst; by apply ct_escaped|].
    rewrite (proj2 (Z.eqb_neq c 10)), (proj2 (Z.eqb_neq c 13)), (proj2 (Z.eqb_neq c 9)),
      (proj2 (Z.ltb_ge c 32)) by lia. by apply ct_plain; [lia| |].
Qed.

Lemma escape_chars s : proper s -> chars s (json_escape s).
Proof.
  induction 1 as [|c s Hc _ IH]; [constructor|]. unfold json_escape. cbn [map concat].
  constructor; [by apply escape_char_text|exact IH].
Qed.

Definition plain_char (c : Z) : bool := (32 <=? c) && negb (c =? quote) && negb (c =? backslash).

Lemma plain_chars s : forallb plain_char s = true -> chars s s.
Proof.
  induction s as [|c s IH]; [constructor|]. cbn. intros [Hc Hs]%andb_true_iff.
  change (c :: s) with ([c] ++ s) at 2. constructor; [|by apply IH].
  unfold plain_char in Hc. bool_hyps. by constructor.
Qed.

Lemma hex_string_chars bs : chars (hex_string bs) (hex_string bs).
Proof.
  apply plain_chars. unfold hex_string. induction bs as [|b bs IH]; [done|]. cbn [map concat app forallb hex_pair].
  rewrite !andb_true_iff. pose proof (byteZ_range b) as Hb.
  assert (forall d, 0 <= d < 16 -> plain_char (digit_char d) = true) as Hd.
  { intros d Hd. assert (d ∈ seqZ 0 16) as Hin by (apply elem_of_seqZ; lia). vm_compute in Hin.
    repeat (apply elem_of_cons in Hin as [->|Hin]; [reflexivity|]). by apply not_elem_of_nil in Hin. }
  split; [apply Hd; Z.to_euclidean_division_equations; lia|].
  split; [apply Hd; Z.to_euclidean_division_equations; lia|exact IH].
Qed.

Lemma quoted_renders s t : chars s t -> renders (JStr s) (quoted t).
Proof. apply rd_str. Qed.

(** ** Objects as the format strings lay them out *)

Lemma field_last w k v t w' :
  ws w -> forallb plain_char k = true -> renders v t -> ws w' -> members [(k, v)] (w ++ key k ++ t ++ w').
Proof.
  intros Hw Hk Ht Hw'. unfold key, quoted. cbn [app]. rewrite <-!app_assoc. cbn [app].
  apply (mb_one w k k [] [32] v t w'); [done|by apply plain_chars|constructor|by constructor|done|done].
Qed.

Lemma field_next w k v t ms u :
  ws w -> forallb plain_char k = true -> renders v t -> members ms u ->
  members ((k, v) :: ms) (w ++ key k ++ t ++ str "," ++ u).
Proof.
  intros Hw Hk Ht Hu. unfold key, quoted. cbn [app]. rewrite <-!app_assoc. cbn [app].
  apply (mb_cons w k k [] [32] v t [] ms u); [done|by apply plain_chars|constructor|by constructor|done|constructor|done].
Qed.

(** ** The report *)

Definition anomaly_value (a : EwfIntegrityAnomaly) : json :=
  JObj [(str "severity", JStr (severity_label (severity a))); (str "kind", JStr (anomaly_kind a));
        (str "message", JStr (message a))].

Definition hashes_value (h : ComputedHashes) : json :=
  JObj [(str "md5", JStr (hex_string (hash_md5 h))); (str "sha1", JStr (hex_string (hash_sha1 h)));
        (str "sha256", JStr (hex_string (hash_sha256 h)))].

Definition report_value (visible : list EwfIntegrityAnomaly) (hashes : option ComputedHashes) (exit : Z) : json :=
  JObj ([(str "clean", JBool (exit =? 0)); (str "anomaly_count", JNum (zlen visible));
         (str "anomalies", JArr (map anomaly_value visible))]
        ++ match hashes with Some h => [(str "hashes", hashes_value h)] | None => [] end).

(** A printed line. *)
Lemma read_line_renders v t : renders v t -> read_json (t ++ [newline]) = Some v.
Proof. intros Ht. apply (read_json_renders v t []); [constructor|by repeat constructor|done]. Qed.

(** A new line of the object, and one of an object in it. *)
Definition indent2 : text := newline :: str "  ".
Definition indent4 : text := newline :: str "    ".

(** The object of an anomaly, without what separates it from the one before. *)
Definition json_body (a : EwfIntegrityAnomaly) : text :=
  123 :: ([] ++ key (str "severity") ++ quoted (severity_label (severity a)) ++ str ","
          ++ str " " ++ key (str "kind") ++ quoted (anomaly_kind a) ++ str ","
          ++ str " " ++ key (str "message") ++ quoted (json_escape (message a)) ++ []) ++ [125].

Lemma json_anomaly_eq i a :
  json_anomaly i a = (if i =? 0 then [] else [44]) ++ indent4 ++ json_body a ++ [].
Proof.
  unfold json_anomaly, json_body.
  change (str "    {") with (str "    " ++ [123]). change (str ", ") with (str "," ++ str " "). change (str "}") with [125].
  destruct (i =? 0); cbn [app]; rewrite <-?app_assoc; cbn [app]; rewrite ?app_nil_r; done.
Qed.

Lemma label_chars a : forallb plain_char (severity_label (severity a)) = true.
Proof. by destruct (severity a). Qed.

Lemma kind_chars a : forallb plain_char (anomaly_kind a) = true.
Proof. by destruct a. Qed.

Lemma body_renders a : named_properly a -> renders (anomaly_value a) (json_body a).
Proof.
  intros Ha. apply rd_obj.
  apply field_next; [constructor|done|apply quoted_renders, plain_chars, label_chars|].
  apply field_next; [by constructor|done|apply quoted_renders, plain_chars, kind_chars|].
  apply field_last; [by constructor|done|by apply quoted_renders, escape_chars, proper_message|constructor].
Qed.

(** The elements: the separator before an object is the end of the one before it. *)
Lemma anomalies_render visible : forall i w,
  0 <= i -> visible <> [] -> Forall named_properly visible -> ws w ->
  exists t, concat (map (fun '(i, a) => json_anomaly i a) (enumerate_from i visible)) ++ w
            = (if i =? 0 then [] else [44]) ++ t /\
    elements (map anomaly_value visible) t.
Proof.
  induction visible as [|a visible IH]; intros i w Hi Hne Hv Hw; [done|]. apply Forall_cons in Hv as [Ha Hv].
  cbn [enumerate_from map concat]. rewrite json_anomaly_eq.
  assert (ws indent4) as Hws by repeat constructor.
  destruct visible as [|b visible].
  - exists (indent4 ++ json_body a ++ w). cbn [enumerate_from map concat]. split.
    + by rewrite !app_nil_r, <-!app_assoc.
    + by apply el_one; [|apply body_renders|].
  - destruct (IH (i + 1) w ltac:(lia) ltac:(done) Hv Hw) as (t & Ht & Hel).
    rewrite (proj2 (Z.eqb_neq (i + 1) 0)) in Ht by lia.
    exists (indent4 ++ json_body a ++ [] ++ 44 :: t). split.
    + rewrite <-!app_assoc. cbn [app] in Ht |- *. by rewrite Ht.
    + apply el_cons; [done|by apply body_renders|constructor|exact Hel].
Qed.

Lemma array_renders visible :
  Forall named_properly visible ->
  renders (JArr (map anomaly_value visible))
    (91 :: (concat (map (fun '(i, a) => json_anomaly i a) (enumerate visible))
            ++ (match visible with [] => [] | _ => indent2 end)) ++ [93]).
Proof.
  intros Hv. destruct visible as [|a visible]; [apply (rd_arr_nil []); constructor|].
  destruct (anomalies_render (a :: visible) 0 indent2) as (t & Ht & Hel); [done|done|done|by repeat constructor|].
  unfold enumerate. rewrite Ht. by apply rd_arr.
Qed.

Lemma hashes_render h :
  renders (hashes_value h)
    (123 :: (indent4 ++ key (str "md5") ++ quoted (hex_string (hash_md5 h)) ++ str ","
             ++ indent4 ++ key (str "sha1") ++ quoted (hex_string (hash_sha1 h)) ++ str ","
             ++ indent4 ++ key (str "sha256") ++ quoted (hex_string (hash_sha256 h))
             ++ indent2) ++ [125]).
Proof.
  assert (ws indent4 /\ ws indent2) as [H1 H2] by (split; repeat constructor).
  apply rd_obj. apply field_next; [done|done|apply quoted_renders, hex_string_chars|].
  apply field_next; [done|done|apply quoted_renders, hex_string_chars|].
  apply field_last; [done|done|apply quoted_renders, hex_string_chars|done].
Qed.

Definition array_text (visible : list EwfIntegrityAnomaly) : text :=
  91 :: (concat (map (fun '(i, a) => json_anomaly i a) (enumerate visible))
         ++ (match visible with [] => [] | _ => indent2 end)) ++ [93].

Definition hashes_text (h : ComputedHashes) : text :=
  123 :: (indent4 ++ key (str "md5") ++ quoted (hex_string (hash_md5 h)) ++ str ","
          ++ indent4 ++ key (str "sha1") ++ quoted (hex_string (hash_sha1 h)) ++ str ","
          ++ indent4 ++ key (str "sha256") ++ quoted (hex_string (hash_sha256 h))
          ++ indent2) ++ [125].

(** The output as one object of the grammar. *)
Lemma print_json_eq visible hashes :
  print_json visible hashes =
  (123 :: (indent2 ++ key (str "clean") ++ bool_text (match visible with [] => true | _ => false end)
     ++ str "," ++ indent2 ++ key (str "anomaly_count") ++ print_dec (zlen visible)
     ++ str "," ++ indent2 ++ key (str "anomalies") ++ array_text visible
     ++ match hashes with
        | Some h => str "," ++ indent2 ++ key (str "hashes") ++ hashes_text h ++ [newline]
        | None => [newline]
        end) ++ [125]) ++ [newline].
Proof.
  unfold print_json, println, array_text, hashes_text, json_hashes.
  change (str "{") with [123]. change (str "}") with [125]. change (str "[") with [91]. change (str "]") with [93].
  change (str "  }") with (str "  " ++ [125]).
  destruct visible as [|a visible]; destruct hashes as [h|]; cbn [negb];
    repeat (rewrite <-app_assoc || cbn [app]); rewrite ?app_nil_r; reflexivity.
Qed.

Lemma print_json_renders visible hashes :
  Forall named_properly visible -> zlen visible <= u64_max ->
  read_json (print_json visible hashes) = Some (report_value visible hashes (exit_code (Report visible hashes))).
Proof.
  intros Hv Hmax. rewrite print_json_eq. pose proof (zlen_nonneg visible).
  assert (ws indent2 /\ ws [newline]) as [H1 H2] by (split; repeat constructor).
  apply read_line_renders. unfold report_value.
  apply rd_obj. cbn [app].
  replace (exit_code (Report visible hashes) =? 0) with (match visible with [] => true | _ => false end) by by destruct visible.
  apply field_next; [done|done|apply rd_bool|]. apply field_next; [done|done|by apply rd_num|].
  destruct hashes as [h|].
  - apply field_next; [done|done|by apply array_renders|].
    apply field_last; [done|done|apply hashes_render|done].
  - apply field_last; [done|done|by apply array_renders|done].
Qed.

(** C30: JSON mode prints JSON.  Whatever a run found in an image - and an image
    chooses the type names in the messages - its standard output is one JSON text,
    which a reader takes back to the object the run means: [clean] exactly when the
    process exits with 0, the number of anomalies, for each of them in order its
    severity, kind and message, and the three digests in hexadecimal when they were
    asked for and exist; a run that fails prints the object of its error. *)
Theorem json_output_spec io_message o r out :
  json_mode o = true -> stdout io_message o r = Some out ->
  match r with
  | Report visible hashes =>
    Forall named_properly visible -> zlen visible <= u64_max ->
    read_json out = Some (report_value visible hashes (exit_code r))
  | Failed e => proper (io_message e) -> read_json out = Some (JObj [(str "error", JStr (io_message e))])
  | _ => False
  end.
Proof.
  intros Hj. unfold stdout. rewrite Hj. destruct r as [e| | |e|visible hashes]; try done; intros [= <-].
  - intros He. unfold json_error, println.
    change (str "{" ++ ?x) with (123 :: x). change (str "}") with [125].
    assert (forall (x y : text), 123 :: x ++ y ++ [125] = 123 :: ([] ++ x ++ y ++ []) ++ [125]) as Heq.
    { intros x y. cbn [app]. by rewrite app_nil_r, <-app_assoc. }
    rewrite Heq. apply read_line_renders.
    apply rd_obj, field_last; [constructor|done|by apply quoted_renders, escape_chars|constructor].
  - intros Hv Hmax. by apply print_json_renders.
Qed.
