(* ===== verification/Cli.v ===== *)
(** The [ewf] command: the handlers of [cli/src/handlers.rs] and [handle_ls] and the
    exit code of [cli/src/main.rs].

    A JSON value is the record of its fields; its layout and the human-readable text
    are not modelled.  A handler opens the image by its path with [open_reader], the
    pattern discovery of the reader. *)

From S2P Require Import Prelude Text Extern Types Sections Source ChunkTable Path ReaderOpen.
From S2P Require Import Discover Reader Logical LogicalRead Hex.

Inductive cli_error :=
| CliEwf (e : ewf_error)
| CliIo (e : io_error)
| OffsetBeyond (offset total : Z)
| BadPattern (e : pattern_error)
| NoStem (path : text)
| NoEwfSegments (path : text).

Definition of_ewf {A} (m : res A) : outcome cli_error A :=
  match m with Ok a => Ok a | Err e => Err (CliEwf e) | Panic => Panic end.
Definition of_io {A} (m : outcome io_error A) : outcome cli_error A :=
  match m with Ok a => Ok a | Err e => Err (CliIo e) | Panic => Panic end.

Section Cli.
Context `{SafeRead} `{Zlib} `{Profile} `{Lru Z (list Chunk)} `{Lru Z (list byte)}.
Context `{Digests} `{Rayon}.
Variable open_reader : text -> res EwfReader.

(** A step on the reader inside a handler whose state is [T]. *)
Definition on_reader {T E A} (get_ : T -> EwfReader) (put : EwfReader -> T -> T)
    (wrap : E -> cli_error) (m : stateful EwfReader E A) : stateful T cli_error A := fun s =>
  match m (get_ s) with
  | (Ok a, r) => (Ok a, put r s)
  | (Err e, r) => (Err (wrap e), put r s)
  | (Panic, r) => (Panic, put r s)
  end.

Abbreviation handler := (stateful EwfReader cli_error).

Definition io_op {A} : stateful EwfReader io_error A -> handler A :=
  on_reader id (fun r _ => r) CliIo.
Definition ewf_op {A} : stateful EwfReader ewf_error A -> handler A :=
  on_reader id (fun r _ => r) CliEwf.

(** Open the image, then run the handler on the reader. *)
Definition with_reader {A} (path : text) (body : EwfReader -> handler A) : outcome cli_error A :=
  reader ← of_ewf (open_reader path); fst (body reader reader).

(** ** [info] and [verify] *)
Record info := {
  info_media_size : Z;
  info_chunk_size : Z;
  info_chunk_count : Z;
  info_md5 : option text;
  info_sha1 : option text;
  info_metadata : EwfMetadata;
  info_errors : list AcquisitionError;
}.

Definition handle_ewf_info (path : text) : outcome cli_error info :=
  with_reader path (fun reader =>
    mret {| info_media_size := r_total_size reader; info_chunk_size := r_chunk_size reader;
            info_chunk_count := chunk_count_of reader;
            info_md5 := hex_string <$> stored_hashes_md5 (stored_hashes reader);
            info_sha1 := hex_string <$> stored_hashes_sha1 (stored_hashes reader);
            info_metadata := r_metadata reader; info_errors := r_acquisition_errors reader |}).

Record verify_json := {
  vj_computed_md5 : text;
  vj_computed_sha1 : option text;
  vj_md5_match : option bool;
  vj_sha1_match : option bool;
  vj_complete : bool;
  vj_addressable_bytes : Z;
  vj_declared_bytes : Z;
  vj_missing_bytes : Z;
}.

Definition verify_json_of (result : VerifyResult) : verify_json :=
  {| vj_computed_md5 := hex_string (computed_md5 result);
     vj_computed_sha1 := hex_string <$> computed_sha1 result;
     vj_md5_match := md5_match result; vj_sha1_match := sha1_match result;
     vj_complete := is_complete result; vj_addressable_bytes := addressable_bytes result;
     vj_declared_bytes := declared_bytes result; vj_missing_bytes := missing_bytes result |}.

Definition handle_ewf_verify (path : text) : outcome cli_error verify_json :=
  with_reader path (fun _ => result ← ewf_op verify; mret (verify_json_of result)).

(** Whether [ewf verify] exits with 2: a hash differs or the read is partial. *)
Definition verify_bad (v : verify_json) : bool :=
  bool_decide (vj_md5_match v = Some false) || bool_decide (vj_sha1_match v = Some false)
  || negb (vj_complete v).

(** ** [read] *)
Record sectors_json := {
  sj_offset : Z;
  sj_length : Z;
  sj_hex : text;
}.

Definition handle_ewf_read_sectors (path : text) (offset length : Z) : outcome cli_error sectors_json :=
  with_reader path (fun reader =>
    let total := r_total_size reader in
    if total <=? offset then lift (Err (OffsetBeyond offset total))
    else
      left_ ← lift (sub64 total offset);
      let actual_len := Z.min length left_ in
      _ ← io_op (reader_seek (Start offset));
      _ ← lift (vec_zeroed actual_len);
      buf ← io_op (media_read_exact actual_len);
      mret {| sj_offset := offset; sj_length := actual_len; sj_hex := hex_string buf |}).

(** ** [sections] *)
Record section_json := {
  sec_segment : Z;
  sec_type : text;
  sec_offset : Z;
  sec_size : Z;
}.

(** A seek to [offset] and a [read_exact] of [n] bytes on a file. *)
Definition file_window (bytes : list byte) (offset n : Z) : outcome cli_error (list byte) :=
  if i64_max <? offset then Err (CliIo InvalidInput)
  else match slice bytes offset (offset + n) with
       | Some s => Ok s
       | None => Err (CliIo UnexpectedEof)
       end.

(** The loop over the descriptors of a segment from [offset].  Running out of fuel
    is a [Panic]. *)
Fixpoint list_sections_loop (fuel : nat) (seg_idx : Z) (bytes : list byte) (offset : Z)
    (all : list section_json) : outcome cli_error (list section_json) :=
  match fuel with
  | O => Panic
  | S fuel =>
    end_ ← add64 offset 76;
    if zlen bytes <? end_ then Ok all
    else
      buf ← file_window bytes offset 76;
      desc ← of_ewf (SectionDescriptor_parse buf offset);
      let all := all ++ [{| sec_segment := seg_idx; sec_type := section_type desc;
                            sec_offset := Sections.offset desc;
                            sec_size := section_size desc |}] in
      if (next desc =? 0) || (next desc <=? offset) then Ok all
      else list_sections_loop fuel seg_idx bytes (next desc) all
  end.

Fixpoint list_segments (open_file : text -> outcome io_error (list byte)) (seg_idx : Z)
    (paths : list text) (all : list section_json) : outcome cli_error (list section_json) :=
  match paths with
  | [] => Ok all
  | p :: paths =>
    bytes ← of_io (open_file p);
    all ← list_sections_loop (S (length bytes)) seg_idx bytes 13 all;
    list_segments open_file (seg_idx + 1) paths all
  end.

(** The two patterns of the handler, on the parent as [Path::parent] gives it. *)
Definition section_patterns (glob_escape : text -> text) (first : text) (stem : text) : list text :=
  let parent_str := default (str ".") (parent first) in
  let head := parent_str ++ slash :: glob_escape stem in
  [head ++ str ".[Ee][0-9][0-9]"; head ++ str ".[Ee][A-Za-z][A-Za-z]"].

Definition handle_ewf_list_sections (glob_escape : text -> text)
    (glob : text -> option (list (option text))) (open_file : text -> outcome io_error (list byte))
    (path : text) : outcome cli_error (list section_json) :=
  match file_stem path with
  | None => Err (NoStem path)
  | Some stem =>
    let seg_paths := concat (map (glob_ok glob) (section_patterns glob_escape path stem)) in
    match seg_paths with
    | [] => Err (NoEwfSegments path)
    | _ => list_segments open_file 0 (sort_by upper_extension seg_paths) []
    end
  end.

(** ** [search] *)
Definition BUF_SIZE : Z := 64 * 1024.

(** The inner loop over the positions of [window], which starts at [base] in the
    image: it pushes a match and stops once there are enough. *)
Fixpoint search_window (window pattern : list byte) (base max_results : Z) (positions : list Z)
    (matches : list Z) : outcome cli_error (list Z) :=
  match positions with
  | [] => Ok matches
  | i :: positions =>
    here ← index_range window i (i + zlen pattern);
    if bool_decide (here = pattern) then
      match_offset ← add64 base i;
      let matches := matches ++ [match_offset] in
      if max_results <=? zlen matches then Ok matches
      else search_window window pattern base max_results positions matches
    else search_window window pattern base max_results positions matches
  end.

(** The [while] loop.  [kept] is the [carry] bytes at the start of the buffer; what
    the buffer holds behind the bytes just read is never looked at. *)
Fixpoint search_loop (fuel : nat) (pattern : list byte) (total max_results : Z)
    (file_offset : Z) (kept : list byte) (matches : list Z) : handler (list Z) :=
  match fuel with
  | O => if (file_offset <? total) && (zlen matches <? max_results) then lift Panic else mret matches
  | S fuel =>
    if (file_offset <? total) && (zlen matches <? max_results) then
      left_ ← lift (sub64 total file_offset);
      let to_read := Z.min BUF_SIZE left_ in
      let carry := zlen kept in
      _ ← (if carry + to_read <=? BUF_SIZE + zlen pattern - 1 then mret tt else lift Panic);
      bs ← io_op (reader_read to_read);
      if zlen bs =? 0 then mret matches
      else
        let window := kept ++ bs in
        let search_len := zlen window in
        let end_ := if zlen pattern <=? search_len then search_len - zlen pattern + 1 else 0 in
        base ← lift (sub64 file_offset carry);
        matches ← lift (search_window window pattern base max_results (range 0 end_) matches);
        let overlap := zlen pattern - 1 in
        let kept := if (1 <? zlen pattern) && (overlap <=? search_len)
                    then zdrop (search_len - overlap) window else [] in
        file_offset ← lift (add64 file_offset (zlen bs));
        search_loop fuel pattern total max_results file_offset kept matches
    else mret matches
  end.

Definition search_pattern (pattern : list byte) (max_results : Z) : handler (list Z) := fun reader =>
  (_ ← io_op (reader_seek (Start 0));
   search_loop (S (Z.to_nat (r_total_size reader))) pattern (r_total_size reader) max_results
     0 [] []) reader.

Definition handle_ewf_search (path pattern_hex : text) (max_results : Z)
    : outcome cli_error (list Z) :=
  match parse_pattern pattern_hex with
  | Panic => Panic
  | Err e => Err (BadPattern e)
  | Ok pattern => with_reader path (fun _ => search_pattern pattern max_results)
  end.

(** ** [extract]: the state is the reader and the bytes of the output file, if it has
    been created.  What is written does not change the image that is being read. *)
Section Extract.
Variable device : list byte -> list byte -> option io_error.
Variable create : option io_error.

Abbreviation extractor := (stateful (EwfReader * option (list byte)) cli_error).

Definition reader_op {A} : stateful EwfReader io_error A -> extractor A :=
  on_reader fst (fun r s => (r, snd s)) CliIo.

(** [File::create] *)
Definition create_out : extractor unit := fun s =>
  match create with
  | Some e => (Err (CliIo e), s)
  | None => (Ok tt, (fst s, Some []))
  end.

(** [write_all] on the created file. *)
Definition write_out (bytes : list byte) : extractor unit := fun s =>
  let out := default [] (snd s) in
  match device out bytes with
  | Some e => (Err (CliIo e), s)
  | None => (Ok tt, (fst s, Some (out ++ bytes)))
  end.

(** The [while remaining > 0] loop; what it leaves of [remaining]. *)
Fixpoint extract_loop (fuel : nat) (remaining : Z) : extractor Z :=
  match fuel with
  | O => if 0 <? remaining then lift Panic else mret remaining
  | S fuel =>
    if 0 <? remaining then
      bs ← reader_op (reader_read (Z.min remaining BUF_SIZE));
      if zlen bs =? 0 then mret remaining
      else
        _ ← write_out bs;
        remaining ← lift (sub64 remaining (zlen bs));
        extract_loop fuel remaining
    else mret remaining
  end.

(** The number of bytes written. *)
Definition extract_range (offset length : Z) : extractor Z := fun s =>
  let total := r_total_size (fst s) in
  (if total <=? offset then lift (Err (OffsetBeyond offset total))
   else
     left_ ← lift (sub64 total offset);
     let actual_len := Z.min length left_ in
     _ ← reader_op (reader_seek (Start offset));
     _ ← create_out;
     remaining ← extract_loop (Z.to_nat actual_len) actual_len;
     lift (sub64 actual_len remaining)) s.

Record extract_json := {
  ej_offset : Z;
  ej_bytes_written : Z;
  ej_output : text;
}.

(** What is answered, and what the output file holds if it was created. *)
Definition handle_ewf_extract (path : text) (offset length : Z) (output : text)
    : outcome cli_error extract_json * option (list byte) :=
  match of_ewf (open_reader path) with
  | Ok reader =>
    let '(written, (_, out)) := extract_range offset length (reader, None) in
    ((n ← written; Ok {| ej_offset := offset; ej_bytes_written := n; ej_output := output |}), out)
  | Err e => (Err e, None)
  | Panic => (Panic, None)
  end.
End Extract.

(** ** [ls] *)

(** The walk over the parents of [full_path], which collects the names.  Running out
    of fuel is a [Panic]. *)
Fixpoint path_parts (fuel : nat) (es : list LogicalEntry) (cur : option Z) (parts : list text)
    : outcome cli_error (list text) :=
  match cur with
  | None => Ok parts
  | Some k =>
    match fuel with
    | O => Panic
    | S fuel =>
      e ← index es k;
      let parts := if bool_decide (le_name e = []) then parts else parts ++ [le_name e] in
      path_parts fuel es (le_parent e) parts
    end
  end.

Definition full_path (es : list LogicalEntry) (i : Z) : outcome cli_error text :=
  parts ← path_parts (S (length es)) es (Some i) []; Ok (join slash (rev parts)).

Record ls_summary := {
  ls_entries : list LogicalEntry;
  ls_paths : list text;
  ls_files : Z;
  ls_dirs : Z;
  ls_bytes : Z;
  ls_verified : bool;
  ls_indicators : Z;
  ls_replaced : Z;
  ls_warnings : list logical_warning;
}.

(** [iter().filter(..).map(|e| e.size).sum()] *)
Fixpoint sum_file_sizes (acc : Z) (es : list LogicalEntry) : outcome cli_error Z :=
  match es with
  | [] => Ok acc
  | e :: es =>
    if le_is_dir e then sum_file_sizes acc es
    else acc ← add64 acc (le_size e); sum_file_sizes acc es
  end.

(** What [handle_ls] reports of the ltree found in the container; [summary] hides the
    entries. *)
Definition list_ltree (found : res (LtreeHeader * list byte)) (summary : bool)
    : outcome cli_error ls_summary :=
  '(header, body) ← of_ewf found;
  let verified := bool_decide (md5 body = data_md5 header) in
  let '(txt, replaced) := decode_ltree_text body in
  tree ← of_ewf (parse_entry_tree txt);
  let es := entries tree in
  let files := zlen (List.filter (fun e => negb (le_is_dir e)) es) in
  bytes ← sum_file_sizes 0 es;
  paths ← (if summary then Ok [] else mapM (full_path es) (range 0 (zlen es)));
  Ok {| ls_entries := es; ls_paths := paths; ls_files := files; ls_dirs := zlen es - files; ls_bytes := bytes;
        ls_verified := verified; ls_indicators := zlen (indicators tree); ls_replaced := replaced; ls_warnings := warnings tree |}.
End Cli.
