(* ===== verification/CliProps.v ===== *)
(** What the handlers of the command promise about the image they open. *)

From S2P Require Import Prelude Text Extern Types Sections Source ChunkTable Path ReaderOpen.
From S2P Require Import Discover Reader Logical LogicalRead Hex Cli.

(** * Search *)

(** The positions from [a] to [b] at which [pattern] occurs in [data]. *)
Definition occurs_at (data pattern : list byte) (o : Z) : bool :=
  bool_decide (slice data o (o + zlen pattern) = Some pattern).
Definition occurrences (data pattern : list byte) (a b : Z) : list Z :=
  List.filter (occurs_at data pattern) (range a b).

Lemma occurrences_cons data pattern a b :
  a < b -> occurrences data pattern a b =
           (if occurs_at data pattern a then [a] else []) ++ occurrences data pattern (a + 1) b.
Proof.
  intros Hab. unfold occurrences. rewrite range_cons by done. cbn [List.filter].
  by destruct (occurs_at data pattern a).
Qed.

Lemma occurrences_nil data pattern a b : b <= a -> occurrences data pattern a b = [].
Proof. intros. unfold occurrences. by rewrite range_nil. Qed.

Lemma occurrences_app data pattern a b c :
  a <= b -> b <= c ->
  occurrences data pattern a c = occurrences data pattern a b ++ occurrences data pattern b c.
Proof. intros. unfold occurrences. by rewrite (range_app a b c), List.filter_app. Qed.

(** No pattern starts too close to the end. *)
Lemma occurrences_end data pattern a b :
  zlen data - zlen pattern < a -> occurrences data pattern a b = [].
Proof.
  intros Ha. unfold occurrences. destruct (List.filter _ _) as [|o l] eqn:E; [done|].
  assert (List.In o (List.filter (occurs_at data pattern) (range a b))) as Hin by (rewrite E; by left).
  apply List.filter_In in Hin as [Ho Hocc]. apply list_elem_of_In, elem_of_seqZ in Ho.
  unfold occurs_at in Hocc. apply bool_decide_eq_true, slice_bounds in Hocc. lia.
Qed.

(** The first [n] elements, once there are [n]. *)
Lemma ztake_enough {A} n (l r : list A) : n <= zlen (ztake n l) -> ztake n (l ++ r) = ztake n l.
Proof.
  rewrite zlen_ztake. pose proof (zlen_nonneg l). intros Hn. apply ztake_app_le. lia.
Qed.

Section Search.
Context `{Profile}.

Lemma search_window_spec data pattern base win max a end_ ms :
  slice data base (base + zlen win) = Some win -> zlen data <= i64_max ->
  0 <= a -> (a < end_ -> end_ + zlen pattern - 1 <= zlen win) -> zlen ms < max ->
  search_window win pattern base max (range a end_) ms =
  Ok (ztake max (ms ++ occurrences data pattern (base + a) (base + end_))).
Proof.
  intros Hwin Hd Ha Hend. remember (Z.to_nat (end_ - a)) as n eqn:En. revert a ms Ha Hend En.
  pose proof (slice_bounds _ _ _ _ Hwin). pose proof (zlen_nonneg pattern).
  induction n as [|n IH]; intros a ms Ha Hend En Hms.
  { rewrite range_nil, occurrences_nil, app_nil_r by lia. cbn. by rewrite ztake_all by lia. }
  rewrite range_cons by lia. cbn [search_window].
  unfold index_range. rewrite (slice_slice data base (base + zlen win)) by (done || lia).
  replace (base + (a + zlen pattern)) with (base + a + zlen pattern) by lia.
  rewrite (occurrences_cons data pattern (base + a)) by lia. unfold occurs_at at 1.
  destruct (slice data (base + a) (base + a + zlen pattern)) as [here|] eqn:Eh.
  2: { apply slice_none in Eh. lia. }
  cbn [or_panic mbind outcome_bind].
  replace (base + a + 1) with (base + (a + 1)) by lia. case_bool_decide as Heq.
  - subst here. rewrite bool_decide_true by done. rewrite add64_ok by lia. cbn [mbind outcome_bind].
    assert (zlen (ms ++ [base + a]) = zlen ms + 1) as Hl by (rewrite zlen_app; done).
    rewrite app_assoc. destruct (max <=? zlen (ms ++ [base + a])) eqn:Em; bool_hyps.
    + by rewrite ztake_app_len by lia.
    + by rewrite IH by lia.
  - rewrite bool_decide_false by congruence. by rewrite IH by lia.
Qed.
End Search.

(** * The handlers over an image *)
Section Handlers.
Context `{SafeRead} `{ZlibLaws} `{Profile} `{LruLaws Z (list Chunk)} `{LruLaws Z (list byte)}.

(** An image all of whose pages decode and whose table covers the declared size. *)
Record whole (im : image) (pages : list (list byte)) : Prop := {
  wh_ok : image_ok im;
  wh_pages : all_pages im = Ok pages;
  wh_covered : im_total_size im <= im_chunk_size im * im_count im;
  wh_fits : im_total_size im <= i64_max;
}.

Lemma zlen_media im pages : whole im pages -> zlen (media im pages) = im_total_size im.
Proof.
  intros [Hok Hp Hc Hf]. destruct (all_pages_length im pages Hok Hp) as [Hl Hall].
  unfold media. rewrite zlen_ztake, (zlen_concat_pages _ _ Hall), Hl.
  pose proof (io_wf _ Hok) as [_ Ht]. lia.
Qed.

Lemma whole_read im pages pos n r :
  whole im pages -> presents im pos r -> 0 <= n -> 0 <= pos <= im_total_size im ->
  exists r' bs, reader_read n r = (Ok bs, r') /\ bs = ztake n (zdrop pos (media im pages)) /\
    zlen bs = Z.min n (im_total_size im - pos) /\ presents im (pos + zlen bs) r'.
Proof.
  intros Hw Hr Hn Hp. pose proof (zlen_media im pages Hw) as Hz. destruct Hw as [Hok Hpg Hc Hf].
  destruct (reader_read_serves im pages pos n r Hok Hpg Hc Hr) as (r' & Hrun & Hr'); [lia|lia|lia|].
  eexists r', _. split; [done|]. split; [done|]. split; [|done].
  rewrite zlen_ztake, zlen_zdrop. lia.
Qed.

Lemma io_op_run {A} (m : stateful EwfReader io_error A) r :
  io_op m r = match m r with
              | (Ok a, r') => (Ok a, r') | (Err e, r') => (Err (CliIo e), r') | (Panic, r') => (Panic, r')
              end.
Proof. done. Qed.

Section Image.
Context (im : image) (pages : list (list byte)) (Hw : whole im pages).
Abbreviation data := (media im pages).
Abbreviation total := (im_total_size im).

(** The matches in what a search has read up to [f]. *)
Definition found (pattern : list byte) (max f : Z) : list Z :=
  ztake max (occurrences data pattern 0 (f - (zlen pattern - 1))).

(** The state of the loop at [f]: the carry is the end of what was read. *)
Definition carried (pattern : list byte) (f : Z) (kept : list byte) : Prop :=
  slice data (f - zlen kept) f = Some kept /\
  (zlen kept = Z.min f (zlen pattern - 1) \/ f = total).

Lemma search_round pattern max f kept bs base :
  carried pattern f kept -> 0 < zlen pattern <= BUF_SIZE + 1 -> 0 <= f < total ->
  bs = ztake (Z.min BUF_SIZE (total - f)) (zdrop f data) ->
  zlen bs = Z.min BUF_SIZE (total - f) -> base = f - zlen kept ->
  let win := kept ++ bs in
  let end_ := if zlen pattern <=? zlen win then zlen win - zlen pattern + 1 else 0 in
  slice data base (base + zlen win) = Some win /\
  ztake max (found pattern max f ++ occurrences data pattern (base + 0) (base + end_)) =
    found pattern max (f + zlen bs) /\
  carried pattern (f + zlen bs)
    (if (1 <? zlen pattern) && (zlen pattern - 1 <=? zlen win)
     then zdrop (zlen win - (zlen pattern - 1)) win else []).
Proof.
  intros [Hkept Hlen] Hpat Hf -> Hbs -> win end_. pose proof (zlen_media im pages Hw) as Hz.
  unfold BUF_SIZE in *. destruct Hlen as [Hlen|Hlen]; [|lia].
  set (bs := ztake _ (zdrop f data)) in *.
  assert (slice data f (f + zlen bs) = Some bs) as Hsb.
  { rewrite slice_some by lia. unfold bs. f_equal. f_equal. fold bs. lia. }
  pose proof (slice_join _ _ _ _ _ _ Hkept Hsb) as Hwin. fold win in Hwin.
  assert (zlen win = zlen kept + zlen bs) as Hwl by (unfold win; by rewrite zlen_app).
  split; [|split].
  - rewrite Hwl. by replace (f - zlen kept + (zlen kept + zlen bs)) with (f + zlen bs) by lia.
  - unfold found. rewrite Z.add_0_r, Hlen.
    assert (f - Z.min f (zlen pattern - 1) = Z.max 0 (f - (zlen pattern - 1))) as Hbase by lia.
    assert (Hend : f - Z.min f (zlen pattern - 1) + end_ = Z.max 0 (f + zlen bs - (zlen pattern - 1))).
    { unfold end_. destruct (_ <=? zlen win) eqn:E; bool_hyps; lia. }
    rewrite Hend, Hbase.
    assert (Hmax0 : forall x, occurrences data pattern 0 (Z.max 0 x) = occurrences data pattern 0 x).
    { intros x. destruct (decide (x <= 0)); [|f_equal; lia]. rewrite !occurrences_nil by lia. done. }
    rewrite <-(Hmax0 (f - (zlen pattern - 1))), <-(Hmax0 (f + zlen bs - (zlen pattern - 1))).
    rewrite (occurrences_app data pattern 0 (Z.max 0 (f - (zlen pattern - 1)))
               (Z.max 0 (f + zlen bs - (zlen pattern - 1)))) by lia.
    set (l := occurrences data pattern 0 _). set (k := occurrences data pattern (Z.max _ _) _).
    destruct (decide (zlen l <= max)) as [Hle|Hgt]; [by rewrite (ztake_all max l) by lia|].
    assert (zlen (ztake max l) = Z.max 0 max) as Hzl by (rewrite zlen_ztake; pose proof (zlen_nonneg l); lia).
    rewrite (ztake_app_le max l) by lia. destruct (decide (0 <= max)).
    + rewrite ztake_app_le by lia. by rewrite ztake_ztake by lia.
    + unfold ztake. by rewrite !(Z2Nat.nonpos max) by lia.
  - unfold carried. destruct ((1 <? zlen pattern) && _) eqn:E; bool_hyps.
    + rewrite zlen_zdrop.
      replace (Z.max 0 (zlen win - Z.max 0 (zlen win - (zlen pattern - 1)))) with (zlen pattern - 1) by lia.
      split; [|left; lia].
      pose proof (slice_slice data (f - zlen kept) (f + zlen bs) (zlen win - (zlen pattern - 1)) (zlen win)
                    win Hwin ltac:(lia) ltac:(lia)) as Hs.
      replace (f - zlen kept + (zlen win - (zlen pattern - 1))) with (f + zlen bs - (zlen pattern - 1)) in Hs by lia.
      replace (f - zlen kept + zlen win) with (f + zlen bs) in Hs by lia. rewrite <-Hs.
      rewrite slice_some by lia. rewrite ztake_all by (rewrite zlen_zdrop; lia). done.
    + change (@zlen byte []) with 0. rewrite Z.sub_0_r, slice_some by lia.
      rewrite Z.sub_diag, ztake_0. split; [done|]. left. lia.
    + change (@zlen byte []) with 0. rewrite Z.sub_0_r, slice_some by lia.
      rewrite Z.sub_diag, ztake_0. split; [done|]. right. lia.
Qed.

(** The matches at the end of a search are the first of the whole image. *)
Lemma found_done pattern max f :
  0 < zlen pattern -> 0 <= f <= total -> f = total \/ max <= zlen (found pattern max f) ->
  found pattern max f = ztake max (occurrences data pattern 0 total).
Proof.
  intros Hp Hf Hd. pose proof (zlen_media im pages Hw) as Hz. unfold found in *.
  set (x := f - (zlen pattern - 1)) in *.
  assert (Hsplit : occurrences data pattern 0 total =
     occurrences data pattern 0 x ++ occurrences data pattern (Z.max 0 x) total).
  { destruct (decide (0 <= x)).
    - rewrite (Z.max_r 0 x) by lia. apply occurrences_app; lia.
    - rewrite (occurrences_nil data pattern 0 x) by lia. by rewrite (Z.max_l 0 x) by lia. }
  rewrite Hsplit. destruct Hd as [->|Hd]; [|by rewrite ztake_enough].
  rewrite (occurrences_end data pattern (Z.max 0 x)) by lia. by rewrite app_nil_r.
Qed.

Lemma search_loop_spec pattern max fuel f kept r :
  0 < zlen pattern <= BUF_SIZE + 1 -> carried pattern f kept -> 0 <= f <= total ->
  total - f < Z.of_nat fuel -> presents im f r ->
  exists r' pos, presents im pos r' /\
    search_loop fuel pattern total max f kept (found pattern max f) r =
    (Ok (ztake max (occurrences data pattern 0 total)), r').
Proof.
  intros Hpat. pose proof (zlen_media im pages Hw) as Hz. pose proof (wh_fits _ _ Hw) as Hfits.
  revert f kept r. induction fuel as [|fuel IH]; intros f kept r Hc Hf Hfuel Hr; [lia|].
  cbn [search_loop]. destruct ((f <? total) && _) eqn:E; bool_hyps.
  2: { eexists r, f. split; [done|]. unfold mret, stateful_ret. f_equal. f_equal. apply found_done; [lia|done|left; lia]. }
  2: { eexists r, f. split; [done|]. unfold mret, stateful_ret. f_equal. f_equal. apply found_done; [lia|done|right; lia]. }
  rewrite stateful_lift_run, sub64_ok by lia.
  assert (zlen kept <= f) as Hkf by (destruct Hc as [Hk _]; apply slice_bounds in Hk; lia).
  assert (zlen kept <= zlen pattern - 1) as Hkp by (destruct Hc as [_ [Hk|Hk]]; lia).
  rewrite (proj2 (Z.leb_le _ (BUF_SIZE + zlen pattern - 1))) by lia.
  rewrite stateful_bind_run. cbn [mret stateful_ret]. rewrite stateful_bind_run, io_op_run.
  destruct (whole_read im pages f (Z.min BUF_SIZE (total - f)) r Hw Hr) as (r1 & bs & Hrun & Hbs & Hbl & Hr1);
    [unfold BUF_SIZE; lia|lia|]. rewrite Hrun.
  pose proof (search_round pattern max f kept bs (f - zlen kept) Hc Hpat ltac:(lia) Hbs ltac:(lia) eq_refl)
    as (Hwin & Hfound & Hcarry).
  rewrite (proj2 (Z.eqb_neq (zlen bs) 0)) by (unfold BUF_SIZE in *; lia).
  rewrite stateful_lift_run, sub64_ok by (pose proof (zlen_nonneg kept); lia).
  rewrite stateful_lift_run.
  rewrite (search_window_spec data); [|done|lia|lia| |done].
  2: { destruct (_ <=? zlen (kept ++ bs)) eqn:E; bool_hyps; lia. }
  rewrite Hfound, stateful_lift_run, add64_ok by (unfold BUF_SIZE in *; lia).
  apply IH; [done|unfold BUF_SIZE in *; lia|unfold BUF_SIZE in *; lia|done].
Qed.

(** The first [max_results] occurrences, in order. *)
Lemma search_pattern_run pattern max_results pos r :
  0 < zlen pattern <= 65537 -> 0 <= max_results -> presents im pos r ->
  exists r', search_pattern pattern max_results r =
    (Ok (ztake max_results (occurrences data pattern 0 (zlen data))), r').
Proof.
  intros Hpat Hmax Hr. pose proof (zlen_media im pages Hw) as Hz. pose proof (wh_fits _ _ Hw).
  pose proof (io_wf _ (wh_ok _ _ Hw)) as [_ Ht].
  unfold search_pattern. rewrite stateful_bind_run, io_op_run.
  assert (reader_seek (Start 0) r = (Ok 0, set_r_position 0 r)) as -> by done.
  rewrite (pr_total_size _ _ _ Hr), Hz.
  apply set_position_presents with (pos' := 0) in Hr.
  assert (found pattern max_results 0 = []) as Hf0.
  { unfold found. rewrite occurrences_nil by lia. unfold ztake. by rewrite take_nil. }
  rewrite <-Hf0.
  destruct (search_loop_spec pattern max_results (S (Z.to_nat total)) 0 [] (set_r_position 0 r))
    as (r' & pos' & _ & Hrun); [unfold BUF_SIZE; lia| |lia|lia|done|].
  - split; [|left]; change (@zlen byte []) with 0; [|lia]. rewrite slice_some by lia.
    by rewrite Z.sub_diag, ztake_0.
  - rewrite Hrun. by exists r'.
Qed.

Lemma search_run open_reader path pattern max_results pos r :
  open_reader path = Ok r -> presents im pos r ->
  0 < zlen pattern <= 65537 -> 0 <= max_results ->
  handle_ewf_search open_reader path (hex_string pattern) max_results =
    Ok (ztake max_results (occurrences data pattern 0 (zlen data))).
Proof.
  intros Hopen Hr Hpat Hmax. unfold handle_ewf_search. rewrite pattern_roundtrip.
  2: { intros ->. change (@zlen byte []) with 0 in Hpat. lia. }
  unfold with_reader. rewrite Hopen. cbn [of_ewf mbind outcome_bind].
  destruct (search_pattern_run pattern max_results pos r Hpat Hmax Hr) as [r' Hrun].
  by rewrite Hrun.
Qed.

(** C24: search is complete and ordered.  On an image that decodes, a search for the hex
    of a pattern of at most 65537 bytes returns the first [max_results] positions of the
    media at which the pattern occurs, in ascending order, none twice and none missed,
    also where an occurrence spans two chunks or two reads. *)
Theorem search_complete open_reader path pattern max_results pos r :
  open_reader path = Ok r -> presents im pos r ->
  0 < zlen pattern <= 65537 -> 0 <= max_results ->
  handle_ewf_search open_reader path (hex_string pattern) max_results =
    Ok (ztake max_results (occurrences data pattern 0 (zlen data))).
Proof. apply search_run. Qed.

(** ** Reading and extracting *)

(** Asking for more than there is is asking for the rest. *)
Lemma window_cut off len :
  0 <= off < total -> 0 <= len ->
  ztake (Z.min len (total - off)) (zdrop off data) = ztake len (zdrop off data).
Proof.
  intros Ho Hl. pose proof (zlen_media im pages Hw) as Hz.
  destruct (decide (len <= total - off)); [by rewrite Z.min_l by lia|].
  rewrite !ztake_all; (done || rewrite zlen_zdrop; lia).
Qed.

(** [read] shows the window of the media it is asked for, up to the end. *)
Lemma read_sectors_run open_reader path pos r off len :
  open_reader path = Ok r -> presents im pos r -> 0 <= off -> 0 <= len ->
  handle_ewf_read_sectors open_reader path off len =
  if total <=? off then Err (OffsetBeyond off total)
  else Ok {| sj_offset := off; sj_length := Z.min len (total - off);
             sj_hex := hex_string (ztake len (zdrop off data)) |}.
Proof.
  intros Hopen Hr Ho Hl. pose proof (zlen_media im pages Hw) as Hz.
  destruct Hw as [Hok Hp Hc Hf]. unfold handle_ewf_read_sectors, with_reader. rewrite Hopen.
  cbn [of_ewf mbind outcome_bind]. rewrite (pr_total_size _ _ _ Hr).
  destruct (total <=? off) eqn:E; bool_hyps; [done|].
  rewrite stateful_lift_run, sub64_ok by lia. rewrite stateful_bind_run, io_op_run.
  pose proof (reader_seek_run im r off ltac:(by exists pos) ltac:(lia)) as Hseek.
  rewrite (proj2 (Z.leb_le off i64_max)) in Hseek by lia. destruct Hseek as [-> Hr1].
  rewrite stateful_lift_run. unfold vec_zeroed. rewrite (proj2 (Z.leb_le _ i64_max)) by lia.
  rewrite stateful_bind_run, io_op_run.
  destruct (read_exact_serves im pages (set_r_position off r) off (Z.min len (total - off)))
    as (r2 & _ & Hread); try done; try lia.
  unfold window in Hread. rewrite (proj2 (Z.ltb_ge i64_max off)) in Hread by lia.
  pose proof (window_cut off len ltac:(lia) Hl) as Hcut. symmetry in Hcut.
  destruct (Z.min len (total - off) =? 0) eqn:E0; bool_hyps.
  - rewrite Hread. cbn. by rewrite Hcut, E0, ztake_0.
  - rewrite slice_some in Hread by lia. rewrite Hread. cbn. rewrite Hcut. do 4 f_equal. f_equal. lia.
Qed.

Section Writing.
Variable device : list byte -> list byte -> option io_error.
Hypothesis Hdevice : forall out bs, device out bs = None.

Lemma reader_op_run {A} (m : stateful EwfReader io_error A) s :
  reader_op m s = match m (fst s) with
                  | (Ok a, r) => (Ok a, (r, snd s)) | (Err e, r) => (Err (CliIo e), (r, snd s))
                  | (Panic, r) => (Panic, (r, snd s))
                  end.
Proof. done. Qed.

Lemma extract_loop_spec fuel p rem r out :
  presents im p r -> 0 <= p -> 0 <= rem <= Z.of_nat fuel -> p + rem <= total ->
  exists r', extract_loop device fuel rem (r, Some out) = (Ok 0, (r', Some (out ++ ztake rem (zdrop p data)))).
Proof.
  pose proof (zlen_media im pages Hw) as Hz. pose proof (wh_fits _ _ Hw) as Hfits.
  revert p rem r out. induction fuel as [|fuel IH]; intros p rem r out Hr Hp Hrem Hin; cbn [extract_loop].
  { rewrite (proj2 (Z.ltb_ge 0 rem)) by lia. exists r. replace rem with 0 by lia.
    by rewrite ztake_0, app_nil_r. }
  destruct (0 <? rem) eqn:E; bool_hyps.
  2: { exists r. replace rem with 0 by lia. by rewrite ztake_0, app_nil_r. }
  assert (0 < Z.min rem BUF_SIZE) as Hpos by (unfold BUF_SIZE; lia).
  destruct (whole_read im pages p (Z.min rem BUF_SIZE) r Hw Hr) as (r1 & bs & Hrun & Hbs & Hbl & Hr1); [lia|lia|].
  rewrite stateful_bind_run, reader_op_run. cbn [fst snd]. rewrite Hrun.
  rewrite (proj2 (Z.eqb_neq (zlen bs) 0)) by lia. rewrite stateful_bind_run. unfold write_out. cbn [fst snd default from_option id].
  rewrite Hdevice, stateful_lift_run, sub64_ok by lia.
  destruct (IH (p + zlen bs) (rem - zlen bs) r1 (out ++ bs) Hr1) as (r' & Hrec); [lia|lia|lia|].
  exists r'. rewrite Hrec, <-app_assoc. do 4 f_equal.
  replace (zdrop (p + zlen bs) data) with (zdrop (zlen bs) (zdrop p data)) by (rewrite zdrop_zdrop by lia; done).
  replace bs with (ztake (zlen bs) (zdrop p data)) at 1.
  2: { rewrite Hbs at 2. f_equal. lia. }
  rewrite ztake_window by lia. f_equal. lia.
Qed.

Lemma extract_range_run pos r off len :
  presents im pos r -> 0 <= off -> 0 <= len ->
  if total <=? off
  then extract_range device None off len (r, None) = (Err (OffsetBeyond off total), (r, None))
  else exists r', extract_range device None off len (r, None) =
         (Ok (Z.min len (total - off)), (r', Some (ztake len (zdrop off data)))).
Proof.
  intros Hr Ho Hl. pose proof (zlen_media im pages Hw) as Hz. pose proof (wh_fits _ _ Hw) as Hfits.
  pose proof (io_wf _ (wh_ok _ _ Hw)) as [_ Ht].
  unfold extract_range. cbn [fst]. rewrite (pr_total_size _ _ _ Hr).
  destruct (total <=? off) eqn:E; bool_hyps; [done|].
  rewrite stateful_lift_run, sub64_ok by lia. rewrite stateful_bind_run, reader_op_run. cbn [fst snd].
  pose proof (reader_seek_run im r off ltac:(by exists pos) ltac:(lia)) as Hseek.
  rewrite (proj2 (Z.leb_le off i64_max)) in Hseek by lia. destruct Hseek as [-> Hr1].
  rewrite stateful_bind_run. cbn [create_out fst snd].
  destruct (extract_loop_spec (Z.to_nat (Z.min len (total - off))) off (Z.min len (total - off))
              (set_r_position off r) [] Hr1) as (r' & Hrun); [lia|lia|lia|].
  rewrite stateful_bind_run, Hrun. unfold lift. rewrite sub64_ok by lia. rewrite Z.sub_0_r.
  exists r'. by rewrite app_nil_l, window_cut by lia.
Qed.

Lemma extract_run open_reader path output pos r off len :
  open_reader path = Ok r -> presents im pos r -> 0 <= off -> 0 <= len ->
  handle_ewf_extract open_reader device None path off len output =
  if total <=? off then (Err (OffsetBeyond off total), None)
  else (Ok {| ej_offset := off; ej_bytes_written := Z.min len (total - off); ej_output := output |},
        Some (ztake len (zdrop off data))).
Proof.
  intros Hopen Hr Ho Hl. unfold handle_ewf_extract. rewrite Hopen. cbn [of_ewf].
  pose proof (extract_range_run pos r off len Hr Ho Hl) as Hrun.
  destruct (total <=? off); [by rewrite Hrun|]. destruct Hrun as [r' Hrun]. by rewrite Hrun.
Qed.

(** [extract] copies the range.  On an image that decodes and with no failing
    write, the output file is the window of the media at the offset, as long as asked
    for or up to the end of the media, and the reported count is its length; an offset
    outside the media is an error before the file is created. *)
Theorem extract_spec open_reader path output pos r off len :
  open_reader path = Ok r -> presents im pos r -> 0 <= off -> 0 <= len ->
  handle_ewf_extract open_reader device None path off len output =
  if total <=? off then (Err (OffsetBeyond off total), None)
  else (Ok {| ej_offset := off; ej_bytes_written := Z.min len (total - off); ej_output := output |},
        Some (ztake len (zdrop off data))).
Proof. apply extract_run. Qed.
End Writing.
End Image.

(** ** The exit code of [verify] *)
Section Verify.
Context `{Digests} `{RayonLaws}.

(** What a verification that passes says of the media. *)
Definition sound (im : image) (pages : list (list byte)) : Prop :=
  im_total_size im <= im_chunk_size im * im_count im /\
  (forall h, im_md5 im = Some h -> h = md5 (media im pages)) /\
  (forall h, im_sha1 im = Some h -> h = sha1 (media im pages)).

Lemma verify_bad_sound im pages :
  verify_bad (verify_json_of (verdict im (media im pages))) = false <-> sound im pages.
Proof.
  unfold sound, verify_bad, verify_json_of, is_complete, verdict. cbn. rewrite <-Z.leb_le.
  destruct (_ <=? _); cbn; [rewrite orb_false_r|rewrite orb_true_r; split; [done|by intros [? _]]].
  destruct (im_md5 im) as [h1|], (im_sha1 im) as [h2|]; cbn;
    repeat case_bool_decide; cbn; naive_solver.
Qed.

(** [verify] answers when every chunk decodes, and fails otherwise. *)
Lemma verify_run im pos r open_reader path :
  image_ok im -> presents im pos r -> im_chunk_size im * im_count im <= i64_max ->
  open_reader path = Ok r ->
  (exists v pages, handle_ewf_verify open_reader path = Ok v /\ all_pages im = Ok pages /\
     (verify_bad v = false <-> sound im pages)) \/
  (exists e, handle_ewf_verify open_reader path = Err e /\ forall pages, all_pages im <> Ok pages).
Proof.
  intros Hok Hr Hmax Hopen. destruct (verify_serves im pos r Hok Hr Hmax) as (m & r' & Hrun & _ & Hm).
  unfold handle_ewf_verify, with_reader. rewrite Hopen. cbn [of_ewf mbind outcome_bind].
  rewrite stateful_bind_run. unfold ewf_op, on_reader, id. rewrite Hrun. destruct m as [v|e|]; [| |done].
  - left. destruct Hm as (pages & Hp & ->). eexists _, pages. split; [reflexivity|]. split; [done|].
    apply verify_bad_sound.
  - right. destruct Hm as (id_ & Hid & He). eexists. split; [reflexivity|]. intros pages Hp.
    apply mapM_outcome_ok in Hp. destruct (Forall2_in_l _ _ _ id_ Hp) as (page & Hpage); [|congruence].
    apply elem_of_seqZ. lia.
Qed.
End Verify.
End Handlers.

(** * Listing the file tree *)

(** The names from the root down to entry [i]: those of its parent, then its own
    unless it is empty; [fuel] bounds the depth. *)
Fixpoint names_of (fuel : nat) (es : list LogicalEntry) (i : Z) : list text :=
  match fuel, get es i with
  | S fuel, Some e =>
    (match le_parent e with Some p => names_of fuel es p | None => [] end)
    ++ (if bool_decide (le_name e = []) then [] else [le_name e])
  | _, _ => []
  end.

Lemma names_of_S fuel es i :
  names_of (S fuel) es i =
  match get es i with
  | Some e => (match le_parent e with Some p => names_of fuel es p | None => [] end)
              ++ (if bool_decide (le_name e = []) then [] else [le_name e])
  | None => []
  end.
Proof. done. Qed.

Lemma names_of_fuel t i f1 f2 :
  tree_wf t -> 0 <= i < Z.of_nat f1 -> i < Z.of_nat f2 ->
  names_of f1 (entries t) i = names_of f2 (entries t) i.
Proof.
  intros Ht. revert i f2. induction f1 as [|f1 IH]; intros i f2 Hi Hf; [lia|].
  destruct f2 as [|f2]; [lia|]. cbn [names_of]. destruct (get (entries t) i) as [e|] eqn:Eg; [|done].
  f_equal. destruct (Ht i e Eg) as [_ Hp]. destruct (le_parent e) as [p|]; [|done]. apply IH; lia.
Qed.

Lemma path_parts_spec t fuel i acc :
  tree_wf t -> 0 <= i < zlen (entries t) -> i < Z.of_nat fuel ->
  path_parts fuel (entries t) (Some i) acc = Ok (acc ++ rev (names_of fuel (entries t) i)).
Proof.
  intros Ht. revert i acc. induction fuel as [|fuel IH]; intros i acc Hi Hf; [lia|].
  cbn [path_parts names_of]. destruct (get_some (entries t) i) as [e Hg]; [lia|].
  unfold index. rewrite Hg. cbn [or_panic mbind outcome_bind]. destruct (Ht i e Hg) as [_ Hp].
  set (own := if bool_decide (le_name e = []) then [] else [le_name e]).
  assert ((if bool_decide (le_name e = []) then acc else acc ++ [le_name e]) = acc ++ rev own) as ->.
  { unfold own. case_bool_decide; cbn; by rewrite ?app_nil_r. }
  destruct (le_parent e) as [p|].
  - rewrite IH by lia. by rewrite rev_app_distr, app_assoc.
  - by destruct fuel.
Qed.

(** The path of every entry.  On any tree the parser returns, the path of each
    entry is computed without a panic - the walk over the parents ends - and is the
    names from its root down to the entry, joined by slashes, empty names left out. *)
Theorem full_path_spec txt t i :
  parse_entry_tree txt = Ok t -> 0 <= i < zlen (entries t) ->
  full_path (entries t) i = Ok (join slash (names_of (S (length (entries t))) (entries t) i)) /\
  forall e, get (entries t) i = Some e ->
    names_of (S (length (entries t))) (entries t) i =
    (match le_parent e with Some p => names_of (S (length (entries t))) (entries t) p | None => [] end)
    ++ (if bool_decide (le_name e = []) then [] else [le_name e]).
Proof.
  intros Hparse Hi. assert (tree_wf t) as Ht.
  { pose proof (parse_entry_tree_tree txt) as Hw. by rewrite Hparse in Hw. }
  assert (i < Z.of_nat (S (length (entries t)))) as Hf by (unfold zlen in Hi; lia).
  split.
  - unfold full_path. rewrite path_parts_spec by done. cbn [mbind outcome_bind app].
    by rewrite rev_involutive.
  - intros e He. destruct (Ht i e He) as [_ Hp]. rewrite (names_of_S _ _ i), He. f_equal.
    destruct (le_parent e) as [p|]; [|done]. apply names_of_fuel; [done|unfold zlen in Hi; lia|lia].
Qed.

(** * Findings *)

(** The pattern of [sections] for a bare file name is rooted at the file system root,
    unlike that of the reader. *)
Lemma section_patterns_bare :
  section_patterns id (str "disk.E01") (str "disk") =
    [str "/disk.[Ee][0-9][0-9]"; str "/disk.[Ee][A-Za-z][A-Za-z]"] /\
  segment_patterns id (segment_dir (str "disk.E01")) (str "disk") 69 false =
    [str "./disk.[Ee][0-9][0-9]"; str "./disk.[Ee][A-Za-z][A-Za-z]"].
Proof. done. Qed.

(** A next offset at the end of the 64-bit range overflows the sum with the size of a
    descriptor in a build that checks for it. *)
Lemma list_sections_overflows bytes all :
  @list_sections_loop _ (true : Profile) 1 0 bytes 18446744073709551600 all = Panic.
Proof. done. Qed.
