(* ===== verification/LtreeList.v ===== *)
(** The listing of a written file tree: [ewf ls] shows what was written
    ([handle_ls] of [cli/src/main.rs]). *)

From S2P Require Import Prelude Text Extern Types Sections Source ChunkTable ReaderOpen Path Discover Reader Logical Ltree.
From S2P Require Import LogicalRead Hex Cli CliProps.

(** * The paths of a forest, from its shape *)

Section Paths.
Variable names : list text.

Definition row_name (row : list text) : list text :=
  let name := raw_get (raw_fields names row) (str "n") in
  if bool_decide (name = []) then [] else [name].

(** The names down to each node, below a directory with the names [above]. *)
Fixpoint node_names (above : list text) (n : node) : list (list text) :=
  match n with
  | Node row ch => (above ++ row_name row) :: concat (map (node_names (above ++ row_name row)) ch)
  end.
Definition forest_names (above : list text) (ns : list node) : list (list text) := concat (map (node_names above) ns).

Lemma zlen_node_names n : forall above, zlen (node_names above n) = node_size n.
Proof.
  induction n as [row ch IH] using node_forest_ind. intros above. rewrite node_size_eq. cbn [node_names].
  rewrite zlen_cons. f_equal. generalize (above ++ row_name row) as ab. intros ab.
  induction IH as [|m ch Hm _ IH]; [done|]. cbn [map concat]. by rewrite zlen_app, forest_size_cons, Hm, IH.
Qed.

Variable t : LogicalTree.
Hypothesis Hwf : tree_wf t.

Definition names_at (i : Z) : list text := names_of (S (length (entries t))) (entries t) i.

Lemma names_at_eq i e :
  get (entries t) i = Some e ->
  names_at i = (match le_parent e with Some p => names_at p | None => [] end)
               ++ (if bool_decide (le_name e = []) then [] else [le_name e]).
Proof.
  intros He. pose proof (get_bounds _ _ _ He) as Hi. destruct (Hwf i e He) as [_ Hp].
  unfold names_at. rewrite (names_of_S _ _ i), He. f_equal.
  destruct (le_parent e) as [p|]; [|done]. unfold zlen in Hi. apply names_of_fuel; [done|lia..].
Qed.

Definition above_of (p : option Z) : list text := match p with Some p => names_at p | None => [] end.

Definition named (n : node) : Prop :=
  forall p pre post, entries t = pre ++ node_entries names (zlen pre) p n ++ post ->
  map names_at (range (zlen pre) (zlen pre + node_size n)) = node_names (above_of p) n.

Lemma forest_named ns : Forall named ns -> forall p pre post,
  entries t = pre ++ forest_entries names (zlen pre) p ns ++ post ->
  map names_at (range (zlen pre) (zlen pre + forest_size ns)) = forest_names (above_of p) ns.
Proof.
  induction 1 as [|n ns Hn _ IH]; intros p pre post He.
  { change (forest_size []) with 0. by rewrite range_nil by lia. }
  cbn [forest_entries] in He. rewrite <-app_assoc in He. rewrite forest_size_cons.
  pose proof (node_size_pos n). pose proof (forest_size_nonneg ns).
  rewrite (range_app (zlen pre) (zlen pre + node_size n)) by lia. rewrite map_app. unfold forest_names. cbn [map concat].
  rewrite (Hn p pre _ He). f_equal. rewrite app_assoc in He.
  assert (zlen (pre ++ node_entries names (zlen pre) p n) = zlen pre + node_size n) as Hl by by rewrite zlen_app, zlen_node_entries.
  rewrite <-Hl in He |- *. replace (zlen pre + (node_size n + forest_size ns)) with (zlen (pre ++ node_entries names (zlen pre) p n) + forest_size ns) by lia.
  by eapply IH.
Qed.

Lemma node_named n : named n.
Proof.
  induction n as [row ch IH] using node_forest_ind. intros p pre post He.
  rewrite node_entries_eq in He. rewrite node_size_eq. pose proof (forest_size_nonneg ch).
  rewrite range_cons by lia. cbn [map node_names].
  assert (names_at (zlen pre) = above_of p ++ row_name row) as Hown.
  { erewrite names_at_eq; [|by eapply get_at; [exact He|]]. done. }
  rewrite Hown. f_equal.
  change (concat (map (node_names (above_of p ++ row_name row)) ch)) with (forest_names (above_of p ++ row_name row) ch).
  rewrite <-Hown. change (names_at (zlen pre)) with (above_of (Some (zlen pre))).
  cbn [app] in He. rewrite cons_middle, app_assoc in He. set (e := add_children _ _) in He. clearbody e.
  assert (zlen (pre ++ [e]) = zlen pre + 1) as Hl by by rewrite zlen_app.
  rewrite Z.add_assoc. rewrite <-Hl in He |- *. by eapply forest_named.
Qed.
End Paths.

(** * The listing *)

Section Listing.
Context `{Profile} `{Digests}.

Definition document_entries (d : document) : list LogicalEntry := entries (document_tree d).

Definition document_paths (d : document) : list text := map (join slash) (forest_names (d_names d) [] (d_forest d)).

Definition file_bytes_of (es : list LogicalEntry) : Z :=
  fold_right Z.add 0 (map le_size (List.filter (fun e => negb (le_is_dir e)) es)).

Lemma sum_file_sizes_ok es : forall acc,
  0 <= acc -> Forall (fun e => 0 <= le_size e) es -> acc + file_bytes_of es <= u64_max ->
  sum_file_sizes acc es = Ok (acc + file_bytes_of es).
Proof.
  unfold file_bytes_of. induction es as [|e es IH]; intros acc Ha Hes Hmax; [cbn; by rewrite Z.add_0_r|].
  apply Forall_cons in Hes as [He Hes]. cbn [sum_file_sizes List.filter] in *.
  destruct (le_is_dir e); cbn [negb] in *; [by apply IH|]. cbn [map fold_right] in *.
  assert (0 <= fold_right Z.add 0 (map le_size (List.filter (fun e => negb (le_is_dir e)) es))).
  { clear -Hes. induction Hes as [|e es He _ IH]; [done|]. cbn [List.filter]. destruct (negb _); cbn; lia. }
  rewrite add64_ok by lia. cbn [mbind outcome_bind]. rewrite IH by (done || lia). f_equal. lia.
Qed.

Lemma full_paths t :
  tree_wf t ->
  mapM (full_path (entries t)) (range 0 (zlen (entries t)))
  = Ok (map (join slash) (map (names_at t) (range 0 (zlen (entries t))))).
Proof.
  intros Hwf. apply mapM_outcome_ok. rewrite map_map. apply Forall2_fmap_r, Forall_Forall2_diag, Forall_forall.
  intros i Hi. unfold range in Hi. apply elem_of_seqZ in Hi. unfold full_path. rewrite path_parts_spec; [|done|lia|unfold zlen in Hi; lia].
  cbn [mbind outcome_bind app]. by rewrite rev_involutive.
Qed.

Lemma zlen_forest_entries names idx p ns : zlen (forest_entries names idx p ns) = forest_size ns.
Proof.
  revert idx. induction ns as [|n ns IH]; intros idx; [done|]. cbn [forest_entries].
  by rewrite zlen_app, zlen_node_entries, forest_size_cons, IH.
Qed.

(** C37: a written file tree is listed.  On the body of an ltree that holds any forest of
    rows, [ls] shows every node in preorder with its path, the names from its root down
    joined by slashes, counts the bytes of the files, reports no replaced character and
    no warning, and says that the tree is intact exactly when its MD5 is the stored one. *)
Theorem ltree_listed d header :
  document_ok d -> file_bytes_of (document_entries d) <= u64_max ->
  list_ltree (Ok (header, utf16_bytes (document_text d))) false =
  Ok {| ls_entries := document_entries d; ls_paths := document_paths d;
        ls_files := zlen (List.filter (fun e => negb (le_is_dir e)) (document_entries d));
        ls_dirs := zlen (document_entries d) - zlen (List.filter (fun e => negb (le_is_dir e)) (document_entries d));
        ls_bytes := file_bytes_of (document_entries d);
        ls_verified := bool_decide (md5 (utf16_bytes (document_text d)) = data_md5 header);
        ls_indicators := zlen (d_names d); ls_replaced := 0; ls_warnings := [] |}.
Proof.
  intros Hd Hmax. destruct (document_parses d Hd) as [Hdec Hparse]. unfold list_ltree. cbn [of_ewf mbind outcome_bind].
  rewrite Hdec, Hparse. cbn [of_ewf mbind outcome_bind].
  unfold document_entries in *.
  destruct (parse_entry_tree_types _ _ Hparse) as (_ & Hty & _).
  pose proof (parse_entry_tree_tree (document_text d)) as Hwf. rewrite Hparse in Hwf.
  rewrite sum_file_sizes_ok; [|done| |done].
  2: { eapply Forall_impl; [exact Hty|]. intros e [_ _ Hsz _ _ _]. lia. }
  cbn [mbind outcome_bind].
  rewrite (full_paths (document_tree d)) by done. cbn [mbind outcome_bind].
  assert (map (names_at (document_tree d)) (range 0 (zlen (entries (document_tree d)))) = forest_names (d_names d) [] (d_forest d)) as ->; [|done].
  pose proof (forest_named (d_names d) (document_tree d) (d_forest d)) as Hnamed.
  assert (zlen (entries (document_tree d)) = forest_size (d_forest d)) as -> by apply zlen_forest_entries.
  apply (Hnamed ltac:(apply Forall_forall; intros n _; by apply node_named) None [] []).
  cbn [app]. by rewrite app_nil_r.
Qed.
End Listing.
