(* ===== verification/ErrorText.v ===== *)
(** The texts of errors and warnings: the messages of [core/src/error.rs] with the
    reasons its callers format, those of [cli/src/handlers.rs], and the warnings of
    [core/src/logical.rs]. *)

From S2P Require Import Prelude Text Json Types Hex Messages Logical Cli.

(** What is formatted by other code: an [io::Error], the reason of the decompressor,
    and whether [Debug] shows a character as it is. *)
Class Texts := {
  io_text : io_error -> text;
  inflate_text : text;
  printable : Z -> bool;
}.

Section ErrorText.
Context `{Texts}.

(** [{:#x}] *)
Definition alt_hex (n : Z) : text := str "0x" ++ print_hex n.

(** [{:02x?}] of a byte array. *)
Definition debug_bytes (bs : list byte) : text :=
  match map hex_pair bs with
  | [] => str "[]"
  | p :: ps => str "[" ++ p ++ concat (map (fun p => str ", " ++ p) ps) ++ str "]"
  end.

(** [{:?}] of a string. *)
Definition debug_char (c : Z) : text :=
  if c =? 0 then backslash :: str "0"
  else if c =? 9 then backslash :: str "t"
  else if c =? 13 then backslash :: str "r"
  else if c =? 10 then backslash :: str "n"
  else if c =? quote then [backslash; quote]
  else if c =? backslash then [backslash; backslash]
  else if printable c then [c]
  else backslash :: str "u{" ++ print_hex c ++ str "}".

Definition debug_str (s : text) : text := quote :: concat (map debug_char s) ++ [quote].

Definition parse_error_text (e : parse_error) : text :=
  match e with
  | UnknownCompressionMethod v => str "unknown EWF2 compression method: " ++ print_dec v
  | ChunkIdOutOfRange id len =>
    str "chunk id " ++ print_dec id ++ str " out of range (len " ++ print_dec len ++ str ")"
  | SectionSegmentMissing segment =>
    str "lazy table section references missing segment " ++ print_dec segment
  | EntryBytesOverflow at_offset count =>
    str "table section at " ++ alt_hex at_offset ++ str " declares " ++ print_dec count
    ++ str " entries, whose byte length overflows"
  | EntryBytesExceedSegment at_offset count want avail segment =>
    str "table section at " ++ alt_hex at_offset ++ str " declares " ++ print_dec count
    ++ str " entries (" ++ print_dec want ++ str " bytes) but only " ++ print_dec avail
    ++ str " bytes remain in segment " ++ print_dec segment
  | ShortEntryRead at_offset got want =>
    str "short read for lazy table section at " ++ alt_hex at_offset ++ str ": got "
    ++ print_dec got ++ str " of " ++ print_dec want ++ str " bytes"
  | ShortTableHeader at_offset got =>
    str "short read for lazy table header at " ++ alt_hex at_offset ++ str ": got "
    ++ print_dec got ++ str " of 24 bytes"
  | TooManyTableEntries count max =>
    str "table entry count " ++ print_dec count ++ str " exceeds maximum " ++ print_dec max
  | Ewf2Cycle => str "EWF2 section descriptor list contains a cycle"
  | Ewf2PreviousOffset prev file_len =>
    str "EWF2 previous_offset " ++ alt_hex prev ++ str " exceeds file length " ++ alt_hex file_len
  | Ewf2ZlibFailed => str "EWF2 zlib decompress failed: " ++ inflate_text
  | Ewf2SourceUnsupported =>
    str "EWF2 (Ex01/Lx01) is not supported via SegmentSource; use open(path)"
  | Ewf2OffsetUnderflow section offset size =>
    str "EWF2 " ++ section ++ str " offset underflow: desc=" ++ alt_hex offset
    ++ str " size=" ++ alt_hex size
  | ChunkSegmentMissing chunk segment =>
    str "chunk " ++ print_dec chunk ++ str " references missing segment " ++ print_dec segment
  end.

(** [Display] of [EwfError]. *)
Definition ewf_error_text (e : ewf_error) : text :=
  match e with
  | Io k => str "I/O error: " ++ io_text k
  | InvalidSignature found =>
    str "invalid EWF signature: found " ++ debug_bytes found
    ++ str ", expected EVF (physical) or LVF (logical)"
  | NotLogicalEvidence segments =>
    str "no file-entry tree: this is a PHYSICAL evidence file (EVF/.E01), which images a disk "
    ++ str "and has no `ltree` section. `ls` enumerates a LOGICAL evidence file (LVF/.L01). "
    ++ str "Searched " ++ print_dec segments ++ str " segment(s)."
  | MalformedLogicalField field value =>
    str "malformed logical entry field `" ++ field ++ str "`: " ++ debug_str value
  | BufferTooShort expected got =>
    str "buffer too short: expected " ++ print_dec expected ++ str ", got " ++ print_dec got
  | InvalidChunkSize size => str "invalid chunk size: " ++ print_dec size
  | MissingVolume => str "missing volume section"
  | Decompression => str "decompression error: " ++ inflate_text
  | SegmentGap expected got =>
    str "segment gap: expected segment " ++ print_dec expected ++ str ", got " ++ print_dec got
  | NoSegments path => str "no segment files found matching: " ++ path
  | Parse why => str "parse error: " ++ parse_error_text why
  | EncryptedNotSupported => str "encrypted EWF2 images are not supported"
  end.

(** The texts of the handlers; [u8::from_str_radix] on two characters can only meet an
    invalid digit. *)
Definition pattern_error_text (e : pattern_error) : text :=
  match e with
  | OddPattern => str "hex pattern must have even length (each byte is 2 hex chars)"
  | InvalidPattern => str "invalid hex pattern: invalid digit found in string"
  | EmptyPattern => str "pattern must not be empty"
  end.

Definition cli_error_text (e : cli_error) : text :=
  match e with
  | CliEwf e => ewf_error_text e
  | CliIo e => io_text e
  | OffsetBeyond offset total =>
    str "offset " ++ print_dec offset ++ str " exceeds media size " ++ print_dec total
  | BadPattern e => pattern_error_text e
  | NoStem path => str "cannot extract stem from: " ++ path
  | NoEwfSegments path => str "no EWF segments found for: " ++ path
  end.

Definition logical_warning_text (w : logical_warning) : text :=
  match w with
  | WrongValueCount line values indicators =>
    str "entry at line " ++ print_dec line ++ str ": " ++ print_dec values ++ str " values for "
    ++ print_dec indicators ++ str " declared indicators"
  | ShortNameSize line declared =>
    str "entry at line " ++ print_dec line ++ str ": short-name size " ++ debug_str declared
    ++ str " disagrees with its name length"
  end.
End ErrorText.
