(* ===== verification/Values.v ===== *)
(** [serde_json::Value] as the command uses it, and the values the handlers of
    [cli/src/handlers.rs] answer with.

    An object is serde's default map, a [BTreeMap]: its members are kept in the order
    of their keys.  The parser and the printers of serde_json are a class of
    operations. *)

From S2P Require Import Prelude Text Types Discover Hex Cli.

(** * Values *)

(** [serde_json::Number]; a float is the bits of its [f64]. *)
Inductive Number :=
| PosInt (n : Z)
| NegInt (n : Z)
| Float (bits : Z).

#[warnings="-register-all"]
Inductive Value :=
| VNull
| VBool (b : bool)
| VNumber (n : Number)
| VString (s : text)
| VArray (vs : list Value)
| VObject (ms : list (text * Value)).

(** [Map::insert] *)
Fixpoint insert_member (k : text) (v : Value) (ms : list (text * Value)) : list (text * Value) :=
  match ms with
  | [] => [(k, v)]
  | (k', v') :: ms' =>
    if text_eqb k k' then (k, v) :: ms'
    else if text_leb k k' then (k, v) :: ms
    else (k', v') :: insert_member k v ms'
  end.

(** [json!({ ... })]: its members inserted one by one. *)
Definition object (ms : list (text * Value)) : Value :=
  VObject (fold_left (fun m kv => insert_member (fst kv) (snd kv) m) ms []).

Fixpoint lookup_member (k : text) (ms : list (text * Value)) : option Value :=
  match ms with
  | [] => None
  | (k', v) :: ms => if text_eqb k k' then Some v else lookup_member k ms
  end.

(** [Value::get] with a string. *)
Definition member (v : Value) (k : text) : option Value :=
  match v with VObject ms => lookup_member k ms | _ => None end.

(** [v[k]]: [Null] where there is no such member. *)
Definition at_key (v : Value) (k : text) : Value := default VNull (member v k).

Definition as_str (v : Value) : option text := match v with VString s => Some s | _ => None end.
Definition as_u64 (v : Value) : option Z :=
  match v with VNumber (PosInt n) => Some n | _ => None end.
Definition as_bool (v : Value) : option bool := match v with VBool b => Some b | _ => None end.
Definition as_array (v : Value) : option (list Value) :=
  match v with VArray vs => Some vs | _ => None end.

(** [From] for the types the macro is used with. *)
Definition vnum (n : Z) : Value := VNumber (PosInt n).
Definition vstr (s : String.string) : Value := VString (str s).
Arguments vstr _%_string_scope.
Definition vopt {A} (f : A -> Value) (o : option A) : Value :=
  match o with Some a => f a | None => VNull end.

(** [serde_json::from_str], [Value]'s [Display] and [to_string_pretty]. *)
Class SerdeJson := {
  from_str : text -> text + Value;
  to_string : Value -> text;
  to_string_pretty : Value -> text;
}.

(** * The answers of the handlers *)

Definition error_value (e : AcquisitionError) : Value :=
  object [(str "first_sector", vnum (first_sector e)); (str "sector_count", vnum (sector_count_err e))].

Definition metadata_value (meta : EwfMetadata) : Value :=
  object [(str "case_number", vopt VString (case_number meta));
          (str "evidence_number", vopt VString (evidence_number meta));
          (str "description", vopt VString (description meta));
          (str "examiner", vopt VString (examiner meta));
          (str "notes", vopt VString (notes meta));
          (str "acquiry_software", vopt VString (acquiry_software meta));
          (str "os_version", vopt VString (os_version meta));
          (str "acquiry_date", vopt VString (acquiry_date meta));
          (str "system_date", vopt VString (system_date meta))].

Definition info_value (i : info) : Value :=
  object [(str "media_size", vnum (info_media_size i));
          (str "chunk_size", vnum (info_chunk_size i));
          (str "chunk_count", vnum (info_chunk_count i));
          (str "stored_hashes",
             object [(str "md5", vopt VString (info_md5 i)); (str "sha1", vopt VString (info_sha1 i))]);
          (str "metadata", metadata_value (info_metadata i));
          (str "acquisition_errors", VArray (map error_value (info_errors i)))].

Definition verify_value (v : verify_json) : Value :=
  object [(str "computed_md5", VString (vj_computed_md5 v));
          (str "computed_sha1", vopt VString (vj_computed_sha1 v));
          (str "md5_match", vopt VBool (vj_md5_match v));
          (str "sha1_match", vopt VBool (vj_sha1_match v));
          (str "complete", VBool (vj_complete v));
          (str "addressable_bytes", vnum (vj_addressable_bytes v));
          (str "declared_bytes", vnum (vj_declared_bytes v));
          (str "missing_bytes", vnum (vj_missing_bytes v))].

Definition sectors_value (s : sectors_json) : Value :=
  object [(str "offset", vnum (sj_offset s)); (str "length", vnum (sj_length s));
          (str "hex", VString (sj_hex s))].

Definition section_value (s : section_json) : Value :=
  object [(str "segment", vnum (sec_segment s)); (str "type", VString (sec_type s));
          (str "offset", vnum (sec_offset s)); (str "size", vnum (sec_size s))].

Definition sections_value (all : list section_json) : Value :=
  object [(str "sections", VArray (map section_value all))].

Definition search_value (pattern_hex : text) (matches : list Z) : Value :=
  object [(str "pattern", VString pattern_hex);
          (str "matches", VArray (map (fun o => object [(str "offset", vnum o)]) matches));
          (str "total_found", vnum (zlen matches))].

Definition extract_value (e : extract_json) : Value :=
  object [(str "offset", vnum (ej_offset e)); (str "bytes_written", vnum (ej_bytes_written e));
          (str "output", VString (ej_output e))].

(** * Lemmas *)

Lemma lookup_insert_member k k' v ms :
  lookup_member k (insert_member k' v ms) = if text_eqb k k' then Some v else lookup_member k ms.
Proof.
  induction ms as [|[k0 v0] ms IH]; [done|]. cbn [insert_member].
  destruct (text_eqb k' k0) eqn:E0.
  - apply text_eqb_true in E0 as ->. cbn. by destruct (text_eqb k k0).
  - destruct (text_leb k' k0); [done|]. cbn. rewrite IH.
    destruct (text_eqb k k0) eqn:E1, (text_eqb k k') eqn:E2; try done.
    apply text_eqb_true in E1 as ->, E2 as ->. by rewrite text_eqb_refl in E0.
Qed.

(** The member of a literal object: the last one with the key. *)
Lemma member_object_snoc ms k' v k :
  member (object (ms ++ [(k', v)])) k = if text_eqb k k' then Some v else member (object ms) k.
Proof. unfold object. rewrite fold_left_app. cbn. apply lookup_insert_member. Qed.
