(* ===== verification/Mcp.v ===== *)
(** The MCP server of the [ewf] command ([cli/src/mcp.rs]): JSON-RPC over the standard
    streams, one request and one answer per line. *)

From S2P Require Import Prelude Text Extern Types Sections Source ChunkTable ReaderOpen Discover Reader Logical.
From S2P Require Import Hex Cli ErrorText Values.

(** * The file system

    The operations the command uses, on a state: a file that is written changes it. *)
Class FileSystem (W : Type) := {
  fs_open : W -> text -> outcome io_error File;
  fs_glob_escape : text -> text;
  fs_glob : W -> text -> option (list (option text));
  fs_is_file : W -> text -> bool;
  (** [File::create], and [write_all] on what has been written so far *)
  fs_create : W -> text -> option io_error;
  fs_write : W -> text -> list byte -> list byte -> option io_error;
  (** the state once the file holds these bytes *)
  fs_put : W -> text -> list byte -> W;
}.

(** ** Members of requests and answers *)

Definition missing (param : text) : text := str "missing required parameter: " ++ param.

Definition str_arg (args : Value) (param : text) : outcome text text :=
  ok_or (missing param) (v ← member args param; as_str v).

Definition u64_arg (args : Value) (param : text) : outcome text Z :=
  ok_or (missing param) (v ← member args param; as_u64 v).

Definition u64_or (args : Value) (param : text) (d : Z) : Z :=
  default d (v ← member args param; as_u64 v).

(** ** [tool_definitions] *)

Definition typed (ty description : text) : Value :=
  object [(str "type", VString ty); (str "description", VString description)].

Definition path_property : text * Value :=
  (str "path", typed (str "string") (str "Path to the first segment file (e.g. image.E01)")).

Definition tool (name description : text) (properties : list (text * Value)) (required : list text)
    : Value :=
  object [(str "name", VString name); (str "description", VString description);
          (str "inputSchema",
             object [(str "type", vstr "object"); (str "properties", object properties);
                     (str "required", VArray (map VString required))])].

Definition tool_definitions : Value :=
  VArray
    [tool (str "ewf_info")
       (str "Open an E01 image and return metadata: media size, chunk geometry, stored hashes, case info, and acquisition errors.")
       [path_property] [str "path"];
     tool (str "ewf_verify")
       (str "Verify E01 image integrity by recomputing MD5/SHA-1 and comparing against stored hashes.")
       [path_property] [str "path"];
     tool (str "ewf_read_sectors")
       (str "Read raw bytes from the disk image at a given offset. Returns hex dump.")
       [path_property;
        (str "offset", typed (str "integer") (str "Byte offset to start reading from (default: 0)"));
        (str "length", typed (str "integer") (str "Number of bytes to read (default: 512, max: 4096)"))]
       [str "path"];
     tool (str "ewf_list_sections")
       (str "List all section descriptors in the E01 image. Shows the internal structure: headers, volume, tables, sectors, hash, digest, done sections with their offsets and sizes.")
       [path_property] [str "path"];
     tool (str "ewf_search")
       (str "Search for a byte pattern (hex string) in the disk image. Returns up to max_results matching offsets.")
       [path_property;
        (str "pattern", typed (str "string") (str "Hex string to search for (e.g. '55aa' for MBR signature)"));
        (str "max_results",
           typed (str "integer") (str "Maximum number of matches to return (default: 10, max: 100)"))]
       [str "path"; str "pattern"];
     tool (str "ewf_extract")
       (str "Extract a byte range from the disk image and write it to a file.")
       [path_property;
        (str "offset", typed (str "integer") (str "Byte offset to start extracting from"));
        (str "length", typed (str "integer") (str "Number of bytes to extract"));
        (str "output", typed (str "string") (str "Path to write the extracted bytes to"))]
       [str "path"; str "offset"; str "length"; str "output"]].

Section Tools.
Context `{SafeRead} `{Zlib} `{Profile} `{Lru Z (list Chunk)} `{Lru Z (list byte)}.
Context `{Digests} `{Rayon} `{Texts} `{FileSystem W}.

(** [EwfReader::open] in the state [w]. *)
Definition open_in (w : W) : text -> res EwfReader :=
  Discover.open fs_glob_escape (fs_glob w) (fs_open w).

(** The files as [handle_ewf_list_sections] reads them. *)
Definition bytes_in (w : W) (path : text) : outcome io_error (list byte) :=
  f ← fs_open w path; Ok (file_bytes f).

(** What a handler returns: the value it builds, or the text of its error. *)
Definition answer {A} (value : A -> Value) (m : outcome cli_error A) : outcome text Value :=
  match m with Ok a => Ok (value a) | Err e => Err (cli_error_text e) | Panic => Panic end.

(** [handle_ewf_extract] in a state, with the file it leaves. *)
Definition extract_in (path : text) (offset length : Z) (output : text)
    : stateful W text Value := fun w =>
  let '(m, out) := handle_ewf_extract (open_in w) (fs_write w output) (fs_create w output)
                     path offset length output in
  (answer extract_value m, match out with Some bytes => fs_put w output bytes | None => w end).

(** ** [dispatch_tool] *)
Definition dispatch_tool (name : text) (args : Value) : stateful W text Value := fun w =>
  if text_eqb name (str "ewf_info") then
    (path ← str_arg args (str "path"); answer info_value (handle_ewf_info (open_in w) path), w)
  else if text_eqb name (str "ewf_verify") then
    (path ← str_arg args (str "path"); answer verify_value (handle_ewf_verify (open_in w) path), w)
  else if text_eqb name (str "ewf_read_sectors") then
    (path ← str_arg args (str "path");
     let offset := u64_or args (str "offset") 0 in
     let length := u64_or args (str "length") 512 in
     let length := Z.min length 4096 in
     answer sectors_value (handle_ewf_read_sectors (open_in w) path offset length), w)
  else if text_eqb name (str "ewf_list_sections") then
    (path ← str_arg args (str "path");
     answer sections_value (handle_ewf_list_sections fs_glob_escape (fs_glob w) (bytes_in w) path), w)
  else if text_eqb name (str "ewf_search") then
    (path ← str_arg args (str "path");
     pattern ← str_arg args (str "pattern");
     let max := u64_or args (str "max_results") 10 in
     let max := Z.min max 100 in
     answer (search_value pattern) (handle_ewf_search (open_in w) path pattern max), w)
  else if text_eqb name (str "ewf_extract") then
    (path ← lift (str_arg args (str "path"));
     offset ← lift (u64_arg args (str "offset"));
     length ← lift (u64_arg args (str "length"));
     output ← lift (str_arg args (str "output"));
     extract_in path offset length output) w
  else (Err (str "unknown tool: " ++ name), w).
End Tools.

(** ** The answers *)

Definition result_response (id_ result : Value) : Value :=
  object [(str "jsonrpc", vstr "2.0"); (str "result", result); (str "id", id_)].

Definition error_response (id_ : Value) (code : Number) (message : text) : Value :=
  object [(str "jsonrpc", vstr "2.0");
          (str "error", object [(str "code", VNumber code); (str "message", VString message)]);
          (str "id", id_)].

Definition parse_error_response (e : text) : Value :=
  error_response VNull (NegInt (-32700)) (str "Parse error: " ++ e).

Definition initialize_result : Value :=
  object [(str "protocolVersion", vstr "2024-11-05");
          (str "capabilities", object [(str "tools", object [])]);
          (str "serverInfo", object [(str "name", vstr "ewf"); (str "version", vstr "0.3.0")])].

Definition text_content (t : text) : text * Value :=
  (str "content", VArray [object [(str "type", vstr "text"); (str "text", VString t)]]).

(** ** A request *)

Definition request_id (req : Value) : Value := default VNull (member req (str "id")).
Definition request_method (req : Value) : text :=
  default [] (m ← member req (str "method"); as_str m).

Section Server.
Context `{SafeRead} `{Zlib} `{Profile} `{Lru Z (list Chunk)} `{Lru Z (list byte)}.
Context `{Digests} `{Rayon} `{Texts} `{FileSystem W} `{SerdeJson}.

(** The result of a [tools/call]. *)
Definition call_tool (req : Value) : stateful W Empty_set Value := fun w =>
  let params := default (object []) (member req (str "params")) in
  let tool_name := default [] (v ← member params (str "name"); as_str v) in
  let args := default (object []) (member params (str "arguments")) in
  match dispatch_tool tool_name args w with
  | (Ok result, w) => (Ok (object [text_content (to_string_pretty result)]), w)
  | (Err e, w) => (Ok (object [text_content e; (str "isError", VBool true)]), w)
  | (Panic, w) => (Panic, w)
  end.

(** The answer to a request, [None] for the notification that has none. *)
Definition handle_request (req : Value) : stateful W Empty_set (option Value) :=
  let id_ := request_id req in
  let method := request_method req in
  if text_eqb method (str "initialize") then mret (Some (result_response id_ initialize_result))
  else if text_eqb method (str "notifications/initialized") then mret None
  else if text_eqb method (str "tools/list")
  then mret (Some (result_response id_ (object [(str "tools", tool_definitions)])))
  else if text_eqb method (str "tools/call")
  then result ← call_tool req; mret (Some (result_response id_ result))
  else mret (Some (error_response id_ (NegInt (-32601)) (str "Method not found: " ++ method))).

(** The answer to a line. *)
Definition handle_line (line : text) : stateful W Empty_set (option Value) :=
  match line with
  | [] => mret None
  | _ =>
    match from_str line with
    | inl e => mret (Some (parse_error_response e))
    | inr req => handle_request req
    end
  end.

(** ** [run]

    [stdin] is what [lines] yields, [None] for a line that cannot be read; the state is
    that of the file system and the text written.  The result of a write is ignored. *)
Definition write_line (v : Value) (out : text) : text := out ++ to_string v ++ [newline].

Fixpoint run (stdin : list (option text)) : stateful (W * text) Empty_set unit := fun s =>
  match stdin with
  | [] | None :: _ => (Ok tt, s)
  | Some line :: stdin =>
    match handle_line line (fst s) with
    | (Ok (Some v), w) => run stdin (w, write_line v (snd s))
    | (Ok None, w) => run stdin (w, snd s)
    | (Err e, w) => match e with end
    | (Panic, w) => (Panic, (w, snd s))
    end
  end.
End Server.
