(* ===== verification/McpProps.v ===== *)
(** What the MCP server promises: one answer for each request, in order, and the media
    of the image in the answers of its tools. *)

From S2P Require Import Prelude Text Extern Types Sections Source ChunkTable ReaderOpen Discover Reader Logical.
From S2P Require Import LogicalRead Hex Cli CliProps ErrorText Values Mcp.

(** What serde_json documents of its compact printer: white space is left out and the
    control characters of a string are escaped. *)
Class SerdeJsonLaws `{SerdeJson} : Prop := {
  to_string_plain v : Forall (fun c => 32 <= c) (to_string v);
}.

(** * The session *)
Section Session.
Context `{SerdeJson}.

(** The lines before the first that cannot be read. *)
Fixpoint readable (stdin : list (option text)) : list text :=
  match stdin with
  | Some line :: stdin => line :: readable stdin
  | _ => []
  end.

(** The lines that get an answer: all but the empty ones and the notification. *)
Definition expects (line : text) : bool :=
  match line with
  | [] => false
  | _ =>
    match from_str line with
    | inl _ => true
    | inr req => negb (text_eqb (request_method req) (str "notifications/initialized"))
    end
  end.

Definition expected (stdin : list (option text)) : list text := List.filter expects (readable stdin).

(** The tool that a line calls. *)
Definition called (line : text) : option text :=
  match from_str line with
  | inl _ => None
  | inr req =>
    if text_eqb (request_method req) (str "tools/call")
    then Some (default [] (params ← member req (str "params"); v ← member params (str "name"); as_str v))
    else None
  end.

Definition known_method (m : text) : bool :=
  text_eqb m (str "initialize") || text_eqb m (str "tools/list") || text_eqb m (str "tools/call").

(** JSON-RPC: an answer has the identifier of its request, and a result or an error. *)
Definition answers (line : text) (resp : Value) : Prop :=
  match from_str line with
  | inl e => resp = parse_error_response e
  | inr req =>
    member resp (str "jsonrpc") = Some (vstr "2.0") /\
    member resp (str "id") = Some (request_id req) /\
    if known_method (request_method req)
    then is_Some (member resp (str "result")) /\ member resp (str "error") = None
    else member resp (str "result") = None /\
         exists e, member resp (str "error") = Some e /\
                   member e (str "code") = Some (VNumber (NegInt (-32601)))
  end.

Lemma result_answers id_ result :
  let resp := result_response id_ result in
  member resp (str "jsonrpc") = Some (vstr "2.0") /\ member resp (str "id") = Some id_ /\
  is_Some (member resp (str "result")) /\ member resp (str "error") = None.
Proof. by split_and!. Qed.
End Session.

Section Server.
Context `{SafeRead} `{Zlib} `{Profile} `{Lru Z (list Chunk)} `{Lru Z (list byte)}.
Context `{Digests} `{Rayon} `{Texts} `{FileSystem W} `{SerdeJson}.

(** Only an extraction changes the file system. *)
Lemma dispatch_read_only name args (w : W) :
  name <> str "ewf_extract" -> snd (dispatch_tool name args w) = w.
Proof.
  intros Hn. unfold dispatch_tool.
  repeat match goal with |- context [text_eqb name ?k] => destruct (text_eqb name k) eqn:? end; try done.
  by apply text_eqb_true in Heqb4.
Qed.

Lemma call_tool_spec req (w : W) :
  let name := default [] (params ← member req (str "params"); v ← member params (str "name"); as_str v) in
  match call_tool req w with
  | (Ok result, w') => name <> str "ewf_extract" -> w' = w
  | (Panic, w') => name <> str "ewf_extract" -> w' = w
  | (Err _, _) => False
  end.
Proof.
  cbn zeta. unfold call_tool.
  set (params := default (object []) (member req (str "params"))).
  assert (default [] (params ← member req (str "params"); v ← member params (str "name"); as_str v)
          = default [] (v ← member params (str "name"); as_str v)) as ->.
  { unfold params. by destruct (member req (str "params")). }
  set (name := default [] _). set (args := default _ _).
  pose proof (dispatch_read_only name args w) as Hro.
  destruct (dispatch_tool name args w) as [[v|e|] w']; exact Hro.
Qed.

Lemma handle_line_spec line (w : W) :
  match handle_line line w with
  | (Ok (Some v), w') => expects line = true /\ answers line v /\ (called line <> Some (str "ewf_extract") -> w' = w)
  | (Ok None, w') => expects line = false /\ w' = w
  | (Panic, w') => expects line = true /\ is_Some (called line)
  | (Err _, _) => False
  end.
Proof.
  unfold handle_line, expects, answers, called. destruct line as [|c line]; [done|].
  destruct (from_str (c :: line)) as [e|req]; [done|]. unfold handle_request, known_method.
  destruct (text_eqb (request_method req) (str "initialize")) eqn:E1.
  { apply text_eqb_true in E1 as E. rewrite E. split; [done|]. split; [|done].
    apply (result_answers (request_id req) initialize_result). }
  destruct (text_eqb (request_method req) (str "notifications/initialized")) eqn:E2; [done|].
  destruct (text_eqb (request_method req) (str "tools/list")) eqn:E3.
  { apply text_eqb_true in E3 as E. rewrite E. split; [done|]. split; [|done]. apply result_answers. }
  destruct (text_eqb (request_method req) (str "tools/call")) eqn:E4.
  - rewrite stateful_bind_run. pose proof (call_tool_spec req w) as Hc. cbn zeta in Hc.
    destruct (call_tool req w) as [[v|e|] w']; [|done|].
    + split; [done|]. split; [apply result_answers|]. intros Hne. apply Hc. congruence.
    + split; [done|]. by eexists.
  - split; [done|]. split; [|done]. split; [done|]. split; [done|]. cbn [orb]. split; [done|].
    eexists. split; reflexivity.
Qed.

(** What a run writes: one line for each answered line. *)
Definition written (resps : list Value) : text := concat (map (fun t => t ++ [newline]) (map to_string resps)).

Lemma run_spec stdin : forall (w : W) out,
  let '(m, (w', out')) := run stdin (w, out) in
  exists served resps,
    out' = out ++ written resps /\ Forall2 answers served resps /\
    match m with
    | Ok _ => served = expected stdin
    | Panic => exists line rest, expected stdin = served ++ line :: rest /\ is_Some (called line)
    | Err _ => False
    end /\
    (m = Ok tt -> Forall (fun line => called line <> Some (str "ewf_extract")) (expected stdin) -> w' = w).
Proof.
  unfold expected.
  assert (forall (w : W) (out : text), exists (served : list text) resps,
    out = out ++ written resps /\ Forall2 answers served resps /\ served = [] /\
    (Ok (E:=Empty_set) tt = Ok tt -> Forall (fun line => called line <> Some (str "ewf_extract")) [] -> w = w)) as Hend.
  { intros w out. exists [], []. by rewrite app_nil_r. }
  induction stdin as [|[line|] stdin IH]; intros w out; cbn [run readable List.filter]; [apply Hend| |apply Hend].
  pose proof (handle_line_spec line w) as Hl. cbn [fst snd]. destruct (handle_line line w) as [[[v|]|e|] w1].
  - destruct Hl as (He & Ha & Hro). rewrite He. specialize (IH w1 (write_line v out)).
    destruct (run stdin (w1, write_line v out)) as [m [w2 out2]].
    destruct IH as (served & resps & -> & Hs & Hm & Hw). exists (line :: served), (v :: resps). split_and!.
    + unfold write_line, written. cbn [map concat]. by rewrite <-!app_assoc.
    + by constructor.
    + destruct m as [u|e|]; [by rewrite Hm|done|]. destruct Hm as (l & rest & -> & Hc). by exists l, rest.
    + intros -> Hall. apply Forall_cons in Hall as [Hl Hall]. rewrite Hw by done. by apply Hro.
  - destruct Hl as [He ->]. rewrite He. apply IH.
  - done.
  - destruct Hl as [He Hc]. rewrite He. exists [], []. split; [by rewrite app_nil_r|]. split; [done|].
    split; [|done]. by eexists line, _.
Qed.
End Server.

(** C20: the server answers every request once, in order.  Whatever the standard input
    holds, the output is a sequence of lines, each one compact JSON text, which are the
    answers to a prefix of the requests, in their order: each has the identifier of its
    request and a result, an error for an unknown method, or the parse error of a line
    that is not JSON.  Unless the server panics the prefix is all of them, and it panics
    in a tool only; a session that extracts nothing changes no file. *)
Theorem mcp_session `{SafeRead} `{Zlib} `{Profile} `{Lru Z (list Chunk)} `{Lru Z (list byte)}
    `{Digests} `{Rayon} `{Texts} `{FileSystem W} `{SerdeJsonLaws} stdin (w : W) :
  let '(m, (w', out)) := run stdin (w, []) in
  exists served resps,
    lines out = map to_string resps /\ Forall2 answers served resps /\
    match m with
    | Ok _ => served = expected stdin
    | Panic => exists line rest, expected stdin = served ++ line :: rest /\ is_Some (called line)
    | Err _ => False
    end /\
    (m = Ok tt -> Forall (fun line => called line <> Some (str "ewf_extract")) (expected stdin) -> w' = w).
Proof.
  pose proof (run_spec stdin w []) as Hrun. destruct (run stdin (w, [])) as [m [w' out]].
  destruct Hrun as (served & resps & -> & Ha & Hm & Hw). exists served, resps. split; [|done].
  cbn [app]. apply lines_written. apply List.Forall_map, Forall_true. intros v. apply plain_line, to_string_plain.
Qed.

(** * The tools over an image *)
Section Image.
Context `{SafeRead} `{ZlibLaws} `{Profile} `{LruLaws Z (list Chunk)} `{LruLaws Z (list byte)}.
Context `{Digests} `{Rayon} `{Texts} `{FileSystem W}.
Context (im : image) (pages : list (list byte)) (Hw : whole im pages).
Abbreviation data := (media im pages).
Abbreviation total := (im_total_size im).

(** Decide the name of a tool. *)
Ltac pick_tool :=
  unfold dispatch_tool;
  repeat match goal with
  | |- context [text_eqb ?a ?b] =>
    let v := eval vm_compute in (text_eqb a b) in change (text_eqb a b) with v; cbn iota
  end.

(** C39: the tools show the media.  On an image that decodes, [ewf_read_sectors] answers
    with the hex of the window of the media at the offset - 0 and 512 bytes unless given
    as integers - of at most 4096 bytes; [ewf_search] with the first occurrences of the
    pattern, at most 100 of them; [ewf_extract] with the length of the window, which is
    what the output file, none of the image's own, then holds.  An offset outside the media is an error and no file
    is created. *)
Theorem mcp_tools_show_media (w : W) path pos r args :
  open_in w path = Ok r -> presents im pos r -> str_arg args (str "path") = Ok path ->
  (let off := u64_or args (str "offset") 0 in
   let len := Z.min (u64_or args (str "length") 512) 4096 in
   0 <= off -> 0 <= len ->
   dispatch_tool (str "ewf_read_sectors") args w =
   (if total <=? off then Err (cli_error_text (OffsetBeyond off total))
    else Ok (sectors_value {| sj_offset := off; sj_length := Z.min len (total - off);
                              sj_hex := hex_string (ztake len (zdrop off data)) |}), w)) /\
  (forall pattern, str_arg args (str "pattern") = Ok (hex_string pattern) ->
   let max := Z.min (u64_or args (str "max_results") 10) 100 in
   0 < zlen pattern <= 65537 -> 0 <= max ->
   dispatch_tool (str "ewf_search") args w =
   (Ok (search_value (hex_string pattern) (ztake max (occurrences data pattern 0 (zlen data)))), w)) /\
  (forall off len output,
   u64_arg args (str "offset") = Ok off -> u64_arg args (str "length") = Ok len ->
   str_arg args (str "output") = Ok output -> 0 <= off -> 0 <= len ->
   fs_create w output = None -> (forall out bs, fs_write w output out bs = None) ->
   dispatch_tool (str "ewf_extract") args w =
   if total <=? off then (Err (cli_error_text (OffsetBeyond off total)), w)
   else (Ok (extract_value {| ej_offset := off; ej_bytes_written := Z.min len (total - off);
                              ej_output := output |}),
         fs_put w output (ztake len (zdrop off data)))).
Proof.
  intros Hopen Hr Hpath. split; [|split].
  - cbn zeta. intros Ho Hl. pick_tool.
    rewrite Hpath. cbn [mbind outcome_bind].
    rewrite (read_sectors_run im pages Hw _ _ pos r) by done. by destruct (total <=? _).
  - intros pattern Hpattern. cbn zeta. intros Hp Hm. pick_tool.
    rewrite Hpath, Hpattern. cbn [mbind outcome_bind].
    by rewrite (search_run im pages Hw _ _ pattern _ pos r).
  - intros off len output Hoff Hlen Hout Ho Hl Hc Hwr. pick_tool.
    rewrite Hpath, Hoff, Hlen, Hout. rewrite !stateful_lift_run. unfold extract_in. rewrite Hc.
    rewrite (extract_run im pages Hw _ Hwr _ _ _ pos r) by done. by destruct (total <=? off).
Qed.
End Image.
