(* ===== verification/Output.v ===== *)
(** What the [ewf] command prints and how it exits: the formatting functions,
    [handle_ls] and [main] of [cli/src/main.rs]. *)

From S2P Require Import Prelude Text Json Extern Types Sections Source ChunkTable ReaderOpen Reader Logical.
From S2P Require Import Hex Messages Cli ErrorText Values Mcp.

(** * Formatting *)

(** [{:<k}] and [{:>k}] of a string. *)
Definition pad_right (k : nat) (t : text) : text := t ++ replicate (k - length t) space.
Definition pad_left (k : nat) (t : text) : text := replicate (k - length t) space ++ t.

(** The integer nearest to [n / d], the even one of two. *)
Definition round_half_even (n d : Z) : Z :=
  let q := n / d in
  let r := n mod d in
  if (2 * r <? d) || ((2 * r =? d) && Z.even q) then q else q + 1.

(** [n as f64] of a [u64]: 53 significant bits. *)
Definition f64_of_u64 (n : Z) : Z :=
  if n <? 2 ^ 53 then n
  else let ulp := 2 ^ (Z.log2 n - 52) in round_half_even n ulp * ulp.

(** [{:.k}] of a float [n / d]. *)
Definition fixed (k : nat) (n d : Z) : text :=
  let v := round_half_even (n * 10 ^ Z.of_nat k) d in
  let frac := print_dec (v mod 10 ^ Z.of_nat k) in
  print_dec (v / 10 ^ Z.of_nat k) ++ str "." ++ replicate (k - length frac) 48 ++ frac.

Definition GIB : Z := 1024 * 1024 * 1024.
Definition MIB : Z := 1024 * 1024.

(** [slice.chunks(n)] *)
Fixpoint chunks_loop {A} (fuel : nat) (n : nat) (l : list A) : list (list A) :=
  match fuel, l with
  | S fuel, _ :: _ => take n l :: chunks_loop fuel n (drop n l)
  | _, _ => []
  end.
Definition slice_chunks {A} (n : nat) (l : list A) : list (list A) := chunks_loop (length l) n l.

Definition line (t : text) : text := t ++ [newline].

Section Format.
Context `{SerdeJson}.

Definition format_output (value : Value) (json : bool) (human : Value -> text) : text :=
  if json then to_string_pretty value ++ [newline] else human value.

(** ** [format_info] *)
Definition info_fields : list (text * text) :=
  [(str "Case number", str "case_number"); (str "Evidence #", str "evidence_number");
   (str "Description", str "description"); (str "Examiner", str "examiner");
   (str "Notes", str "notes"); (str "Software", str "acquiry_software");
   (str "OS version", str "os_version"); (str "Acquired", str "acquiry_date");
   (str "System date", str "system_date")].

(** The loop over the fields; [has_meta] says that one has been printed. *)
Fixpoint format_meta (meta : Value) (fields : list (text * text)) (has_meta : bool) : text :=
  match fields with
  | [] => []
  | (label, key) :: fields =>
    match as_str (at_key meta key) with
    | Some val =>
      (if has_meta then [] else [newline]) ++ line (pad_right 12 label ++ str " " ++ val)
      ++ format_meta meta fields true
    | None => format_meta meta fields has_meta
    end
  end.

Definition format_size (bytes : Z) : text :=
  if GIB <=? bytes then str " (" ++ fixed 1 (f64_of_u64 bytes) GIB ++ str " GiB)"
  else if MIB <=? bytes then str " (" ++ fixed 1 (f64_of_u64 bytes) MIB ++ str " MiB)"
  else [].

Definition format_info (v : Value) : text :=
  line (str "Media size:  " ++ to_string (at_key v (str "media_size")) ++ str " bytes"
        ++ format_size (default 0 (as_u64 (at_key v (str "media_size")))))
  ++ line (str "Chunk size:  " ++ to_string (at_key v (str "chunk_size")) ++ str " bytes")
  ++ line (str "Chunk count: " ++ to_string (at_key v (str "chunk_count")))
  ++ match as_str (at_key (at_key v (str "stored_hashes")) (str "md5")) with
     | Some md5 => line (str "Stored MD5:  " ++ md5) | None => [] end
  ++ match as_str (at_key (at_key v (str "stored_hashes")) (str "sha1")) with
     | Some sha1 => line (str "Stored SHA1: " ++ sha1) | None => [] end
  ++ format_meta (at_key v (str "metadata")) info_fields false
  ++ match as_array (at_key v (str "acquisition_errors")) with
     | Some (e :: es) =>
       [newline] ++ line (str "Acquisition errors: " ++ print_dec (zlen (e :: es)))
       ++ concat (map (fun e => line (str "  sector " ++ to_string (at_key e (str "first_sector"))
                                      ++ str " (" ++ to_string (at_key e (str "sector_count"))
                                      ++ str " sectors)")) (e :: es))
     | _ => []
     end.

(** ** [format_verify] *)
Definition format_incomplete (v : Value) : text :=
  let missing := default 0 (as_u64 (at_key v (str "missing_bytes"))) in
  line (str "INCOMPLETE READ -- the chunk table addresses "
        ++ print_dec (default 0 (as_u64 (at_key v (str "addressable_bytes")))) ++ str " of "
        ++ print_dec (default 0 (as_u64 (at_key v (str "declared_bytes")))) ++ str " bytes; "
        ++ print_dec missing ++ str " bytes (" ++ fixed 2 (f64_of_u64 missing) GIB
        ++ str " GiB) are unreachable.")
  ++ line (str "A segment, or its trailing `table` section, is missing or truncated. EWF stores "
           ++ str "each segment's chunk table at the END of that segment, so a truncated segment "
           ++ str "loses the index for ALL of its chunks -- not just the bytes lost to truncation.")
  ++ line (str "The digests below are computed over a PARTIAL image and must NOT be compared "
           ++ str "with the acquisition digest.")
  ++ [newline].

Definition match_line (label : text) (m : option bool) : text :=
  line (label ++ match m with
                 | Some true => str "PASS"
                 | Some false => str "FAIL"
                 | None => str "n/a (no stored hash)"
                 end).

Definition format_verify (v : Value) : text :=
  (if bool_decide (as_bool (at_key v (str "complete")) = Some false) then format_incomplete v else [])
  ++ line (str "Computed MD5:  " ++ default (str "n/a") (as_str (at_key v (str "computed_md5"))))
  ++ match as_str (at_key v (str "computed_sha1")) with
     | Some sha1 => line (str "Computed SHA1: " ++ sha1) | None => [] end
  ++ match_line (str "MD5 match:     ") (as_bool (at_key v (str "md5_match")))
  ++ match_line (str "SHA1 match:    ") (as_bool (at_key v (str "sha1_match"))).

(** ** [format_hex_dump] *)
Definition is_ascii_graphic (b : byte) : bool := (33 <=? byteZ b) && (byteZ b <=? 126).

Definition shown_char (b : byte) : Z :=
  if is_ascii_graphic b || (byteZ b =? 32) then byteZ b else 46.

(** The columns of a line: the bytes, then blanks up to sixteen. *)
Fixpoint hex_columns (j : Z) (chunk : list byte) : text :=
  match chunk with
  | [] => []
  | b :: chunk => hex_pair b ++ [space] ++ (if j =? 7 then [space] else []) ++ hex_columns (j + 1) chunk
  end.

Definition blank_columns (n : Z) : text :=
  concat (map (fun j => str "   " ++ (if n + j =? 7 then [space] else [])) (range 0 (16 - n))).

Definition dump_line (addr : Z) (chunk : list byte) : text :=
  line (hex_padded 8 addr ++ str "  " ++ hex_columns 0 chunk ++ blank_columns (zlen chunk)
        ++ str " |" ++ map shown_char chunk ++ str "|").

Definition format_hex_dump `{Profile} (v : Value) : outcome Empty_set text :=
  let hex := utf8_encode (default [] (as_str (at_key v (str "hex")))) in
  let offset := default 0 (as_u64 (at_key v (str "offset"))) in
  bytes ← mapM (hex_at hex) (even_indices (zlen hex));
  lines ← mapM (fun '(i, chunk) => addr ← add64 offset (i * 16); Ok (dump_line addr chunk))
               (enumerate (slice_chunks 16 (omap id bytes)));
  Ok (concat lines).

(** ** The other tables.  The [Display] of a [Value] ignores the width it is given. *)
Definition format_sections (v : Value) : text :=
  line (pad_right 4 (str "Seg") ++ str " " ++ pad_right 12 (str "Type") ++ str " "
        ++ pad_left 12 (str "Offset") ++ str " " ++ pad_left 12 (str "Size"))
  ++ line (replicate 44 45)
  ++ concat (map (fun s => line (to_string (at_key s (str "segment")) ++ str " "
                                 ++ pad_right 12 (default (str "?") (as_str (at_key s (str "type"))))
                                 ++ str " " ++ to_string (at_key s (str "offset"))
                                 ++ str " " ++ to_string (at_key s (str "size"))))
                 (default [] (as_array (at_key v (str "sections"))))).

Definition format_search (v : Value) : text :=
  line (str "Pattern: " ++ default [] (as_str (at_key v (str "pattern"))))
  ++ line (str "Matches: " ++ print_dec (default 0 (as_u64 (at_key v (str "total_found")))))
  ++ concat (map (fun m => let offset := default 0 (as_u64 (at_key m (str "offset"))) in
                           line (str "  0x" ++ hex_padded 8 offset ++ str " (" ++ print_dec offset
                                 ++ str ")"))
                 (default [] (as_array (at_key v (str "matches"))))).

Definition format_extract (v : Value) : text :=
  line (str "Extracted " ++ to_string (at_key v (str "bytes_written")) ++ str " bytes at offset "
        ++ to_string (at_key v (str "offset")) ++ str " to "
        ++ default (str "?") (as_str (at_key v (str "output")))).
End Format.

(** ** [handle_ls] *)
Section Ls.
Context `{Texts}.

Definition ls_json_line (e : LogicalEntry) (path : text) : text :=
  line (str "{" ++ quoted (str "path") ++ str ":" ++ debug_str path ++ str ","
        ++ quoted (str "dir") ++ str ":" ++ bool_text (le_is_dir e) ++ str ","
        ++ quoted (str "size") ++ str ":" ++ print_dec (le_size e) ++ str ","
        ++ quoted (str "md5") ++ str ":" ++ debug_str (default [] (le_md5 e)) ++ str ","
        ++ quoted (str "id") ++ str ":" ++ print_dec (le_id e) ++ str "}").

Definition ls_line (e : LogicalEntry) (path : text) : text :=
  line ((if le_is_dir e then str "d" else str "-") ++ pad_left 12 (print_dec (le_size e)) ++ str "  "
        ++ default (replicate 32 45) (le_md5 e) ++ str "  " ++ path).

Definition ls_integrity (verified : bool) : text :=
  if verified then str "VERIFIED (ltree matches its stored MD5)"
  else str "FAILED " ++ em_dash ++ str " the file tree does not match the MD5 stored with it".

Definition ls_text (json : bool) (s : ls_summary) : text :=
  concat (zip_with (if json then ls_json_line else ls_line) (ls_entries s) (ls_paths s))
  ++ [newline] ++ line (str "  entries: " ++ print_dec (zlen (ls_entries s)) ++ str "  ("
       ++ print_dec (ls_files s) ++ str " files, " ++ print_dec (ls_dirs s) ++ str " directories)")
  ++ line (str "  logical size: " ++ print_dec (ls_bytes s) ++ str " bytes")
  ++ line (str "  indicators declared by the file: " ++ print_dec (ls_indicators s))
  ++ line (str "  ltree integrity: " ++ ls_integrity (ls_verified s))
  ++ line (str "  unpaired UTF-16 units replaced: " ++ print_dec (ls_replaced s))
  ++ line (str "  parse warnings: " ++ print_dec (zlen (ls_warnings s)))
  ++ concat (map (fun w => line (str "    warning: " ++ logical_warning_text w))
                 (take 10 (ls_warnings s))).

Definition handle_ls `{Profile} `{Digests} (found : res (LtreeHeader * list byte)) (json summary : bool)
    : outcome cli_error text :=
  s ← list_ltree found summary; Ok (ls_text json s).
End Ls.

(** * [main] *)

(** A command with its arguments, as clap returns it. *)
Inductive Command :=
| CmdInfo (path : text) (json : bool)
| CmdVerify (path : text) (json : bool)
| CmdRead (path : text) (offset length : Z)
| CmdLs (path : text) (json summary : bool)
| CmdSections (path : text) (json : bool)
| CmdSearch (path pattern : text) (max_results : Z)
| CmdExtract (path : text) (offset length : Z) (output : text)
| CmdMcp.

Record process := {
  p_stdout : text;
  p_stderr : text;
  p_code : Z;
}.

Definition prints (out : text) : process := {| p_stdout := out; p_stderr := []; p_code := 0 |}.

Section Main.
Context `{SafeRead} `{Zlib} `{Profile} `{Lru Z (list Chunk)} `{Lru Z (list byte)}.
Context `{Digests} `{Rayon} `{Texts} `{FileSystem W} `{SerdeJson}.
Variable char_is_uppercase : Z -> bool.

(** The end of [main]: the output, or the error and the code 1. *)
Definition finish {A} (format : A -> outcome Empty_set text) (m : outcome cli_error A)
    : outcome Empty_set process :=
  match m with
  | Ok a => out ← format a; Ok (prints out)
  | Err e => Ok {| p_stdout := []; p_stderr := line (str "error: " ++ cli_error_text e); p_code := 1 |}
  | Panic => Panic
  end.

(** [ewf verify]: a failed verification prints its report and exits with 2. *)
Definition run_verify (w : W) (path : text) (json : bool) : outcome Empty_set process :=
  match handle_ewf_verify (open_in w) path with
  | Ok v =>
    let out := format_output (verify_value v) json format_verify in
    Ok {| p_stdout := out; p_stderr := []; p_code := if verify_bad v then 2 else 0 |}
  | m => finish (fun _ => Ok []) m
  end.

Definition main (command : Command) (stdin : list (option text)) : stateful W Empty_set process := fun w =>
  match command with
  | CmdInfo path json =>
    (finish (fun i => Ok (format_output (info_value i) json format_info))
       (handle_ewf_info (open_in w) path), w)
  | CmdVerify path json => (run_verify w path json, w)
  | CmdRead path offset length =>
    let length := Z.min length 4096 in
    (finish (fun s => format_hex_dump (sectors_value s))
       (handle_ewf_read_sectors (open_in w) path offset length), w)
  | CmdLs path json summary =>
    (finish Ok (handle_ls (find_ltree char_is_uppercase (fs_is_file w) (fs_open w) path) json summary), w)
  | CmdSections path json =>
    (finish (fun all => Ok (format_output (sections_value all) json format_sections))
       (handle_ewf_list_sections fs_glob_escape (fs_glob w) (bytes_in w) path), w)
  | CmdSearch path pattern max_results =>
    let max_results := Z.min max_results 100 in
    (finish (fun ms => Ok (format_search (search_value pattern ms)))
       (handle_ewf_search (open_in w) path pattern max_results), w)
  | CmdExtract path offset length output =>
    let '(m, out) := handle_ewf_extract (open_in w) (fs_write w output) (fs_create w output)
                       path offset length output in
    (finish (fun e => Ok (format_extract (extract_value e))) m,
     match out with Some bytes => fs_put w output bytes | None => w end)
  | CmdMcp =>
    match run stdin (w, []) with
    | (Ok _, (w, out)) => (Ok (prints out), w)
    | (Err e, _) => match e with end
    | (Panic, (w, _)) => (Panic, w)
    end
  end.
End Main.
