(* ===== verification/OutputProps.v ===== *)
(** What the commands print: the hex dump shows the media, the exit code of a
    verification, and the JSON of [ls]. *)

From S2P Require Import Prelude Text Json Extern Types Sections Source ChunkTable ReaderOpen Discover Reader Logical.
From S2P Require Import LogicalRead Ltree Hex Messages ReportProps Cli CliProps ErrorText Values Mcp Output.

(** * Reading a hex dump back, as [xxd -r] does *)

Definition dump_addr (l : text) : option Z := '(addr, _) ← split_once space l; hex_u64 addr.

(** At most [n] columns from column [j]. *)
Fixpoint read_columns (n : nat) (j : Z) (s : text) : list byte :=
  match n, s with
  | S n, d1 :: d2 :: _ :: s =>
    match hex_byte [d1; d2] with
    | Some b => byte_of_Z b :: read_columns n (j + 1) (if j =? 7 then tail s else s)
    | None => []
    end
  | _, _ => []
  end.

Definition dump_bytes (l : text) : list byte :=
  match split_once space l with
  | Some (_, s) => read_columns 16 0 (tail s)
  | None => []
  end.

Lemma split_once_app c p s : c ∉ p -> split_once c (p ++ c :: s) = Some (p, s).
Proof.
  induction p as [|x p IH]; cbn; [by rewrite Z.eqb_refl|]. rewrite not_elem_of_cons. intros [Hx Hp].
  rewrite (proj2 (Z.eqb_neq x c)) by congruence. by rewrite IH.
Qed.

(** The columns of a line are read up to the blanks behind them. *)
Lemma read_columns_chunk n j chunk rest :
  (length chunk <= n)%nat -> 0 <= j ->
  (length chunk < n -> forall m i, read_columns m i rest = [])%nat ->
  read_columns n j (hex_columns j chunk ++ rest) = chunk.
Proof.
  revert n j. induction chunk as [|b chunk IH]; intros n j Hn Hj Hrest.
  - destruct n as [|n]; [done|]. apply Hrest. cbn. lia.
  - destruct n as [|n]; [cbn in Hn; lia|]. cbn [hex_columns hex_pair app read_columns].
    change (hex_byte _) with (hex_byte (hex_pair b)). rewrite hex_byte_pair, byte_of_Z_byteZ.
    assert ((if j =? 7 then tail (((if j =? 7 then [space] else []) ++ hex_columns (j + 1) chunk) ++ rest)
             else ((if j =? 7 then [space] else []) ++ hex_columns (j + 1) chunk) ++ rest)
            = hex_columns (j + 1) chunk ++ rest) as Heq by (by destruct (j =? 7)).
    cbn [app] in *. rewrite Heq. f_equal. apply IH; [cbn in Hn; lia|lia|].
    intros Hlt. apply Hrest. cbn. lia.
Qed.

Lemma hex_padded_digits k n : Forall (fun c => 32 < c) (hex_padded k n).
Proof.
  unfold hex_padded. apply Forall_app. split; [by apply Forall_replicate|]. unfold print_hex.
  assert (forall fuel m acc, Forall (fun c => 32 < c) acc -> Forall (fun c => 32 < c) (print_digits fuel 16 m acc)) as Hd.
  { intros fuel. induction fuel as [|fuel IH]; intros m acc Ha; [done|]. cbn [print_digits].
    assert (Forall (fun c => 32 < c) (digit_char (m mod 16) :: acc)) as Ha'.
    { constructor; [|done]. pose proof (Z.mod_pos_bound m 16 ltac:(lia)). unfold digit_char.
      destruct (_ <? _); lia. }
    destruct (_ =? 0); [done|by apply IH]. }
  by apply Hd.
Qed.

Lemma hex_padded_read k n : 0 <= n <= u64_max -> hex_u64 (hex_padded k n) = Some n.
Proof.
  intros Hn. unfold hex_padded. destruct (k - length (print_hex n))%nat as [|p]; [by apply hex_u64_print_hex|].
  unfold hex_u64, parse_uint. cbn [replicate app]. change (48 =? 43) with false. cbn iota.
  assert (forall q s, parse_digits 16 u64_max 0 (replicate q 48 ++ s) = parse_digits 16 u64_max 0 s) as Hz.
  { intros q s. induction q as [|q IH]; [done|]. exact IH. }
  change (48 :: replicate p 48 ++ print_hex n) with (replicate (S p) 48 ++ print_hex n). rewrite Hz.
  destruct (parse_digits_print_digits 64 16 u64_max n 0 []) as (m & Hm & Hparse); try lia.
  unfold print_hex. rewrite Hparse by lia. by rewrite Z.mul_0_l.
Qed.

(** ** A line *)

(** The text of a line without its end. *)
Definition dump_text (addr : Z) (chunk : list byte) : text :=
  hex_padded 8 addr ++ str "  " ++ hex_columns 0 chunk ++ blank_columns (zlen chunk)
  ++ str " |" ++ map shown_char chunk ++ str "|".

Lemma dump_text_split addr chunk :
  split_once space (dump_text addr chunk)
  = Some (hex_padded 8 addr, space :: hex_columns 0 chunk ++ blank_columns (zlen chunk)
                             ++ str " |" ++ map shown_char chunk ++ str "|").
Proof.
  unfold dump_text. change (str "  " ++ ?s) with (space :: space :: s). apply split_once_app.
  intros Hin. pose proof (hex_padded_digits 8 addr) as Hd. rewrite Forall_forall in Hd.
  specialize (Hd _ Hin). unfold space in Hd. lia.
Qed.

Lemma dump_text_addr addr chunk : 0 <= addr <= u64_max -> dump_addr (dump_text addr chunk) = Some addr.
Proof. intros Ha. unfold dump_addr. rewrite dump_text_split. cbn. by apply hex_padded_read. Qed.

Lemma dump_text_bytes addr chunk : (length chunk <= 16)%nat -> dump_bytes (dump_text addr chunk) = chunk.
Proof.
  intros Hn. unfold dump_bytes. rewrite dump_text_split. cbn [tail]. apply read_columns_chunk; [done|lia|].
  intros Hlt m i. unfold blank_columns, range. rewrite seqZ_cons by (unfold zlen; lia). cbn [map concat].
  by destruct m.
Qed.

Lemma hex_pair_plain b : Forall (fun c => 32 <= c) (hex_pair b).
Proof. destruct b; by repeat constructor. Qed.

Lemma dump_text_plain addr chunk : Forall (fun c => 32 <= c) (dump_text addr chunk).
Proof.
  unfold dump_text. rewrite !Forall_app. split_and!; try by repeat constructor.
  - eapply Forall_impl; [apply hex_padded_digits|]. cbn. lia.
  - generalize 0. induction chunk as [|b chunk IH]; intros j; [constructor|]. cbn [hex_columns].
    rewrite !Forall_app. split_and!; [apply hex_pair_plain|by repeat constructor|by destruct (_ =? _); repeat constructor|].
    apply IH.
  - unfold blank_columns. apply Forall_concat, List.Forall_map, Forall_true. intros j.
    rewrite Forall_app. split; [by repeat constructor|]. by destruct (_ =? _); repeat constructor.
  - apply List.Forall_map, Forall_true. intros b. unfold shown_char, is_ascii_graphic.
    destruct (_ || _) eqn:E; [|lia]. apply orb_true_iff in E as [E|E]; bool_hyps; lia.
Qed.

(** ** The slices of sixteen bytes *)

Lemma chunks_loop_concat {A} fuel n (l : list A) :
  (0 < n)%nat -> (length l <= fuel)%nat -> concat (chunks_loop fuel n l) = l.
Proof.
  intros Hn. revert l. induction fuel as [|fuel IH]; intros [|x l] Hl; try done; [cbn in Hl; lia|].
  cbn [chunks_loop concat]. rewrite IH; [apply take_drop|]. rewrite length_drop. cbn in *. lia.
Qed.

Lemma chunks_loop_short {A} fuel n (l : list A) : Forall (fun c => length c <= n)%nat (chunks_loop fuel n l).
Proof.
  revert l. induction fuel as [|fuel IH]; intros [|x l]; constructor; [|apply IH]. rewrite length_take. lia.
Qed.

Lemma chunks_loop_length {A} fuel n (l : list A) :
  (0 < n)%nat -> (length l <= fuel)%nat ->
  zlen (chunks_loop fuel n l) = (zlen l + Z.of_nat n - 1) / Z.of_nat n.
Proof.
  intros Hn. revert l. induction fuel as [|fuel IH]; intros [|x l] Hl; try (cbn in Hl; lia);
    try (symmetry; apply Z.div_small; change (@zlen A []) with 0; lia).
  cbn [chunks_loop]. rewrite zlen_cons, IH.
  2: { rewrite length_drop. cbn in *. lia. }
  unfold zlen. rewrite length_drop. destruct (decide (length (x :: l) <= n)%nat).
  - replace (length (x :: l) - n)%nat with 0%nat by lia.
    rewrite (Z.div_small (Z.of_nat 0 + Z.of_nat n - 1)) by lia.
    apply (Z.div_unique _ _ _ (Z.of_nat (length (x :: l)) - 1)); cbn in *; lia.
  - replace (Z.of_nat (length (x :: l)) + Z.of_nat n - 1)
      with (Z.of_nat (length (x :: l) - n) + Z.of_nat n - 1 + 1 * Z.of_nat n) by lia.
    rewrite Z.div_add by lia. lia.
Qed.

(** ** The dump *)

Lemma dump_lines `{Profile} off i cs :
  0 <= off -> 0 <= i -> off + 16 * (i + zlen cs) <= u64_max + 16 ->
  mapM (fun '(i, chunk) => addr ← add64 off (i * 16); Ok (dump_line addr chunk)) (enumerate_from i cs)
  = Ok (E:=Empty_set) (map (fun '(i, chunk) => dump_text (off + i * 16) chunk ++ [newline]) (enumerate_from i cs)).
Proof.
  intros Ho. revert i. induction cs as [|c cs IH]; intros i Hi Hmax; [done|]. cbn [enumerate_from map].
  rewrite zlen_cons in Hmax. pose proof (zlen_nonneg cs).
  change (mapM ?f (?a :: ?l)) with (b ← f a; bs ← mapM f l; mret (b :: bs)). cbn beta iota.
  rewrite add64_ok by lia. cbn [mbind outcome_bind]. by rewrite IH by lia.
Qed.

(** What is read back from the dump. *)
Lemma format_hex_dump_run `{Profile} off len bs :
  0 <= off -> off + zlen bs <= u64_max ->
  exists out,
    format_hex_dump (sectors_value {| sj_offset := off; sj_length := len; sj_hex := hex_string bs |}) = Ok out /\
    concat (map dump_bytes (lines out)) = bs /\
    map dump_addr (lines out) = map (fun i => Some (off + 16 * i)) (range 0 ((zlen bs + 15) / 16)).
Proof.
  intros Ho Hmax. unfold format_hex_dump.
  change (as_str _) with (Some (hex_string bs)). change (as_u64 _) with (Some off). cbn [default from_option id].
  rewrite (pairs_mapM (fun hex i => hex_at hex i) Some) by (intros; apply hex_at_pair).
  cbn [mbind outcome_bind]. replace (omap id (map Some bs)) with bs.
  2: { induction bs as [|b bs IH]; [done|]. cbn. f_equal. apply IH. rewrite zlen_cons in Hmax. lia. }
  set (cs := slice_chunks 16 bs).
  assert (zlen cs = (zlen bs + 15) / 16) as Hcs.
  { unfold cs, slice_chunks. rewrite chunks_loop_length by lia. f_equal. change (Z.of_nat 16) with 16. lia. }
  unfold enumerate. rewrite dump_lines; [|done|lia|].
  2: { rewrite Hcs. pose proof (zlen_nonneg bs). Z.to_euclidean_division_equations. lia. }
  cbn [mbind outcome_bind]. eexists. split; [reflexivity|].
  set (texts := map (fun '(i, chunk) => dump_text (off + i * 16) chunk) (enumerate_from 0 cs)).
  assert (lines (concat (map (fun '(i, chunk) => dump_text (off + i * 16) chunk ++ [newline]) (enumerate_from 0 cs)))
          = texts) as ->.
  { rewrite <-(lines_written texts).
    - unfold texts. rewrite map_map. do 2 f_equal. apply map_ext. by intros [i c].
    - apply List.Forall_map, Forall_true. intros [i c]. apply plain_line, dump_text_plain. }
  assert (concat cs = bs) as Hcat by (by apply chunks_loop_concat; lia).
  pose proof (chunks_loop_short (length bs) 16 bs) as Hshort. fold (slice_chunks 16 bs) in Hshort. fold cs in Hshort.
  split.
  - rewrite <-Hcat. f_equal. clearbody cs. unfold texts. clear texts Hcs Hcat. generalize 0.
    induction Hshort as [|c cs Hc _ IH]; intros i; [done|]. cbn [enumerate_from map]. rewrite dump_text_bytes by done. f_equal. apply IH.
  - rewrite <-Hcs. assert (off + 16 * (0 + zlen cs) <= u64_max + 16) as Hb.
    { rewrite Hcs. pose proof (zlen_nonneg bs). Z.to_euclidean_division_equations. lia. }
    clearbody cs. unfold texts, range. clear texts Hcs Hcat Hshort.
    replace (zlen cs - 0) with (zlen cs) by lia. revert Hb. assert (0 <= 0) as Hi by done. revert Hi. generalize 0 at 2 3 4 5.
    induction cs as [|c cs IH]; intros i Hi Hb; [done|]. rewrite zlen_cons in *. pose proof (zlen_nonneg cs).
    rewrite seqZ_cons by lia. cbn [enumerate_from map]. rewrite dump_text_addr by lia. f_equal; [f_equal; lia|].
    replace (Z.pred (1 + zlen cs)) with (zlen cs) by lia. apply IH; lia.
Qed.

(** * The commands *)
Section Commands.
Context `{SafeRead} `{ZlibLaws} `{Profile} `{LruLaws Z (list Chunk)} `{LruLaws Z (list byte)}.
Context `{Digests} `{RayonLaws} `{Texts} `{FileSystem W} `{SerdeJson}.
Variable char_is_uppercase : Z -> bool.

(** The end of a command that fails. *)
Definition fails (e : cli_error) : process :=
  {| p_stdout := []; p_stderr := line (str "error: " ++ cli_error_text e); p_code := 1 |}.

(** C40: [ewf read] shows the media.  On an image that decodes, the dump printed on the
    standard output, read back column by column, is the window of the media at the
    offset - at most 4096 bytes, up to the end - and its lines carry the addresses from
    the offset on, sixteen apart; an offset outside the media is an error with exit
    code 1 and nothing on the standard output. *)
Theorem read_shows_media im pages (w : W) path pos r off len stdin :
  whole im pages -> open_in w path = Ok r -> presents im pos r -> 0 <= off -> 0 <= len ->
  if im_total_size im <=? off
  then main char_is_uppercase (CmdRead path off len) stdin w =
       (Ok (fails (OffsetBeyond off (im_total_size im))), w)
  else exists out,
    main char_is_uppercase (CmdRead path off len) stdin w = (Ok (prints out), w) /\
    let window := ztake (Z.min len 4096) (zdrop off (media im pages)) in
    concat (map dump_bytes (lines out)) = window /\
    map dump_addr (lines out) = map (fun i => Some (off + 16 * i)) (range 0 ((zlen window + 15) / 16)).
Proof.
  intros Hw Hopen Hr Ho Hl. pose proof (zlen_media im pages Hw) as Hz. pose proof (wh_fits _ _ Hw) as Hfits.
  unfold main. rewrite (read_sectors_run im pages Hw _ path pos r) by (done || lia).
  destruct (im_total_size im <=? off) eqn:E; bool_hyps; [done|].
  destruct (format_hex_dump_run off (Z.min (Z.min len 4096) (im_total_size im - off))
              (ztake (Z.min len 4096) (zdrop off (media im pages)))) as (out & Hrun & Hbytes & Haddr); [done| |].
  { rewrite zlen_ztake, zlen_zdrop. lia. }
  exists out. unfold finish. by rewrite Hrun.
Qed.

(** C19: a gate on [ewf verify] is sound.  The command never panics and exits with 0
    exactly when every chunk of the image decodes, the table covers the declared size,
    and each stored hash is the hash of the media; with 2 exactly when the image decodes
    but one of these fails; with 1, and nothing on the standard output, exactly when a
    chunk does not decode. *)
Theorem verify_exit_sound im pos r (w : W) path json stdin :
  image_ok im -> presents im pos r -> im_chunk_size im * im_count im <= i64_max ->
  open_in w path = Ok r ->
  exists p, main char_is_uppercase (CmdVerify path json) stdin w = (Ok p, w) /\
    (p_code p = 0 <-> exists pages, all_pages im = Ok pages /\ sound im pages) /\
    (p_code p = 2 <-> exists pages, all_pages im = Ok pages /\ ~ sound im pages) /\
    (p_code p = 1 <-> forall pages, all_pages im <> Ok pages) /\
    (p_code p = 1 -> p_stdout p = []).
Proof.
  intros Hok Hr Hmax Hopen. unfold main, run_verify.
  destruct (verify_run im pos r (open_in w) path Hok Hr Hmax Hopen) as [(v & pages & -> & Hp & Hbad)|(e & -> & Hnone)].
  - assert (forall P : list (list byte) -> Prop, (exists ps, all_pages im = Ok ps /\ P ps) <-> P pages) as Hall.
    { intros P. rewrite Hp. split; [intros (ps & <-%Ok_inj & HP); done|by exists pages]. }
    eexists. split; [reflexivity|]. cbn [p_code p_stdout]. rewrite (Hall (sound im)), (Hall (fun ps => ~ sound im ps)).
    clear Hall Hopen Hr Hok Hmax. destruct (verify_bad v); naive_solver.
  - eexists. split; [reflexivity|]. cbn [p_code p_stdout]. clear Hopen Hr Hok Hmax. naive_solver.
Qed.
End Commands.

(** * The JSON of [ls] *)
Section LsJson.
Context `{Texts}.

(** The characters [Debug] shows in a way that JSON reads. *)
Definition shown (c : Z) : Prop :=
  c = 9 \/ c = 10 \/ c = 13 \/ c = quote \/ c = backslash \/ (32 <= c /\ printable c = true).

Definition entry_value (e : LogicalEntry) (path : text) : json :=
  JObj [(str "path", JStr path); (str "dir", JBool (le_is_dir e)); (str "size", JNum (le_size e));
        (str "md5", JStr (default [] (le_md5 e))); (str "id", JNum (le_id e))].

Lemma debug_char_text c : shown c -> char_text c (debug_char c).
Proof.
  intros Hc. unfold debug_char.
  destruct Hc as [->|[->|[->|[->|[->|[Hc Hp]]]]]]; try by apply ct_escaped.
  destruct (c =? 0) eqn:E0; bool_hyps; [lia|]. destruct (c =? 9) eqn:E1; bool_hyps; [lia|].
  destruct (c =? 13) eqn:E2; bool_hyps; [lia|]. destruct (c =? 10) eqn:E3; bool_hyps; [lia|].
  destruct (c =? quote) eqn:E4; bool_hyps; [subst; by apply ct_escaped|].
  destruct (c =? backslash) eqn:E5; bool_hyps; [subst; by apply ct_escaped|].
  rewrite Hp. by apply ct_plain.
Qed.

Lemma debug_str_renders s : Forall shown s -> renders (JStr s) (debug_str s).
Proof.
  intros Hs. apply rd_str. induction Hs as [|c s Hc _ IH]; [constructor|]. cbn [map concat].
  constructor; [by apply debug_char_text|done].
Qed.

(** A member without white space. *)
Lemma member_next k v t ms u :
  forallb plain_char k = true -> renders v t -> members ms u ->
  members ((k, v) :: ms) (quoted k ++ str ":" ++ t ++ str "," ++ u).
Proof.
  intros Hk Ht Hu. unfold quoted. cbn [app]. rewrite <-!app_assoc. cbn [app].
  apply (mb_cons [] k k [] [] v t [] ms u); [constructor|by apply plain_chars|constructor|constructor|done|constructor|done].
Qed.

Lemma member_last k v t :
  forallb plain_char k = true -> renders v t -> members [(k, v)] (quoted k ++ str ":" ++ t).
Proof.
  intros Hk Ht. unfold quoted. cbn [app]. rewrite <-!app_assoc. cbn [app].
  rewrite <-(app_nil_r t). apply (mb_one [] k k [] [] v t []); [constructor|by apply plain_chars|constructor..|done|constructor].
Qed.

Definition digest_shown (e : LogicalEntry) : Prop := Forall shown (default [] (le_md5 e)).

Definition ls_members (e : LogicalEntry) (path : text) : text :=
  quoted (str "path") ++ str ":" ++ debug_str path ++ str ","
  ++ quoted (str "dir") ++ str ":" ++ bool_text (le_is_dir e) ++ str ","
  ++ quoted (str "size") ++ str ":" ++ print_dec (le_size e) ++ str ","
  ++ quoted (str "md5") ++ str ":" ++ debug_str (default [] (le_md5 e)) ++ str ","
  ++ quoted (str "id") ++ str ":" ++ print_dec (le_id e).

Lemma ls_json_line_reads e path :
  0 <= le_size e <= u64_max -> 0 <= le_id e <= u64_max -> digest_shown e -> Forall shown path ->
  exists t, ls_json_line e path = t ++ [newline] /\ read_json t = Some (entry_value e path).
Proof.
  intros Hs Hi Hm Hp. exists (123 :: ls_members e path ++ [125]). split.
  { unfold ls_json_line, ls_members, line. change (str "{") with [123]. change (str "}") with [125].
    cbn [app]. f_equal. by rewrite <-!app_assoc. }
  assert (renders (entry_value e path) (123 :: ls_members e path ++ [125])) as Hr.
  2: { pose proof (read_json_renders _ _ [] [] (Forall_nil_2 _) (Forall_nil_2 _) Hr) as Hread.
       by rewrite app_nil_r in Hread. }
  apply rd_obj. unfold ls_members.
  repeat (apply member_next; [done|first [by apply debug_str_renders|by apply rd_bool|by apply rd_num]|]).
  apply member_last; [done|by apply rd_num].
Qed.

Lemma list_ltree_paths `{Profile} `{Digests} found s :
  list_ltree found false = Ok s -> length (ls_paths s) = length (ls_entries s).
Proof.
  unfold list_ltree. destruct found as [[header body]|e|]; [|done|done]. cbn [of_ewf mbind outcome_bind].
  destruct (decode_ltree_text body) as [txt replaced]. destruct (parse_entry_tree txt) as [tree|e|]; [|done|done].
  cbn [of_ewf mbind outcome_bind]. destruct (sum_file_sizes 0 (entries tree)) as [n|e|]; [|done|done].
  cbn [mbind outcome_bind]. destruct (mapM _ _) as [paths|e|] eqn:Em; [|done|done]. intros <-%Ok_inj. cbn.
  apply mapM_outcome_ok, Forall2_length in Em. rewrite <-Em. unfold range. rewrite length_seqZ. unfold zlen. lia.
Qed.

Lemma list_ltree_typed `{Profile} `{Digests} found s :
  list_ltree found false = Ok s -> exists names, Forall (entry_typed names) (ls_entries s).
Proof.
  unfold list_ltree. destruct found as [[header body]|e|]; [|done|done]. cbn [of_ewf mbind outcome_bind].
  destruct (decode_ltree_text body) as [txt replaced]. destruct (parse_entry_tree txt) as [tree|e|] eqn:Et; [|done|done].
  apply parse_entry_tree_types in Et as (_ & Ht & _).
  cbn [of_ewf mbind outcome_bind]. destruct (sum_file_sizes 0 (entries tree)) as [n|e|]; [|done|done].
  cbn [mbind outcome_bind]. destruct (mapM _ _) as [paths|e|]; [|done|done]. intros <-%Ok_inj. by eexists.
Qed.

(** [ls --json] prints JSON for the names it can.  When the names and digests of the
    tree have no other control characters than tab, newline and carriage return, and are
    printable otherwise, each entry is one line of JSON - its path, whether it is a
    directory, its size, digest and identifier - in the order of the tree; the summary
    follows on the same stream. *)
Theorem ls_json_spec `{Profile} `{Digests} found s :
  list_ltree found false = Ok s ->
  Forall digest_shown (ls_entries s) -> Forall (Forall shown) (ls_paths s) ->
  exists ts rest,
    handle_ls found true false = Ok (concat (map (fun t => t ++ [newline]) ts) ++ newline :: rest) /\
    length ts = length (ls_entries s) /\
    map read_json ts = zip_with (fun e p => Some (entry_value e p)) (ls_entries s) (ls_paths s).
Proof.
  intros Hs He Hp. destruct (list_ltree_typed found s Hs) as [names Hty]. unfold handle_ls. rewrite Hs. cbn [mbind outcome_bind]. unfold ls_text.
  assert (exists ts, concat (zip_with ls_json_line (ls_entries s) (ls_paths s)) = concat (map (fun t => t ++ [newline]) ts) /\
    map read_json ts = zip_with (fun e p => Some (entry_value e p)) (ls_entries s) (ls_paths s)) as (ts & -> & Hts).
  { revert Hp Hty. generalize (ls_paths s). induction He as [|e es He _ IH]; intros [|p ps] Hp Hty; try (by exists []).
    apply Forall_cons in Hp as [Hp Hps], Hty as [[_ _ Hsz Hid _ _] Hty]. destruct (IH ps Hps Hty) as (ts & Heq & Hts).
    destruct (ls_json_line_reads e p Hsz Hid He Hp) as (t & Ht & Hread). exists (t :: ts). cbn [zip_with concat map].
    by rewrite Ht, Heq, Hread, Hts. }
  exists ts. eexists. split; [reflexivity|]. split; [|done].
  pose proof (list_ltree_paths found s Hs) as Hlen. apply (f_equal length) in Hts. rewrite length_map, length_zip_with in Hts. lia.
Qed.

(** A name with another control character is printed with an escape that JSON does not
    have. *)
Lemma ls_json_not_json :
  printable 1 = false ->
  forall t, ls_json_line {| le_name := [1]; le_short_name := []; le_is_dir := false; le_size := 0; le_md5 := None;
                            le_id := 0; le_children := []; le_parent := None; le_raw := ∅ |} [1] = t ++ [newline] ->
  read_json t = None.
Proof.
  intros Hp t. unfold ls_json_line, debug_str, line. cbn [map concat]. unfold debug_char at 1.
  change (1 =? 0) with false. change (1 =? 9) with false. change (1 =? 13) with false. change (1 =? 10) with false.
  change (1 =? quote) with false. change (1 =? backslash) with false. rewrite Hp. cbn iota.
  intros Heq%app_inv_tail. subst t. vm_compute. reflexivity.
Qed.
End LsJson.
