(* ===== verification/Acquire.v ===== *)
(** A writer of well-formed EWF v1 images, which no source defines: what an
    acquisition tool lays out, as the reference the end-to-end theorems start from.

    A segment is a file header, a chain of sections and a final [next] or [done].
    The first segment has the volume; each has its chunks in [sectors] and their
    offsets in [table] and [table2]; the last has the digests of the media. *)

From S2P Require Import Prelude Text Extern Types Sections.

(** * Section chains *)

(** A section before it is placed: its type and its body. *)
Abbreviation part := (text * list byte)%type.

Section Chains.
Context `{Adler}.

(** The 76 bytes of a descriptor with a valid checksum. *)
Definition header_bytes (name : text) (nxt size : Z) : list byte :=
  let n := ascii_bytes name in
  descriptor_bytes n nxt size (adler32 (descriptor_prefix n nxt size)).

(** A section at offset [at_]; the last of a chain names itself as the next one. *)
Definition section_bytes (name : text) (at_ : Z) (body : list byte) (last_ : bool) : list byte :=
  let size := 76 + zlen body in
  header_bytes name (if last_ then at_ else at_ + size) size ++ body.

Definition descriptor_at (name : text) (at_ : Z) (body : list byte) (last_ : bool) : SectionDescriptor :=
  let size := 76 + zlen body in
  let nxt := if last_ then at_ else at_ + size in
  {| section_type := name; next := nxt; section_size := size; offset := at_;
     stored_crc := adler32 (descriptor_prefix (ascii_bytes name) nxt size) |}.

(** The bytes a list of sections takes. *)
Definition span (ps : list part) : Z := foldr (fun p n => 76 + zlen p.2 + n) 0 ps.

Fixpoint chain_bytes (pos : Z) (ps : list part) : list byte :=
  match ps with
  | [] => []
  | (n, b) :: ps => section_bytes n pos b false ++ chain_bytes (pos + (76 + zlen b)) ps
  end.

Fixpoint chain (pos : Z) (ps : list part) : list SectionDescriptor :=
  match ps with
  | [] => []
  | (n, b) :: ps => descriptor_at n pos b false :: chain (pos + (76 + zlen b)) ps
  end.

(** A segment file: [front], then the empty section [final]. *)
Definition segment_bytes (num : Z) (front : list part) (final : text) : list byte :=
  file_header_bytes Physical num ++ chain_bytes FILE_HEADER_SIZE front
  ++ section_bytes final (FILE_HEADER_SIZE + span front) [] true.

Definition segment_chain (front : list part) (final : text) : list SectionDescriptor :=
  chain FILE_HEADER_SIZE front ++ [descriptor_at final (FILE_HEADER_SIZE + span front) [] true].

(** ** Lemmas *)

(** A type of a section: at most 16 characters of ASCII. *)
Definition good_name (n : text) : Prop := zlen n <= 16 /\ Forall (fun c => 0 < c < 128) n.

Definition good_parts (ps : list part) : Prop := Forall (fun p => good_name p.1) ps.

Lemma good_name_valid n : good_name n -> valid_type_bytes (ascii_bytes n).
Proof.
  intros [Hl Hc]. split; [by unfold zlen, ascii_bytes in *; rewrite length_map|].
  unfold ascii_bytes. apply List.Forall_map. eapply Forall_impl; [exact Hc|]. cbn.
  intros c Hr Heq. apply (f_equal byteZ) in Heq. rewrite byteZ_byte_of_Z, Z.mod_small in Heq by lia.
  change (byteZ Byte.x00) with 0 in Heq. lia.
Qed.

Lemma good_name_lossy n : good_name n -> from_utf8_lossy (ascii_bytes n) = n.
Proof.
  intros [_ Hc]. apply from_utf8_lossy_ascii. eapply Forall_impl; [exact Hc|]. cbn. lia.
Qed.

Lemma zlen_ascii n : zlen (ascii_bytes n) = zlen n.
Proof. unfold zlen, ascii_bytes. by rewrite length_map. Qed.

Lemma zlen_header_bytes n nxt size : good_name n -> zlen (header_bytes n nxt size) = 76.
Proof. intros [Hl _]. apply zlen_descriptor_bytes. by rewrite zlen_ascii. Qed.

Lemma zlen_section_bytes n at_ b l : good_name n -> zlen (section_bytes n at_ b l) = 76 + zlen b.
Proof. intros Hn. unfold section_bytes. by rewrite zlen_app, zlen_header_bytes. Qed.

Lemma span_cons n b ps : span ((n, b) :: ps) = 76 + zlen b + span ps.
Proof. done. Qed.

Lemma span_nonneg ps : 0 <= span ps.
Proof. induction ps as [|[n b] ps IH]; [done|]. rewrite span_cons. pose proof (zlen_nonneg b). lia. Qed.

Lemma span_app ps qs : span (ps ++ qs) = span ps + span qs.
Proof.
  induction ps as [|[n b] ps IH]; [done|]. rewrite <-app_comm_cons, !span_cons, IH. lia.
Qed.

Lemma length_le_span ps : 76 * zlen ps <= span ps.
Proof.
  induction ps as [|[n b] ps IH]; [done|]. rewrite span_cons, zlen_cons. pose proof (zlen_nonneg b). lia.
Qed.

Lemma zlen_chain_bytes pos ps : good_parts ps -> zlen (chain_bytes pos ps) = span ps.
Proof.
  intros Hg. revert pos. induction Hg as [|[n b] ps Hn _ IH]; intros pos; [done|].
  cbn [chain_bytes]. rewrite zlen_app, zlen_section_bytes, IH, span_cons by done. lia.
Qed.

Lemma chain_bytes_app pos ps qs :
  chain_bytes pos (ps ++ qs) = chain_bytes pos ps ++ chain_bytes (pos + span ps) qs.
Proof.
  revert pos. induction ps as [|[n b] ps IH]; intros pos; [by rewrite Z.add_0_r|].
  cbn [app chain_bytes]. rewrite IH, span_cons, <-app_assoc. do 3 f_equal. lia.
Qed.

Lemma chain_app pos ps qs : chain pos (ps ++ qs) = chain pos ps ++ chain (pos + span ps) qs.
Proof.
  revert pos. induction ps as [|[n b] ps IH]; intros pos; [by rewrite Z.add_0_r|].
  cbn [app chain]. rewrite IH, span_cons. do 3 f_equal. lia.
Qed.

Lemma zlen_file_header_bytes k n : zlen (file_header_bytes k n) = FILE_HEADER_SIZE.
Proof. unfold file_header_bytes. autorewrite with ewf. by destruct k. Qed.

Lemma zlen_segment_bytes num front final :
  good_parts front -> good_name final ->
  zlen (segment_bytes num front final) = FILE_HEADER_SIZE + span front + 76.
Proof.
  intros Hf Hn. unfold segment_bytes.
  rewrite !zlen_app, zlen_file_header_bytes, zlen_chain_bytes, zlen_section_bytes by done.
  change (zlen []) with 0. lia.
Qed.

(** Searching a chain, whatever is kept of a descriptor ([g]) and asked of its type. *)
Lemma find_chain {B} (g : SectionDescriptor -> B) (p : B -> bool) (f : text -> bool) pos l1 n b l2 rest :
  (forall d, p (g d) = f (section_type d)) ->
  Forall (fun q => f q.1 = false) l1 -> f n = true ->
  List.find p (map g (chain pos (l1 ++ (n, b) :: l2) ++ rest))
  = Some (g (descriptor_at n (pos + span l1) b false)).
Proof.
  intros Hp Hl1 Hn. revert pos. induction Hl1 as [|[n' b'] l1 Hn' _ IH]; intros pos.
  - cbn [app chain map List.find]. rewrite Hp. cbn [section_type descriptor_at]. rewrite Hn.
    by rewrite Z.add_0_r.
  - cbn [app chain map List.find]. rewrite Hp. cbn [section_type descriptor_at]. cbn [fst] in Hn'.
    rewrite Hn', IH, span_cons. do 3 f_equal. lia.
Qed.

Lemma find_chain_none {B} (g : SectionDescriptor -> B) (p : B -> bool) (f : text -> bool) pos ps rest :
  (forall d, p (g d) = f (section_type d)) ->
  Forall (fun q => f q.1 = false) ps -> List.find p (map g rest) = None ->
  List.find p (map g (chain pos ps ++ rest)) = None.
Proof.
  intros Hp Hps Hr. revert pos. induction Hps as [|[n' b'] ps Hn' _ IH]; intros pos; [done|].
  cbn [app chain map List.find]. rewrite Hp. cbn [section_type descriptor_at]. cbn [fst] in Hn'.
  by rewrite Hn', IH.
Qed.

(** What a descriptor written at [pos] is read back as. *)
Lemma section_header_read `{SafeReadLaws} l1 n pos b last_ l2 :
  AdlerLaws -> good_name n -> zlen l1 = pos -> pos + 76 + zlen b <= u64_max ->
  let bytes := l1 ++ section_bytes n pos b last_ ++ l2 in
  exists raw, slice bytes pos (pos + 76) = Some raw /\
    SectionDescriptor_parse raw pos = Ok (descriptor_at n pos b last_) /\
    SectionDescriptor_verify_crc (descriptor_at n pos b last_) raw = true /\
    slice bytes (pos + 76) (pos + 76 + zlen b) = Some b.
Proof.
  intros Ha Hn Hpos Hfit bytes. pose proof (zlen_nonneg b). pose proof (zlen_nonneg l1).
  set (nxt := if last_ then pos else pos + (76 + zlen b)).
  assert (0 <= nxt <= u64_max) by (unfold nxt; destruct last_; lia).
  exists (header_bytes n nxt (76 + zlen b)). split; [|split; [|split]].
  - apply (slice_at l1 _ (b ++ l2)); [|done|by rewrite zlen_header_bytes by done].
    unfold bytes, section_bytes. by rewrite <-app_assoc.
  - unfold header_bytes. rewrite <-(app_nil_r (descriptor_bytes _ _ _ _)).
    rewrite descriptor_parse_bytes; [|by apply good_name_valid|done|lia|apply adler32_range].
    by rewrite good_name_lossy by done.
  - unfold SectionDescriptor_verify_crc, header_bytes, descriptor_bytes. cbn [fst snd SectionDescriptor_crc_covers].
    rewrite (slice_at [] (descriptor_prefix (ascii_bytes n) nxt (76 + zlen b))
      (le_bytes 4 (adler32 (descriptor_prefix (ascii_bytes n) nxt (76 + zlen b))))); [|done|done|].
    + apply Z.eqb_eq. done.
    + rewrite zlen_descriptor_prefix; [done|]. apply (good_name_valid n Hn).
  - apply (slice_at (l1 ++ header_bytes n nxt (76 + zlen b)) b l2); [| |lia].
    + unfold bytes, section_bytes. by rewrite <-!app_assoc.
    + rewrite zlen_app, zlen_header_bytes by done. lia.
Qed.
End Chains.

(** * Chunks *)

(** A chunk as it is stored: [ck_raw] holds the [ck_page] of the media. *)
Record stored_chunk := {
  ck_compressed : bool;
  ck_raw : list byte;
  ck_page : list byte;
}.

(** A stored chunk of an image whose chunks have [cs] bytes: a zlib stream no longer
    than a chunk, or a whole page followed by its checksum. *)
Definition chunk_ok `{Adler} `{Zlib} (cs : Z) (c : stored_chunk) : Prop :=
  0 < zlen (ck_page c) <= cs /\
  if ck_compressed c then 0 < zlen (ck_raw c) <= cs /\ inflates (ck_raw c) (ck_page c)
  else zlen (ck_page c) = cs /\ ck_raw c = ck_page c ++ le_bytes 4 (adler32 (ck_page c)).

(** A chunk by its sizes only: its stored bytes may be anything. *)
Definition chunk_shaped (cs : Z) (c : stored_chunk) : Prop :=
  0 < zlen (ck_page c) <= cs /\ 0 < zlen (ck_raw c).

Lemma chunk_ok_shaped `{Adler} `{Zlib} cs c : chunk_ok cs c -> chunk_shaped cs c.
Proof.
  intros [Hp Hk]. split; [done|]. destruct (ck_compressed c); [lia|]. destruct Hk as [Hl ->].
  rewrite zlen_app, zlen_le_bytes. lia.
Qed.

Definition raw_span (cks : list stored_chunk) : Z := zlen (concat (map ck_raw cks)).

Lemma raw_span_cons c cks : raw_span (c :: cks) = zlen (ck_raw c) + raw_span cks.
Proof. unfold raw_span. cbn [map concat]. by rewrite zlen_app. Qed.

Lemma raw_span_nonneg cks : 0 <= raw_span cks.
Proof. apply zlen_nonneg. Qed.

(** The table entries of chunks stored one after the other from [off]. *)
Fixpoint entries_from (off : Z) (cks : list stored_chunk) : list TableEntry :=
  match cks with
  | [] => []
  | c :: cks => {| compressed := ck_compressed c; chunk_offset := off |}
                :: entries_from (off + zlen (ck_raw c)) cks
  end.

(** Where each chunk is: flag, start and end, the first one at [a]. *)
Fixpoint extents_from (a : Z) (cks : list stored_chunk) : list (Z * Z * bool) :=
  match cks with
  | [] => []
  | c :: cks => (a, a + zlen (ck_raw c), ck_compressed c) :: extents_from (a + zlen (ck_raw c)) cks
  end.

(** * Images *)
Section Image.
Context `{Adler} `{Digests}.

Definition table_header_bytes (base count : Z) : list byte :=
  let head := le_bytes 4 count ++ zeros 4 ++ le_bytes 8 base in
  head ++ le_bytes 4 (adler32 head) ++ zeros 4.

Definition table_body (base : Z) (entries : list TableEntry) : list byte :=
  table_header_bytes base (zlen entries) ++ concat (map table_entry_bytes entries).

(** The 1052 bytes of a volume: a fixed disk, without a set identifier. *)
Definition full_volume_body (chunks spc bps sectors : Z) : list byte :=
  let body := le_bytes 4 1 ++ le_bytes 4 chunks ++ le_bytes 4 spc ++ le_bytes 4 bps
              ++ le_bytes 8 sectors ++ zeros 1024 in
  body ++ le_bytes 4 (adler32 body).

(** An acquisition: the geometry, and for each segment its leading sections and its
    chunks. *)
Record acquisition := {
  aq_sectors_per_chunk : Z;
  aq_bytes_per_sector : Z;
  aq_sector_count : Z;
  aq_segments : list (list part * list stored_chunk);
}.

Definition aq_chunk_size (a : acquisition) : Z := aq_sectors_per_chunk a * aq_bytes_per_sector a.
Definition aq_total (a : acquisition) : Z := aq_sector_count a * aq_bytes_per_sector a.
Definition aq_chunks (a : acquisition) : list stored_chunk := concat (map snd (aq_segments a)).

(** The media: the pages of the chunks, as far as the sectors go. *)
Definition aq_media (a : acquisition) : list byte :=
  ztake (aq_total a) (concat (map ck_page (aq_chunks a))).

Definition volume_part (a : acquisition) : part :=
  (str "volume", full_volume_body (zlen (aq_chunks a)) (aq_sectors_per_chunk a)
                   (aq_bytes_per_sector a) (aq_sector_count a)).

Definition digest_part (media : list byte) : part :=
  let body := md5 media ++ sha1 media ++ zeros 40 in
  (str "digest", body ++ le_bytes 4 (adler32 body)).
Definition hash_part (media : list byte) : part :=
  let body := md5 media ++ zeros 16 in (str "hash", body ++ le_bytes 4 (adler32 body)).

(** The sections before the chunks, the chunk sections and the sections after them. *)
Definition front_parts (a : acquisition) (first : bool) (prologue : list part) : list part :=
  prologue ++ if first then [volume_part a] else [].

Definition chunk_parts (base : Z) (cks : list stored_chunk) : list part :=
  let table := table_body base (entries_from 0 cks) in
  [(str "sectors", concat (map ck_raw cks)); (str "table", table); (str "table2", table)].

Definition back_parts (a : acquisition) (last_ : bool) : list part :=
  if last_ then [digest_part (aq_media a); hash_part (aq_media a)] else [].

(** Where the chunks of a segment start. *)
Definition sectors_base (a : acquisition) (first : bool) (prologue : list part) : Z :=
  FILE_HEADER_SIZE + span (front_parts a first prologue) + 76.

Definition segment_parts (a : acquisition) (first last_ : bool) (seg : list part * list stored_chunk)
    : list part :=
  front_parts a first seg.1 ++ chunk_parts (sectors_base a first seg.1) seg.2 ++ back_parts a last_.

Definition final_name (last_ : bool) : text := if last_ then str "done" else str "next".

(** Segment [i] of [n]. *)
Definition write_segment (a : acquisition) (n : Z) (p : Z * (list part * list stored_chunk)) : list byte :=
  let '(i, seg) := p in
  segment_bytes (i + 1) (segment_parts a (i =? 0) (i =? n - 1) seg) (final_name (i =? n - 1)).

Definition write_image (a : acquisition) : list (list byte) :=
  map (write_segment a (zlen (aq_segments a))) (enumerate (aq_segments a)).

(** The types of the sections a tool puts before the chunks, the volume apart. *)
Definition prologue_names : list text := [str "header"; str "header2"; str "session"; str "data"].

Definition prologue_ok (ps : list part) : Prop := Forall (fun p => p.1 ∈ prologue_names) ps.

(** The acquisitions of the theorems: whole chunks except the last, which covers the
    end of the media; offsets of 31 bits, segment numbers of 16, a number of chunks that
    the volume section can count and in each table at most the entries the reader
    accepts.  What is stored for a chunk may be damaged. *)
Record acquisition_shape (a : acquisition) : Prop := {
  aq_geometry : 0 < aq_sectors_per_chunk a /\ 0 < aq_bytes_per_sector a /\
                aq_chunk_size a <= 64 * 1024 * 1024;
  aq_covered : (zlen (aq_chunks a) - 1) * aq_chunk_size a < aq_total a
               <= zlen (concat (map ck_page (aq_chunks a)));
  aq_shaped : Forall (chunk_shaped (aq_chunk_size a)) (aq_chunks a);
  aq_full : Forall (fun c => zlen (ck_page c) = aq_chunk_size a) (removelast (aq_chunks a));
  aq_count : 0 < zlen (aq_chunks a) <= u32_max;
  aq_tables : Forall (fun seg => zlen seg.2 <= 4000000) (aq_segments a);
  aq_numbers : 0 < zlen (aq_segments a) <= u16_max;
  aq_prologues : Forall (fun seg => prologue_ok seg.1) (aq_segments a);
  aq_offsets : Forall (fun seg => raw_span seg.2 < 2147483648) (aq_segments a);
  aq_length : 4000000 * foldr (fun bs n => zlen bs + n) 0 (write_image a) <= u64_max;
}.

(** A faithful one: every stored chunk holds its page. *)
Record acquisition_ok `{Zlib} (a : acquisition) : Prop := {
  ok_shape :> acquisition_shape a;
  aq_chunks_ok : Forall (chunk_ok (aq_chunk_size a)) (aq_chunks a);
}.
End Image.

(** * Reading the layout back *)
Section Layout.
Context `{SafeReadLaws} `{AdlerLaws} `{Digests}.

(** ** Sections of a segment *)

Lemma link_read num front final l1 n b l2 :
  good_parts front -> FILE_HEADER_SIZE + span front + 76 <= u64_max ->
  front = l1 ++ (n, b) :: l2 ->
  let bytes := segment_bytes num front final in
  let pos := FILE_HEADER_SIZE + span l1 in
  exists raw, slice bytes pos (pos + 76) = Some raw /\
    SectionDescriptor_parse raw pos = Ok (descriptor_at n pos b false) /\
    SectionDescriptor_verify_crc (descriptor_at n pos b false) raw = true /\
    slice bytes (pos + 76) (pos + 76 + zlen b) = Some b.
Proof.
  intros Hg Hfit -> bytes pos. apply Forall_app in Hg as Hg'. destruct Hg' as [Hg1 Hg2].
  inversion Hg2 as [|? ? Hn Hg3]; subst. cbn [fst] in Hn.
  rewrite span_app, span_cons in Hfit. pose proof (span_nonneg l2). unfold FILE_HEADER_SIZE in *.
  assert (bytes = (file_header_bytes Physical num ++ chain_bytes 13 l1)
    ++ section_bytes n pos b false ++ (chain_bytes (pos + (76 + zlen b)) l2
    ++ section_bytes final (13 + span (l1 ++ (n, b) :: l2)) [] true)) as ->.
  { unfold bytes, segment_bytes, FILE_HEADER_SIZE. rewrite chain_bytes_app. cbn [chain_bytes].
    by rewrite <-!app_assoc. }
  apply section_header_read; [done|done| |lia].
  by rewrite zlen_app, zlen_file_header_bytes, zlen_chain_bytes by done.
Qed.

Lemma final_read num front final :
  good_parts front -> good_name final -> FILE_HEADER_SIZE + span front + 76 <= u64_max ->
  let bytes := segment_bytes num front final in
  let pos := FILE_HEADER_SIZE + span front in
  exists raw, slice bytes pos (pos + 76) = Some raw /\
    SectionDescriptor_parse raw pos = Ok (descriptor_at final pos [] true) /\
    SectionDescriptor_verify_crc (descriptor_at final pos [] true) raw = true.
Proof.
  intros Hg Hn Hfit bytes pos.
  assert (bytes = (file_header_bytes Physical num ++ chain_bytes FILE_HEADER_SIZE front)
    ++ section_bytes final pos [] true ++ []) as ->.
  { unfold bytes, segment_bytes. by rewrite app_nil_r, <-app_assoc. }
  destruct (section_header_read (file_header_bytes Physical num ++ chain_bytes FILE_HEADER_SIZE front)
    final pos [] true []) as (raw & Hs & Hp & Hv & _).
  - done.
  - done.
  - by rewrite zlen_app, zlen_file_header_bytes, zlen_chain_bytes by done.
  - change (zlen []) with 0. lia.
  - by exists raw.
Qed.

(** ** Names *)

Lemma fixed_names_good : Forall good_name
  ([str "volume"; str "sectors"; str "table"; str "table2"; str "digest"; str "hash"; str "done"; str "next"]
   ++ prologue_names).
Proof. repeat constructor; vm_compute; (reflexivity || discriminate). Qed.

Lemma good_name_of n :
  n ∈ [str "volume"; str "sectors"; str "table"; str "table2"; str "digest"; str "hash"; str "done"; str "next"]
      ++ prologue_names -> good_name n.
Proof. intros Hn. pose proof fixed_names_good as Hf. rewrite Forall_forall in Hf. by apply Hf. Qed.

(** Close [good_name n] for a type of the list. *)
Ltac fixed_name :=
  apply good_name_of, (bool_decide_eq_true_1 _); vm_compute; reflexivity.

Lemma final_name_good l : good_name (final_name l).
Proof. destruct l; fixed_name. Qed.

Lemma prologue_good ps : prologue_ok ps -> good_parts ps.
Proof.
  intros Hp. eapply Forall_impl; [exact Hp|]. cbn beta. intros p Hin.
  apply good_name_of, elem_of_app. by right.
Qed.

(** No section before the chunks has a type that [f] looks for. *)
Lemma front_parts_names (f : text -> bool) a first prologue :
  prologue_ok prologue -> Forall (fun n => f n = false) (str "volume" :: prologue_names) ->
  Forall (fun q => f q.1 = false) (front_parts a first prologue).
Proof.
  intros Hp Hf. apply Forall_cons in Hf as [Hv Hf]. unfold front_parts. apply Forall_app. split.
  - eapply Forall_impl; [exact Hp|]. cbn beta. intros q Hq. rewrite Forall_forall in Hf. by apply Hf.
  - by destruct first; repeat constructor.
Qed.

Lemma segment_parts_good a first last_ seg :
  prologue_ok seg.1 -> good_parts (segment_parts a first last_ seg).
Proof.
  intros Hp. unfold segment_parts, front_parts, back_parts, chunk_parts. repeat (apply Forall_app; split).
  - by apply prologue_good.
  - destruct first; [|done]. constructor; [fixed_name|done].
  - repeat constructor; fixed_name.
  - destruct last_; [|done]. repeat constructor; fixed_name.
Qed.

(** The three sections of the chunks, found by their types. *)
Section Find.
Context {B : Type} (g : SectionDescriptor -> B) (p : B -> bool).
Variables (a : acquisition) (first last_ : bool) (seg : list part * list stored_chunk) (n : text).
Hypothesis asks : forall d, p (g d) = text_eqb (section_type d) n.
Hypothesis prologue : prologue_ok seg.1.

Let base := sectors_base a first seg.1.
Let found := List.find p (map g (segment_chain (segment_parts a first last_ seg) (final_name last_))).

Lemma find_chunk_part l1 b l2 :
  n ∉ str "volume" :: prologue_names -> Forall (fun q => q.1 <> n) l1 ->
  chunk_parts base seg.2 = l1 ++ (n, b) :: l2 ->
  found = Some (g (descriptor_at n (base - 76 + span l1) b false)).
Proof.
  intros Hn Hl1 Heq. unfold found, segment_chain, segment_parts. fold base. rewrite Heq.
  rewrite <-app_assoc, app_assoc, <-app_comm_cons.
  rewrite (find_chain g p (fun m => text_eqb m n) _ _ n b _ _ asks).
  - do 3 f_equal. rewrite span_app. unfold base, sectors_base. lia.
  - apply Forall_app. split.
    + apply (front_parts_names (fun m => text_eqb m n)); [done|]. apply Forall_forall. intros m Hm.
      apply not_true_iff_false. intros ->%text_eqb_true. by apply Hn.
    + eapply Forall_impl; [exact Hl1|]. cbn beta. intros q Hq.
      apply not_true_iff_false. by intros ?%text_eqb_true.
  - apply text_eqb_refl.
Qed.
End Find.

(** The chunks of a segment are at their place. *)
Lemma sectors_body_at num a first last_ seg :
  prologue_ok seg.1 -> FILE_HEADER_SIZE + span (segment_parts a first last_ seg) + 76 <= u64_max ->
  let base := sectors_base a first seg.1 in
  slice (segment_bytes num (segment_parts a first last_ seg) (final_name last_)) base (base + raw_span seg.2)
  = Some (concat (map ck_raw seg.2)).
Proof.
  intros Hp Hfit base.
  destruct (link_read num (segment_parts a first last_ seg) (final_name last_)
    (front_parts a first seg.1) (str "sectors") (concat (map ck_raw seg.2))
    (tail (chunk_parts base seg.2) ++ back_parts a last_)) as (_ & _ & _ & _ & Hb).
  - by apply segment_parts_good.
  - done.
  - done.
  - exact Hb.
Qed.

Lemma raw_span_app cks1 cks2 : raw_span (cks1 ++ cks2) = raw_span cks1 + raw_span cks2.
Proof. unfold raw_span. by rewrite map_app, concat_app, zlen_app. Qed.

Lemma chunk_at num a first last_ seg cks1 c cks2 :
  prologue_ok seg.1 -> FILE_HEADER_SIZE + span (segment_parts a first last_ seg) + 76 <= u64_max ->
  seg.2 = cks1 ++ c :: cks2 ->
  let at_ := sectors_base a first seg.1 + raw_span cks1 in
  slice (segment_bytes num (segment_parts a first last_ seg) (final_name last_)) at_ (at_ + zlen (ck_raw c))
  = Some (ck_raw c).
Proof.
  intros Hp Hfit Hs at_. pose proof (sectors_body_at num a first last_ seg Hp Hfit) as Hb. cbv zeta in Hb.
  set (base := sectors_base a first seg.1) in *. rewrite Hs in Hb.
  pose proof (zlen_nonneg (concat (map ck_raw cks1))). pose proof (zlen_nonneg (ck_raw c)).
  pose proof (zlen_nonneg (concat (map ck_raw cks2))).
  replace (at_ + zlen (ck_raw c)) with (base + (raw_span cks1 + zlen (ck_raw c))) by (unfold at_; lia).
  unfold at_. rewrite raw_span_app, raw_span_cons in Hb. unfold raw_span in *.
  rewrite <-(slice_slice _ _ _ _ _ _ Hb) by lia.
  apply (slice_at (concat (map ck_raw cks1)) _ (concat (map ck_raw cks2))); [|done|done].
  by rewrite map_app, concat_app.
Qed.

(** ** Bodies *)

Lemma zlen_table_header base count : zlen (table_header_bytes base count) = TABLE_HEADER_SIZE.
Proof. unfold table_header_bytes. autorewrite with ewf. done. Qed.

(** The fields of a table header that was written, whatever follows it. *)
Lemma table_header_read base count rest :
  0 <= base <= u64_max -> 0 <= count <= u32_max ->
  let buf := table_header_bytes base count ++ rest in
  le_u32 buf 0 = count /\ le_u64 buf 8 = base /\
  exists crc, TableHeader_parse buf = Ok {| entry_count := count; base_offset := base; tbl_stored_crc := crc |} /\
    TableHeader_verify_crc {| entry_count := count; base_offset := base; tbl_stored_crc := crc |} buf
    <> Some false.
Proof.
  intros Hb Hc buf. set (head := le_bytes 4 count ++ zeros 4 ++ le_bytes 8 base).
  assert (zlen head = 16) as Hh by (unfold head; by autorewrite with ewf).
  assert (buf = head ++ le_bytes 4 (adler32 head) ++ zeros 4 ++ rest) as Hbuf
    by (unfold buf, table_header_bytes; fold head; by rewrite <-!app_assoc).
  assert (le_u32 buf 0 = count) as H0'.
  { apply (le_u32_field _ [] (zeros 4 ++ le_bytes 8 base ++ le_bytes 4 (adler32 head) ++ zeros 4 ++ rest));
      [|done|done]. rewrite Hbuf. unfold head. by rewrite <-!app_assoc. }
  assert (le_u64 buf 8 = base) as H8.
  { apply (le_u64_field _ (le_bytes 4 count ++ zeros 4) (le_bytes 4 (adler32 head) ++ zeros 4 ++ rest));
      [|by autorewrite with ewf|done]. rewrite Hbuf. unfold head. by rewrite <-!app_assoc. }
  split; [done|]. split; [done|]. exists (adler32 head).
  assert (zlen buf = 24 + zlen rest) as Hl.
  { unfold buf. rewrite zlen_app, zlen_table_header. done. }
  pose proof (zlen_nonneg rest). unfold TableHeader_parse, TABLE_HEADER_CRC_OFFSET.
  rewrite (proj2 (Z.ltb_ge _ _)) by lia. rewrite H0', H8.
  rewrite (le_u32_field buf head (zeros 4 ++ rest) 16 (adler32 head)); [|done|by rewrite Hh|apply adler32_range].
  split; [done|]. unfold TableHeader_verify_crc. cbn [tbl_stored_crc]. destruct (_ =? 0); [done|].
  cbn [TableHeader_crc_covers fst snd TABLE_HEADER_CRC_OFFSET].
  rewrite (slice_at [] head (le_bytes 4 (adler32 head) ++ zeros 4 ++ rest)) by done.
  by rewrite Z.eqb_refl.
Qed.

(** The fields of a volume that was written, in its body or in a long enough part. *)
Lemma full_volume_read chunks spc bps sectors n :
  0 <= chunks <= u32_max -> 0 <= spc <= u32_max -> 0 <= bps <= u32_max -> 0 <= sectors <= u64_max ->
  94 <= n <= 1052 ->
  let buf := ztake n (full_volume_body chunks spc bps sectors) in
  exists v, EwfVolume_parse buf = Ok v /\ chunk_count v = chunks /\ sectors_per_chunk v = spc /\
    bytes_per_sector v = bps /\ sector_count v = sectors /\ media_type v = 1 /\
    set_identifier v = zeros 16 /\ EwfVolume_verify_crc v buf <> Some false.
Proof.
  intros Hc Hs Hb Hn Hlen. unfold full_volume_body.
  set (fields := le_bytes 4 chunks ++ le_bytes 4 spc ++ le_bytes 4 bps ++ le_bytes 8 sectors).
  set (body := le_bytes 4 1 ++ _). set (crc := adler32 body). set (buf := ztake n _). cbv zeta.
  assert (zlen body = 1048) as Hbody by (unfold body; by autorewrite with ewf).
  assert (zlen buf = n) as Hbuf.
  { unfold buf. rewrite zlen_ztake, zlen_app, Hbody, zlen_le_bytes. lia. }
  assert (exists t, buf = le_bytes 4 1 ++ fields ++ zeros 70 ++ t) as [t Ht].
  { assert (body ++ le_bytes 4 crc = (le_bytes 4 1 ++ fields ++ zeros 70) ++ zeros 954 ++ le_bytes 4 crc) as Heq.
    { unfold body, fields. replace (zeros 1024) with (zeros 70 ++ zeros 954) by done. by rewrite <-!app_assoc. }
    unfold buf. rewrite Heq, ztake_app_ge; [|unfold fields; autorewrite with ewf; lia].
    eexists. by rewrite <-!app_assoc. }
  unfold EwfVolume_parse. rewrite (proj2 (Z.ltb_ge _ _)) by lia.
  unfold index. rewrite (get_at [] (byte_of_Z 1) (le_bytes 3 0 ++ fields ++ zeros 70 ++ t)); [|by rewrite Ht|done].
  cbn [or_panic mbind outcome_bind]. eexists. split; [reflexivity|]. cbn.
  split_and!.
  - apply (le_u32_field _ (le_bytes 4 1) (le_bytes 4 spc ++ le_bytes 4 bps ++ le_bytes 8 sectors ++ zeros 70 ++ t));
      [by rewrite Ht; unfold fields; rewrite <-!app_assoc|done|done].
  - apply (le_u32_field _ (le_bytes 4 1 ++ le_bytes 4 chunks) (le_bytes 4 bps ++ le_bytes 8 sectors ++ zeros 70 ++ t));
      [by rewrite Ht; unfold fields; rewrite <-!app_assoc|done|done].
  - apply (le_u32_field _ (le_bytes 4 1 ++ le_bytes 4 chunks ++ le_bytes 4 spc) (le_bytes 8 sectors ++ zeros 70 ++ t));
      [by rewrite Ht; unfold fields; rewrite <-!app_assoc|done|done].
  - apply (le_u64_field _ (le_bytes 4 1 ++ le_bytes 4 chunks ++ le_bytes 4 spc ++ le_bytes 4 bps) (zeros 70 ++ t));
      [by rewrite Ht; unfold fields; rewrite <-!app_assoc|done|done].
  - done.
  - rewrite (slice_at (le_bytes 4 1 ++ fields ++ zeros 40) (zeros 16) (zeros 14 ++ t)); [done| |done|done].
    rewrite Ht. replace (zeros 70) with (zeros 40 ++ zeros 16 ++ zeros 14) by done. by rewrite <-!app_assoc.
  - unfold EwfVolume_verify_crc. cbn [vol_stored_crc]. unfold VOLUME_BODY_FULL_SIZE. rewrite Hbuf.
    destruct (1052 <=? n) eqn:E; [|done]. bool_hyps. cbn [mbind option_bind].
    assert (buf = body ++ le_bytes 4 crc) as Hfull.
    { unfold buf. apply ztake_all. rewrite zlen_app, Hbody, zlen_le_bytes. lia. }
    rewrite Hfull. cbn [EwfVolume_crc_covers fst snd VOLUME_BODY_CRC_OFFSET].
    rewrite (slice_at [] body (le_bytes 4 crc)) by done.
    rewrite (le_u32_field _ body [] _ crc); [|by rewrite app_nil_r|done|apply adler32_range].
    by rewrite Z.eqb_refl.
Qed.

Lemma zlen_full_volume chunks spc bps sectors : zlen (full_volume_body chunks spc bps sectors) = 1052.
Proof. unfold full_volume_body. by autorewrite with ewf. Qed.

(** ** Table entries *)

Lemma zlen_table_entries es : zlen (concat (map table_entry_bytes es)) = 4 * zlen es.
Proof.
  induction es as [|e es IH]; [done|]. cbn [map concat]. rewrite zlen_app, zlen_cons, IH.
  unfold table_entry_bytes. rewrite zlen_le_bytes. lia.
Qed.

Lemma table_entry_at es1 e es2 :
  slice (concat (map table_entry_bytes (es1 ++ e :: es2))) (zlen es1 * 4) (zlen es1 * 4 + 4)
  = Some (table_entry_bytes e).
Proof.
  eapply (slice_at (concat (map table_entry_bytes es1)) _ (concat (map table_entry_bytes es2))).
  - by rewrite map_app, concat_app, map_cons.
  - rewrite zlen_table_entries. lia.
  - unfold table_entry_bytes. by rewrite zlen_le_bytes.
Qed.
End Layout.

Lemma zlen_entries_from off cks : zlen (entries_from off cks) = zlen cks.
Proof. revert off. induction cks as [|c cks IH]; intros off; [done|]. cbn. by rewrite !zlen_cons, IH. Qed.

Lemma entries_from_app off cks1 cks2 :
  entries_from off (cks1 ++ cks2) = entries_from off cks1 ++ entries_from (off + raw_span cks1) cks2.
Proof.
  revert off. induction cks1 as [|c cks IH]; intros off.
  - cbn. change (raw_span []) with 0. by rewrite Z.add_0_r.
  - cbn [app entries_from]. rewrite IH, raw_span_cons. do 3 f_equal. lia.
Qed.

(** The entry of a chunk reads back as its flag and its place among the chunks. *)
Lemma chunk_entry_read `{SafeReadLaws} cks1 c cks2 :
  raw_span (cks1 ++ c :: cks2) < 2147483648 -> 0 < zlen (ck_raw c) ->
  let buf := concat (map table_entry_bytes (entries_from 0 (cks1 ++ c :: cks2))) in
  exists bytes, slice buf (zlen cks1 * 4) (zlen cks1 * 4 + 4) = Some bytes /\
    TableEntry_parse bytes = Ok {| compressed := ck_compressed c; chunk_offset := raw_span cks1 |}.
Proof.
  intros Hs Hc buf.
  assert (raw_span (cks1 ++ c :: cks2) = raw_span cks1 + zlen (ck_raw c) + raw_span cks2) as Hsum.
  { unfold raw_span. rewrite map_app, concat_app, zlen_app. cbn [map concat]. rewrite zlen_app. lia. }
  pose proof (raw_span_nonneg cks1). pose proof (raw_span_nonneg cks2).
  exists (table_entry_bytes {| compressed := ck_compressed c; chunk_offset := raw_span cks1 |}). split.
  - unfold buf. rewrite entries_from_app. cbn [entries_from]. rewrite Z.add_0_l.
    rewrite <-(zlen_entries_from 0 cks1). apply table_entry_at.
  - rewrite <-(app_nil_r (table_entry_bytes _)). apply table_entry_roundtrip. cbn. lia.
Qed.

(** * Tables in place *)
Section Tables.
Context `{SafeReadLaws} `{AdlerLaws} `{Digests}.

(** [data] has the table of the chunks [cks], the first of them at [base], at [at_]. *)
Definition holds_table (data : list byte) (at_ base : Z) (cks : list stored_chunk) : Prop :=
  slice data at_ (at_ + (24 + 4 * zlen cks)) = Some (table_body base (entries_from 0 cks)).

Lemma zlen_table_body base cks : zlen (table_body base (entries_from 0 cks)) = 24 + 4 * zlen cks.
Proof.
  unfold table_body. by rewrite zlen_app, zlen_table_header, zlen_table_entries, zlen_entries_from.
Qed.

Lemma table_header_in data at_ base cks :
  holds_table data at_ base cks ->
  slice data at_ (at_ + 24) = Some (table_header_bytes base (zlen cks)).
Proof.
  unfold holds_table, table_body. rewrite zlen_entries_from. intros Ht. pose proof (zlen_nonneg cks).
  pose proof (slice_slice _ _ _ 0 24 _ Ht ltac:(lia) ltac:(lia)) as Hs. rewrite Z.add_0_r in Hs.
  rewrite <-Hs. apply (slice_at [] _ (concat (map table_entry_bytes (entries_from 0 cks)))); [done|done|].
  by rewrite zlen_table_header.
Qed.

Lemma table_suffix data at_ base cks :
  holds_table data at_ base cks ->
  exists rest, slice data at_ (zlen data) = Some (table_header_bytes base (zlen cks) ++ rest).
Proof.
  intros Ht. pose proof (table_header_in _ _ _ _ Ht) as Hh.
  apply slice_bounds in Ht as [_ Hhi]. pose proof (slice_bounds _ _ _ _ Hh) as [Hlo _].
  pose proof (zlen_nonneg cks). exists (zdrop 24 (zdrop at_ data)).
  rewrite slice_some by lia. f_equal. rewrite ztake_all by (rewrite zlen_zdrop; lia).
  rewrite <-(ztake_zdrop 24 (zdrop at_ data)) at 1. f_equal.
  apply slice_spec in Hh as (_ & _ & ->). f_equal. lia.
Qed.

Lemma table_entry_in data at_ base cks cks1 c cks2 :
  holds_table data at_ base cks -> cks = cks1 ++ c :: cks2 ->
  raw_span cks < 2147483648 -> 0 < zlen (ck_raw c) ->
  exists bytes, slice data (at_ + 24 + zlen cks1 * 4) (at_ + 24 + zlen cks1 * 4 + 4) = Some bytes /\
    TableEntry_parse bytes = Ok {| compressed := ck_compressed c; chunk_offset := raw_span cks1 |}.
Proof.
  intros Ht -> Hs Hc. destruct (chunk_entry_read cks1 c cks2 Hs Hc) as (bytes & Hsl & Hp).
  exists bytes. split; [|done]. unfold holds_table, table_body in Ht. pose proof (zlen_nonneg cks1).
  pose proof (zlen_nonneg cks2). rewrite zlen_app, zlen_cons in Ht.
  set (entries := concat _) in *.
  replace (at_ + 24 + zlen cks1 * 4 + 4) with (at_ + (24 + zlen cks1 * 4 + 4)) by lia.
  replace (at_ + 24 + zlen cks1 * 4) with (at_ + (24 + zlen cks1 * 4)) by lia.
  rewrite <-(slice_slice _ _ _ (24 + zlen cks1 * 4) (24 + zlen cks1 * 4 + 4) _ Ht) by lia.
  apply slice_spec in Hsl as (Hlo & Hhi & Hsl).
  apply slice_spec. rewrite zlen_app, zlen_table_header. unfold TABLE_HEADER_SIZE. split; [lia|]. split; [lia|].
  rewrite zdrop_app_ge by (rewrite zlen_table_header; unfold TABLE_HEADER_SIZE; lia).
  rewrite zlen_table_header, Hsl. unfold TABLE_HEADER_SIZE. f_equal; [lia|f_equal; lia].
Qed.

(** Where the two tables of a segment are. *)
Definition table_at (a : acquisition) (first : bool) (seg : list part * list stored_chunk) : Z :=
  sectors_base a first seg.1 + raw_span seg.2.
Definition table2_at (a : acquisition) (first : bool) (seg : list part * list stored_chunk) : Z :=
  table_at a first seg + 76 + (24 + 4 * zlen seg.2).

Lemma tables_written num a first last_ seg :
  prologue_ok seg.1 -> FILE_HEADER_SIZE + span (segment_parts a first last_ seg) + 76 <= u64_max ->
  let data := segment_bytes num (segment_parts a first last_ seg) (final_name last_) in
  let base := sectors_base a first seg.1 in
  holds_table data (table_at a first seg + 76) base seg.2 /\
  holds_table data (table2_at a first seg + 76) base seg.2.
Proof.
  intros Hp Hfit data base. pose proof (segment_parts_good a first last_ seg Hp) as Hg.
  set (table := table_body base (entries_from 0 seg.2)).
  assert (span (front_parts a first seg.1 ++ [(str "sectors", concat (map ck_raw seg.2))])
          = table_at a first seg - FILE_HEADER_SIZE) as Hs1.
  { rewrite span_app, span_cons. change (span []) with 0.
    unfold table_at, sectors_base, raw_span. lia. }
  assert (zlen table = 24 + 4 * zlen seg.2) as Ht by apply zlen_table_body.
  split.
  - destruct (link_read num _ (final_name last_)
      (front_parts a first seg.1 ++ [(str "sectors", concat (map ck_raw seg.2))])
      (str "table") table ((str "table2", table) :: back_parts a last_) Hg Hfit) as (_ & _ & _ & _ & Hb).
    { unfold segment_parts, chunk_parts. fold base table. by rewrite <-!app_assoc. }
    rewrite Hs1, Ht in Hb. unfold holds_table. fold table data in Hb |- *. rewrite <-Hb. f_equal; lia.
  - destruct (link_read num _ (final_name last_)
      ((front_parts a first seg.1 ++ [(str "sectors", concat (map ck_raw seg.2))]) ++ [(str "table", table)])
      (str "table2") table (back_parts a last_) Hg Hfit) as (_ & _ & _ & _ & Hb).
    { unfold segment_parts, chunk_parts. fold base table. by rewrite <-!app_assoc. }
    rewrite span_app, Hs1, span_cons, Ht in Hb. change (span []) with 0 in Hb.
    unfold holds_table, table2_at. fold table data in Hb |- *. rewrite <-Hb. f_equal; lia.
Qed.
End Tables.

(** * What a well-formed acquisition implies *)
Section Acquisition.
Context `{Adler} `{Digests}.
Variable a : acquisition.

Lemma zlen_pages_le cks :
  Forall (chunk_shaped (aq_chunk_size a)) cks -> zlen (concat (map ck_page cks)) <= zlen cks * aq_chunk_size a.
Proof.
  induction 1 as [|c cks Hc _ IH]; [done|]. cbn [map concat]. rewrite zlen_app, zlen_cons.
  destruct Hc as [Hc _]. lia.
Qed.

Hypothesis a_ok : acquisition_shape a.

Lemma aq_bounds :
  0 < aq_sector_count a /\ aq_total a <= u64_max /\ 0 < aq_total a /\
  aq_sectors_per_chunk a <= u32_max /\ aq_bytes_per_sector a <= u32_max /\ 0 < aq_chunk_size a.
Proof.
  destruct a_ok as [(Hs & Hb & Hcs) Hcov Hch _ Hn _ _ _ _ _]. pose proof (zlen_pages_le _ Hch) as Hp.
  unfold aq_chunk_size, aq_total in *. split_and!; nia.
Qed.

(** The chunks of a segment are among those of the image. *)
Lemma segment_chunks (P : stored_chunk -> Prop) seg :
  seg ∈ aq_segments a -> Forall P (aq_chunks a) -> Forall P seg.2.
Proof.
  intros Hin Hall. apply list_elem_of_split in Hin as (l1 & l2 & Hs). unfold aq_chunks in Hall.
  rewrite Hs, map_app, concat_app in Hall. cbn [map concat] in Hall. rewrite !Forall_app in Hall. tauto.
Qed.

(** What the whole image promises of one segment. *)
Lemma segment_in seg :
  seg ∈ aq_segments a ->
  prologue_ok seg.1 /\ Forall (chunk_shaped (aq_chunk_size a)) seg.2 /\ raw_span seg.2 < 2147483648 /\
  zlen seg.2 <= 4000000.
Proof.
  intros Hin. destruct a_ok as [_ _ Hch _ _ Ht _ Hp Ho _].
  rewrite Forall_forall in Hp, Ho, Ht.
  split_and!; [by apply Hp|by apply segment_chunks|by apply Ho|by apply Ht].
Qed.

(** Where the chunks of a segment lie in it. *)
Lemma sectors_base_bounds first last_ seg :
  89 <= sectors_base a first seg.1 /\
  sectors_base a first seg.1 + raw_span seg.2 <= FILE_HEADER_SIZE + span (segment_parts a first last_ seg).
Proof.
  unfold segment_parts, chunk_parts, FILE_HEADER_SIZE. rewrite !span_app, !span_cons.
  pose proof (span_nonneg (front_parts a first seg.1)). pose proof (span_nonneg (back_parts a last_)).
  pose proof (zlen_nonneg (table_body (sectors_base a first seg.1) (entries_from 0 seg.2))).
  change (span []) with 0. unfold raw_span, sectors_base, FILE_HEADER_SIZE in *. lia.
Qed.

(** Every segment fits in memory, as the whole image does. *)
Lemma written_segment_fits i seg :
  (i, seg) ∈ enumerate (aq_segments a) ->
  zlen (write_segment a (zlen (aq_segments a)) (i, seg)) <= i64_max.
Proof.
  intros Hin. pose proof (aq_length a a_ok) as Hl. unfold write_image in Hl.
  set (w := write_segment a _) in *. revert Hin Hl. generalize (enumerate (aq_segments a)) as l.
  induction l as [|p l IH]; intros Hin Hl; [by apply elem_of_nil in Hin|]. cbn [map foldr] in Hl.
  pose proof (zlen_nonneg (w p)). pose proof (zlen_nonneg (w (i, seg))).
  assert (0 <= foldr (fun bs n => zlen bs + n) 0 (map w l)).
  { clear. induction l as [|q l IH]; [done|]. cbn. pose proof (zlen_nonneg (w q)). lia. }
  apply elem_of_cons in Hin as [<-|Hin]; [lia|]. apply IH; [done|lia].
Qed.

Lemma parts_fit i seg :
  (i, seg) ∈ enumerate (aq_segments a) ->
  FILE_HEADER_SIZE + span (segment_parts a (i =? 0) (i =? zlen (aq_segments a) - 1) seg) + 76 <= i64_max.
Proof.
  intros Hin. pose proof (written_segment_fits i seg Hin) as Hf. unfold write_segment in Hf.
  rewrite zlen_segment_bytes in Hf; [done| |apply final_name_good].
  apply segment_parts_good, segment_in. unfold enumerate in Hin.
  apply list_elem_of_lookup in Hin as [k Hk]. rewrite enumerate_from_lookup in Hk.
  destruct (aq_segments a !! k) as [s|] eqn:E; [|done]. cbn in Hk. injection Hk as _ <-.
  by eapply list_elem_of_lookup_2.
Qed.

(** ** Names *)

(** The types of the sections of a segment, the final one apart. *)
Lemma parts_names (f : text -> bool) first last_ seg :
  prologue_ok seg.1 ->
  Forall (fun n => f n = false)
    ([str "volume"; str "sectors"; str "table"; str "table2"; str "digest"; str "hash"] ++ prologue_names) ->
  Forall (fun q => f q.1 = false) (segment_parts a first last_ seg).
Proof.
  intros Hp Hf. rewrite Forall_forall in Hf. unfold segment_parts, chunk_parts, back_parts.
  apply Forall_app; split; [|apply Forall_app; split].
  - apply front_parts_names; [done|]. apply Forall_forall. intros n Hn. apply Hf.
    apply elem_of_cons in Hn as [->|Hn]; [apply elem_of_app; left; by left|apply elem_of_app; by right].
  - repeat constructor; apply Hf, (bool_decide_eq_true_1 _); vm_compute; reflexivity.
  - destruct last_; repeat constructor; apply Hf, (bool_decide_eq_true_1 _); vm_compute; reflexivity.
Qed.

(** The volume is found in the first segment and in no other. *)
Lemma find_volume_part {B} (g : SectionDescriptor -> B) (p : B -> bool) first last_ seg :
  (forall d, p (g d) = text_eqb (section_type d) (str "volume") || text_eqb (section_type d) (str "disk")) ->
  prologue_ok seg.1 ->
  List.find p (map g (segment_chain (segment_parts a first last_ seg) (final_name last_)))
  = if first then Some (g (descriptor_at (str "volume") (FILE_HEADER_SIZE + span seg.1) (volume_part a).2 false))
    else None.
Proof.
  intros Hg Hp. set (f := fun n => text_eqb n (str "volume") || text_eqb n (str "disk")).
  assert (Forall (fun q => f q.1 = false) seg.1) as Hpro.
  { eapply Forall_impl; [exact Hp|]. cbn beta. intros q Hq.
    assert (Forall (fun n => f n = false) prologue_names) as Hf by repeat constructor.
    rewrite Forall_forall in Hf. by apply Hf. }
  unfold segment_chain, segment_parts, front_parts. destruct first.
  - rewrite <-!app_assoc. cbn [app]. unfold volume_part.
    by rewrite (find_chain g p f).
  - rewrite app_nil_r. apply (find_chain_none g p f); [done| |].
    + apply Forall_app; split; [done|]. unfold chunk_parts, back_parts.
      apply Forall_app; split; [by repeat constructor|by destruct last_; repeat constructor].
    + cbn. rewrite Hg. by destruct last_.
Qed.

(** The sections of the chunks, wherever they are looked for by their types. *)
Section FindChunks.
Context {B : Type} (g : SectionDescriptor -> B) (p : B -> bool).
Variables (first last_ : bool) (seg : list part * list stored_chunk).
Hypothesis prologue : prologue_ok seg.1.

Let base := sectors_base a first seg.1.
Let table := table_body base (entries_from 0 seg.2).
Let found := List.find p (map g (segment_chain (segment_parts a first last_ seg) (final_name last_))).

Lemma find_sectors_part :
  (forall d, p (g d) = text_eqb (section_type d) (str "sectors")) ->
  found = Some (g (descriptor_at (str "sectors") (base - 76) (concat (map ck_raw seg.2)) false)).
Proof.
  intros Hask. unfold found.
  rewrite (find_chunk_part g p a first last_ seg (str "sectors") Hask prologue []
    (concat (map ck_raw seg.2)) (tail (chunk_parts base seg.2))).
  - cbn [span foldr]. by rewrite Z.add_0_r.
  - apply (bool_decide_eq_true_1 _). vm_compute. reflexivity.
  - constructor.
  - done.
Qed.

Lemma find_table_part :
  (forall d, p (g d) = text_eqb (section_type d) (str "table")) ->
  found = Some (g (descriptor_at (str "table") (table_at a first seg) table false)).
Proof.
  intros Hask. unfold found.
  rewrite (find_chunk_part g p a first last_ seg (str "table") Hask prologue
    [(str "sectors", concat (map ck_raw seg.2))] table (tail (tail (chunk_parts base seg.2)))).
  - rewrite span_cons. change (span []) with 0. do 3 f_equal. unfold table_at, raw_span. fold base. lia.
  - apply (bool_decide_eq_true_1 _). vm_compute. reflexivity.
  - by repeat constructor.
  - done.
Qed.

Lemma find_table2_part :
  (forall d, p (g d) = text_eqb (section_type d) (str "table2")) ->
  found = Some (g (descriptor_at (str "table2") (table2_at a first seg) table false)).
Proof.
  intros Hask. unfold found.
  rewrite (find_chunk_part g p a first last_ seg (str "table2") Hask prologue
    [(str "sectors", concat (map ck_raw seg.2)); (str "table", table)] table []).
  - rewrite !span_cons. unfold table at 1. rewrite zlen_table_body. change (span []) with 0.
    do 3 f_equal. unfold table2_at, table_at, raw_span. fold base. lia.
  - apply (bool_decide_eq_true_1 _). vm_compute. reflexivity.
  - by repeat constructor.
  - done.
Qed.
End FindChunks.

(** ** Pages *)

(** The media in the chunks [cks], the first of the image. *)
Definition after_chunks (cks : list stored_chunk) : list byte :=
  ztake (aq_total a) (concat (map ck_page cks)).

Lemma full_pages cks1 c cks2 :
  aq_chunks a = cks1 ++ c :: cks2 -> Forall (fun c => zlen (ck_page c) = aq_chunk_size a) cks1.
Proof.
  intros Heq. pose proof (aq_full a a_ok) as Hf. rewrite Heq in Hf.
  rewrite removelast_app in Hf by done. by apply Forall_app in Hf as [Hf _].
Qed.

Lemma zlen_full_pages cks :
  Forall (fun c => zlen (ck_page c) = aq_chunk_size a) cks ->
  zlen (concat (map ck_page cks)) = zlen cks * aq_chunk_size a.
Proof.
  induction 1 as [|c cks Hc _ IH]; [done|]. cbn [map concat]. rewrite zlen_app, zlen_cons, IH, Hc. lia.
Qed.

(** One more chunk: what is left before it, and its part of the media. *)
Lemma chunk_step done_ c rest :
  aq_chunks a = done_ ++ c :: rest ->
  let left_ := aq_total a - zlen (after_chunks done_) in
  let take_ := Z.min left_ (aq_chunk_size a) in
  0 < left_ /\ take_ <= zlen (ck_page c) /\
  after_chunks (done_ ++ [c]) = after_chunks done_ ++ ztake take_ (ck_page c) /\
  aq_total a - zlen (after_chunks (done_ ++ [c])) = left_ - take_.
Proof.
  intros Heq left_ take_. pose proof (full_pages _ _ _ Heq) as Hf. apply zlen_full_pages in Hf.
  pose proof aq_bounds as (_ & _ & Hpos & _ & _ & Hcs).
  pose proof (aq_covered a a_ok) as [Hlo Hhi]. pose proof (aq_shaped a a_ok) as Hok.
  rewrite Heq in Hlo, Hhi. rewrite zlen_app, zlen_cons in Hlo. pose proof (zlen_nonneg rest) as Hr.
  pose proof (zlen_nonneg done_) as Hd.
  assert (zlen done_ * aq_chunk_size a < aq_total a) as Hlt by nia.
  assert (after_chunks done_ = concat (map ck_page done_)) as Hdone by (unfold after_chunks; apply ztake_all; lia).
  assert (left_ = aq_total a - zlen done_ * aq_chunk_size a) as Hleft by (unfold left_; by rewrite Hdone, Hf).
  assert (take_ <= zlen (ck_page c)) as Htake.
  { destruct rest as [|c2 rest].
    - rewrite map_app, concat_app, zlen_app, Hf in Hhi. cbn [map concat] in Hhi. rewrite app_nil_r in Hhi.
      unfold take_. lia.
    - rewrite (zlen_cons c2) in Hlo. pose proof (zlen_nonneg rest).
      assert (aq_chunks a = (done_ ++ [c]) ++ c2 :: rest) as Heq2 by (by rewrite <-app_assoc).
      pose proof (full_pages _ _ _ Heq2) as Hf2. apply Forall_app in Hf2 as [_ Hf2].
      apply Forall_cons in Hf2 as [Hc _]. unfold take_. lia. }
  assert (after_chunks (done_ ++ [c]) = after_chunks done_ ++ ztake take_ (ck_page c)) as Happ.
  { unfold after_chunks at 1. rewrite map_app, concat_app. cbn [map concat]. rewrite app_nil_r.
    rewrite ztake_app_ge by lia. rewrite <-Hdone. f_equal. rewrite Hdone, Hf, <-Hleft. unfold take_.
    destruct (decide (left_ <= aq_chunk_size a)) as [Hle|Hgt]; [f_equal; lia|].
    rewrite !ztake_all; [done| |]; rewrite Heq in Hok; apply Forall_app in Hok as [_ Hok];
      apply Forall_cons in Hok as [[Hp _] _]; lia. }
  split; [lia|]. split; [done|]. split; [done|].
  rewrite Happ, zlen_app, zlen_ztake. unfold left_. lia.
Qed.


Lemma zlen_after_chunks done_ c rest :
  aq_chunks a = done_ ++ c :: rest -> zlen (after_chunks done_) = zlen done_ * aq_chunk_size a.
Proof.
  intros Heq. pose proof (full_pages _ _ _ Heq) as Hf. apply zlen_full_pages in Hf.
  pose proof (aq_covered a a_ok) as [Hlo _]. rewrite Heq, zlen_app, zlen_cons in Hlo.
  pose proof (zlen_nonneg rest). pose proof (zlen_nonneg done_). pose proof aq_bounds as (_ & _ & _ & _ & _ & Hcs).
  unfold after_chunks. rewrite zlen_ztake, Hf. nia.
Qed.

(** The media between two chunk boundaries is the page there. *)
Lemma media_at done_ c rest :
  aq_chunks a = done_ ++ c :: rest ->
  let cs := aq_chunk_size a in
  slice (aq_media a) (zlen done_ * cs) (Z.min (aq_total a) ((zlen done_ + 1) * cs))
  = Some (ztake (Z.min (aq_total a - zlen done_ * cs) cs) (ck_page c)).
Proof.
  intros Heq cs. destruct (chunk_step _ _ _ Heq) as (Hleft & Htake & Hafter & _).
  pose proof (zlen_after_chunks _ _ _ Heq) as Hlen. fold cs in Hlen, Htake, Hafter, Hleft. rewrite Hlen in *.
  set (take_ := Z.min _ _) in *. pose proof aq_bounds as (_ & _ & _ & _ & _ & Hcs). fold cs in Hcs.
  assert (exists r, aq_media a = after_chunks (done_ ++ [c]) ++ r) as [r Hr].
  { unfold aq_media, after_chunks. rewrite Heq. replace (done_ ++ c :: rest) with ((done_ ++ [c]) ++ rest) by by rewrite <-app_assoc.
    rewrite (map_app _ (done_ ++ [c])), concat_app. unfold ztake. rewrite take_app. by eexists. }
  rewrite Hr, Hafter, <-app_assoc. apply (slice_at (after_chunks done_) (ztake take_ (ck_page c)) r); [done|lia|].
  rewrite zlen_ztake. lia.
Qed.

(** ** Segments *)

(** What the lemmas of a segment ask of segment [i]. *)
Lemma segment_at segs1 seg segs2 :
  aq_segments a = segs1 ++ seg :: segs2 ->
  0 <= zlen segs1 < u16_max /\ seg ∈ aq_segments a /\
  FILE_HEADER_SIZE + span (segment_parts a (zlen segs1 =? 0) (zlen segs1 =? zlen (aq_segments a) - 1) seg) + 76 <= i64_max.
Proof.
  intros Heq. pose proof (aq_numbers a a_ok) as Hn.
  assert (zlen (aq_segments a) = zlen segs1 + 1 + zlen segs2) as Hl by (rewrite Heq, zlen_app, zlen_cons; lia).
  pose proof (zlen_nonneg segs1). pose proof (zlen_nonneg segs2).
  split; [lia|]. split; [rewrite Heq; apply elem_of_app; right; by left|].
  apply parts_fit. apply list_elem_of_lookup. exists (length segs1). unfold enumerate.
  rewrite enumerate_from_lookup, Heq, list_lookup_middle by done. done.
Qed.

Lemma last_segment : exists segs1 seg, aq_segments a = segs1 ++ [seg].
Proof.
  assert (aq_segments a <> []) as Hne.
  { intros E. pose proof (aq_numbers a a_ok) as Hn. unfold zlen in Hn. rewrite E in Hn. cbn in Hn. lia. }
  destruct (exists_last Hne) as (segs1 & seg & Heq). by exists segs1, seg.
Qed.

Lemma first_written : exists seg0 rest,
  write_image a = write_segment a (zlen (aq_segments a)) (0, seg0) :: rest /\ aq_segments a = seg0 :: tail (aq_segments a).
Proof.
  destruct last_segment as (segs1 & seg & Heq). unfold write_image, enumerate.
  destruct (aq_segments a) as [|seg0 segs] eqn:E; [by destruct segs1|].
  eexists seg0, _. by split.
Qed.

(** The segment of a chunk and its place in it. *)
Lemma chunk_split k c :
  aq_chunks a !! k = Some c ->
  exists segs1 seg segs2 cks1 cks2, aq_segments a = segs1 ++ seg :: segs2 /\ seg.2 = cks1 ++ c :: cks2 /\
    Z.of_nat k = zlen (concat (map snd segs1)) + zlen cks1 /\
    aq_chunks a = (concat (map snd segs1) ++ cks1) ++ c :: cks2 ++ concat (map snd segs2).
Proof.
  unfold aq_chunks. generalize (aq_segments a) as segs. intros segs. revert k.
  induction segs as [|seg segs IH]; intros k Hk; [done|]. cbn [map concat] in Hk.
  apply lookup_app_Some in Hk as [Hk|[Hge Hk]].
  - apply list_elem_of_split_length in Hk as (cks1 & cks2 & Heq & Hlen).
    exists [], seg, segs, cks1, cks2. split_and!; [done|done| |]; cbn [map concat].
    + change (zlen []) with 0. unfold zlen. lia.
    + by rewrite Heq, <-!app_assoc.
  - destruct (IH _ Hk) as (segs1 & seg' & segs2 & cks1 & cks2 & Heq & Hs & Hlen & Hall).
    exists (seg :: segs1), seg', segs2, cks1, cks2. split_and!; [by rewrite Heq|done| |]; cbn [map concat].
    + rewrite zlen_app. unfold zlen in *. lia.
    + rewrite Hall, <-!app_assoc. done.
Qed.

(** Every segment file can be mapped. *)
Lemma written_small : Forall (fun bs => zlen bs <= i64_max) (write_image a).
Proof.
  apply Forall_forall. intros bs Hin. unfold write_image in Hin. apply list_elem_of_fmap in Hin as ([i seg] & -> & Hin).
  by apply written_segment_fits.
Qed.
End Acquisition.
