(* ===== verification/Stored.v ===== *)
(** Stored chunks and the media they make up, whatever container holds them: a record
    of a stored chunk decodes to its page, and a reader of such records presents the
    media.  The end-to-end theorems of both formats share these lemmas. *)

From S2P Require Import Prelude Text Extern Types Sections Source ChunkTable ReaderOpen Reader.
From S2P Require Import Acquire.

(** * Decoding *)

Section Decode.
Context `{SafeReadLaws} `{Zlib}.
Variable cs : Z.
Hypothesis cs_range : 0 < cs <= u32_max.

(** What the decoder needs of a chunk in a segment whose stored size is [z]. *)
Definition chunk_holds (c : stored_chunk) (z : Z) : Prop :=
  0 < zlen (ck_page c) <= cs /\
  if ck_compressed c then z = zlen (ck_raw c) /\ z <= u32_max /\ inflates (ck_raw c) (ck_page c)
  else cs <= z <= u32_max /\ zlen (ck_page c) = cs /\ cs <= zlen (ck_raw c) /\ ztake cs (ck_raw c) = ck_page c.

Lemma inflate_loop_written raw page fuel d out rest (holds : zdecoder -> list byte -> Prop) :
  (forall d rest n, holds d rest -> 0 <= n ->
      exists k d', zlib_read d n = Some (ztake k rest, d') /\ 0 <= k <= n /\
        (0 < n -> rest <> [] -> 0 < k) /\ holds d' (zdrop k rest)) ->
  holds d rest -> page = out ++ rest -> zlen page <= raw -> zlen rest < Z.of_nat fuel ->
  inflate_loop fuel d raw out = Ok page.
Proof.
  intros Hread. revert d out rest. induction fuel as [|fuel IH]; intros d out rest Hd Hp Hl Hf.
  { pose proof (zlen_nonneg rest). lia. }
  cbn [inflate_loop]. assert (zlen page = zlen out + zlen rest) as Hpl by (by rewrite Hp, zlen_app).
  pose proof (zlen_nonneg rest). rewrite (proj2 (Z.ltb_ge _ _)) by lia.
  destruct (Hread d rest (raw - zlen out) Hd ltac:(lia)) as (k & d' & -> & Hk & Hpos & Hd').
  destruct rest as [|b rest].
  - unfold ztake. rewrite take_nil. by rewrite Hp, app_nil_r.
  - rewrite zlen_cons in *. pose proof (zlen_nonneg rest).
    assert (0 < k) as Hk0 by (apply Hpos; [lia|done]).
    pose proof (ztake_zdrop k (b :: rest)) as Hsplit. pose proof (zlen_ztake k (b :: rest)) as Hzt.
    rewrite zlen_cons in Hzt.
    destruct (ztake k (b :: rest)) as [|x bs] eqn:E; [rewrite zlen_nil in Hzt; lia|].
    apply (IH d' (out ++ x :: bs) (zdrop k (b :: rest))); [done| |done|].
    + by rewrite <-app_assoc, Hsplit.
    + rewrite zlen_zdrop, zlen_cons. lia.
Qed.

Lemma record_offset seg a c z : 0 <= a < 2 ^ 63 -> Chunk_offset (Chunk_new seg c a z) = a.
Proof. intros. rewrite Chunk_offset_new. by apply Z.mod_small. Qed.

(** The record of a stored chunk decodes to its page, padded to a whole chunk. *)
Lemma decode_page_stored `{Profile} segments seg src bytes a c z id :
  get segments seg = Some src -> serves src bytes -> 0 <= seg <= u32_max ->
  chunk_holds c z -> 0 <= a < 2 ^ 63 -> slice bytes a (a + zlen (ck_raw c)) = Some (ck_raw c) ->
  decode_page segments cs id (Chunk_new seg (ck_compressed c) a z) = Ok (zero_filled cs (ck_page c)).
Proof.
  intros Hseg Hsrc Hrange [Hpage Hok] Ha Hraw. unfold decode_page.
  rewrite Chunk_compressed_new, record_offset by done.
  unfold Chunk_segment_idx, Chunk_size, Chunk_new, wrap32. cbn [chunk_segment chunk_size32].
  rewrite (Z.mod_small seg), Hseg by lia. cbn [ok_or mbind outcome_bind].
  apply slice_spec in Hraw as (Hlo & Hhi & Hraw).
  assert (zlen bytes <= i64_max) as Hfits by apply serves_fits.
  destruct (ck_compressed c).
  - destruct Hok as (-> & Hz & [(holds & Hnew & Hreads) _]). pose proof (zlen_nonneg (ck_raw c)). rewrite Z.mod_small by lia.
    rewrite (serves_read (s:=src) (bs:=bytes)) by lia. cbn [from_io mbind outcome_bind].
    replace (ztake (zlen (ck_raw c)) (zdrop a bytes)) with (ck_raw c)
      by (rewrite Hraw at 1; f_equal; lia).
    by rewrite (inflate_loop_written cs (ck_page c) _ _ [] (ck_page c) holds) by (done || lia).
  - destruct Hok as (Hz & Hpl & Hrl & Hrc). rewrite (Z.mod_small z) by lia. rewrite Z.min_r by lia.
    rewrite (serves_read (s:=src) (bs:=bytes)) by lia. cbn [from_io mbind outcome_bind].
    assert (ztake cs (zdrop a bytes) = ck_page c) as ->.
    { rewrite <-(ztake_ztake cs (a + zlen (ck_raw c) - a)), <-Hraw by lia. done. }
    by rewrite (proj2 (Z.ltb_ge _ _)) by lia.
Qed.

(** A record decodes to the page of its chunk. *)
Definition decodes `{Profile} (segments : list SegmentSource) (r : Chunk) (c : stored_chunk) : Prop :=
  forall id, decode_page segments cs id r = Ok (zero_filled cs (ck_page c)).
End Decode.

(** * The media *)

Section Media.
Context `{SafeReadLaws} `{Zlib} `{Profile} `{Lru Z (list Chunk)} `{Lru Z (list byte)}.
Variables (cs total : Z) (cks : list stored_chunk).

(** The pages of the chunks, as far as the declared size goes. *)
Definition stored_media : list byte := ztake total (concat (map ck_page cks)).

Record media_stored : Prop := {
  ms_chunk_size : 0 < cs <= i64_max;
  ms_pages : Forall (fun c => 0 < zlen (ck_page c) <= cs) cks;
  ms_full : Forall (fun c => zlen (ck_page c) = cs) (removelast cks);
  ms_total : 0 <= total <= zlen (concat (map ck_page cks));
  ms_fits : cs * zlen cks <= i64_max;
}.

Lemma zlen_pages_bound : media_stored -> zlen (concat (map ck_page cks)) <= cs * zlen cks.
Proof.
  intros Hm. pose proof (ms_pages Hm) as Hp. clear Hm. induction Hp as [|c l Hc _ IH]; [change (0 <= cs * 0); lia|].
  cbn [map concat]. rewrite zlen_app, zlen_cons, Z.mul_add_distr_l. cbn beta in Hc. lia.
Qed.

(** The padded pages, cut at the size of the media, are the media. *)
Lemma padded_media :
  media_stored -> ztake total (concat (map (fun c => zero_filled cs (ck_page c)) cks)) = stored_media.
Proof.
  intros [_ _ Hfull [_ Hcov] _].
  unfold stored_media. destruct cks as [|c0 cks0] eqn:Eq; [done|]. rewrite <-Eq in *.
  assert (cks = removelast cks ++ [List.last cks c0]) as Hsplit.
  { apply app_removelast_last. by rewrite Eq. }
  set (init := removelast _) in *. set (c := List.last _ _) in *.
  assert (map (fun c => zero_filled cs (ck_page c)) init = map ck_page init) as Hinit.
  { apply map_ext_Forall. eapply Forall_impl; [exact Hfull|]. cbn beta. intros c' Hc'.
    unfold zero_filled. rewrite Hc', Z.sub_diag. apply app_nil_r. }
  rewrite Hsplit in Hcov |- *. rewrite !map_app, !concat_app, Hinit in *. cbn [map concat] in *.
  rewrite !app_nil_r in *. unfold zero_filled. rewrite app_assoc. by apply ztake_app_le.
Qed.

Lemma zlen_stored_media : media_stored -> zlen stored_media = total.
Proof. intros Hm. pose proof (ms_total Hm). unfold stored_media. rewrite zlen_ztake. lia. Qed.

(** The image is that of the media, with the given digests. *)
Definition holds (data : list byte) (hashes : option (list byte) * option (list byte)) (im : image) : Prop :=
  exists pages, all_pages im = Ok pages /\ media im pages = data /\
    im_total_size im = zlen data /\ im_total_size im <= im_chunk_size im * im_count im /\
    im_chunk_size im * im_count im <= i64_max /\ (im_md5 im, im_sha1 im) = hashes.

(** A reader whose records decode to the chunks holds the media. *)
Lemma records_hold r records :
  media_stored -> r_chunk_size r = cs -> r_total_size r = total ->
  Forall2 (decodes cs (r_segments r)) records cks ->
  holds stored_media (r_stored_md5 r, r_stored_sha1 r) (image_of r records).
Proof.
  intros Hm Hcs Hts Hdec.
  assert (zlen records = zlen cks) as Hlen by (unfold zlen; by rewrite (Forall2_length _ _ _ Hdec)).
  exists (map (fun c => zero_filled cs (ck_page c)) cks).
  unfold media, im_count, image_of. cbn [im_total_size im_chunk_size im_chunks im_md5 im_sha1].
  rewrite Hts, Hcs, Hlen, zlen_stored_media by done. pose proof (zlen_pages_bound Hm). pose proof (ms_total Hm).
  split; [|split; [by apply padded_media|]; split; [done|]; split; [lia|]; split; [apply (ms_fits Hm)|done]].
  unfold all_pages, im_count. cbn [im_chunks]. rewrite Hlen. apply mapM_outcome_ok.
  apply Forall2_same_length_lookup. split.
  { rewrite length_map. unfold range. rewrite length_seqZ. unfold zlen. lia. }
  intros k id page Hk Hpage. unfold range in Hk. rewrite lookup_seqZ in Hk. destruct Hk as [-> Hlt].
  change (map ?f ?l) with (f <$> l) in Hpage. rewrite list_lookup_fmap in Hpage.
  destruct (cks !! k) as [c|] eqn:Ec; [|done]. cbn in Hpage. injection Hpage as <-.
  destruct (Forall2_lookup_r _ _ _ _ _ Hdec Ec) as (rec & Hrec & Hd).
  unfold im_page, page_of, image_of. cbn [im_segments im_chunk_size im_chunks].
  replace (get records (0 + Z.of_nat k)) with (Some rec).
  - cbn [ok_or mbind outcome_bind]. apply Hd.
  - symmetry. apply get_spec. split; [lia|]. by replace (Z.to_nat (0 + Z.of_nat k)) with k by lia.
Qed.
End Media.

(** * What the readers of such an image return *)

Section Holds.
Context `{SafeRead} `{ZlibLaws} `{Profile} `{LruLaws Z (list Chunk)} `{LruLaws Z (list byte)}.

Lemma holds_read data hashes im pos r n off :
  image_ok im -> holds data hashes im -> presents im pos r -> 0 <= n -> 0 <= off <= u64_max ->
  exists r', read_at n off r = (Ok (ztake n (zdrop off data)), r') /\ presents im pos r'.
Proof.
  intros Hok (pages & Hp & Hm & _ & Hle & _) Hr Hn Ho.
  destruct (read_at_serves im pos r n off Hok Hr Hn Ho) as (r' & Hrun & Hr' & _).
  exists r'. split; [|done]. by rewrite Hrun, (read_spec_media im pages), Hm by (done || lia).
Qed.

Lemma all_pages_no_error im pages id e :
  all_pages im = Ok pages -> 0 <= id < im_count im -> im_page im id <> Err e.
Proof.
  intros Hp Hid He. apply mapM_outcome_ok in Hp.
  assert (range 0 (im_count im) !! Z.to_nat id = Some id) as Hl.
  { unfold range. apply lookup_seqZ. lia. }
  destruct (Forall2_lookup_l _ _ _ _ _ Hp Hl) as (page & _ & Hpage). congruence.
Qed.

Lemma holds_verify `{Digests} `{RayonLaws} data hashes im pos r :
  image_ok im -> holds data hashes im -> presents im pos r ->
  exists r', verify r = (Ok (verdict im data), r') /\ presents im pos r'.
Proof.
  intros Hok (pages & Hp & Hm & _ & _ & Hmax & _) Hr.
  destruct (verify_serves im pos r Hok Hr Hmax) as (m & r' & Hrun & Hr' & Hv). exists r'. split; [|done].
  rewrite Hrun. f_equal. destruct m as [v|e|]; [|exfalso|done].
  - destruct Hv as (pages' & Hp' & ->). assert (pages' = pages) as -> by congruence. by rewrite Hm.
  - destruct Hv as (id & Hid & He). by apply (all_pages_no_error im pages id e).
Qed.

(** The answers of a reader at any moment: every window of the data, and the verdict. *)
Definition answers `{Digests} `{Rayon} (data : list byte) (im : image) : Prop :=
  forall r1 pos, presents im pos r1 ->
    (forall n off, 0 <= n -> 0 <= off <= u64_max ->
       exists r2, read_at n off r1 = (Ok (ztake n (zdrop off data)), r2) /\ presents im pos r2) /\
    (exists r2 v, verify r1 = (Ok v, r2) /\ presents im pos r2 /\
       computed_md5 v = md5 data /\ md5_match v = Some true /\ sha1_match v <> Some false).

Lemma holds_answers `{Digests} `{RayonLaws} data im sha :
  image_ok im -> holds data (Some (md5 data), sha) im -> (sha = None \/ sha = Some (sha1 data)) -> answers data im.
Proof.
  intros Hok Hm Hsha r1 pos Hr1. split.
  - intros n off Hn Ho. by eapply holds_read.
  - destruct (holds_verify data _ im pos r1 Hok Hm Hr1) as (r2 & Hrun & Hr2).
    destruct Hm as (_ & _ & _ & _ & _ & _ & Hh). injection Hh as Hmd Hsh.
    exists r2, (verdict im data). split; [done|]. split; [done|]. split; [done|].
    unfold verdict. cbn [md5_match sha1_match]. rewrite Hmd, Hsh. cbn. split; [by rewrite bool_decide_true|].
    destruct Hsha as [->| ->]; cbn; [done|]. by rewrite bool_decide_true.
Qed.
End Holds.
