(* ===== verification/AcquireRead.v ===== *)
(** From the writer of Acquire to the reader: a written image opens and presents
    exactly the media it was written from. *)

From S2P Require Import Prelude Text Extern Types Sections Source ChunkTable ReaderOpen Reader.
From S2P Require Import Acquire Stored.

(** * Chunk records *)

(** Where the chunks stored from [a] start, as a table addresses them. *)
Definition addresses_from (a : Z) (cks : list stored_chunk) : list (bool * Z) :=
  map (fun '(s, _, c) => (c, s)) (extents_from a cks).

(** The records a reader keeps for them. *)
Fixpoint records_from (seg cs a : Z) (cks : list stored_chunk) : list Chunk :=
  match cks with
  | [] => []
  | c :: cks =>
    Chunk_new seg (ck_compressed c) a (if ck_compressed c then zlen (ck_raw c) else cs)
    :: records_from seg cs (a + zlen (ck_raw c)) cks
  end.

Section Table.
Context `{SafeReadLaws} `{AdlerLaws} `{Zlib}.
Variable cs : Z.
Hypothesis cs_range : 0 < cs <= 64 * 1024 * 1024.

Lemma entry_addresses_from base cks1 cks2 :
  Forall (chunk_ok cs) (cks1 ++ cks2) -> raw_span (cks1 ++ cks2) < 2147483648 ->
  0 <= base -> base + 2147483648 <= u64_max ->
  omap (entry_address (concat (map table_entry_bytes (entries_from 0 (cks1 ++ cks2)))) base)
    (seqZ (zlen cks1) (zlen cks2)) = addresses_from (base + raw_span cks1) cks2.
Proof.
  intros Hok Hs Hb Hmax. revert cks1 Hok Hs. induction cks2 as [|c cks2 IH]; intros cks1 Hok Hs; [done|].
  apply Forall_app in Hok as Hok'. destruct Hok' as [_ Hok2]. inversion Hok2 as [|? ? Hc _]; subst.
  pose proof (proj2 (chunk_ok_shaped cs c Hc)) as Hraw.
  destruct (chunk_entry_read cks1 c cks2 Hs Hraw) as (bytes & Hsl & Hp).
  rewrite seqZ_cons by (rewrite zlen_cons; pose proof (zlen_nonneg cks2); lia).
  unfold addresses_from. cbn [omap list_omap extents_from map]. unfold entry_address at 1.
  replace ((zlen cks1 + 1) * 4) with (zlen cks1 * 4 + 4) by lia. rewrite Hsl. cbn [mbind option_bind].
  rewrite Hp. cbn [chunk_offset compressed].
  assert (raw_span cks1 < 2147483648) as Hlt.
  { rewrite raw_span_app in Hs. pose proof (raw_span_nonneg (c :: cks2)). lia. }
  pose proof (raw_span_nonneg cks1). unfold checked_add. rewrite (proj2 (Z.leb_le _ _)) by lia.
  cbn [mbind option_bind]. rewrite (Z.add_comm (raw_span cks1) base). f_equal.
  replace (cks1 ++ c :: cks2) with ((cks1 ++ [c]) ++ cks2) in * by by rewrite <-app_assoc.
  specialize (IH (cks1 ++ [c]) Hok Hs).
  assert (raw_span (cks1 ++ [c]) = raw_span cks1 + zlen (ck_raw c)) as Hsp.
  { rewrite raw_span_app, raw_span_cons. change (raw_span []) with 0. lia. }
  rewrite Hsp, Z.add_assoc in IH. fold (addresses_from (base + raw_span cks1 + zlen (ck_raw c)) cks2).
  rewrite <-IH. f_equal. rewrite zlen_app, !zlen_cons. change (zlen []) with 0.
  unfold Z.succ. f_equal; lia.
Qed.

Lemma entry_addresses_written base cks :
  Forall (chunk_ok cs) cks -> raw_span cks < 2147483648 -> 0 <= base -> base + 2147483648 <= u64_max ->
  entry_addresses (concat (map table_entry_bytes (entries_from 0 cks))) base (length cks)
  = addresses_from base cks.
Proof.
  intros Hok Hs Hb Hm. unfold entry_addresses. rewrite <-(Z.add_0_r base) at 2.
  by apply (entry_addresses_from base [] cks).
Qed.

Lemma spec_chunks_written seg a cks :
  Forall (chunk_ok cs) cks -> 0 <= a -> a + raw_span cks < 2 ^ 63 ->
  spec_chunks seg cs (Some (a + raw_span cks)) (addresses_from a cks) = records_from seg cs a cks.
Proof.
  intros Hok. revert a. induction Hok as [|c cks Hc Hok IH]; intros a Ha Hmax; [done|].
  pose proof (proj2 (chunk_ok_shaped cs c Hc)) as Hraw. rewrite raw_span_cons in *.
  pose proof (raw_span_nonneg cks) as Hnn.
  unfold addresses_from in *. cbn [extents_from map records_from].
  rewrite Z.add_assoc. specialize (IH (a + zlen (ck_raw c)) ltac:(lia) ltac:(lia)). rewrite <-IH.
  destruct cks as [|c' cks].
  - cbn [extents_from map spec_chunks]. f_equal. f_equal. change (raw_span []) with 0.
    rewrite (Z.mod_small a) by lia. unfold wrap32. rewrite (Z.mod_small cs), Z.eqb_refl by lia.
    replace (a + zlen (ck_raw c) + 0 - a) with (zlen (ck_raw c)) by lia.
    rewrite (proj2 (Z.ltb_lt 0 _)) by lia. destruct Hc as [_ Hc].
    destruct (ck_compressed c); cbn [andb]; [|done]. destruct (_ <? cs) eqn:E; bool_hyps; [done|lia].
  - cbn [extents_from map]. cbn [spec_chunks].
    rewrite (proj2 (Z.ltb_lt a _)) by lia. replace (a + zlen (ck_raw c) - a) with (zlen (ck_raw c)) by lia.
    by destruct (ck_compressed c).
Qed.

(** ** Decoding *)

Lemma chunk_ok_holds c : chunk_ok cs c -> chunk_holds cs c (if ck_compressed c then zlen (ck_raw c) else cs).
Proof.
  intros [Hpage Hok]. split; [done|]. destruct (ck_compressed c); [split_and!; [done|lia|tauto]|].
  destruct Hok as [Hpl Hrc]. split_and!; try lia.
  - rewrite Hrc, zlen_app, zlen_le_bytes. lia.
  - rewrite Hrc. by apply ztake_app_len.
Qed.
End Table.

(** * Opening a written segment *)

Section Open.
Context `{SafeReadLaws} `{AdlerLaws} `{Zlib} `{Digests} `{Profile} `{Lru Z (list Chunk)} `{Lru Z (list byte)}.

(** The reader's walk of a segment finds exactly the sections that were written. *)
Lemma walk_descriptors_segment s num front final l1 l2 fuel acc :
  serves s (segment_bytes num front final) -> good_parts front -> good_name final ->
  front = l1 ++ l2 -> (S (length l2) < fuel)%nat ->
  walk_descriptors fuel s (zlen (segment_bytes num front final)) (FILE_HEADER_SIZE + span l1) acc
  = Ok (acc ++ chain (FILE_HEADER_SIZE + span l1) l2
            ++ [descriptor_at final (FILE_HEADER_SIZE + span front) [] true]).
Proof.
  intros Hs Hg Hn. pose proof (zlen_segment_bytes num front final Hg Hn) as Hlen.
  assert (zlen (segment_bytes num front final) <= i64_max) as Hfits by apply serves_fits.
  pose proof (span_nonneg front) as Hsf.
  revert l1 fuel acc. induction l2 as [|[n b] l2 IH]; intros l1 fuel acc Hf Hfuel;
    destruct fuel as [|fuel]; try lia; cbn [walk_descriptors]; unfold SECTION_DESCRIPTOR_SIZE, FILE_HEADER_SIZE in *.
  - rewrite app_nil_r in Hf. subst l1. unfold checked_add. rewrite (proj2 (Z.leb_le _ _)) by lia.
    rewrite (proj2 (Z.ltb_ge _ _)) by lia.
    destruct (final_read num front final Hg Hn ltac:(unfold FILE_HEADER_SIZE; lia)) as (raw & Hraw & Hp & _).
    unfold FILE_HEADER_SIZE in *. rewrite (read_exact_at_serves s _ _ 76 (Hs:=Hs)) by lia.
    rewrite (proj2 (Z.ltb_ge i64_max _)) by lia. change (76 =? 0) with false. cbn iota.
    rewrite Hraw. cbn [ok_or mbind outcome_bind]. rewrite Hp. cbn [mbind outcome_bind].
    cbn [descriptor_at next]. rewrite (proj2 (Z.leb_le _ _)) by lia. by rewrite orb_true_r.
  - pose proof (span_nonneg l1). pose proof (span_nonneg l2). pose proof (zlen_nonneg b).
    assert (span front = span l1 + (76 + zlen b + span l2)) as Hspan by (by rewrite Hf, span_app, span_cons).
    unfold checked_add. rewrite (proj2 (Z.leb_le _ _)) by lia.
    rewrite (proj2 (Z.ltb_ge _ _)) by lia.
    destruct (link_read num front final l1 n b l2 Hg ltac:(unfold FILE_HEADER_SIZE; lia) Hf)
      as (raw & Hraw & Hp & _).
    unfold FILE_HEADER_SIZE in *. rewrite (read_exact_at_serves s _ _ 76 (Hs:=Hs)) by lia.
    rewrite (proj2 (Z.ltb_ge i64_max _)) by lia. change (76 =? 0) with false. cbn iota.
    rewrite Hraw. cbn [ok_or mbind outcome_bind]. rewrite Hp. cbn [mbind outcome_bind].
    cbn [descriptor_at next]. rewrite (proj2 (Z.leb_gt _ _)), (proj2 (Z.eqb_neq _ _)) by lia. cbn [orb].
    specialize (IH (l1 ++ [(n, b)]) fuel (acc ++ [descriptor_at n (13 + span l1) b false])).
    rewrite span_app in IH. change (span [(n, b)]) with (76 + zlen b + 0) in IH.
    replace (13 + (span l1 + (76 + zlen b + 0))) with (13 + span l1 + (76 + zlen b)) in IH by lia.
    rewrite IH; [|by rewrite <-app_assoc|cbn in Hfuel; lia]. cbn [chain]. by rewrite <-!app_assoc.
Qed.

Lemma segment_descriptors_written s num front final :
  serves s (segment_bytes num front final) -> good_parts front -> good_name final ->
  segment_descriptors s = Ok (segment_chain front final).
Proof.
  intros Hs Hg Hn. pose proof (zlen_segment_bytes num front final Hg Hn) as Hlen.
  assert (zlen (segment_bytes num front final) <= i64_max) as Hfits by apply serves_fits.
  pose proof (length_le_span front) as Hsp. pose proof (zlen_nonneg front). unfold FILE_HEADER_SIZE in Hlen.
  unfold segment_descriptors, SegmentCursor_seek, segment_len, SegmentCursor_new. cbn [cursor_src].
  rewrite (serves_len (s:=s) (bs:=segment_bytes num front final)).
  unfold as_i64. rewrite (proj2 (Z.leb_le _ _)) by lia.
  unfold add_i64. rewrite plain_ok by lia. rewrite Z.add_0_r. cbn [mbind outcome_bind].
  rewrite (proj2 (Z.ltb_ge _ _)) by lia. cbn [from_io mbind outcome_bind].
  rewrite <-(Z.add_0_r FILE_HEADER_SIZE). change 0 with (span []).
  rewrite (walk_descriptors_segment s num front final [] front); [done|done|done|done|done|].
  unfold zlen in *. lia.
Qed.

(** ** The handlers on a written section *)
Section Handlers.
Variables (s : SegmentSource) (num idx : Z) (front : list part) (final : text).
Hypothesis served_by : serves s (segment_bytes num front final).
Hypothesis names : good_parts front.
Hypothesis final_name_ok : good_name final.

Let ctx : segment_ctx := make_segment_ctx s idx (segment_chain front final).

Lemma segment_fits : FILE_HEADER_SIZE + span front + 76 <= i64_max.
Proof.
  rewrite <-(zlen_segment_bytes num front final) by done.
  apply (serves_fits (s:=s) (bs:=segment_bytes num front final)).
Qed.

Lemma part_span l1 n b l2 : front = l1 ++ (n, b) :: l2 -> span front = span l1 + (76 + zlen b + span l2).
Proof. intros ->. by rewrite span_app, span_cons. Qed.

(** Reading the start of a body; the rest of a body, from an offset, likewise. *)
Lemma body_read l1 n b l2 off m :
  front = l1 ++ (n, b) :: l2 -> 0 <= off -> 0 < m -> off + m <= zlen b ->
  read_exact_at s (FILE_HEADER_SIZE + span l1 + 76 + off) m = Ok (ztake m (zdrop off b)).
Proof.
  intros Hf Ho Hm Hl. pose proof segment_fits as Hfit. pose proof (part_span l1 n b l2 Hf) as Hsp.
  pose proof (span_nonneg l1). pose proof (span_nonneg l2).
  destruct (link_read num front final l1 n b l2 names ltac:(lia) Hf) as (_ & _ & _ & _ & Hbody).
  unfold FILE_HEADER_SIZE in *.
  rewrite (read_exact_at_serves s _ _ m (Hs:=served_by)) by lia.
  rewrite (proj2 (Z.ltb_ge i64_max _)), (proj2 (Z.eqb_neq m 0)) by lia.
  pose proof (slice_slice _ _ _ off (off + m) _ Hbody ltac:(lia) ltac:(lia)) as Hss.
  replace (13 + span l1 + 76 + (off + m)) with (13 + span l1 + 76 + off + m) in Hss by lia.
  rewrite <-Hss, slice_some by lia. cbn [ok_or]. do 2 f_equal. lia.
Qed.

Lemma section_data_at l1 n b l2 :
  front = l1 ++ (n, b) :: l2 ->
  section_data (descriptor_at n (FILE_HEADER_SIZE + span l1) b false) = Ok (FILE_HEADER_SIZE + span l1 + 76).
Proof.
  intros Hf. pose proof segment_fits as Hfit. pose proof (part_span l1 n b l2 Hf) as Hsp.
  pose proof (span_nonneg l1). pose proof (span_nonneg l2). pose proof (zlen_nonneg b).
  unfold section_data, FILE_HEADER_SIZE, SECTION_DESCRIPTOR_SIZE in *. cbn [descriptor_at Sections.offset].
  apply add64_ok. lia.
Qed.

Lemma body_start l1 n b l2 m :
  front = l1 ++ (n, b) :: l2 -> 0 < m <= zlen b ->
  (at_ ← section_data (descriptor_at n (FILE_HEADER_SIZE + span l1) b false);
   read_exact_at s at_ m) = Ok (ztake m b).
Proof.
  intros Hf Hm. rewrite (section_data_at _ _ _ _ Hf). cbn [mbind outcome_bind].
  rewrite <-(Z.add_0_r (FILE_HEADER_SIZE + span l1 + 76)).
  rewrite (body_read l1 n b l2 0 m Hf) by lia. by rewrite zdrop_0.
Qed.

Lemma open_volume_written l1 l2 chunks spc bps sectors o :
  front = l1 ++ (str "volume", full_volume_body chunks spc bps sectors) :: l2 ->
  0 <= chunks <= u32_max -> 0 < spc <= u32_max -> 0 < bps <= u32_max ->
  spc * bps <= MAX_CHUNK_SIZE -> 0 < sectors -> sectors * bps <= u64_max ->
  open_volume ctx (descriptor_at (str "volume") (FILE_HEADER_SIZE + span l1)
                     (full_volume_body chunks spc bps sectors) false) o
  = Ok (set_geometry (spc * bps) (sectors * bps) o).
Proof.
  intros Hf Hc Hs Hb Hcs Hsec Htot. unfold open_volume. rewrite <-outcome_bind_assoc. cbn [sc_source ctx make_segment_ctx].
  rewrite (body_start l1 _ _ l2 94 Hf) by (rewrite zlen_full_volume; lia). cbn [mbind outcome_bind].
  destruct (full_volume_read chunks spc bps sectors 94) as (v & -> & Hv1 & Hv2 & Hv3 & Hv4 & _); [lia..|].
  cbn [mbind outcome_bind]. unfold EwfVolume_chunk_size, EwfVolume_total_size, sat_mul.
  rewrite Hv1, Hv2, Hv3, Hv4. unfold MAX_CHUNK_SIZE in *. rewrite mul64_ok by nia. cbn [mbind outcome_bind].
  rewrite (proj2 (Z.ltb_ge _ _)) by lia. rewrite Z.min_r by nia.
  rewrite (proj2 (Z.eqb_neq _ 0)) by nia. cbn [mbind outcome_bind]. by rewrite (Z.mul_comm bps).
Qed.

Lemma open_table_written cs l1 l2 base cks name o :
  front = l1 ++ (name, table_body base (entries_from 0 cks)) :: l2 ->
  0 < cs <= 64 * 1024 * 1024 -> Forall (chunk_ok cs) cks -> raw_span cks < 2147483648 ->
  zlen cks <= MAX_TABLE_ENTRIES -> 0 <= base -> base + raw_span cks < 2 ^ 63 ->
  o_chunk_size o = cs -> sc_sectors_end ctx = Some (base + raw_span cks) ->
  open_table_eager ctx (descriptor_at name (FILE_HEADER_SIZE + span l1)
                     (table_body base (entries_from 0 cks)) false) o
  = Ok (set_chunks (o_chunks o ++ records_from idx cs base cks) o).
Proof.
  intros Hf Hcs Hok Hraw Hmax Hb Hend Ho Hsec. pose proof segment_fits as Hfit.
  pose proof (part_span _ _ _ _ Hf) as Hsp. pose proof (span_nonneg l1). pose proof (span_nonneg l2).
  pose proof (zlen_nonneg cks) as Hn. pose proof (raw_span_nonneg cks). unfold MAX_TABLE_ENTRIES in *.
  assert (zlen (table_body base (entries_from 0 cks)) = 24 + 4 * zlen cks) as Hlen.
  { unfold table_body. by rewrite zlen_app, zlen_table_header, zlen_table_entries, zlen_entries_from. }
  unfold open_table_eager. rewrite (section_data_at _ _ _ _ Hf). cbn [mbind outcome_bind sc_source ctx make_segment_ctx].
  unfold FILE_HEADER_SIZE in *.
  pose proof (body_read l1 _ _ l2 0 24 Hf ltac:(lia) ltac:(lia) ltac:(lia)) as Hr. unfold FILE_HEADER_SIZE in Hr.
  rewrite Z.add_0_r in Hr. rewrite Hr, zdrop_0. cbn [mbind outcome_bind]. clear Hr.
  assert (ztake 24 (table_body base (entries_from 0 cks)) = table_header_bytes base (zlen cks)) as ->.
  { unfold table_body. rewrite zlen_entries_from. apply ztake_app_len. by rewrite zlen_table_header. }
  destruct (table_header_read base (zlen cks) []) as (Hcount & Hbase & _); [lia|lia|].
  rewrite app_nil_r in Hcount, Hbase. rewrite Hcount, Hbase.
  unfold MAX_TABLE_ENTRIES. rewrite (proj2 (Z.ltb_ge _ _)) by lia.
  rewrite add64_ok by lia. cbn [mbind outcome_bind]. rewrite mul64_ok by lia. cbn [mbind outcome_bind].
  assert (read_exact_at s (13 + span l1 + 76 + 24) (zlen cks * 4)
          = Ok (concat (map table_entry_bytes (entries_from 0 cks)))) as ->.
  { destruct (decide (zlen cks = 0)) as [Hz|Hz].
    - destruct cks as [|c cks]; [|rewrite zlen_cons in Hz; pose proof (zlen_nonneg cks); lia].
      rewrite (read_exact_at_serves s _ _ _ (Hs:=served_by)) by lia. cbn.
      by rewrite (proj2 (Z.ltb_ge i64_max _)) by lia.
    - pose proof (body_read l1 _ _ l2 24 (zlen cks * 4) Hf ltac:(lia) ltac:(lia) ltac:(lia)) as Hr.
      unfold FILE_HEADER_SIZE in Hr. rewrite Hr. f_equal. unfold table_body.
      rewrite zdrop_app_len by (by rewrite zlen_table_header). apply ztake_all.
      rewrite zlen_table_entries, zlen_entries_from. lia. }
  cbn [mbind outcome_bind]. rewrite Hsec, Ho.
  rewrite parse_table_section_eq by lia. cbn [mbind outcome_bind].
  assert (Z.to_nat (Z.min (zlen cks) (zlen (concat (map table_entry_bytes (entries_from 0 cks))) / 4)) = length cks) as ->.
  { rewrite zlen_table_entries, zlen_entries_from, (Z.mul_comm 4), Z.div_mul by lia. unfold zlen. lia. }
  rewrite (entry_addresses_written cs) by (done || lia). by rewrite (spec_chunks_written cs) by (done || lia).
Qed.

Lemma zlen_digest_part media : DigestsLaws -> zlen (digest_part media).2 = 80.
Proof.
  intros Hd. unfold digest_part. cbn [snd]. rewrite !zlen_app, length_md5, length_sha1, zlen_le_bytes. done.
Qed.

Lemma zlen_hash_part media : DigestsLaws -> zlen (hash_part media).2 = 36.
Proof. intros Hd. unfold hash_part. cbn [snd]. rewrite !zlen_app, length_md5, zlen_le_bytes. done. Qed.

Lemma open_digest_written l1 l2 media o :
  DigestsLaws -> front = l1 ++ digest_part media :: l2 ->
  open_digest ctx (descriptor_at (str "digest") (FILE_HEADER_SIZE + span l1) (digest_part media).2 false) o
  = Ok (set_hashes (nonzero_digest (md5 media)) (nonzero_digest (sha1 media)) o).
Proof.
  intros Hd Hf. pose proof (zlen_digest_part media Hd) as Hl. unfold open_digest. rewrite <-outcome_bind_assoc.
  cbn [sc_source ctx make_segment_ctx].
  rewrite (body_start l1 _ (digest_part media).2 l2 36 Hf) by lia. cbn [mbind outcome_bind].
  pose proof (length_md5 media) as Hm5. pose proof (length_sha1 media) as Hs1.
  assert (ztake 36 (digest_part media).2 = md5 media ++ sha1 media) as ->.
  { unfold digest_part. cbn [snd]. rewrite <-!app_assoc, (app_assoc (md5 media)).
    apply ztake_app_len. rewrite zlen_app. lia. }
  unfold index_range. rewrite (slice_at [] (md5 media) (sha1 media) _ 0 16) by (done || lia).
  by rewrite (slice_at (md5 media) (sha1 media) [] _ 16 36) by (rewrite ?app_nil_r; done || lia).
Qed.

Lemma open_hash_written l1 l2 media o :
  DigestsLaws -> front = l1 ++ hash_part media :: l2 ->
  open_hash ctx (descriptor_at (str "hash") (FILE_HEADER_SIZE + span l1) (hash_part media).2 false) o
  = Ok (set_hashes (match o_md5 o with None => Some (md5 media) | m => m end) (o_sha1 o) o).
Proof.
  intros Hd Hf. pose proof (zlen_hash_part media Hd) as Hl. unfold open_hash. rewrite <-outcome_bind_assoc.
  cbn [sc_source ctx make_segment_ctx].
  rewrite (body_start l1 _ (hash_part media).2 l2 16 Hf) by lia. cbn [mbind outcome_bind].
  assert (ztake 16 (hash_part media).2 = md5 media) as ->; [|done].
  unfold hash_part. cbn [snd]. rewrite <-!app_assoc. apply ztake_app_len. by rewrite length_md5.
Qed.

(** What a leading section may change: the metadata only. *)
Definition same_core (o o' : open_state) : Prop :=
  o_chunk_size o' = o_chunk_size o /\ o_total_size o' = o_total_size o /\
  o_chunks o' = o_chunks o /\ o_md5 o' = o_md5 o /\ o_sha1 o' = o_sha1 o.

Hypothesis has_table : sc_table_type ctx = str "table".

Lemma open_header_written l1 n b l2 o :
  front = l1 ++ (n, b) :: l2 ->
  exists o', open_header ctx (descriptor_at n (FILE_HEADER_SIZE + span l1) b false) o = Ok o' /\
             same_core o o'.
Proof.
  intros Hf. unfold open_header. rewrite (section_data_at _ _ _ _ Hf). cbn [mbind outcome_bind].
  destruct (small_section _) eqn:E; [|by exists o]. unfold small_section in E. bool_hyps.
  cbn [descriptor_at section_size] in *. unfold sat_sub, SECTION_DESCRIPTOR_SIZE in *.
  pose proof (zlen_nonneg b). replace (Z.max 0 (76 + zlen b - 76)) with (zlen b) in * by lia.
  pose proof (body_read l1 n b l2 0 (zlen b) Hf ltac:(lia) ltac:(lia) ltac:(lia)) as Hr.
  rewrite Z.add_0_r in Hr. cbn [sc_source ctx make_segment_ctx]. rewrite Hr. cbn [mbind outcome_bind].
  destruct (zlib_read_to_end _ _); by eexists.
Qed.

Lemma open_prologue_part l1 n b l2 o :
  front = l1 ++ (n, b) :: l2 -> n ∈ prologue_names ->
  exists o', open_section false ctx (descriptor_at n (FILE_HEADER_SIZE + span l1) b false) o = Ok o' /\
             same_core o o'.
Proof.
  intros Hf Hn. unfold open_section. cbn [descriptor_at section_type]. rewrite has_table.
  destruct (open_header_written l1 n b l2 o Hf) as (o' & Hh & Hcore).
  apply elem_of_cons in Hn as [->|Hn].
  { cbn -[open_header]. destruct (_ && _); [|by exists o]. by exists o'. }
  repeat (apply elem_of_cons in Hn as [->|Hn]; [by exists o|]). by apply elem_of_nil in Hn.
Qed.

Lemma open_prologue l1 ps l2 o :
  front = l1 ++ ps ++ l2 -> prologue_ok ps ->
  exists o', fold_res (open_section false ctx) (chain (FILE_HEADER_SIZE + span l1) ps) o = Ok o' /\
             same_core o o'.
Proof.
  revert l1 o. induction ps as [|[n b] ps IH]; intros l1 o Hf Hp; [by exists o|].
  apply Forall_cons in Hp as [Hn Hp']. cbn [fst] in Hn. cbn [chain fold_res].
  destruct (open_prologue_part l1 n b (ps ++ l2) o Hf Hn) as (o1 & -> & Hc1). cbn [mbind outcome_bind].
  destruct (IH (l1 ++ [(n, b)]) o1) as (o2 & Hrun & Hc2); [by rewrite <-app_assoc|done|].
  rewrite span_app in Hrun. change (span [(n, b)]) with (76 + zlen b + 0) in Hrun.
  replace (FILE_HEADER_SIZE + span l1 + (76 + zlen b))
    with (FILE_HEADER_SIZE + (span l1 + (76 + zlen b + 0))) by lia.
  exists o2. split; [exact Hrun|]. unfold same_core in *. intuition congruence.
Qed.
End Handlers.

Lemma fold_res_app {A B} (f : A -> B -> res B) l1 l2 b :
  fold_res f (l1 ++ l2) b = (b' ← fold_res f l1 b; fold_res f l2 b').
Proof.
  revert b. induction l1 as [|x l1 IH]; intros b; [done|]. cbn [app fold_res].
  destruct (f x b); cbn; [apply IH|done|done].
Qed.

(** ** A whole segment *)
Section Segment.
Context `{!DigestsLaws}.
Variable a : acquisition.
Hypothesis a_ok : acquisition_ok a.

Lemma segment_ctx_written src i first last_ seg :
  prologue_ok seg.1 ->
  let ctx := make_segment_ctx src i
               (segment_chain (segment_parts a first last_ seg) (final_name last_)) in
  sc_table_type ctx = str "table" /\
  sc_sectors_end ctx = Some (sat_add (sectors_base a first seg.1 - 76) (76 + raw_span seg.2)).
Proof.
  intros Hp ctx. unfold ctx, make_segment_ctx. cbn [sc_table_type sc_sectors_end].
  split.
  - pose proof (find_chunk_part (fun d => d) (is_type (str "table")) a first last_ seg (str "table")
      (fun _ => eq_refl) Hp [(str "sectors", concat (map ck_raw seg.2))] _ _
      ltac:(apply (bool_decide_eq_true_1 _); vm_compute; reflexivity) ltac:(by repeat constructor) eq_refl) as Hf.
    rewrite map_id in Hf. apply find_some in Hf as [Hin Ht].
    match goal with |- (if ?b then _ else _) = _ => assert (b = true) as ->; [|done] end.
    apply existsb_exists. by eexists.
  - pose proof (find_chunk_part (fun d => d) (is_type (str "sectors")) a first last_ seg (str "sectors")
      (fun _ => eq_refl) Hp [] _ _
      ltac:(apply (bool_decide_eq_true_1 _); vm_compute; reflexivity) ltac:(constructor) eq_refl) as Hf.
    rewrite map_id in Hf. rewrite Hf. cbn [mbind option_bind descriptor_at Sections.offset section_size]. by rewrite Z.add_0_r.
Qed.

(** The handlers on the sections [l2] that follow [l1]. *)
Definition opens (ctx : segment_ctx) (l1 l2 : list part) (o o' : open_state) : Prop :=
  fold_res (open_section false ctx) (chain (FILE_HEADER_SIZE + span l1) l2) o = Ok o'.

Lemma opens_app ctx l1 l2 l3 o o1 o2 :
  opens ctx l1 l2 o o1 -> opens ctx (l1 ++ l2) l3 o1 o2 -> opens ctx l1 (l2 ++ l3) o o2.
Proof.
  unfold opens. intros Hl Hr. rewrite chain_app, fold_res_app, Hl. cbn [mbind outcome_bind].
  by rewrite span_app, Z.add_assoc in Hr.
Qed.

Lemma opens_one ctx l1 n b o o' :
  open_section false ctx (descriptor_at n (FILE_HEADER_SIZE + span l1) b false) o = Ok o' ->
  opens ctx l1 [(n, b)] o o'.
Proof. unfold opens. cbn [chain fold_res]. by intros ->. Qed.

Lemma opens_nil ctx l1 o : opens ctx l1 [] o o.
Proof. done. Qed.

(** The state after the segments before this one: the geometry is known after the
    first, and [chunks] are the records so far. *)
Record opened (first : bool) (chunks : list Chunk) (o : open_state) : Prop := {
  opened_geometry : first = false -> o_chunk_size o = aq_chunk_size a /\ o_total_size o = aq_total a;
  opened_chunks : o_chunks o = chunks;
}.

Definition hashes_of (o : open_state) : option (list byte) * option (list byte) := (o_md5 o, o_sha1 o).

(** The records of segment [i]. *)
Definition segment_records (i : Z) (seg : list part * list stored_chunk) : list Chunk :=
  records_from i (aq_chunk_size a) (sectors_base a (i =? 0) seg.1) seg.2.

Section OneSegment.
Variables (src : SegmentSource) (i : Z) (first last_ : bool) (seg : list part * list stored_chunk).
Hypothesis seg_in : seg ∈ aq_segments a.
Hypothesis is_first : first = (i =? 0).
Hypothesis src_serves : serves src (segment_bytes (i + 1) (segment_parts a first last_ seg) (final_name last_)).

Let parts := segment_parts a first last_ seg.
Let ctx := make_segment_ctx src i (segment_chain parts (final_name last_)).
Let base := sectors_base a first seg.1.

Lemma parts_good : good_parts parts.
Proof. apply segment_parts_good, (segment_in a a_ok), seg_in. Qed.

Lemma has_table : sc_table_type ctx = str "table".
Proof. apply (segment_ctx_written src i first last_ seg), (segment_in a a_ok), seg_in. Qed.

Lemma base_bounds : 89 <= base /\ base + raw_span seg.2 <= FILE_HEADER_SIZE + span parts /\
  FILE_HEADER_SIZE + span parts + 76 <= i64_max.
Proof.
  destruct (sectors_base_bounds a first last_ seg) as [Hlo Hhi]. split; [done|]. split; [done|].
  apply (segment_fits src (i + 1) parts (final_name last_)); [exact src_serves|exact parts_good|apply final_name_good].
Qed.

Lemma opens_volume o :
  exists o', opens ctx seg.1 (if first then [volume_part a] else []) o o' /\
    hashes_of o' = hashes_of o /\
    forall chunks, opened first chunks o -> opened false chunks o'.
Proof.
  assert (first = true \/ first = false) as [Ef|Ef] by (clear; destruct first; auto); rewrite Ef.
  - exists (set_geometry (aq_chunk_size a) (aq_total a) o).
    split; [|split; [|intros chunks [_ Hc]; split; [|exact Hc]]].
    + apply opens_one. unfold open_section. cbn [descriptor_at section_type].
      change (text_eqb (str "volume") (str "volume") || text_eqb (str "volume") (str "disk")) with true. cbn iota.
      pose proof aq_bounds a a_ok as (? & ? & ? & ? & ? & ?). pose proof (aq_geometry a a_ok) as (Hs & Hb & Hcs). pose proof (aq_count a a_ok) as Hn.
      unfold aq_chunk_size, aq_total in *.
      apply (open_volume_written src (i + 1) i parts (final_name last_) src_serves parts_good (final_name_good _)
               seg.1 (chunk_parts base seg.2 ++ back_parts a last_)); try lia.
      * unfold parts, segment_parts, front_parts, base. rewrite Ef, <-app_assoc. done.
      * unfold MAX_CHUNK_SIZE. lia.
    + done.
    + intros _. done.
  - exists o. split; [apply opens_nil|]. split; [done|]. by intros chunks [Hg Hc].
Qed.

Lemma opens_chunks o chunks :
  opened false chunks o ->
  exists o', opens ctx (front_parts a first seg.1) (chunk_parts base seg.2) o o' /\
    hashes_of o' = hashes_of o /\ opened false (chunks ++ segment_records i seg) o'.
Proof.
  intros [Hg Hc]. destruct (Hg eq_refl) as [Hcs Hts]. destruct (segment_in a a_ok seg seg_in) as (Hp & _ & Hraw & Hlen).
  pose proof (segment_chunks a _ seg seg_in (aq_chunks_ok a a_ok)) as Hok.
  destruct base_bounds as (Hb1 & Hb2 & Hb3). pose proof aq_bounds a a_ok as (_ & _ & _ & _ & _ & Hcs0).
  pose proof (proj2 (segment_ctx_written src i first last_ seg Hp)) as Hend. fold parts ctx in Hend. fold base in Hend.
  unfold FILE_HEADER_SIZE in *. pose proof (raw_span_nonneg seg.2).
  replace (sat_add (base - 76) (76 + raw_span seg.2)) with (base + raw_span seg.2) in Hend by (unfold sat_add; lia).
  exists (set_chunks (o_chunks o ++ segment_records i seg) o). split; [|split; [done|]].
  - unfold chunk_parts. set (table := table_body _ _).
    change [(str "sectors", concat (map ck_raw seg.2)); (str "table", table); (str "table2", table)]
      with ([(str "sectors", concat (map ck_raw seg.2))] ++ [(str "table", table)] ++ [(str "table2", table)]).
    eapply (opens_app _ _ _ _ _ o); [|apply (opens_app _ _ _ _ _ (set_chunks (o_chunks o ++ segment_records i seg) o))];
      apply opens_one; unfold open_section; cbn [descriptor_at section_type]; rewrite has_table.
    + reflexivity.
    + change (text_eqb (str "table") (str "volume") || text_eqb (str "table") (str "disk")) with false.
      change (text_eqb (str "table") (str "table")) with true. cbn iota.
      unfold segment_records. rewrite <-is_first. fold base.
      apply (open_table_written src (i + 1) i parts (final_name last_) src_serves parts_good (final_name_good _)
               (aq_chunk_size a) _ ((str "table2", table) :: back_parts a last_)); try done; try lia.
      * unfold parts, segment_parts, chunk_parts. fold base table. by rewrite <-!app_assoc.
      * pose proof (proj2 (proj2 (aq_geometry a a_ok))). lia.
    + reflexivity.
  - split; [done|]. cbn [set_chunks o_chunks]. by rewrite Hc.
Qed.

Lemma opens_back o chunks :
  opened false chunks o -> hashes_of o = (None, None) ->
  exists o', opens ctx (front_parts a first seg.1 ++ chunk_parts base seg.2) (back_parts a last_) o o' /\
    opened false chunks o' /\
    hashes_of o' = if last_ then (Some (md5 (aq_media a)), nonzero_digest (sha1 (aq_media a))) else (None, None).
Proof.
  intros [Hg Hc] Hh. injection Hh as Hm Hs. unfold back_parts.
  assert (last_ = true \/ last_ = false) as [El|El] by (clear; destruct last_; auto); rewrite El.
  2: { exists o. split; [apply opens_nil|]. split; [done|]. unfold hashes_of. by rewrite Hm, Hs. }
  set (media := aq_media a). eexists. split; [|split].
  - change [digest_part media; hash_part media] with ([digest_part media] ++ [hash_part media]).
    eapply opens_app; apply opens_one; unfold open_section; cbn [descriptor_at section_type]; rewrite has_table; cbn -[open_digest open_hash].
    + apply (open_digest_written src (i + 1) i parts (final_name last_) src_serves parts_good (final_name_good _)
               _ [hash_part media]); [done|].
      unfold parts, segment_parts, back_parts. rewrite El. fold base media. by rewrite <-!app_assoc.
    + apply (open_hash_written src (i + 1) i parts (final_name last_) src_serves parts_good (final_name_good _)
               _ []); [done|].
      unfold parts, segment_parts, back_parts. rewrite El. fold base media. by rewrite <-!app_assoc.
  - by split.
  - unfold hashes_of. cbn. unfold nonzero_digest at 1. by case_bool_decide.
Qed.

Lemma open_segment_written o chunks :
  opened first chunks o -> hashes_of o = (None, None) ->
  exists o', open_segment false (i, src) o = Ok o' /\
    opened false (chunks ++ segment_records i seg) o' /\
    hashes_of o' = if last_ then (Some (md5 (aq_media a)), nonzero_digest (sha1 (aq_media a))) else (None, None).
Proof.
  intros Ho Hh. destruct (segment_in a a_ok seg seg_in) as (Hp & _).
  destruct (open_prologue src (i + 1) i parts (final_name last_) src_serves parts_good (final_name_good _)
    has_table [] seg.1 ((if first then [volume_part a] else []) ++ chunk_parts base seg.2 ++ back_parts a last_) o)
    as (o1 & Hrun1 & (Hcs & Hts & Hch & Hm & Hs)).
  { unfold parts, segment_parts, front_parts. fold base. by rewrite <-!app_assoc. }
  { done. }
  destruct (opens_volume o1) as (o2 & Hrun2 & Hh2 & Hop2).
  destruct (opens_chunks o2 chunks) as (o3 & Hrun3 & Hh3 & Hop3).
  { apply Hop2. destruct Ho as [Hg Hc]. split; [rewrite Hcs, Hts; exact Hg|congruence]. }
  destruct (opens_back o3 _ Hop3) as (o4 & Hrun4 & Hop4 & Hh4).
  { rewrite Hh3, Hh2. unfold hashes_of in *. by rewrite Hm, Hs. }
  exists o4. split; [|by split]. unfold open_segment.
  rewrite (segment_descriptors_written src (i + 1) parts (final_name last_) src_serves parts_good (final_name_good _)).
  cbn [mbind outcome_bind]. fold ctx. unfold segment_chain. rewrite fold_res_app.
  assert (opens ctx [] parts o o4) as Hall.
  { unfold parts, segment_parts, front_parts. rewrite <-!app_assoc.
    eapply opens_app; [exact Hrun1|]. eapply opens_app; [exact Hrun2|]. eapply opens_app; [exact Hrun3|].
    exact Hrun4. }
  unfold opens in Hall. change (span []) with 0 in Hall. rewrite Z.add_0_r in Hall. rewrite Hall.
  cbn [mbind outcome_bind fold_res]. unfold open_section. cbn [descriptor_at section_type].
  rewrite has_table. by destruct last_.
Qed.
End OneSegment.

(** ** All the segments *)

Definition all_records (k : Z) (segs : list (list part * list stored_chunk)) : list Chunk :=
  concat (map (fun p => segment_records p.1 p.2) (enumerate_from k segs)).

Definition writes_of (k : Z) (segs : list (list part * list stored_chunk)) : list (list byte) :=
  map (write_segment a (zlen (aq_segments a))) (enumerate_from k segs).

Definition media_hashes : option (list byte) * option (list byte) :=
  (Some (md5 (aq_media a)), nonzero_digest (sha1 (aq_media a))).

Lemma open_segments_written segs1 segs2 srcs chunks o :
  aq_segments a = segs1 ++ segs2 -> segs2 <> [] ->
  Forall2 serves srcs (writes_of (zlen segs1) segs2) ->
  opened (zlen segs1 =? 0) chunks o -> hashes_of o = (None, None) ->
  exists o', fold_res (open_segment false) (enumerate_from (zlen segs1) srcs) o = Ok o' /\
    opened false (chunks ++ all_records (zlen segs1) segs2) o' /\ hashes_of o' = media_hashes.
Proof.
  revert segs1 srcs chunks o. induction segs2 as [|seg segs2 IH]; intros segs1 srcs chunks o Hsegs Hne Hsrc Ho Hh; [done|].
  unfold writes_of in Hsrc. cbn [enumerate_from map] in Hsrc.
  inversion Hsrc as [|src ? srcs' ? Hs Hsrc']; subst srcs. subst. unfold write_segment in Hs.
  assert (seg ∈ aq_segments a) as Hin by (rewrite Hsegs; set_solver).
  destruct (open_segment_written src (zlen segs1) _ _ seg Hin eq_refl Hs o chunks Ho Hh)
    as (o1 & Hrun1 & Hop1 & Hh1).
  cbn [enumerate_from fold_res]. rewrite Hrun1. cbn [mbind outcome_bind].
  unfold all_records. cbn [enumerate_from map concat fst snd]. rewrite app_assoc.
  assert (zlen (aq_segments a) = zlen segs1 + 1 + zlen segs2) as Hlen.
  { rewrite Hsegs, zlen_app, zlen_cons. lia. }
  destruct segs2 as [|seg2 segs2].
  - cbn in Hsrc'. inversion Hsrc'. subst. cbn [enumerate_from fold_res map concat].
    rewrite app_nil_r. exists o1. split; [done|]. split; [done|]. rewrite Hh1.
    change (zlen []) with 0 in Hlen. by rewrite (proj2 (Z.eqb_eq _ _)) by lia.
  - assert (zlen (segs1 ++ [seg]) = zlen segs1 + 1) as Hs1 by (rewrite zlen_app, zlen_cons; done).
    pose proof (zlen_nonneg segs1) as Hn1. rewrite zlen_cons in Hlen. pose proof (zlen_nonneg segs2).
    specialize (IH (segs1 ++ [seg]) srcs' (chunks ++ segment_records (zlen segs1) seg) o1).
    rewrite Hs1, (proj2 (Z.eqb_neq (zlen segs1 + 1) 0)) in IH by lia.
    apply IH; [by rewrite <-app_assoc|done|exact Hsrc'|done|].
    rewrite Hh1. by rewrite (proj2 (Z.eqb_neq _ _)) by lia.
Qed.

(** ** The headers *)

Lemma header_written src n p :
  0 <= p.1 < u16_max -> serves src (write_segment a n p) ->
  read_file_header src = Ok {| segment_number := p.1 + 1; kind := Physical |} /\
  SegmentSource_read_at src 8 0 = Ok EVF_SIGNATURE.
Proof.
  destruct p as [i seg]. cbn [fst]. intros Hi Hs. unfold write_segment, segment_bytes in Hs.
  set (tail_ := chain_bytes _ _ ++ _) in Hs. unfold read_file_header, FILE_HEADER_SIZE.
  rewrite !(serves_read (s:=src)) by lia. rewrite zdrop_0. cbn [from_io mbind outcome_bind].
  rewrite (ztake_app_len 13) by by rewrite zlen_file_header_bytes.
  rewrite (ztake_app_le 8) by (rewrite zlen_file_header_bytes; unfold FILE_HEADER_SIZE; lia).
  split; [|done]. unfold zero_filled. rewrite file_header_parse_bytes by lia. done.
Qed.

Lemma zip_map_self {A B} (f : A -> B) l : zip (map f l) l = map (fun x => (f x, x)) l.
Proof. induction l as [|x l IH]; [done|]. cbn. by rewrite IH. Qed.

(** The number a segment carries, as the reader sees it. *)
Definition number_of (src : SegmentSource) : Z :=
  match read_file_header src with Ok h => segment_number h | _ => 0 end.

Section Whole.
Variables (srcs sources : list SegmentSource).
Hypothesis srcs_serve : Forall2 serves srcs (write_image a).
Hypothesis shuffled : sources ≡ₚ srcs.

Lemma written_nth k src :
  srcs !! k = Some src -> exists seg, aq_segments a !! k = Some seg /\
    Z.of_nat k < u16_max /\ serves src (write_segment a (zlen (aq_segments a)) (Z.of_nat k, seg)).
Proof.
  intros Hk. pose proof (aq_numbers a a_ok) as Hn.
  destruct (Forall2_lookup_l _ _ _ _ _ srcs_serve Hk) as (bs & Hbs & Hs).
  unfold write_image in Hbs.
  change (map ?f ?l) with (f <$> l) in Hbs. rewrite list_lookup_fmap in Hbs. unfold enumerate in Hbs.
  rewrite enumerate_from_lookup in Hbs. destruct (aq_segments a !! k) as [seg|] eqn:E; [|done].
  cbn in Hbs. injection Hbs as <-. exists seg. split; [done|]. apply lookup_lt_Some in E. unfold zlen in Hn.
  split; [lia|exact Hs].
Qed.

Lemma source_headers :
  Forall (fun src => read_file_header src = Ok {| segment_number := number_of src; kind := Physical |} /\
                     SegmentSource_read_at src 8 0 = Ok EVF_SIGNATURE) sources.
Proof.
  rewrite shuffled. apply Forall_lookup. intros k src Hk.
  destruct (written_nth k src Hk) as (seg & _ & Hlt & Hs).
  destruct (header_written src _ (Z.of_nat k, seg) ltac:(cbn; lia) Hs) as [Hh Hsig]. split; [|done].
  unfold number_of. rewrite Hh. cbn. done.
Qed.

Lemma numbers_written : map number_of srcs = seqZ 1 (zlen srcs).
Proof.
  apply list_eq. intros k. change (map number_of srcs) with (number_of <$> srcs). rewrite list_lookup_fmap.
  destruct (srcs !! k) as [src|] eqn:E; cbn.
  - destruct (written_nth k src E) as (seg & _ & Hlt & Hs).
    destruct (header_written src _ (Z.of_nat k, seg) ltac:(cbn; lia) Hs) as [Hh _].
    unfold number_of. rewrite Hh. cbn [segment_number fst]. apply lookup_lt_Some in E. symmetry.
    apply lookup_seqZ. unfold zlen. lia.
  - symmetry. apply lookup_seqZ_ge. apply lookup_ge_None in E. unfold zlen. lia.
Qed.

Lemma reorder_written : validate_and_reorder_segments sources (map number_of sources) = Ok srcs.
Proof.
  pose proof (aq_numbers a a_ok) as Hn. pose proof (Forall2_length _ _ _ srcs_serve) as Hl.
  unfold write_image, enumerate in Hl. rewrite length_map, length_enumerate_from in Hl.
  pose proof (Permutation_length shuffled) as Hperm.
  apply (reorder_accepts sources (map number_of sources)); [by rewrite length_map| |].
  { unfold zlen in *. rewrite length_map. lia. }
  rewrite length_map. split; [done|].
  assert (zlen (map number_of sources) = zlen srcs) as ->.
  { unfold zlen. rewrite length_map. by rewrite shuffled. }
  rewrite <-numbers_written, !zip_map_self. by apply Permutation_map.
Qed.
End Whole.

(** ** The pages *)

Lemma records_decode segments src i first last_ seg cks1 cks2 :
  seg ∈ aq_segments a -> get segments i = Some src -> 0 <= i <= u32_max ->
  serves src (segment_bytes (i + 1) (segment_parts a first last_ seg) (final_name last_)) ->
  seg.2 = cks1 ++ cks2 ->
  Forall2 (decodes (aq_chunk_size a) segments)
    (records_from i (aq_chunk_size a) (sectors_base a first seg.1 + raw_span cks1) cks2) cks2.
Proof.
  intros Hin Hget Hi Hs. destruct (segment_in a a_ok seg Hin) as (Hp & _).
  pose proof (segment_chunks a _ seg Hin (aq_chunks_ok a a_ok)) as Hok.
  pose proof aq_bounds a a_ok as (_ & _ & _ & _ & _ & Hcs). pose proof (proj2 (proj2 (aq_geometry a a_ok))) as Hcs'.
  destruct (base_bounds src i first last_ seg Hin Hs) as (Hb1 & Hb2 & Hb3).
  revert cks1. induction cks2 as [|c cks2 IH]; intros cks1 Heq; [constructor|].
  rewrite Heq in Hok. apply Forall_app in Hok as [_ Hc]. apply Forall_cons in Hc as [Hc _].
  assert (FILE_HEADER_SIZE + span (segment_parts a first last_ seg) + 76 <= u64_max) as Hfit by lia.
  pose proof (chunk_at (i + 1) a first last_ seg cks1 c cks2 Hp Hfit Heq) as Hat. cbv zeta in Hat. clear Hfit.
  rewrite Heq, raw_span_app, raw_span_cons in Hb2. pose proof (raw_span_nonneg cks1).
  pose proof (zlen_nonneg (ck_raw c)). pose proof (raw_span_nonneg cks2). unfold FILE_HEADER_SIZE in *.
  cbn [records_from]. constructor.
  - intros id. apply (decode_page_stored (aq_chunk_size a) ltac:(lia) segments i src _ _ c _ id Hget Hs Hi);
      [by apply chunk_ok_holds; [lia|]|lia|exact Hat].
  - replace (sectors_base a first seg.1 + raw_span cks1 + zlen (ck_raw c))
      with (sectors_base a first seg.1 + raw_span (cks1 ++ [c])).
    + apply IH. by rewrite <-app_assoc.
    + rewrite raw_span_app, raw_span_cons. change (raw_span []) with 0. lia.
Qed.

Lemma all_records_decode srcs :
  Forall2 serves srcs (write_image a) ->
  Forall2 (decodes (aq_chunk_size a) srcs) (all_records 0 (aq_segments a)) (aq_chunks a).
Proof.
  intros Hs. unfold all_records, aq_chunks.
  assert (forall k segs, (forall j seg, segs !! j = Some seg -> aq_segments a !! (k + j)%nat = Some seg) ->
    Forall2 (decodes (aq_chunk_size a) srcs)
      (concat (map (fun p => segment_records p.1 p.2) (enumerate_from (Z.of_nat k) segs)))
      (concat (map snd segs))) as Hgen.
  { intros k segs. revert k. induction segs as [|seg segs IH]; intros k Hk; [constructor|].
    cbn [enumerate_from map concat fst snd]. pose proof (Hk 0%nat seg eq_refl) as Hseg. rewrite Nat.add_0_r in Hseg.
    assert (is_Some (srcs !! k)) as [src Hsrc].
    { apply lookup_lt_is_Some. pose proof (Forall2_length _ _ _ Hs) as Hl. unfold write_image, enumerate in Hl.
      rewrite length_map, length_enumerate_from in Hl. apply lookup_lt_Some in Hseg. lia. }
    destruct (written_nth srcs Hs k src Hsrc) as (seg' & Hseg' & Hlt & Hserves).
    rewrite Hseg in Hseg'. injection Hseg' as <-. apply Forall2_app.
    - unfold segment_records. rewrite <-(Z.add_0_r (sectors_base _ _ _)). change 0 with (raw_span []).
      apply (records_decode srcs src (Z.of_nat k) _ (Z.of_nat k =? zlen (aq_segments a) - 1) seg [] seg.2); [by eapply list_elem_of_lookup_2| |lia|exact Hserves|done].
      apply get_spec. rewrite Nat2Z.id. split; [lia|done].
    - replace (Z.of_nat k + 1) with (Z.of_nat (S k)) by lia. apply IH. intros j seg' Hj.
      replace (S k + j)%nat with (k + S j)%nat by lia. by apply Hk. }
  by apply (Hgen 0%nat).
Qed.

Lemma aq_media_stored : media_stored (aq_chunk_size a) (aq_total a) (aq_chunks a).
Proof.
  pose proof aq_bounds a a_ok as (_ & _ & Hp & _ & _ & Hcs). pose proof (aq_covered a a_ok) as Hcov.
  pose proof (aq_count a a_ok) as Hcount. pose proof (aq_geometry a a_ok) as (_ & _ & Hgeo).
  constructor; [lia| |apply (aq_full a a_ok)|lia|nia].
  eapply Forall_impl; [apply (aq_shaped a a_ok)|]. by intros c [Hc _].
Qed.

(** ** The opened image *)
Section Opened.
Variables (srcs sources : list SegmentSource).
Hypothesis srcs_serve : Forall2 serves srcs (write_image a).
Hypothesis shuffled : sources ≡ₚ srcs.

Lemma open_v1_written cache_size :
  exists r, open_v1 sources cache_size None = Ok r /\
    r_segments r = srcs /\ r_chunks r = Eager (all_records 0 (aq_segments a)) /\
    r_chunk_size r = aq_chunk_size a /\ r_total_size r = aq_total a /\
    (r_stored_md5 r, r_stored_sha1 r) = media_hashes.
Proof.
  pose proof aq_bounds a a_ok as (_ & Htot & Hpos & _ & _ & Hcs). pose proof (aq_numbers a a_ok) as Hn.
  pose proof (source_headers srcs sources srcs_serve shuffled) as Hh.
  assert (sources <> []) as Hne.
  { intros Hnil. pose proof (Permutation_length shuffled) as Hl. rewrite Hnil in Hl.
    pose proof (Forall2_length _ _ _ srcs_serve) as Hl2. unfold write_image, enumerate in Hl2.
    rewrite length_map, length_enumerate_from in Hl2. unfold zlen in Hn. cbn in Hl. lia. }
  unfold open_v1. destruct sources as [|first rest] eqn:Es; [done|]. rewrite <-Es in *.
  assert (SegmentSource_read_at first 8 0 = Ok EVF_SIGNATURE) as ->.
  { rewrite Es in Hh. apply Forall_cons in Hh as [[_ Hsig] _]. done. }
  cbn [from_io mbind outcome_bind]. change (is_ewf2_signature (zero_filled 8 EVF_SIGNATURE)) with false. cbn iota.
  set (hd := fun src => {| segment_number := number_of src; kind := Physical |}).
  assert (mapM read_file_header sources = Ok (map hd sources)) as ->.
  { apply mapM_outcome_ok. clear -Hh. induction Hh as [|src l [Hsrc _] _ IH]; constructor; [done|exact IH]. }
  cbn [mbind outcome_bind].
  assert (map segment_number (map hd sources) = map number_of sources) as -> by (by rewrite map_map).
  rewrite (reorder_written srcs sources srcs_serve shuffled). cbn [mbind outcome_bind is_none negb].
  destruct (open_segments_written [] (aq_segments a) srcs [] open_start eq_refl) as (o & Hrun & [Hg Hch] & Hhash).
  { intros Hnil. rewrite Hnil in Hn. change (zlen []) with 0 in Hn. lia. }
  { exact srcs_serve. }
  { by split. }
  { done. }
  change (zlen []) with 0 in Hrun. unfold enumerate. rewrite Hrun. cbn [mbind outcome_bind].
  destruct (Hg eq_refl) as [Hocs Hots]. rewrite Hocs, (proj2 (Z.eqb_neq _ 0)) by lia. cbn [mbind outcome_bind].
  eexists. split; [reflexivity|]. cbn. split; [done|]. split; [by rewrite Hch|]. split; [done|]. split; [|exact Hhash].
  rewrite Es. cbn [map]. unfold media_size_for. rewrite Hots. cbn [kind hd].
  by rewrite (proj2 (Z.eqb_neq _ 0)) by lia.
Qed.

Lemma total_len_written : total_len sources = foldr (fun bs n => zlen bs + n) 0 (write_image a).
Proof.
  rewrite (total_len_perm _ _ shuffled). revert srcs_serve. clear shuffled. generalize (write_image a) as bss.
  induction 1 as [|src bs l l' Hs _ IH]; [done|]. rewrite total_len_cons. cbn. rewrite IH.
  by rewrite (serves_len (s:=src) (bs:=bs)).
Qed.

Lemma written_presented cache_size `{!LruLaws Z (list byte)} :
  exists r im, open_v1 sources cache_size None = Ok r /\ image_ok im /\ presents im 0 r /\
    holds (aq_media a) media_hashes im.
Proof.
  destruct (open_v1_written cache_size) as (r & Hopen & Hseg & Hch & Hcs & Hts & Hhash).
  assert (Forall served sources) as Hserved.
  { rewrite shuffled. apply Forall_lookup. intros k src Hk.
    destruct (Forall2_lookup_l _ _ _ _ _ srcs_serve Hk) as (bs & _ & Hs). by exists bs. }
  destruct (open_presents sources cache_size r Hserved) as (v & Hv & Hok & Hpres).
  { unfold MAX_TABLE_ENTRIES. rewrite total_len_written. apply (aq_length a a_ok). }
  { done. }
  assert (v = all_records 0 (aq_segments a)) as -> by congruence.
  exists r, (image_of r (all_records 0 (aq_segments a))). split; [done|]. split; [done|]. split; [done|].
  rewrite <-Hhash. apply (records_hold (aq_chunk_size a) (aq_total a) (aq_chunks a)); [apply aq_media_stored|done|done|].
  rewrite Hseg. by apply all_records_decode.
Qed.
End Opened.
End Segment.

(** C2: from acquisition to reading.  Take any media, cut it into chunks stored as
    zlib streams or as checksummed pages, spread over any number of segments, and
    write the segment files: whatever backs them, and in whatever order they are
    given, the image opens and the reader has the size of the media; from then on
    and whatever was read before, a read at any offset returns the bytes of the
    media there, and a verification computes the MD5 of the media and finds that it
    is the stored one, as it finds the SHA-1. *)
Theorem written_image_reads `{!DigestsLaws} `{!ZlibLaws} `{!LruLaws Z (list Chunk)} `{!LruLaws Z (list byte)} `{RayonLaws}
    a srcs sources cache_size :
  acquisition_ok a -> Forall2 serves srcs (write_image a) -> sources ≡ₚ srcs ->
  exists r im, open_v1 sources cache_size None = Ok r /\ presents im 0 r /\
    r_total_size r = zlen (aq_media a) /\ answers (aq_media a) im.
Proof.
  intros Ha Hs Hp.
  destruct (written_presented a Ha srcs sources Hs Hp cache_size) as (r & im & Hopen & Hok & Hr & Hm).
  exists r, im. split; [done|]. split; [done|]. split.
  - rewrite (pr_total_size _ _ _ Hr). by destruct Hm as (pages & _ & _ & Hts & _).
  - apply (holds_answers _ _ (nonzero_digest (sha1 (aq_media a)))); [done|exact Hm|].
    unfold nonzero_digest. case_bool_decide; auto.
Qed.
End Open.
