(* ===== verification/AcquireCheck.v ===== *)
(** From the writer of Acquire to the analyser: a written image is analysed without an
    anomaly, and its hashes are those of the media it was written from. *)

From S2P Require Import Prelude Text Extern Types Sections Anomaly IntegrityV1 IntegrityV1Props.
From S2P Require Import Integrity IntegrityApi Acquire.

(** * Computations that find nothing wrong *)

(** [quiet a c]: [c] returns [a] and appends nothing but progress to the log. *)
Definition quiet {A} (a : A) (c : checked A) : Prop :=
  exists ps, forall log, c log = (Ok a, log ++ map Progress ps).

Lemma quiet_ret {A} (a : A) : quiet a (mret a).
Proof. exists []. intros log. by rewrite app_nil_r. Qed.

Lemma quiet_bind {A B} (c : checked A) (f : A -> checked B) a b :
  quiet a c -> quiet b (f a) -> quiet b (c ≫= f).
Proof.
  intros [ps Hc] [qs Hf]. exists (ps ++ qs). intros log.
  by rewrite stateful_bind_run, Hc, Hf, map_app, app_assoc.
Qed.

Lemma quiet_lift {A} (m : outcome Empty_set A) a : m = Ok a -> quiet a (lift m).
Proof. intros ->. apply quiet_ret. Qed.

Lemma quiet_index {A} (l : list A) a b s : slice l a b = Some s -> quiet s (lift (index_range l a b)).
Proof. intros Hs. apply quiet_lift. unfold index_range. by rewrite Hs. Qed.

Lemma quiet_attempt {E A} (m : outcome E A) a : m = Ok a -> quiet (Some a) (attempt m).
Proof. intros ->. apply quiet_ret. Qed.

Lemma quiet_push_if b x : b = false -> quiet tt (push_if b x).
Proof. intros ->. apply quiet_ret. Qed.

Lemma quiet_progress p : quiet tt (emit (Progress p)).
Proof. by exists [p]. Qed.

Lemma quiet_issues {A} (a : A) c : quiet a c -> exists es, c [] = (Ok a, es) /\ issues_of es = [].
Proof.
  intros [ps Hc]. exists (map Progress ps). split; [by rewrite Hc|].
  unfold issues_of. clear Hc. induction ps as [|p ps IH]; [done|exact IH].
Qed.

Lemma quiet_value {A} (a : A) c : quiet a c -> value c = Some a.
Proof. intros [ps Hc]. unfold value. by rewrite Hc. Qed.

(** Progress is no anomaly. *)
Lemma issues_of_progress ps es : issues_of (map Progress ps ++ es) = issues_of es.
Proof. rewrite issues_of_app. assert (issues_of (map Progress ps) = []) as ->; [|done]. unfold issues_of. by induction ps. Qed.

#[export] Hint Resolve quiet_ret quiet_index quiet_attempt quiet_push_if quiet_progress : ewf.

Section Walk.
Context `{SafeReadLaws} `{AdlerLaws} `{Zlib} `{Digests}.

(** What the analyser keeps of a descriptor. *)
Definition section_of (d : SectionDescriptor) : Section_ :=
  {| type_name := section_type d; sec_offset := offset d; sec_size := section_size d |}.

(** The types the walk goes on after. *)
Definition inner_name (n : text) : bool :=
  existsb (text_eqb n) KNOWN_TYPES && negb (text_eqb n (str "done") || text_eqb n (str "next")).

Definition ends_chain (n : text) : bool :=
  existsb (text_eqb n) KNOWN_TYPES && (text_eqb n (str "done") || text_eqb n (str "next")).

Lemma walk_loop_written num front final l1 l2 fuel acc :
  good_parts front -> good_name final ->
  Forall (fun p => inner_name p.1 = true) front -> ends_chain final = true ->
  FILE_HEADER_SIZE + span front + 76 <= i64_max ->
  front = l1 ++ l2 -> (length l2 < fuel)%nat ->
  quiet (acc ++ map section_of (chain (FILE_HEADER_SIZE + span l1) l2
                 ++ [descriptor_at final (FILE_HEADER_SIZE + span front) [] true]))
    (walk_loop fuel (segment_bytes num front final) (FILE_HEADER_SIZE + span l1) acc).
Proof.
  intros Hg Hn Hin Hend Hfit. pose proof (zlen_segment_bytes num front final Hg Hn) as Hlen.
  set (data := segment_bytes num front final) in *. unfold FILE_HEADER_SIZE in *.
  revert l1 fuel acc. induction l2 as [|[n b] l2 IH]; intros l1 fuel acc Hf Hfuel;
    destruct fuel as [|fuel]; try lia; cbn [walk_loop]; unfold desc_size, SECTION_DESCRIPTOR_SIZE.
  - rewrite app_nil_r in Hf. subst l1. pose proof (span_nonneg front).
    unfold sat_add. rewrite !Z.min_r by lia. rewrite (proj2 (Z.ltb_ge _ _)) by lia.
    destruct (final_read num front final Hg Hn ltac:(unfold FILE_HEADER_SIZE; lia)) as (raw & Hraw & Hp & Hv).
    unfold FILE_HEADER_SIZE in *. fold data in Hraw.
    eapply quiet_bind; [by apply quiet_index|]. eapply quiet_bind; [by apply quiet_attempt|].
    cbn beta iota. rewrite Hv. apply andb_true_iff in Hend as [Hk Hd].
    eapply quiet_bind; [apply quiet_ret|]. cbn beta.
    eapply quiet_bind; [apply quiet_push_if; cbn [section_type descriptor_at]; by rewrite Hk|]. cbn beta.
    cbn [section_type descriptor_at]. rewrite Hd.
    apply quiet_ret.
  - pose proof (span_nonneg l1). pose proof (span_nonneg l2). pose proof (zlen_nonneg b).
    assert (span front = span l1 + (76 + zlen b + span l2)) as Hspan by (by rewrite Hf, span_app, span_cons).
    unfold sat_add. rewrite !(Z.min_r u64_max (13 + span l1 + 76)) by lia.
    rewrite (proj2 (Z.ltb_ge _ _)) by lia.
    destruct (link_read num front final l1 n b l2 Hg ltac:(unfold FILE_HEADER_SIZE; lia) Hf)
      as (raw & Hraw & Hp & Hv & _).
    unfold FILE_HEADER_SIZE in *. fold data in Hraw.
    eapply quiet_bind; [by apply quiet_index|]. eapply quiet_bind; [by apply quiet_attempt|].
    cbn beta iota. rewrite Hv. pose proof Hin as Hin'. rewrite Hf in Hin'.
    apply Forall_app in Hin' as [_ Hin']. apply Forall_cons in Hin' as [Hname _]. cbn [fst] in Hname.
    unfold inner_name in Hname. apply andb_true_iff in Hname as [Hk Hd]. apply negb_true_iff in Hd.
    eapply quiet_bind; [apply quiet_ret|]. cbn beta.
    eapply quiet_bind; [apply quiet_push_if; cbn [section_type descriptor_at]; by rewrite Hk|]. cbn beta.
    cbn [section_type descriptor_at next section_size]. rewrite Hd.
    rewrite Z.min_r by lia.
    rewrite (proj2 (Z.eqb_neq (13 + span l1 + (76 + zlen b)) 0)), (proj2 (Z.ltb_ge (zlen data) _)),
      (proj2 (Z.leb_gt _ (13 + span l1))) by lia.
    cbn [orb]. rewrite Z.ltb_irrefl.
    eapply quiet_bind; [apply quiet_ret|]. cbn beta.
    set (acc' := acc ++ [section_of (descriptor_at n (13 + span l1) b false)]). specialize (IH (l1 ++ [(n, b)]) fuel acc').
    rewrite span_app in IH. change (span [(n, b)]) with (76 + zlen b + 0) in IH.
    replace (13 + (span l1 + (76 + zlen b + 0))) with (13 + span l1 + (76 + zlen b)) in IH by lia.
    cbn [chain app map].
    match goal with |- quiet ?x _ => replace x with (acc' ++ map section_of
      (chain (13 + span l1 + (76 + zlen b)) l2 ++ [descriptor_at final (13 + span front) [] true])) end.
    + apply IH; [by rewrite <-app_assoc|cbn in Hfuel; lia].
    + unfold acc'. by rewrite <-app_assoc.
Qed.

Lemma walk_sections_written num front final :
  good_parts front -> good_name final ->
  Forall (fun p => inner_name p.1 = true) front -> ends_chain final = true ->
  FILE_HEADER_SIZE + span front + 76 <= i64_max ->
  quiet (map section_of (segment_chain front final)) (walk_sections_v1 (segment_bytes num front final)).
Proof.
  intros Hg Hn Hin Hend Hfit. unfold walk_sections_v1.
  pose proof (walk_loop_written num front final [] front (S (length (segment_bytes num front final))) []
    Hg Hn Hin Hend Hfit eq_refl) as Hw.
  change (span []) with 0 in Hw. rewrite Z.add_0_r in Hw. apply Hw.
  pose proof (zlen_segment_bytes num front final Hg Hn). pose proof (length_le_span front).
  unfold zlen, FILE_HEADER_SIZE in *. lia.
Qed.
End Walk.

(** * The checks of a written segment *)
Section Segment.
Context `{SafeReadLaws} `{AdlerLaws} `{Zlib} `{DigestsLaws}.
Variable a : acquisition.
Hypothesis a_ok : acquisition_ok a.

(** The geometry the analyser finds ordinary: a power of two of sectors per chunk and
    sectors of 512 or 4096 bytes; any other is an anomaly of its own. *)
Definition standard_geometry : Prop :=
  is_power_of_two (aq_sectors_per_chunk a) = true /\
  (aq_bytes_per_sector a = 512 \/ aq_bytes_per_sector a = 4096).
Hypothesis standard : standard_geometry.

Variables (i : Z) (first last_ : bool) (seg : list part * list stored_chunk).
Hypothesis index : 0 <= i < u16_max.
Hypothesis seg_in : seg ∈ aq_segments a.
Hypothesis is_first : first = (i =? 0).

Let parts := segment_parts a first last_ seg.
Let data := segment_bytes (i + 1) parts (final_name last_).
Let ss := map section_of (segment_chain parts (final_name last_)).
Let base := sectors_base a first seg.1.
Hypothesis fits : FILE_HEADER_SIZE + span parts + 76 <= i64_max.

Lemma zlen_data : zlen data = FILE_HEADER_SIZE + span parts + 76.
Proof.
  apply zlen_segment_bytes; [|apply final_name_good].
  by apply segment_parts_good, (segment_in a a_ok).
Qed.

Lemma parts_inner : Forall (fun p => inner_name p.1 = true) parts.
Proof.
  assert (Forall (fun q => negb (inner_name q.1) = false) parts) as Hf.
  { apply (parts_names a (fun n => negb (inner_name n))); [apply (segment_in a a_ok seg seg_in)|]. repeat constructor. }
  eapply Forall_impl; [exact Hf|]. cbn beta. intros p Hp. by apply negb_false_iff in Hp.
Qed.

Lemma walk_data : quiet ss (walk_sections_v1 data).
Proof.
  apply walk_sections_written; [|apply final_name_good|exact parts_inner|by destruct last_|exact fits].
  by apply segment_parts_good, (segment_in a a_ok).
Qed.

(** Searches of the section list. *)
Lemma find_absent (p : Section_ -> bool) (f : text -> bool) :
  (forall s, p s = f (type_name s)) ->
  Forall (fun n => f n = false)
    ([str "volume"; str "sectors"; str "table"; str "table2"; str "digest"; str "hash"] ++ prologue_names) ->
  f (final_name last_) = false -> List.find p ss = None.
Proof.
  intros Hp Hf Hl. unfold ss, segment_chain. apply (find_chain_none _ _ f).
  - intros d. apply Hp.
  - apply parts_names; [apply (segment_in a a_ok seg seg_in)|done].
  - cbn. rewrite Hp. cbn. by rewrite Hl.
Qed.

Lemma find_sectors :
  find_section (str "sectors") ss
  = Some {| type_name := str "sectors"; sec_offset := base - 76; sec_size := 76 + raw_span seg.2 |}.
Proof.
  unfold find_section, ss, parts.
  by rewrite (find_sectors_part a section_of) by (done || apply (segment_in a a_ok seg seg_in)).
Qed.

Lemma find_table :
  find_section (str "table") ss
  = Some {| type_name := str "table"; sec_offset := table_at a first seg; sec_size := 76 + (24 + 4 * zlen seg.2) |}.
Proof.
  unfold find_section, ss, parts.
  rewrite (find_table_part a section_of) by (done || apply (segment_in a a_ok seg seg_in)).
  unfold section_of. cbn [descriptor_at section_type Sections.offset section_size]. by rewrite zlen_table_body.
Qed.

Lemma find_table2 :
  find_section (str "table2") ss
  = Some {| type_name := str "table2"; sec_offset := table2_at a first seg; sec_size := 76 + (24 + 4 * zlen seg.2) |}.
Proof.
  unfold find_section, ss, parts.
  rewrite (find_table2_part a section_of) by (done || apply (segment_in a a_ok seg seg_in)).
  unfold section_of. cbn [descriptor_at section_type Sections.offset section_size]. by rewrite zlen_table_body.
Qed.

Lemma header_quiet : quiet tt (check_segment_header data i).
Proof.
  unfold check_segment_header.
  assert (exists t, data = EVF_SIGNATURE ++ [byte_of_Z 1] ++ le_bytes 2 (i + 1) ++ t) as [t Ht].
  { unfold data, segment_bytes, file_header_bytes. eexists. by rewrite <-!app_assoc. }
  eapply quiet_bind.
  { apply quiet_index. apply (slice_at [] EVF_SIGNATURE ([byte_of_Z 1] ++ le_bytes 2 (i + 1) ++ t)); done. }
  cbn beta. eapply quiet_bind; [by apply quiet_push_if|]. cbn beta.
  assert (le_u16_at data 9 = i + 1) as ->.
  { unfold le_u16_at, array_at.
    rewrite (slice_at (EVF_SIGNATURE ++ [byte_of_Z 1]) (le_bytes 2 (i + 1)) t);
      [|by rewrite Ht, <-app_assoc|done|by rewrite zlen_le_bytes].
    apply le_combine_le_bytes_small. cbn. lia. }
  rewrite (proj2 (Z.eqb_neq _ _)) by lia. apply quiet_push_if. unfold wrap16, sat_add.
  rewrite Z.min_r, Z.mod_small, Z.eqb_refl by lia. done.
Qed.

(** ** The volume *)

Definition written_geometry : VolumeGeometry :=
  {| g_chunk_count := zlen (aq_chunks a); g_sectors_per_chunk := aq_sectors_per_chunk a;
     g_bytes_per_sector := aq_bytes_per_sector a; g_sector_count := aq_sector_count a;
     g_set_identifier := zeros 16 |}.

Lemma check_geometry_quiet v :
  chunk_count v = zlen (aq_chunks a) -> sectors_per_chunk v = aq_sectors_per_chunk a ->
  bytes_per_sector v = aq_bytes_per_sector a -> sector_count v = aq_sector_count a -> media_type v = 1 ->
  quiet tt (check_geometry v).
Proof.
  intros Hc Hs Hb Hn Hm. pose proof (aq_bounds a a_ok) as (Hpos & _ & _ & Hs32 & _ & _).
  pose proof (aq_count a a_ok) as Hcount. pose proof (aq_covered a a_ok) as [Hlo Hhi].
  pose proof (zlen_pages_le a _ (aq_shaped a a_ok)) as Hpg.
  pose proof (aq_geometry a a_ok) as (Hspc & Hbps & _). destruct standard as [Hpow Hsec].
  unfold check_geometry. rewrite Hc, Hs, Hb, Hn, Hm.
  eapply quiet_bind; [by apply quiet_push_if|]. cbn beta.
  eapply quiet_bind; [apply quiet_push_if; by destruct Hsec as [->| ->]|]. cbn beta.
  rewrite Hpow. eapply quiet_bind; [by apply quiet_push_if; rewrite (proj2 (Z.eqb_neq _ 0)) by lia|]. cbn beta.
  apply quiet_push_if. unfold sat_mul, sat_sub, aq_chunk_size, aq_total in *.
  assert (aq_sector_count a <= zlen (aq_chunks a) * aq_sectors_per_chunk a) as H1' by nia.
  assert ((zlen (aq_chunks a) - 1) * aq_sectors_per_chunk a < aq_sector_count a) as H2' by nia.
  rewrite (Z.min_r u64_max) by nia. apply orb_false_iff. split; [apply Z.ltb_ge; lia|].
  apply andb_false_iff. right. apply Z.leb_gt. lia.
Qed.

Lemma find_volume :
  List.find is_volume ss =
  if first then Some {| type_name := str "volume"; sec_offset := FILE_HEADER_SIZE + span seg.1; sec_size := 76 + 1052 |}
  else None.
Proof.
  destruct (segment_in a a_ok seg seg_in) as (Hp & _). unfold ss, parts.
  rewrite (find_volume_part a section_of is_volume) by done. assert (zlen (volume_part a).2 = 1052) as Hl.
  { apply zlen_full_volume. }
  unfold section_of. cbn [descriptor_at section_type Sections.offset section_size]. by rewrite Hl.
Qed.

Lemma volume_quiet geometry :
  quiet (if first then Some written_geometry else geometry) (check_segment_volume data i ss geometry).
Proof.
  unfold check_segment_volume. rewrite find_volume. rewrite is_first. destruct (i =? 0) eqn:Ei.
  2: { eapply quiet_bind; [by apply quiet_push_if|apply quiet_ret]. }
  cbn [sec_offset sec_size]. pose proof (aq_bounds a a_ok) as (_ & Htot & _ & Hs32 & Hb32 & _).
  pose proof (aq_geometry a a_ok) as (Hspc & Hbps & _). pose proof (aq_count a a_ok) as Hcount.
  assert (0 <= aq_sector_count a <= u64_max) as Hsc.
  { pose proof (aq_bounds a a_ok) as (? & _). unfold aq_total in Htot. nia. }
  destruct (segment_in a a_ok seg seg_in) as (Hp & _).
  set (body := full_volume_body (zlen (aq_chunks a)) (aq_sectors_per_chunk a) (aq_bytes_per_sector a) (aq_sector_count a)).
  destruct (link_read (i + 1) parts (final_name last_) seg.1 (str "volume") body
    (chunk_parts base seg.2 ++ back_parts a last_)) as (_ & _ & _ & _ & Hbody).
  { by apply segment_parts_good. }
  { lia. }
  { unfold parts, segment_parts, front_parts, base. by rewrite is_first, <-!app_assoc. }
  fold data in Hbody. assert (zlen body = 1052) as Hbl by apply zlen_full_volume.
  pose proof (slice_bounds _ _ _ _ Hbody) as [Hlo Hhi]. pose proof zlen_data as Hd. rewrite Hbl in *.
  unfold check_volume_v1, desc_size, SECTION_DESCRIPTOR_SIZE, VOLUME_DATA_MIN, sat_add, sat_sub, FILE_HEADER_SIZE in *.
  rewrite !(Z.min_r u64_max (13 + span seg.1 + 76)) by lia. rewrite !(Z.min_r u64_max (13 + span seg.1 + 76 + _)) by lia.
  rewrite (proj2 (Z.ltb_ge _ _)) by lia.
  replace (Z.min (13 + span seg.1 + 76 + Z.max 0 (76 + 1052 - 76)) (zlen data)) with (13 + span seg.1 + 76 + 1052) by lia.
  eapply quiet_bind; [by apply quiet_index|]. cbn beta.
  destruct (full_volume_read (zlen (aq_chunks a)) (aq_sectors_per_chunk a) (aq_bytes_per_sector a) (aq_sector_count a) 1052)
    as (v & Hv & Hv1 & Hv2 & Hv3 & Hv4 & Hv5 & Hv6 & Hcrc); try lia.
  fold body in Hv, Hcrc. rewrite (ztake_all 1052 body) in Hv, Hcrc by lia.
  eapply quiet_bind; [by apply quiet_attempt|]. cbn beta iota.
  eapply quiet_bind; [by apply check_geometry_quiet|]. cbn beta.
  rewrite bool_decide_false by done. eapply quiet_bind; [apply quiet_ret|]. cbn beta.
  unfold written_geometry. rewrite Hv1, Hv2, Hv3, Hv4, Hv6. apply quiet_ret.
Qed.

(** ** The tables *)

Lemma fit_u64 : FILE_HEADER_SIZE + span parts + 76 <= u64_max.
Proof. lia. Qed.

Lemma tables_in :
  holds_table data (table_at a first seg + 76) base seg.2 /\
  holds_table data (table2_at a first seg + 76) base seg.2.
Proof. apply tables_written; [apply (segment_in a a_ok seg seg_in)|exact fit_u64]. Qed.

Lemma places :
  89 <= base /\ table_at a first seg = base + raw_span seg.2 /\
  table_at a first seg + 76 + (24 + 4 * zlen seg.2) <= zlen data /\
  table2_at a first seg + 76 + (24 + 4 * zlen seg.2) <= zlen data /\ zlen data <= i64_max.
Proof.
  destruct tables_in as [Ht Ht2]. apply slice_bounds in Ht as [_ Ht]. apply slice_bounds in Ht2 as [_ Ht2].
  pose proof (sectors_base_bounds a first last_ seg) as [Hb _]. rewrite zlen_data in *.
  split_and!; try done; lia.
Qed.

Lemma chunk_place cks1 c cks2 :
  seg.2 = cks1 ++ c :: cks2 ->
  0 < zlen (ck_raw c) /\ raw_span seg.2 = raw_span cks1 + zlen (ck_raw c) + raw_span cks2 /\
  0 <= raw_span cks1 /\ 0 <= raw_span cks2 /\ raw_span seg.2 < 2147483648.
Proof.
  intros Heq. destruct (segment_in a a_ok seg seg_in) as (_ & Hok & Hraw & _).
  rewrite Heq in Hok. apply Forall_app in Hok as [_ Hok]. apply Forall_cons in Hok as [Hc _].
  split; [apply Hc|]. split; [rewrite Heq, raw_span_app, raw_span_cons; lia|].
  split; [apply raw_span_nonneg|]. split; [apply raw_span_nonneg|done].
Qed.

Lemma check_entries_quiet fuel cks1 cks2 :
  seg.2 = cks1 ++ cks2 -> (length cks2 < fuel)%nat ->
  quiet tt (check_entries fuel (zlen cks1) (zlen seg.2) data (table_at a first seg + 100) base (zlen data)
              (Some (base, base + raw_span seg.2))).
Proof.
  destruct places as (Hb & Htab & Hend & _ & Hmax). destruct tables_in as [Ht _].
  revert cks1 fuel. induction cks2 as [|c cks2 IH]; intros cks1 fuel Heq Hfuel; destruct fuel as [|fuel]; try lia;
    cbn [check_entries].
  { rewrite app_nil_r in Heq. rewrite Heq, Z.leb_refl. apply quiet_ret. }
  destruct (chunk_place cks1 c cks2 Heq) as (Hc & Hsum & H1' & H2' & Hraw).
  assert (zlen seg.2 = zlen cks1 + 1 + zlen cks2) as Hlen by (rewrite Heq, zlen_app, zlen_cons; lia).
  pose proof (zlen_nonneg cks1). pose proof (zlen_nonneg cks2).
  rewrite (proj2 (Z.leb_gt _ _)) by lia.
  destruct (table_entry_in _ _ _ _ cks1 c cks2 Ht Heq Hraw Hc) as (bytes & Hs & Hp).
  unfold sat_mul, sat_add. rewrite (Z.min_r u64_max (zlen cks1 * 4)), !Z.min_r by lia.
  replace (table_at a first seg + 100 + zlen cks1 * 4) with (table_at a first seg + 76 + 24 + zlen cks1 * 4) by lia.
  rewrite Hs. eapply quiet_bind; [by apply quiet_attempt|]. cbn beta iota.
  cbn [chunk_offset]. eapply quiet_bind.
  { unfold check_entry. rewrite (proj2 (Z.leb_gt _ _)) by lia.
    apply quiet_push_if. apply orb_false_iff. split; [apply Z.ltb_ge|apply Z.leb_gt]; lia. }
  cbn beta. replace (zlen cks1 + 1) with (zlen (cks1 ++ [c])) by (rewrite zlen_app; done).
  apply IH; [by rewrite <-app_assoc|cbn in Hfuel; lia].
Qed.

Lemma table_quiet vc total :
  (forall n, vc = Some n -> n = zlen seg.2) ->
  quiet (sat_add32 total (zlen seg.2)) (check_segment_table data vc ss total).
Proof.
  intros Hvc. destruct places as (Hb & Htab & Hend & _ & Hmax). destruct tables_in as [Ht _].
  destruct (segment_in a a_ok seg seg_in) as (_ & _ & Hraw & Hcount). pose proof (zlen_nonneg seg.2).
  pose proof (raw_span_nonneg seg.2). pose proof (table_header_in _ _ _ _ Ht) as Hh.
  unfold check_segment_table. rewrite find_sectors, find_table.
  eapply quiet_bind; [apply quiet_push_if; by apply bool_decide_false|]. cbn beta.
  cbn [fmap option_fmap option_map sec_offset sec_size].
  unfold desc_size, SECTION_DESCRIPTOR_SIZE. unfold sat_add.
  rewrite !(Z.min_r u64_max) by lia.
  replace (base - 76 + 76) with base by lia.
  replace (base - 76 + (76 + raw_span seg.2)) with (base + raw_span seg.2) by lia.
  rewrite (proj2 (Z.leb_le _ _)) by lia.
  assert (le_u32_at data (table_at a first seg + 76) = zlen seg.2) as ->.
  { unfold le_u32_at, array_at, sat_add. rewrite Z.min_r by lia.
    pose proof (slice_slice _ _ _ 0 4 _ Hh ltac:(lia) ltac:(lia)) as Hs. rewrite Z.add_0_r in Hs.
    rewrite <-Hs. unfold table_header_bytes. rewrite <-!app_assoc.
    erewrite (slice_at [] (le_bytes 4 (zlen seg.2))); [|done|done|by rewrite zlen_le_bytes].
    apply le_combine_le_bytes_small. cbn. lia. }
  eapply quiet_bind; [|apply quiet_ret].
  unfold check_table_v1, desc_size, SECTION_DESCRIPTOR_SIZE, TABLE_HEADER_SIZE, sat_add.
  rewrite !(Z.min_r u64_max) by lia. rewrite (proj2 (Z.ltb_ge _ _)) by lia.
  destruct (table_suffix _ _ _ _ Ht) as [rest Htail].
  eapply quiet_bind; [by apply quiet_index|]. cbn beta.
  destruct (table_header_read base (zlen seg.2) rest) as (_ & _ & crc & Hp & Hv); [lia|lia|].
  eapply quiet_bind; [by apply quiet_attempt|]. cbn beta iota.
  rewrite bool_decide_false by done. eapply quiet_bind; [apply quiet_ret|]. cbn beta.
  cbn [entry_count base_offset]. eapply quiet_bind.
  { destruct vc as [n|]; [|apply quiet_ret]. apply quiet_push_if. rewrite (Hvc n eq_refl), Z.eqb_refl. done. }
  cbn beta. replace (table_at a first seg + 76 + 24) with (table_at a first seg + 100) by lia.
  apply (check_entries_quiet _ [] seg.2); [done|]. unfold zlen in *. lia.
Qed.

Lemma first_difference_refl b : first_difference b b = None.
Proof.
  unfold first_difference, position. apply position_from_none.
  induction b as [|x b IH]; constructor; [|done]. cbn. by rewrite bool_decide_true.
Qed.

Lemma table2_quiet : quiet tt (check_table2 data ss).
Proof.
  destruct places as (Hb & Htab & Hend & Hend2 & Hmax). destruct tables_in as [Ht Ht2].
  pose proof (zlen_nonneg seg.2). pose proof (raw_span_nonneg seg.2).
  unfold check_table2. rewrite find_table, find_table2.
  unfold section_body, desc_size, SECTION_DESCRIPTOR_SIZE, sat_add. cbn [sec_offset sec_size].
  assert (table_at a first seg <= table2_at a first seg) by (unfold table2_at; lia).
  rewrite !(Z.min_r u64_max) by lia. unfold holds_table in Ht, Ht2.
  rewrite (Z.add_assoc (table_at _ _ _) 76), (Z.add_assoc (table2_at _ _ _) 76), Ht, Ht2.
  rewrite Z.eqb_refl, first_difference_refl. apply quiet_ret.
Qed.

Lemma error2_quiet : quiet tt (check_error2 data ss).
Proof.
  unfold check_error2, find_section. rewrite (find_absent _ (fun n => text_eqb n (str "error2"))).
  - apply quiet_ret.
  - done.
  - repeat constructor.
  - by destruct last_.
Qed.

Lemma done_found : last_ = true -> existsb (named (str "done")) ss = true.
Proof.
  intros El. apply existsb_exists.
  exists (section_of (descriptor_at (str "done") (FILE_HEADER_SIZE + span parts) [] true)).
  split; [|apply text_eqb_refl].
  unfold ss, segment_chain. rewrite map_app, El. apply in_or_app. right. left. reflexivity.
Qed.

(** ** The whole round *)
Lemma analyse_segment_quiet n st :
  last_ = (i =? n - 1) -> 0 < n -> (i = 0 -> n = 1 -> zlen seg.2 = zlen (aq_chunks a)) ->
  quiet {| v1_geometry := if first then Some written_geometry else v1_geometry st;
           v1_all_sections := v1_all_sections st ++ [ss];
           v1_total_entries := sat_add32 (v1_total_entries st) (zlen seg.2) |}
    (analyse_segment_v1 n i data st).
Proof.
  intros Hl Hn Hone. destruct places as (Hb & Htab & Hend & _ & Hmax). pose proof (zlen_nonneg seg.2).
  unfold analyse_segment_v1. pose proof (raw_span_nonneg seg.2).
  rewrite (proj2 (Z.ltb_ge _ _)) by (unfold FILE_HEADER_SIZE; lia).
  eapply quiet_bind; [exact header_quiet|]. cbn beta. eapply quiet_bind; [exact walk_data|]. cbn beta.
  eapply quiet_bind; [apply volume_quiet|]. cbn beta. eapply quiet_bind.
  { apply table_quiet. intros m Hm. destruct (1 <? n) eqn:En, (i =? 0) eqn:Ei; cbn in Hm; try done. bool_hyps.
    rewrite is_first in Hm. cbn in Hm. injection Hm as <-. symmetry. apply Hone; lia. }
  cbn beta. eapply quiet_bind; [exact table2_quiet|]. cbn beta.
  eapply quiet_bind; [exact error2_quiet|]. cbn beta. eapply quiet_bind; [|apply quiet_ret].
  apply quiet_push_if. unfold sat_sub. rewrite Z.max_r by lia. rewrite <-Hl.
  destruct (bool_dec last_ true) as [Et|Et].
  - rewrite (done_found Et). by rewrite Et.
  - apply not_true_is_false in Et. by rewrite Et.
Qed.

(** ** The chunks *)

Lemma entry_at_written cks1 c cks2 :
  seg.2 = cks1 ++ c :: cks2 ->
  entry_at data (table_at a first seg + 100) (zlen cks1) = Some (ck_compressed c, raw_span cks1).
Proof.
  intros Heq. destruct places as (Hb & Htab & Hend & _ & Hmax). destruct tables_in as [Ht _].
  destruct (chunk_place cks1 c cks2 Heq) as (Hc & Hsum & H1' & H2' & Hraw).
  assert (zlen seg.2 = zlen cks1 + 1 + zlen cks2) as Hlen by (rewrite Heq, zlen_app, zlen_cons; lia).
  pose proof (zlen_nonneg cks1). pose proof (zlen_nonneg cks2).
  destruct (table_entry_in _ _ _ _ cks1 c cks2 Ht Heq Hraw Hc) as (bytes & Hs & Hp).
  unfold entry_at, sat_mul, sat_add. rewrite (Z.min_r u64_max (zlen cks1 * 4)), !Z.min_r by lia.
  replace (table_at a first seg + 100 + zlen cks1 * 4) with (table_at a first seg + 76 + 24 + zlen cks1 * 4) by lia.
  rewrite Hs. cbn [mbind option_bind]. by rewrite Hp.
Qed.

Lemma segment_chunks_written fuel cks1 cks2 :
  seg.2 = cks1 ++ cks2 -> (length cks2 < fuel)%nat ->
  segment_chunks_loop fuel data (table_at a first seg + 100) base (zlen seg.2) (base + raw_span seg.2) (zlen cks1)
  = extents_from (base + raw_span cks1) cks2.
Proof.
  destruct places as (Hb & Htab & Hend & _ & Hmax).
  revert cks1 fuel. induction cks2 as [|c cks2 IH]; intros cks1 fuel Heq Hfuel; destruct fuel as [|fuel]; try lia;
    cbn [segment_chunks_loop].
  { rewrite app_nil_r in Heq. by rewrite Heq, Z.leb_refl. }
  destruct (chunk_place cks1 c cks2 Heq) as (Hc & Hsum & H1' & H2' & Hraw).
  assert (zlen seg.2 = zlen cks1 + 1 + zlen cks2) as Hlen by (rewrite Heq, zlen_app, zlen_cons; lia).
  pose proof (zlen_nonneg cks1). pose proof (zlen_nonneg cks2).
  rewrite (proj2 (Z.leb_gt _ _)) by lia. rewrite (entry_at_written _ _ _ Heq).
  unfold sat_add. rewrite (Z.min_r u64_max (base + raw_span cks1)), (Z.min_r u64_max (zlen cks1 + 1)) by lia.
  assert (seg.2 = (cks1 ++ [c]) ++ cks2) as Heq2 by (by rewrite <-app_assoc).
  assert (raw_span (cks1 ++ [c]) = raw_span cks1 + zlen (ck_raw c)) as Hnext.
  { rewrite raw_span_app, raw_span_cons. change (raw_span []) with 0. lia. }
  assert (zlen (cks1 ++ [c]) = zlen cks1 + 1) as Hidx by (rewrite zlen_app; done).
  match goal with |- context [if zlen cks1 + 1 <? zlen seg.2 then ?x else ?y] =>
    assert ((if zlen cks1 + 1 <? zlen seg.2 then x else y) = Some (base + raw_span cks1 + zlen (ck_raw c))) as -> end.
  { destruct cks2 as [|c2 cks2].
    - change (zlen []) with 0 in Hlen. rewrite (proj2 (Z.ltb_ge _ _)) by lia.
      change (raw_span []) with 0 in Hsum. f_equal. lia.
    - rewrite (zlen_cons c2) in Hlen. pose proof (zlen_nonneg cks2).
      rewrite (proj2 (Z.ltb_lt _ _)) by lia. rewrite <-Hidx, (entry_at_written _ _ _ Heq2), Hnext.
      cbn [mbind option_bind]. f_equal. lia. }
  rewrite (proj2 (Z.leb_gt _ _)), (proj2 (Z.ltb_ge _ _)) by lia. cbn [orb extents_from]. f_equal.
  rewrite <-Hidx. rewrite (IH (cks1 ++ [c]) fuel Heq2) by (cbn in Hfuel; lia). by rewrite Hnext, Z.add_assoc.
Qed.

Lemma iter_chunks_quiet : quiet (extents_from base seg.2) (iter_segment_chunks data ss).
Proof.
  destruct places as (Hb & Htab & Hend & _ & Hmax). destruct tables_in as [Ht _].
  destruct (segment_in a a_ok seg seg_in) as (_ & _ & Hraw & Hcount). pose proof (zlen_nonneg seg.2).
  pose proof (raw_span_nonneg seg.2).
  unfold iter_segment_chunks. rewrite find_table, find_sectors. cbn [sec_offset sec_size].
  unfold desc_size, SECTION_DESCRIPTOR_SIZE, TABLE_HEADER_SIZE, sat_add.
  rewrite !(Z.min_r u64_max) by lia. rewrite (proj2 (Z.ltb_ge _ _)) by lia.
  destruct (table_suffix _ _ _ _ Ht) as [rest Htail].
  eapply quiet_bind; [by apply quiet_index|]. cbn beta.
  destruct (table_header_read base (zlen seg.2) rest) as (_ & _ & crc & Hp & _); [lia|lia|].
  eapply quiet_bind; [by apply quiet_attempt|]. cbn beta iota. cbn [entry_count base_offset].
  replace (table_at a first seg + 76 + 24) with (table_at a first seg + 100) by lia.
  replace (base - 76 + (76 + raw_span seg.2)) with (base + raw_span seg.2) by lia.
  change 0 with (zlen (@nil stored_chunk)) at 1. rewrite (segment_chunks_written _ [] seg.2).
  - change (raw_span []) with 0. rewrite Z.add_0_r. apply quiet_ret.
  - done.
  - unfold zlen in *. lia.
Qed.

(** ** Hashing *)

(** The locals of the hash loops after the chunks [cks] of the image. *)
Definition hash_after (cks : list stored_chunk) : hash_state :=
  {| hs_remaining := aq_total a - zlen (after_chunks a cks); hs_data := after_chunks a cks;
     hs_chunk_idx := zlen cks |}.

(** The bytes a chunk gives to the hashers. *)
Lemma chunk_data_written c n :
  chunk_ok (aq_chunk_size a) c -> 0 < n <= zlen (ck_page c) -> n <= i64_max ->
  chunk_data (ck_compressed c) (ck_raw c) n = Some (ztake n (ck_page c)).
Proof.
  intros [Hp Hok] Hn Hmax. unfold chunk_data, sat_add. destruct (ck_compressed c).
  - destruct Hok as [_ [_ Hall]]. rewrite Z.min_r by lia. rewrite (Hall (Some (n + 1))) by (cbn; lia).
    cbn [mbind option_bind]. f_equal. rewrite ztake_ztake by lia. rewrite zlen_ztake. f_equal. lia.
  - destruct Hok as [Hl ->]. f_equal. rewrite zlen_app, zlen_le_bytes.
    rewrite ztake_app_le by lia. f_equal. lia.
Qed.

Lemma chunk_checksum_quiet idx c :
  chunk_ok (aq_chunk_size a) c -> aq_chunk_size a <= 64 * 1024 * 1024 ->
  quiet tt (check_chunk_checksum idx (aq_chunk_size a) (ck_compressed c) (ck_raw c)).
Proof.
  intros [Hp Hok] Hcs. unfold check_chunk_checksum. destruct (ck_compressed c); [apply quiet_ret|].
  destruct Hok as [Hl Hraw]. destruct (_ && _) eqn:E; [|apply quiet_ret].
  eapply quiet_bind.
  { apply quiet_index. apply (slice_at [] (ck_page c) (le_bytes 4 (adler32 (ck_page c)))); [done|done|lia]. }
  cbn beta. apply quiet_push_if. apply negb_false_iff, Z.eqb_eq. symmetry.
  unfold le_u32_at, array_at, sat_add. rewrite Z.min_r by lia.
  rewrite (slice_at (ck_page c) (le_bytes 4 (adler32 (ck_page c))) []).
  - apply le_combine_le_bytes_small. pose proof (adler32_range (ck_page c)) as Hr. unfold adler32. cbn. lia.
  - by rewrite app_nil_r.
  - lia.
  - by rewrite zlen_le_bytes.
Qed.

Lemma hash_chunks_quiet done_ rest cks1 cks2 :
  aq_chunks a = done_ ++ cks2 ++ rest -> seg.2 = cks1 ++ cks2 ->
  quiet (hash_after (done_ ++ cks2), false)
    (hash_chunks data (aq_chunk_size a) (aq_total a) (extents_from (base + raw_span cks1) cks2) (hash_after done_)).
Proof.
  revert done_ cks1. induction cks2 as [|c cks2 IH]; intros done_ cks1 Hall Heq.
  { rewrite app_nil_r. apply quiet_ret. }
  cbn [extents_from hash_chunks]. cbn [app] in Hall.
  destruct (chunk_step a a_ok done_ c (cks2 ++ rest) Hall) as (Hleft & Htake & Hafter & Hrem).
  pose proof (aq_bounds a a_ok) as (_ & Htot & Hpos & _ & _ & Hcs).
  pose proof (aq_geometry a a_ok) as (_ & _ & Hcs').
  destruct (segment_in a a_ok seg seg_in) as (Hp & _).
  pose proof (segment_chunks a _ seg seg_in (aq_chunks_ok a a_ok)) as Hok. rewrite Heq in Hok.
  apply Forall_app in Hok as [_ Hok]. apply Forall_cons in Hok as [Hc _].
  cbn [hash_after hs_remaining hs_data hs_chunk_idx]. rewrite (proj2 (Z.eqb_neq _ 0)) by lia.
  eapply quiet_bind; [apply quiet_index, (chunk_at (i + 1) a first last_ seg cks1 c cks2 Hp fit_u64 Heq)|].
  cbn beta. eapply quiet_bind; [by apply chunk_checksum_quiet|]. cbn beta.
  rewrite chunk_data_written by (done || lia).
  eapply quiet_bind; [apply quiet_progress|]. cbn beta.
  specialize (IH (done_ ++ [c]) (cks1 ++ [c])). rewrite <-!app_assoc in IH. cbn [app] in IH.
  specialize (IH Hall Heq).
  assert (raw_span (cks1 ++ [c]) = raw_span cks1 + zlen (ck_raw c)) as Hnext.
  { rewrite raw_span_app, raw_span_cons. change (raw_span []) with 0. lia. }
  rewrite Hnext, Z.add_assoc in IH.
  match goal with |- quiet _ (hash_chunks _ _ _ _ ?h) => replace h with (hash_after (done_ ++ [c])) end; [exact IH|].
  unfold hash_after. rewrite Hrem, Hafter. f_equal.
  - unfold sat_sub. lia.
  - pose proof (aq_count a a_ok) as Hn. rewrite Hall, zlen_app, zlen_cons in Hn.
    pose proof (zlen_nonneg (cks2 ++ rest)). unfold sat_add. rewrite zlen_app. change (zlen [c]) with 1. lia.
Qed.

(** ** The stored hashes *)

(** The section of [back_parts] after [l1] is found by its type, and its body is there. *)
Lemma back_part_read l1 n b l2 :
  back_parts a last_ = l1 ++ (n, b) :: l2 ->
  Forall (fun m => text_eqb m n = false)
    ([str "volume"; str "sectors"; str "table"; str "table2"] ++ prologue_names) ->
  Forall (fun q => text_eqb q.1 n = false) l1 ->
  exists off, find_section n ss = Some {| type_name := n; sec_offset := off; sec_size := 76 + zlen b |} /\
    0 <= off /\ slice data (off + 76) (off + 76 + zlen b) = Some b.
Proof.
  intros Hback Hn Hl1. destruct (segment_in a a_ok seg seg_in) as (Hp & _).
  set (l := front_parts a first seg.1 ++ chunk_parts base seg.2 ++ l1).
  assert (parts = l ++ (n, b) :: l2) as Hparts.
  { unfold parts, segment_parts, l. rewrite Hback. fold base. by rewrite <-!app_assoc. }
  assert (Forall (fun q => text_eqb q.1 n = false) l) as Hl.
  { apply Forall_app in Hn as [Hn1 Hn2]. unfold l, chunk_parts.
    apply Forall_app; split; [|apply Forall_app; split; [|done]].
    - apply (front_parts_names (fun m => text_eqb m n)); [done|]. constructor; [|done].
      by apply Forall_cons in Hn1 as [? _].
    - repeat (apply Forall_cons in Hn1 as [? Hn1]). by repeat constructor. }
  exists (FILE_HEADER_SIZE + span l). split; [|split].
  - unfold find_section, ss, segment_chain. rewrite Hparts.
    rewrite (find_chain section_of (named n) (fun m => text_eqb m n)); [done|done|done|apply text_eqb_refl].
  - pose proof (span_nonneg l). unfold FILE_HEADER_SIZE. lia.
  - destruct (link_read (i + 1) parts (final_name last_) l n b l2) as (_ & _ & _ & _ & Hb).
    + by apply segment_parts_good.
    + exact fit_u64.
    + exact Hparts.
    + exact Hb.
Qed.

Lemma stored_md5_written : last_ = true -> stored_md5_events data ss (md5 (aq_media a)) = [].
Proof.
  intros El. destruct (back_part_read [digest_part (aq_media a)] (str "hash") (hash_part (aq_media a)).2 [])
    as (off & Hfind & Hoff & Hs).
  { by rewrite El. }
  { repeat constructor. }
  { repeat constructor. }
  destruct places as (_ & _ & _ & _ & Hmax). pose proof (slice_bounds _ _ _ _ Hs) as [Hlo Hhi].
  assert (zlen (hash_part (aq_media a)).2 = 36) as Hl.
  { unfold hash_part. cbn [snd]. by rewrite !zlen_app, length_md5, zlen_le_bytes. }
  unfold stored_md5_events. rewrite Hfind. cbn [sec_offset]. unfold desc_size, SECTION_DESCRIPTOR_SIZE, sat_add.
  rewrite !(Z.min_r u64_max) by lia.
  pose proof (slice_slice _ _ _ 0 16 _ Hs ltac:(lia) ltac:(lia)) as Hss. rewrite Z.add_0_r in Hss.
  rewrite <-Hss. unfold hash_part. cbn [snd]. rewrite <-!app_assoc.
  rewrite (slice_at [] (md5 (aq_media a)) (zeros 16 ++ le_bytes 4 (adler32 (md5 (aq_media a) ++ zeros 16))));
    [|done|done|by rewrite length_md5].
  unfold mismatch_if. by rewrite bool_decide_true.
Qed.

Lemma stored_sha1_written : last_ = true -> stored_sha1_events data ss (sha1 (aq_media a)) = [].
Proof.
  intros El. destruct (back_part_read [] (str "digest") (digest_part (aq_media a)).2 [hash_part (aq_media a)])
    as (off & Hfind & Hoff & Hs).
  { by rewrite El. }
  { repeat constructor. }
  { repeat constructor. }
  destruct places as (_ & _ & _ & _ & Hmax). pose proof (slice_bounds _ _ _ _ Hs) as [Hlo Hhi].
  assert (zlen (digest_part (aq_media a)).2 = 80) as Hl.
  { unfold digest_part. cbn [snd]. by rewrite !zlen_app, length_md5, length_sha1, zlen_le_bytes. }
  unfold stored_sha1_events. rewrite Hfind. cbn [sec_offset]. unfold desc_size, SECTION_DESCRIPTOR_SIZE, sat_add.
  rewrite !(Z.min_r u64_max) by lia. pose proof (slice_slice _ _ _ 16 36 _ Hs ltac:(lia) ltac:(lia)) as Hss.
  rewrite <-Hss. unfold digest_part. cbn [snd]. rewrite <-!app_assoc.
  rewrite (slice_at (md5 (aq_media a)) (sha1 (aq_media a))
    (zeros 40 ++ le_bytes 4 (adler32 (md5 (aq_media a) ++ sha1 (aq_media a) ++ zeros 40))));
    [|done|by rewrite length_md5|by rewrite length_sha1].
  cbn [mbind option_bind]. case_bool_decide; [done|]. unfold mismatch_if. by rewrite bool_decide_true.
Qed.
End Segment.

(** * The whole image *)
Section Whole.
Context `{SafeReadLaws} `{AdlerLaws} `{Zlib} `{DigestsLaws}.
Variable a : acquisition.
Hypothesis a_ok : acquisition_ok a.
Hypothesis standard : standard_geometry a.

Let n := zlen (aq_segments a).

(** The sections of segment [i]. *)
Definition written_sections (p : Z * (list part * list stored_chunk)) : list Section_ :=
  map section_of (segment_chain (segment_parts a (p.1 =? 0) (p.1 =? n - 1) p.2) (final_name (p.1 =? n - 1))).

Lemma analyse_segments_quiet segs1 segs2 st :
  aq_segments a = segs1 ++ segs2 ->
  v1_geometry st = (if zlen segs1 =? 0 then None else Some (written_geometry a)) ->
  v1_total_entries st = zlen (concat (map snd segs1)) ->
  quiet {| v1_geometry := Some (written_geometry a);
           v1_all_sections := v1_all_sections st ++ map written_sections (enumerate_from (zlen segs1) segs2);
           v1_total_entries := zlen (aq_chunks a) |}
    (analyse_segments_v1 n (enumerate_from (zlen segs1) (map (write_segment a n) (enumerate_from (zlen segs1) segs2))) st).
Proof.
  revert segs1 st. induction segs2 as [|seg segs2 IH]; intros segs1 st Heq Hg Ht.
  - cbn. rewrite app_nil_r in *. unfold aq_chunks. rewrite Heq, <-Ht. destruct st as [g all t]. cbn in *.
    pose proof (aq_numbers a a_ok) as Hn. rewrite Heq in Hn. rewrite (proj2 (Z.eqb_neq _ _)) in Hg by lia.
    rewrite Hg. apply quiet_ret.
  - destruct (segment_at a a_ok _ _ _ Heq) as (Hi & Hin & Hfit).
    pose proof (aq_numbers a a_ok) as Hn. pose proof (zlen_nonneg segs1) as Hl1.
    pose proof (aq_count a a_ok) as Hcount.
    assert (zlen (aq_chunks a) = zlen (concat (map snd segs1)) + zlen seg.2 + zlen (concat (map snd segs2))) as Hsum.
    { unfold aq_chunks. rewrite Heq, map_app, concat_app, zlen_app. cbn [map concat]. rewrite zlen_app. lia. }
    pose proof (zlen_nonneg (concat (map snd segs1))). pose proof (zlen_nonneg (concat (map snd segs2))).
    pose proof (zlen_nonneg seg.2).
    cbn [enumerate_from map analyse_segments_v1]. unfold write_segment at 1.
    eapply quiet_bind.
    { apply (analyse_segment_quiet a a_ok standard (zlen segs1) (zlen segs1 =? 0) (zlen segs1 =? n - 1) seg Hi Hin eq_refl Hfit n st);
        [done|unfold n; lia|].
      intros Hz Hone. unfold n in Hone. rewrite Heq, zlen_app, zlen_cons in Hone.
      assert (segs1 = [] /\ segs2 = []) as [-> ->] by (split; apply nil_length_inv; unfold zlen in *; lia).
      change (zlen (concat (map snd []))) with 0 in Hsum. lia. }
    cbn beta. specialize (IH (segs1 ++ [seg])). rewrite zlen_app in IH. change (zlen [seg]) with 1 in IH.
    match goal with |- quiet _ (analyse_segments_v1 _ _ ?st') => specialize (IH st') end.
    cbn [v1_all_sections] in IH. unfold written_sections at 1. cbn [fst snd]. rewrite <-!app_assoc in IH. cbn [app] in IH.
    apply IH.
    + done.
    + cbn [v1_geometry]. rewrite Hg. rewrite (proj2 (Z.eqb_neq (zlen segs1 + 1) 0)) by lia. by destruct (_ =? 0).
    + cbn [v1_total_entries]. rewrite Ht, map_app, concat_app, zlen_app. cbn [map concat]. rewrite app_nil_r.
      unfold sat_add32. lia.
Qed.

Lemma hash_segments_quiet segs1 segs2 :
  aq_segments a = segs1 ++ segs2 ->
  quiet (hash_after a (aq_chunks a))
    (hash_segments (aq_chunk_size a) (aq_total a)
       (zip (map (write_segment a n) (enumerate_from (zlen segs1) segs2))
            (map written_sections (enumerate_from (zlen segs1) segs2)))
       (hash_after a (concat (map snd segs1)))).
Proof.
  revert segs1. induction segs2 as [|seg segs2 IH]; intros segs1 Heq.
  - cbn. rewrite app_nil_r in Heq. unfold aq_chunks. rewrite Heq. apply quiet_ret.
  - destruct (segment_at a a_ok _ _ _ Heq) as (Hi & Hin & Hfit).
    cbn [enumerate_from map zip zip_with hash_segments]. unfold write_segment at 1, written_sections at 1. cbn [fst snd].
    eapply quiet_bind.
    { apply (iter_chunks_quiet a a_ok (zlen segs1) (zlen segs1 =? 0) (zlen segs1 =? n - 1) seg Hin Hfit). }
    cbn beta.
    eapply quiet_bind.
    { pose proof (hash_chunks_quiet a a_ok (zlen segs1) (zlen segs1 =? 0) (zlen segs1 =? n - 1) seg Hin Hfit
        (concat (map snd segs1)) (concat (map snd segs2)) [] seg.2) as Hq.
      change (raw_span []) with 0 in Hq. rewrite Z.add_0_r in Hq. apply Hq; [|done].
      unfold aq_chunks. by rewrite Heq, map_app, concat_app. }
    cbn beta iota. specialize (IH (segs1 ++ [seg])). rewrite zlen_app, map_app, concat_app in IH.
    cbn [map concat] in IH. rewrite app_nil_r in IH. apply IH. by rewrite <-app_assoc.
Qed.

Lemma enumerate_map {A B} (f : Z * A -> B) k (l : list A) :
  enumerate_from k (map f (enumerate_from k l)) = map (fun p => (p.1, f p)) (enumerate_from k l).
Proof. revert k. induction l as [|x l IH]; intros k; [done|]. cbn. by rewrite IH. Qed.



Lemma last_written segs1 seg :
  aq_segments a = segs1 ++ [seg] ->
  last (write_image a) = Some (write_segment a n (zlen segs1, seg)) /\
  last (map written_sections (enumerate (aq_segments a))) = Some (written_sections (zlen segs1, seg)).
Proof.
  intros Heq. assert (enumerate (aq_segments a) = enumerate segs1 ++ [(zlen segs1, seg)]) as He.
  { rewrite Heq. unfold enumerate. rewrite <-(Z.add_0_l (zlen segs1)). generalize 0 as k. clear.
    induction segs1 as [|s segs1 IH]; intros k; cbn.
    - change (zlen []) with 0. by rewrite Z.add_0_r.
    - rewrite IH, zlen_cons. do 4 f_equal. lia. }
  unfold write_image. rewrite He, !map_app. cbn [map]. by rewrite !last_snoc.
Qed.

Lemma image_hashes_run ex :
  exists ps, forall log,
    check_hash_all_segments (write_image a) (map written_sections (enumerate (aq_segments a)))
      (written_geometry a) ex log
    = (Ok tt, log ++ map Progress ps ++ external_events (digests_of (aq_media a)) ex).
Proof.
  pose proof (aq_bounds a a_ok) as (_ & Htot & _ & _ & _ & Hcs). pose proof (aq_geometry a a_ok) as (_ & _ & Hcs').
  destruct (hash_segments_quiet [] (aq_segments a) eq_refl) as [ps Hrun]. exists ps. intros log.
  assert (geometry_total_bytes (written_geometry a) = aq_total a) as Ht.
  { unfold geometry_total_bytes, sat_mul. cbn. unfold aq_total in *. lia. }
  assert (geometry_chunk_size (written_geometry a) = aq_chunk_size a) as Hc.
  { unfold geometry_chunk_size, sat_mul. cbn. unfold aq_chunk_size in *. lia. }
  unfold check_hash_all_segments. rewrite Ht, Hc, stateful_bind_run.
  assert (hash_start (aq_total a) = hash_after a []) as ->.
  { unfold hash_start, hash_after, after_chunks. cbn. unfold ztake. rewrite take_nil. change (zlen []) with 0.
    by rewrite Z.sub_0_r. }
  change (concat (map snd [])) with (@nil stored_chunk) in Hrun. fold n in Hrun.
  change (zlen []) with 0 in Hrun. unfold write_image, enumerate. fold n. rewrite Hrun.
  destruct (last_segment a a_ok) as (segs1 & seg & Heq). destruct (last_written segs1 seg Heq) as [Hls Hlw].
  unfold write_image, enumerate in Hls, Hlw. fold n in Hls. rewrite Hlw, Hls.
  destruct (segment_at a a_ok segs1 seg [] Heq) as (Hi & Hin & Hfit).
  assert ((zlen segs1 =? n - 1) = true) as Hlast.
  { apply Z.eqb_eq. unfold n. rewrite Heq, zlen_app. change (zlen [seg]) with 1. lia. }
  cbn [hash_after hs_data]. change (after_chunks a (aq_chunks a)) with (aq_media a).
  rewrite stateful_bind_run, check_stored_md5_run, stateful_bind_run, check_stored_sha1_run, check_external_run.
  unfold write_segment, written_sections. cbn [fst snd digests_of hash_md5 hash_sha1].
  rewrite (stored_md5_written a a_ok (zlen segs1) (zlen segs1 =? 0) (zlen segs1 =? n - 1) seg Hin Hfit Hlast).
  rewrite (stored_sha1_written a a_ok (zlen segs1) (zlen segs1 =? 0) (zlen segs1 =? n - 1) seg Hin Hfit Hlast).
  by rewrite !app_nil_r, <-app_assoc.
Qed.

Lemma analyse_written_run ex :
  exists ps, forall log, analyse_all_ewf1 (write_image a) ex log
    = (Ok tt, log ++ map Progress ps ++ external_events (digests_of (aq_media a)) ex).
Proof.
  destruct (analyse_segments_quiet [] (aq_segments a) v1_start eq_refl eq_refl eq_refl) as [ps1 Hrun1].
  destruct (image_hashes_run ex) as [ps2 Hrun2]. exists (ps1 ++ ps2). intros log.
  unfold analyse_all_ewf1. rewrite stateful_bind_run.
  assert (zlen (write_image a) = n) as ->.
  { unfold write_image, enumerate, zlen. by rewrite length_map, length_enumerate_from. }
  change (zlen []) with 0 in Hrun1. unfold write_image at 1, enumerate at 1. fold n. unfold enumerate.
  rewrite Hrun1. unfold finish_v1. cbn [v1_geometry v1_all_sections v1_total_entries v1_start app].
  rewrite stateful_bind_run. cbn [g_chunk_count written_geometry]. rewrite Z.eqb_refl, andb_false_r.
  cbn [push_if negb]. unfold mret, stateful_ret.
  fold (enumerate (aq_segments a)). rewrite Hrun2, map_app. by rewrite <-!app_assoc.
Qed.

(** ** The hashes without an analysis *)

Lemma sections_written segs1 seg segs2 :
  aq_segments a = segs1 ++ seg :: segs2 ->
  sections_of (write_segment a n (zlen segs1, seg)) = written_sections (zlen segs1, seg).
Proof.
  intros Heq. destruct (segment_at a a_ok _ _ _ Heq) as (Hi & Hin & Hfit).
  pose proof (walk_data a a_ok (zlen segs1) (zlen segs1 =? 0) (zlen segs1 =? n - 1) seg Hin Hfit) as Hw.
  apply quiet_value in Hw. unfold sections_of, write_segment. by rewrite Hw.
Qed.

Lemma all_sections_written segs1 segs2 :
  aq_segments a = segs1 ++ segs2 ->
  map sections_of (map (write_segment a n) (enumerate_from (zlen segs1) segs2))
  = map written_sections (enumerate_from (zlen segs1) segs2).
Proof.
  revert segs1. induction segs2 as [|seg segs2 IH]; intros segs1 Heq; [done|].
  cbn [enumerate_from map]. rewrite (sections_written _ _ _ Heq). f_equal.
  specialize (IH (segs1 ++ [seg])). rewrite zlen_app in IH. apply IH. by rewrite <-app_assoc.
Qed.

Lemma written_short : short_enough (write_image a).
Proof. exact (written_small a a_ok). Qed.

(** What the hashers are fed is the media. *)
Lemma image_data_written : image_data (write_image a) (written_geometry a) = aq_media a.
Proof.
  pose proof (aq_bounds a a_ok) as (_ & Htot & _ & _ & _ & Hcs). pose proof (aq_geometry a a_ok) as (_ & _ & Hcs').
  assert (geometry_total_bytes (written_geometry a) = aq_total a) as Ht.
  { unfold geometry_total_bytes, sat_mul. cbn. unfold aq_total in *. lia. }
  assert (geometry_chunk_size (written_geometry a) = aq_chunk_size a) as Hc.
  { unfold geometry_chunk_size, sat_mul. cbn. unfold aq_chunk_size in *. lia. }
  unfold image_data. rewrite Ht, Hc.
  pose proof (all_sections_written [] (aq_segments a) eq_refl) as Hsec.
  pose proof (walked_all _ written_short) as Hw.
  destruct (hash_segments_quiet [] (aq_segments a) eq_refl) as [ps Hrun].
  change (zlen []) with 0 in Hsec, Hrun. unfold write_image, enumerate in *. fold n in Hw |- *.
  rewrite Hsec in Hw |- *.
  destruct (reports_hash_segments (aq_chunk_size a) (aq_total a) _ (hash_after a []) ltac:(lia) Hw)
    as (h & es & Hh & _ & Hrun2).
  change (concat (map snd [])) with (@nil stored_chunk) in Hrun.
  specialize (Hrun []). specialize (Hrun2 []). rewrite Hrun in Hrun2. injection Hrun2 as <- _.
  cbn [hash_after hs_remaining hs_data] in Hh.
  assert (after_chunks a [] = []) as Hnil by (unfold after_chunks, ztake; cbn [map concat]; by rewrite take_nil).
  rewrite Hnil in Hh. change (zlen []) with 0 in Hh. rewrite Z.sub_0_r in Hh. by rewrite <-Hh.
Qed.

Lemma geometry_written : image_geometry (write_image a) = Some (written_geometry a).
Proof.
  destruct (first_written a a_ok) as (seg0 & rest & Hw & Heq). fold n in Hw.
  destruct (segment_at a a_ok [] seg0 _ Heq) as (Hi & Hin & Hfit). fold n in Hfit. change (zlen []) with 0 in *.
  pose proof (volume_quiet a a_ok standard 0 (0 =? 0) (0 =? n - 1) seg0 Hin eq_refl Hfit None) as Hv.
  unfold check_segment_volume in Hv.
  pose proof (sections_written [] seg0 _ Heq) as Hsec. change (zlen []) with 0 in Hsec.
  pose proof (find_volume a a_ok (0 =? 0) (0 =? n - 1) seg0 Hin) as Hfind.
  unfold image_geometry. rewrite Hw. pose proof (places a a_ok 0 (0 =? 0) (0 =? n - 1) seg0 Hin Hfit) as Hp.
  cbv zeta in Hp. destruct Hp as (Hb & Htab & Hend & _). unfold write_segment at 1.
  pose proof (zlen_nonneg seg0.2). pose proof (raw_span_nonneg seg0.2).
  rewrite (proj2 (Z.ltb_ge _ _)) by (unfold FILE_HEADER_SIZE; lia).
  unfold first_geometry. rewrite Hsec. unfold written_sections. cbn [fst snd].
  rewrite Hfind in Hv |- *. cbn [Z.eqb] in Hv |- *. change (0 =? 0) with true in Hv |- *. cbn iota in Hv |- *.
  apply quiet_value in Hv. unfold write_segment. change (0 =? 0) with true. by rewrite Hv.
Qed.

Lemma quiet_reports {A} (x : A) c : quiet x c -> reports (fun y => y = x) c.
Proof.
  intros [ps Hc]. exists x, (map Progress ps). split; [done|]. split; [|done].
  clear. induction ps; constructor; done.
Qed.

(** [compute_hashes_ewf1] finds the first volume, so it returns digests. *)
Lemma compute_hashes_written :
  reports (fun o => o = Some (digests_of (aq_media a))) (compute_hashes_ewf1 (write_image a)).
Proof.
  destruct (first_written a a_ok) as (seg0 & rest & Hw & Heq). fold n in Hw.
  destruct (segment_at a a_ok [] seg0 _ Heq) as (Hi & Hin & Hfit). fold n in Hfit. change (zlen []) with 0 in *.
  pose proof (walk_data a a_ok 0 (0 =? 0) (0 =? n - 1) seg0 Hin Hfit) as Hwalk.
  pose proof (volume_quiet a a_ok standard 0 (0 =? 0) (0 =? n - 1) seg0 Hin eq_refl Hfit None) as Hv.
  pose proof (find_volume a a_ok (0 =? 0) (0 =? n - 1) seg0 Hin) as Hfind.
  pose proof (places a a_ok 0 (0 =? 0) (0 =? n - 1) seg0 Hin Hfit) as Hp. cbv zeta in Hp.
  destruct Hp as (Hb & Htab & Hend & _). pose proof (zlen_nonneg seg0.2). pose proof (raw_span_nonneg seg0.2).
  unfold check_segment_volume in Hv. rewrite Hfind in Hv. change (0 =? 0) with true in *. cbn iota in Hv, Hfind.
  unfold compute_hashes_ewf1. pose proof written_short as Hshort. pose proof image_data_written as Himg.
  rewrite Hw in Hshort, Himg |- *. unfold write_segment in *. change (0 =? 0) with true in *.
  set (first := segment_bytes (0 + 1) _ _) in *.
  assert (slice first 0 8 = Some EVF_SIGNATURE) as Hsig.
  { unfold first, segment_bytes, file_header_bytes. rewrite <-!app_assoc. by eapply (slice_at [] EVF_SIGNATURE). }
  clearbody first.
  rewrite (proj2 (Z.ltb_ge _ _)) by (unfold FILE_HEADER_SIZE; lia).
  eapply reports_bind.
  { apply quiet_reports, quiet_index, Hsig. }
  cbn beta. intros sig ->. rewrite bool_decide_true by done. cbn [negb andb].
  eapply reports_bind; [apply quiet_reports, Hwalk|]. cbn beta. intros ss ->. rewrite Hfind.
  eapply reports_bind; [apply quiet_reports, Hv|]. cbn beta. intros g ->.
  eapply reports_bind; [by apply reports_sections_all|]. cbn beta. intros all ->.
  eapply reports_bind; [by apply reports_compute_segments, walked_all|]. cbn beta. intros bytes ->.
  apply reports_ret. unfold image_data in Himg. by rewrite Himg.
Qed.

Lemma not_ewf2 : first_is_ewf2 (write_image a) = Ok false.
Proof.
  destruct (first_written a a_ok) as (seg0 & rest & Hw & _). unfold first_is_ewf2. rewrite Hw. cbn [head default from_option].
  unfold write_segment, segment_bytes, file_header_bytes. rewrite <-!app_assoc.
  set (t := [byte_of_Z 1] ++ _). pose proof (zlen_nonneg t). change (from_option (fun x => x) [] (Some ?x)) with x.
  cbn [default from_option id]. rewrite zlen_app. change (zlen EVF_SIGNATURE) with 8. rewrite (proj2 (Z.leb_le _ _)) by lia.
  unfold index_range. by rewrite (slice_at [] EVF_SIGNATURE t).
Qed.
End Whole.

Lemma written_analysed `{SafeReadLaws} `{AdlerLaws} `{Zlib} `{DigestsLaws} a ex :
  acquisition_ok a -> standard_geometry a ->
  let image := {| segments := write_image a; expected := ex |} in
  let mismatches := external_issues (digests_of (aq_media a)) ex in
  analyse image = Ok mismatches /\
  (exists ps, analyse_with_progress image = Ok (mismatches, ps)) /\
  compute_hashes image = Ok (Some (digests_of (aq_media a))).
Proof.
  intros Hok Hstd image mismatches. destruct (analyse_written_run a Hok Hstd ex) as [ps Hrun].
  destruct (compute_hashes_written a Hok Hstd) as (o & es & -> & _ & Hhash).
  assert (logged (analyse_all_ewf1 (write_image a) ex)
          = Ok (map Progress ps ++ external_events (digests_of (aq_media a)) ex)) as Hlog.
  { unfold logged. by rewrite Hrun. }
  pose proof (issues_of_progress ps (external_events (digests_of (aq_media a)) ex)) as Hiss.
  unfold analyse, analyse_with_progress, compute_hashes. cbn [segments expected image].
  rewrite (not_ewf2 a Hok). cbn [mbind outcome_bind]. split; [|split].
  - rewrite Hlog. cbn [mbind outcome_bind]. by rewrite Hiss.
  - eexists. unfold logged in *. rewrite with_progress_v1. rewrite Hlog. cbn [mbind outcome_bind]. by rewrite Hiss.
  - unfold value_of. by rewrite Hhash.
Qed.

(** C12: a faithful acquisition of an ordinary geometry is found intact.  Take any media
    in sectors of 512 or 4096 bytes, cut it into chunks of a power of two of sectors,
    stored as zlib streams or as checksummed pages, spread over any number of segments,
    and write the segment files: the analysis of the image reports no anomaly of its
    own - no checksum, no offset, no count, no gap and no stored hash is at fault - and
    of the references the caller gives exactly those that are not the digests of the
    media; the copy with progress reports the same, and [compute_hashes] returns the
    digests of the media.  The condition on the geometry, [standard_geometry], is the
    analyser's own (check_volume_v1): an image with three sectors to a chunk or sectors
    of 2048 bytes opens and reads, and is reported for its geometry
    (v1_geometry_reported of Witnesses). *)
Theorem written_image_clean `{SafeReadLaws} `{AdlerLaws} `{Zlib} `{DigestsLaws} a ex :
  acquisition_ok a -> standard_geometry a ->
  let image := {| segments := write_image a; expected := ex |} in
  let mismatches := external_issues (digests_of (aq_media a)) ex in
  analyse image = Ok mismatches /\
  (exists ps, analyse_with_progress image = Ok (mismatches, ps)) /\
  compute_hashes image = Ok (Some (digests_of (aq_media a))).
Proof. apply written_analysed. Qed.
