(* ===== verification/AcquireRecover.v ===== *)
(** From the writer of Acquire to recovery: whatever the sectors of a written image
    suffered, recovery brings back every chunk that is still intact. *)

From S2P Require Import Prelude Text Extern Types Sections Recover RecoverProps Acquire.

(** * The sections *)
Section Walk.
Context `{SafeReadLaws} `{AdlerLaws}.

(** What the recovery keeps of a descriptor. *)
Definition kept_section (d : SectionDescriptor) : section :=
  {| s_type_name := section_type d; s_offset := Sections.offset d; s_size := section_size d |}.

(** The two types that end a walk. *)
Definition final_type (n : text) : bool := text_eqb n (str "done") || text_eqb n (str "next").

Lemma walk_loop_recovered num front final l1 l2 fuel acc :
  good_parts front -> good_name final ->
  Forall (fun p => final_type p.1 = false) front -> final_type final = true ->
  FILE_HEADER_SIZE + span front + 76 <= i64_max -> front = l1 ++ l2 -> (length l2 < fuel)%nat ->
  walk_sections_loop fuel (segment_bytes num front final) (FILE_HEADER_SIZE + span l1) acc
  = Ok (acc ++ map kept_section (chain (FILE_HEADER_SIZE + span l1) l2
                 ++ [descriptor_at final (FILE_HEADER_SIZE + span front) [] true]), None).
Proof.
  intros Hg Hn Hin Hend Hfit. pose proof (zlen_segment_bytes num front final Hg Hn) as Hlen.
  set (data := segment_bytes num front final) in *. unfold FILE_HEADER_SIZE in *.
  revert l1 fuel acc. induction l2 as [|[n b] l2 IH]; intros l1 fuel acc Hf Hfuel;
    destruct fuel as [|fuel]; try lia; cbn [walk_sections_loop]; unfold SECTION_DESCRIPTOR_SIZE, sat_add.
  - rewrite app_nil_r in Hf. subst l1. pose proof (span_nonneg front).
    rewrite !Z.min_r by lia. rewrite (proj2 (Z.ltb_ge _ _)) by lia.
    destruct (final_read num front final Hg Hn ltac:(unfold FILE_HEADER_SIZE; lia)) as (raw & Hraw & Hp & _).
    unfold FILE_HEADER_SIZE in *. fold data in Hraw. unfold index_range. rewrite Hraw. cbn [or_panic mbind outcome_bind].
    rewrite Hp. cbn [section_type descriptor_at]. unfold final_type in Hend. by rewrite Hend.
  - pose proof (span_nonneg l1). pose proof (span_nonneg l2). pose proof (zlen_nonneg b).
    assert (span front = span l1 + (76 + zlen b + span l2)) as Hspan by (by rewrite Hf, span_app, span_cons).
    rewrite !(Z.min_r u64_max (13 + span l1 + 76)) by lia. rewrite (proj2 (Z.ltb_ge _ _)) by lia.
    destruct (link_read num front final l1 n b l2 Hg ltac:(unfold FILE_HEADER_SIZE; lia) Hf)
      as (raw & Hraw & Hp & _).
    unfold FILE_HEADER_SIZE in *. fold data in Hraw. unfold index_range. rewrite Hraw. cbn [or_panic mbind outcome_bind].
    rewrite Hp. cbn [section_type descriptor_at next section_size].
    pose proof Hin as Hin'. rewrite Hf in Hin'. apply Forall_app in Hin' as [_ Hin'].
    apply Forall_cons in Hin' as [Hname _]. cbn [fst] in Hname. unfold final_type in Hname. rewrite Hname.
    rewrite (proj2 (Z.eqb_neq (13 + span l1 + (76 + zlen b)) 0)), (proj2 (Z.ltb_ge (zlen data) _)),
      (proj2 (Z.leb_gt _ (13 + span l1))) by lia.
    cbn [orb]. specialize (IH (l1 ++ [(n, b)]) fuel).
    rewrite span_app in IH. change (span [(n, b)]) with (76 + zlen b + 0) in IH.
    replace (13 + (span l1 + (76 + zlen b + 0))) with (13 + span l1 + (76 + zlen b)) in IH by lia.
    rewrite IH; [|by rewrite <-app_assoc|cbn in Hfuel; lia]. cbn [chain app map]. by rewrite <-app_assoc.
Qed.

Lemma walk_recovered num front final :
  good_parts front -> good_name final ->
  Forall (fun p => final_type p.1 = false) front -> final_type final = true ->
  FILE_HEADER_SIZE + span front + 76 <= i64_max ->
  walk_sections (segment_bytes num front final) = Ok (map kept_section (segment_chain front final), None).
Proof.
  intros Hg Hn Hin Hend Hfit. unfold walk_sections.
  pose proof (walk_loop_recovered num front final [] front (S (length (segment_bytes num front final))) []
    Hg Hn Hin Hend Hfit eq_refl) as Hw.
  change (span []) with 0 in Hw. rewrite Z.add_0_r in Hw. apply Hw.
  pose proof (zlen_segment_bytes num front final Hg Hn). pose proof (length_le_span front).
  unfold zlen, FILE_HEADER_SIZE in *. lia.
Qed.
End Walk.

(** * The plan of a written segment *)
Section Segment.
Context `{SafeReadLaws} `{AdlerLaws} `{Digests}.
Variable a : acquisition.
Hypothesis a_shape : acquisition_shape a.
Variables (i : Z) (first last_ : bool) (seg : list part * list stored_chunk).
Hypothesis seg_in : seg ∈ aq_segments a.

Let parts := segment_parts a first last_ seg.
Let data := segment_bytes (i + 1) parts (final_name last_).
Let ss := map kept_section (segment_chain parts (final_name last_)).
Let base := sectors_base a first seg.1.
Hypothesis fits : FILE_HEADER_SIZE + span parts + 76 <= i64_max.

Definition table_in (at_ : Z) : TableRef :=
  {| tr_entry_count := zlen seg.2; tr_base_offset := base; tr_entries_file_offset := at_ + 100 |}.

Definition written_plan : segment_plan :=
  {| sp_data := data; sp_primary := Some (table_in (table_at a first seg));
     sp_fallback := Some (table_in (table2_at a first seg));
     sp_sectors_end := Some (base + raw_span seg.2) |}.

Lemma prologue : prologue_ok seg.1.
Proof. apply (segment_in a a_shape seg seg_in). Qed.

Lemma walk_written : walk_sections data = Ok (ss, None).
Proof.
  apply walk_recovered; [apply segment_parts_good, prologue|apply final_name_good| |by destruct last_|exact fits].
  apply parts_names; [exact prologue|]. repeat constructor.
Qed.

Lemma zlen_segment : zlen data = FILE_HEADER_SIZE + span parts + 76.
Proof. apply zlen_segment_bytes; [apply segment_parts_good, prologue|apply final_name_good]. Qed.

Lemma tables_here :
  holds_table data (table_at a first seg + 76) base seg.2 /\
  holds_table data (table2_at a first seg + 76) base seg.2.
Proof. apply tables_written; [exact prologue|]. unfold parts in fits. lia. Qed.

(** Where everything is, within the integers the code computes with. *)
Lemma places_here :
  89 <= base /\ table_at a first seg = base + raw_span seg.2 /\
  table_at a first seg + 76 + (24 + 4 * zlen seg.2) <= zlen data /\
  table2_at a first seg + 76 + (24 + 4 * zlen seg.2) <= zlen data /\
  table_at a first seg <= table2_at a first seg /\ zlen data <= i64_max /\
  raw_span seg.2 < 2147483648 /\ 0 <= raw_span seg.2.
Proof.
  destruct tables_here as [Ht Ht2]. apply slice_bounds in Ht as [_ Ht]. apply slice_bounds in Ht2 as [_ Ht2].
  pose proof (sectors_base_bounds a first last_ seg) as [Hb _]. pose proof zlen_segment as Hl.
  destruct (segment_in a a_shape seg seg_in) as (_ & _ & Hraw & _). pose proof (zlen_nonneg seg.2).
  pose proof (raw_span_nonneg seg.2). split_and!; try done; unfold table2_at; lia.
Qed.

Lemma table_ref_here name at_ size :
  List.find (is_type name) ss = Some {| s_type_name := name; s_offset := at_; s_size := size |} ->
  holds_table data (at_ + 76) base seg.2 -> 0 <= at_ ->
  table_ref data ss name = Ok (Some (table_in at_)).
Proof.
  intros Hfind Ht Hat. pose proof (table_header_in _ _ _ _ Ht) as Hh. pose proof (slice_bounds _ _ _ _ Hh) as [_ Hhi].
  destruct places_here as (Hb & Htab & Hend & _ & _ & Hmax & Hraw & Hraw0).
  destruct (segment_in a a_shape seg seg_in) as (_ & _ & _ & Hcount). pose proof (zlen_nonneg seg.2).
  unfold table_ref. rewrite Hfind. cbn [s_offset]. unfold SECTION_DESCRIPTOR_SIZE, TABLE_HEADER_SIZE, sat_add.
  rewrite !(Z.min_r u64_max (at_ + 76)) by lia. rewrite !(Z.min_r u64_max (at_ + 76 + 24)) by lia. rewrite Hh.
  destruct (table_header_read base (zlen seg.2) []) as (_ & _ & crc & Hp & _); [lia|lia|].
  rewrite app_nil_r in Hp. rewrite Hp. unfold table_in. cbn [entry_count base_offset]. do 3 f_equal. lia.
Qed.

Lemma plan_here : plan_segment data ss = Ok written_plan.
Proof.
  destruct places_here as (Hb & Htab & Hend & Hend2 & Hle & Hmax & Hraw & Hraw0). destruct tables_here as [Ht Ht2].
  pose proof (zlen_nonneg seg.2).
  unfold plan_segment.
  rewrite (table_ref_here (str "table") (table_at a first seg) (76 + zlen (table_body base (entries_from 0 seg.2))));
    [|by apply (find_table_part a kept_section _ first last_ seg prologue)|done|lia].
  cbn [mbind outcome_bind].
  rewrite (table_ref_here (str "table2") (table2_at a first seg) (76 + zlen (table_body base (entries_from 0 seg.2))));
    [|by apply (find_table2_part a kept_section _ first last_ seg prologue)|done|lia].
  cbn [mbind outcome_bind]. unfold written_plan. do 2 f_equal. unfold sectors_data_end, ss, parts.
  rewrite (find_sectors_part a kept_section _ first last_ seg prologue) by done.
  cbn [mbind option_bind kept_section s_offset s_size descriptor_at Sections.offset section_size].
  fold base. f_equal. change (zlen (concat (map ck_raw seg.2))) with (raw_span seg.2). fold parts. fold data. unfold sat_add. lia.
Qed.

(** ** The chunks of a segment *)

Lemma entry_here at_ cks1 c cks2 :
  holds_table data (at_ + 76) base seg.2 -> 0 <= at_ -> seg.2 = cks1 ++ c :: cks2 ->
  entry_at data (table_in at_) (zlen cks1) = Ok (Some (ck_compressed c, base + raw_span cks1)).
Proof.
  intros Ht Hat Heq. destruct places_here as (Hb & Htab & Hend & _ & _ & Hmax & Hraw & Hraw0).
  destruct (segment_in a a_shape seg seg_in) as (_ & Hshape & _ & _).
  pose proof Hshape as Hc. rewrite Heq in Hc. apply Forall_app in Hc as [_ Hc]. apply Forall_cons in Hc as [[_ Hc] _].
  destruct (table_entry_in _ _ _ _ cks1 c cks2 Ht Heq Hraw Hc) as (bytes & Hs & Hp).
  pose proof (slice_bounds _ _ _ _ Hs) as [Hlo Hhi]. pose proof (zlen_nonneg cks1).
  assert (0 <= raw_span cks1 <= raw_span seg.2) as Hspan.
  { rewrite Heq, raw_span_app. pose proof (raw_span_nonneg cks1). pose proof (raw_span_nonneg (c :: cks2)). lia. }
  unfold entry_at, table_in. cbn [tr_entries_file_offset tr_base_offset]. unfold sat_mul, sat_add.
  rewrite !(Z.min_r u64_max (zlen cks1 * 4)) by lia. rewrite !(Z.min_r u64_max (at_ + 100 + zlen cks1 * 4)) by lia.
  rewrite (Z.min_r u64_max (at_ + 100 + zlen cks1 * 4 + 4)) by lia.
  replace (at_ + 100 + zlen cks1 * 4) with (at_ + 76 + 24 + zlen cks1 * 4) by lia. rewrite Hs, Hp.
  cbn [compressed chunk_offset]. do 3 f_equal. pose proof (zlen_nonneg seg.2). lia.
Qed.

Lemma range_here at_ cks1 c cks2 :
  holds_table data (at_ + 76) base seg.2 -> 0 <= at_ -> seg.2 = cks1 ++ c :: cks2 ->
  chunk_range data (table_in at_) (zlen cks1) (Some (base + raw_span seg.2))
  = Ok (Some (base + raw_span cks1, base + raw_span cks1 + zlen (ck_raw c), ck_compressed c)).
Proof.
  intros Ht Hat Heq. unfold chunk_range. rewrite (entry_here at_ cks1 c cks2 Ht Hat Heq). cbn [mbind outcome_bind].
  destruct places_here as (Hb & Htab & Hend & _ & _ & Hmax & Hraw & Hraw0).
  destruct (segment_in a a_shape seg seg_in) as (_ & Hshape & _ & Hcount).
  rewrite Heq in Hshape. apply Forall_app in Hshape as [_ Hc]. apply Forall_cons in Hc as [[_ Hc] _].
  assert (raw_span seg.2 = raw_span cks1 + zlen (ck_raw c) + raw_span cks2) as Hsum.
  { rewrite Heq, raw_span_app, raw_span_cons. lia. }
  assert (zlen seg.2 = zlen cks1 + 1 + zlen cks2) as Hlen by (rewrite Heq, zlen_app, zlen_cons; lia).
  pose proof (zlen_nonneg cks1). pose proof (zlen_nonneg cks2). pose proof (raw_span_nonneg cks1).
  pose proof (raw_span_nonneg cks2). pose proof (zlen_nonneg seg.2).
  unfold table_in at 1. cbn [tr_entry_count]. unfold sat_add. rewrite !(Z.min_r u64_max) by lia.
  assert ((if zlen cks1 + 1 <? zlen seg.2
           then next_entry ← entry_at data (table_in at_) (zlen cks1 + 1); Ok (option_map snd next_entry)
           else Ok (Some (default (zlen data) (Some (base + raw_span seg.2)))))
          = (Ok (Some (base + raw_span cks1 + zlen (ck_raw c))) : outcome Empty_set (option Z))) as ->.
  { destruct cks2 as [|c2 cks2].
    - change (raw_span []) with 0 in Hsum. change (zlen []) with 0 in Hlen. rewrite (proj2 (Z.ltb_ge _ _)) by lia. cbn.
      do 2 f_equal. lia.
    - rewrite (zlen_cons c2) in Hlen. pose proof (zlen_nonneg cks2). rewrite (proj2 (Z.ltb_lt _ _)) by lia.
      replace (zlen cks1 + 1) with (zlen (cks1 ++ [c])) by (rewrite zlen_app; done).
      rewrite (entry_here at_ (cks1 ++ [c]) c2 cks2 Ht Hat) by (by rewrite <-app_assoc).
      cbn [mbind outcome_bind option_map snd]. do 2 f_equal. rewrite raw_span_app, raw_span_cons.
      change (raw_span []) with 0. lia. }
  cbn [mbind outcome_bind]. rewrite (proj2 (Z.leb_gt _ _)), (proj2 (Z.ltb_ge _ _)); [done|lia|lia].
Qed.

(** A lookup through either table reads the stored bytes of the chunk. *)
Lemma stored_here `{Zlib} table cs cks1 c cks2 :
  table = sp_primary written_plan \/ table = sp_fallback written_plan -> seg.2 = cks1 ++ c :: cks2 ->
  decode_from cs written_plan table (zlen cks1) = decode_chunk (ck_raw c) (ck_compressed c) cs.
Proof.
  intros Htable Heq. destruct tables_here as [Ht Ht2]. destruct places_here as (Hb & Htab & _ & _ & Hle & _ & _ & Hraw0).
  assert (exists at_, table = Some (table_in at_) /\ holds_table data (at_ + 76) base seg.2 /\ 0 <= at_)
    as (at_ & -> & Hat & Hpos).
  { destruct Htable as [-> | ->]; eexists; (split; [reflexivity|]); split; done || lia. }
  unfold decode_from. cbn [sp_data sp_sectors_end written_plan].
  rewrite (range_here at_ cks1 c cks2 Hat Hpos Heq). cbn [mbind outcome_bind]. unfold index_range.
  assert (FILE_HEADER_SIZE + span parts + 76 <= u64_max) as Hfit by lia.
  pose proof (chunk_at (i + 1) a first last_ seg cks1 c cks2 prologue Hfit Heq) as Hs. cbv zeta in Hs.
  fold base parts in Hs. fold data in Hs. by rewrite Hs.
Qed.
End Segment.

(** An intact chunk decodes to its page. *)
Lemma decode_intact `{AdlerLaws} `{Zlib} cs c :
  chunk_ok cs c -> 0 < cs <= 64 * 1024 * 1024 ->
  decode_chunk (ck_raw c) (ck_compressed c) cs = Ok (Some (ck_page c, true)).
Proof.
  intros [Hp Hok] Hcs. unfold decode_chunk. destruct (ck_compressed c).
  - destruct Hok as [_ [_ Hall]]. unfold sat_add. rewrite Z.min_r by lia. rewrite (Hall (Some (cs + 1))) by (cbn; lia).
    rewrite ztake_all by lia. destruct (ck_page c) as [|b page] eqn:E; [change (zlen []) with 0 in Hp; lia|]. rewrite <-E.
    by rewrite ztake_all by (rewrite E; lia).
  - destruct Hok as [Hl Hraw]. set (crc := adler32 (ck_page c)) in *.
    assert (zlen (ck_raw c) = cs + 4) as Hlen by (rewrite Hraw, zlen_app, zlen_le_bytes; lia).
    assert (exists b0 b1 b2 b3, le_bytes 4 crc = [b0; b1; b2; b3]) as (b0 & b1 & b2 & b3 & Hb).
    { by eexists _, _, _, _. }
    assert (le_combine [b0; b1; b2; b3] = crc) as Hcrc.
    { rewrite <-Hb. apply le_combine_le_bytes_small. pose proof (adler32_range (ck_page c)). unfold crc, adler32 in *. cbn. lia. }
    rewrite Hb in Hraw. unfold sat_add. rewrite (proj2 (Z.leb_le _ _)) by lia. unfold index, index_range.
    assert (forall l k b, ck_raw c = (ck_page c ++ l) ++ b :: skipn (S (length l)) [b0; b1; b2; b3] -> k = cs + zlen l ->
      get (ck_raw c) k = Some b) as Hget.
    { intros l k b Hr ->. eapply get_at; [exact Hr|]. by rewrite zlen_app, Hl. }
    rewrite (Hget [] cs b0), (Hget [b0] (cs + 1) b1), (Hget [b0; b1] (cs + 2) b2), (Hget [b0; b1; b2] (cs + 3) b3)
      by (change (zlen []) with 0; rewrite ?Hraw, <-?app_assoc; done || lia).
    cbn [or_panic mbind outcome_bind].
    rewrite Hlen, (Z.min_r (cs + 4)) by lia. rewrite (slice_at [] (ck_page c) [b0; b1; b2; b3]) by (done || lia).
    cbn [or_panic mbind outcome_bind]. unfold crc in Hcrc. by rewrite Hcrc, Z.eqb_refl.
Qed.

(** * The whole image *)
Section Whole.
Context `{SafeReadLaws} `{AdlerLaws} `{Zlib} `{Digests}.
Variable a : acquisition.
Hypothesis a_shape : acquisition_shape a.

Let n := zlen (aq_segments a).

Definition plan_at (p : Z * (list part * list stored_chunk)) : segment_plan :=
  written_plan a p.1 (p.1 =? 0) (p.1 =? n - 1) p.2.

Definition written_recovery : recovery_plan :=
  {| pl_geometry := {| geo_chunk_count := zlen (aq_chunks a); geo_sectors_per_chunk := aq_sectors_per_chunk a;
                       geo_bytes_per_sector := aq_bytes_per_sector a; geo_sector_count := aq_sector_count a |};
     pl_chunk_size := aq_chunk_size a; pl_truncation := None;
     pl_segments := map plan_at (enumerate (aq_segments a)) |}.

Definition walk_at (p : Z * (list part * list stored_chunk)) : list section * option Z :=
  (map kept_section (segment_chain (segment_parts a (p.1 =? 0) (p.1 =? n - 1) p.2) (final_name (p.1 =? n - 1))), None).

(** A segment of the enumeration, as the lemmas of a segment take it. *)
Lemma enumerated_segment p :
  p ∈ enumerate (aq_segments a) ->
  p.2 ∈ aq_segments a /\
  FILE_HEADER_SIZE + span (segment_parts a (p.1 =? 0) (p.1 =? n - 1) p.2) + 76 <= i64_max.
Proof.
  destruct p as [i seg]. intros Hin. split; [|by apply (parts_fit a a_shape)].
  unfold enumerate in Hin. apply list_elem_of_lookup in Hin as [k Hk]. rewrite enumerate_from_lookup in Hk.
  destruct (aq_segments a !! k) as [s|] eqn:E; [|done]. cbn in Hk. injection Hk as _ <-.
  by eapply list_elem_of_lookup_2.
Qed.

Lemma walks_written :
  mapM walk_sections (write_image a) = Ok (map walk_at (enumerate (aq_segments a))).
Proof.
  apply mapM_outcome_ok. unfold write_image. fold n. apply Forall2_fmap_l, Forall2_fmap_r, Forall_Forall2_diag.
  apply Forall_forall. intros [i seg] Hin. destruct (enumerated_segment _ Hin) as [Hseg Hfit].
  unfold walk_at, write_segment. cbn [fst snd] in *. exact (walk_written a a_shape i _ _ seg Hseg Hfit).
Qed.

Lemma zip_map {A B C} (f : A -> B) (g : A -> C) l : zip (map f l) (map g l) = map (fun x => (f x, g x)) l.
Proof. induction l as [|x l IH]; [done|]. cbn. by f_equal. Qed.

Lemma plans_written :
  mapM (fun '(seg, walk) => plan_segment seg (fst walk)) (zip (write_image a) (map walk_at (enumerate (aq_segments a))))
  = Ok (map plan_at (enumerate (aq_segments a))).
Proof.
  apply mapM_outcome_ok. unfold write_image. fold n. rewrite zip_map.
  apply Forall2_fmap_l, Forall2_fmap_r, Forall_Forall2_diag, Forall_forall.
  intros [i seg] Hin. destruct (enumerated_segment _ Hin) as [Hseg Hfit].
  unfold walk_at, write_segment, plan_at. cbn [fst snd] in *. exact (plan_here a a_shape i _ _ seg Hseg Hfit).
Qed.

Lemma geometry_recovered seg0 :
  seg0 ∈ aq_segments a ->
  FILE_HEADER_SIZE + span (segment_parts a true (0 =? n - 1) seg0) + 76 <= i64_max ->
  read_geometry (write_segment a n (0, seg0)) (fst (walk_at (0, seg0))) = Ok (Some (pl_geometry written_recovery)).
Proof.
  intros Hin Hfit. pose proof (prologue a a_shape seg0 Hin) as Hp.
  pose proof (aq_bounds a a_shape) as (Hsc & Htot & _ & Hs32 & Hb32 & _).
  pose proof (aq_geometry a a_shape) as (Hspc & Hbps & _). pose proof (aq_count a a_shape) as Hcount.
  unfold read_geometry, walk_at. cbn [fst snd]. change (0 =? 0) with true.
  rewrite (find_volume_part a kept_section _ true (0 =? n - 1) seg0) by done.
  cbn [kept_section s_offset s_size descriptor_at Sections.offset section_size].
  set (body := (volume_part a).2). assert (zlen body = 1052) as Hbl by apply zlen_full_volume.
  destruct (link_read (0 + 1) (segment_parts a true (0 =? n - 1) seg0) (final_name (0 =? n - 1)) seg0.1 (str "volume") body
    (chunk_parts (sectors_base a true seg0.1) seg0.2 ++ back_parts a (0 =? n - 1))) as (_ & _ & _ & _ & Hbody).
  { by apply segment_parts_good. }
  { lia. }
  { unfold segment_parts, front_parts. by rewrite <-!app_assoc. }
  unfold write_segment. change (0 =? 0) with true. set (data := segment_bytes _ _ _) in *.
  pose proof (slice_bounds _ _ _ _ Hbody) as [Hlo Hhi]. rewrite Hbl in *.
  assert (zlen data <= i64_max) as Hmax.
  { unfold data. rewrite zlen_segment_bytes; [done|by apply segment_parts_good|apply final_name_good]. }
  unfold SECTION_DESCRIPTOR_SIZE, sat_add, sat_sub, FILE_HEADER_SIZE in *.
  rewrite !(Z.min_r u64_max (13 + span seg0.1 + 76)) by lia.
  rewrite (Z.min_r u64_max (13 + span seg0.1 + 76 + _)) by lia.
  replace (Z.min (13 + span seg0.1 + 76 + Z.max 0 (76 + 1052 - 76)) (zlen data)) with (13 + span seg0.1 + 76 + 1052) by lia.
  rewrite Hbody.
  destruct (full_volume_read (zlen (aq_chunks a)) (aq_sectors_per_chunk a) (aq_bytes_per_sector a) (aq_sector_count a) 1052)
    as (v & Hv & Hv1 & Hv2 & Hv3 & Hv4 & _); try (unfold aq_total in *; nia).
  change (full_volume_body _ _ _ _) with body in Hv. rewrite (ztake_all 1052 body) in Hv by lia. rewrite Hv, Hv1, Hv2, Hv3, Hv4.
  by rewrite (proj2 (Z.eqb_neq _ _)), (proj2 (Z.eqb_neq _ _)) by lia.
Qed.

Lemma no_truncation l : first_truncation (map walk_at l) = None.
Proof. unfold first_truncation. induction l as [|p l IH]; [done|exact IH]. Qed.

Lemma plan_recovery_written : plan_recovery (write_image a) = Ok written_recovery.
Proof.
  destruct (first_written a a_shape) as (seg0 & rest & Hw & Heq). fold n in Hw.
  destruct (segment_at a a_shape [] seg0 _ Heq) as (_ & Hin & Hfit). fold n in Hfit. change (zlen []) with 0 in Hfit.
  pose proof (aq_geometry a a_shape) as (Hspc & Hbps & Hcs). pose proof (aq_bounds a a_shape) as (_ & _ & _ & _ & _ & Hpos).
  pose proof (geometry_recovered seg0 Hin Hfit) as Hgeo.
  assert (default [] (head (write_image a)) = write_segment a n (0, seg0)) as Hfirst by (by rewrite Hw).
  assert (exists t, write_segment a n (0, seg0) = (EVF_SIGNATURE ++ [byte_of_Z 1] ++ le_bytes 2 (0 + 1) ++ le_bytes 2 0) ++ t)
    as [t Ht] by (eexists; unfold write_segment, segment_bytes; reflexivity).
  assert (zlen (write_segment a n (0, seg0)) = 13 + zlen t) as Hlen by (rewrite Ht, zlen_app; done).
  pose proof (zlen_nonneg t). unfold plan_recovery. rewrite Hfirst.
  rewrite (proj2 (Z.ltb_ge _ _)) by (unfold FILE_HEADER_SIZE; lia).
  rewrite bool_decide_true by (rewrite Ht, <-app_assoc; by apply ztake_app_len).
  cbn [negb orb]. rewrite walks_written. cbn [infallible mbind outcome_bind].
  assert (index (map walk_at (enumerate (aq_segments a))) 0 = (Ok (walk_at (0, seg0)) : outcome recover_error _)) as ->
    by (by rewrite Heq).
  cbn [mbind outcome_bind]. rewrite Hgeo. cbn [infallible mbind outcome_bind written_recovery pl_geometry
    geo_sectors_per_chunk geo_bytes_per_sector].
  assert (sat_mul (aq_sectors_per_chunk a) (aq_bytes_per_sector a) = aq_chunk_size a) as ->.
  { unfold sat_mul, aq_chunk_size in *. lia. }
  rewrite (proj2 (Z.eqb_neq _ _)), (proj2 (Z.ltb_ge _ _)) by (unfold RECOVER_MAX_CHUNK_SIZE; lia).
  cbn [orb]. rewrite plans_written. cbn [infallible mbind outcome_bind]. by rewrite no_truncation.
Qed.

(** ** One chunk of the image *)

Lemma plan_counts :
  map plan_count (map plan_at (enumerate (aq_segments a))) = map (fun seg => zlen seg.2) (aq_segments a).
Proof.
  unfold enumerate. generalize 0 as k. generalize (aq_segments a) as segs.
  intros segs. induction segs as [|seg segs IH]; intros k; [done|].
  cbn [enumerate_from map]. by rewrite IH.
Qed.

Lemma locate_loop_at segs1 seg segs2 s running k :
  0 <= running -> 0 <= k < zlen seg.2 -> running + zlen (concat (map snd (segs1 ++ seg :: segs2))) <= u64_max ->
  locate_loop (map (fun seg => zlen seg.2) (segs1 ++ seg :: segs2)) s running
    (running + zlen (concat (map (@snd (list part) (list stored_chunk)) segs1)) + k)
  = Some (s + zlen segs1, k).
Proof.
  revert s running. induction segs1 as [|seg1 segs1 IH]; intros s running Hr Hk Hmax; cbn [app map concat locate_loop] in *;
    rewrite zlen_app in *.
  - change (zlen []) with 0. pose proof (zlen_nonneg (concat (map snd segs2))). unfold sat_add, sat_sub.
    rewrite Z.min_r, (proj2 (Z.ltb_lt _ _)) by lia. do 2 f_equal; lia.
  - pose proof (zlen_nonneg (concat (map snd (segs1 ++ seg :: segs2)))). pose proof (zlen_nonneg seg1.2).
    pose proof (zlen_nonneg (concat (map snd segs1))). unfold sat_add. rewrite Z.min_r by lia.
    rewrite (proj2 (Z.ltb_ge _ _)) by lia. specialize (IH (s + 1) (running + zlen seg1.2) ltac:(lia) Hk ltac:(lia)).
    rewrite zlen_cons. replace (s + (1 + zlen segs1)) with (s + 1 + zlen segs1) by lia. rewrite <-IH. f_equal. lia.
Qed.

(** Whatever the other chunks suffered, an intact one decodes to its page. *)
Lemma decoded_intact done_ c rest :
  aq_chunks a = done_ ++ c :: rest -> chunk_ok (aq_chunk_size a) c ->
  exists via, decoded (pl_segments written_recovery) (aq_chunk_size a) (zlen done_) = Some (ck_page c, via, true).
Proof.
  intros Hall Hok. destruct (chunk_split a (length done_) c) as (segs1 & seg & segs2 & cks1 & cks2 & Heq & Hseg & Hk & _).
  { by rewrite Hall, list_lookup_middle. }
  destruct (segment_at a a_shape _ _ _ Heq) as (_ & Hin & Hfit). fold n in Hfit.
  pose proof (aq_count a a_shape) as Hcount. pose proof (aq_geometry a a_shape) as (_ & _ & Hcs).
  pose proof (aq_bounds a a_shape) as (_ & _ & _ & _ & _ & Hpos). pose proof (zlen_nonneg cks1). pose proof (zlen_nonneg cks2).
  apply (decoded_delivers _ _ _ (zlen segs1) (zlen cks1) (plan_at (zlen segs1, seg))).
  - cbn [pl_segments written_recovery]. unfold locate_chunk. rewrite plan_counts, Heq.
    change (zlen done_) with (Z.of_nat (length done_)). rewrite Hk.
    apply (locate_loop_at segs1 seg segs2 0 0 (zlen cks1)); [done| |].
    + rewrite Hseg, zlen_app, zlen_cons. lia.
    + rewrite <-Heq. unfold aq_chunks in Hcount. lia.
  - cbn [pl_segments written_recovery]. apply get_spec. split; [apply zlen_nonneg|].
    unfold zlen at 1. rewrite Nat2Z.id. change (map plan_at ?l) with (plan_at <$> l).
    rewrite list_lookup_fmap. unfold enumerate. rewrite enumerate_from_lookup, Heq, list_lookup_middle by done. done.
  - left. unfold plan_at. cbn [fst snd].
    rewrite (stored_here a a_shape _ _ _ seg Hin Hfit _ _ cks1 c cks2 (or_introl eq_refl) Hseg). by apply decode_intact.
Qed.

(** Its part of the media, and its block. *)
Lemma block_intact done_ c rest :
  aq_chunks a = done_ ++ c :: rest -> chunk_ok (aq_chunk_size a) c ->
  block (pl_segments written_recovery) (aq_chunk_size a) (aq_total a) (zlen done_)
  = ztake (Z.min (aq_total a - zlen done_ * aq_chunk_size a) (aq_chunk_size a)) (ck_page c).
Proof.
  intros Hall Hok. destruct (decoded_intact _ _ _ Hall Hok) as [via Hd]. unfold block. rewrite Hd.
  destruct (chunk_step a a_shape _ _ _ Hall) as (Hleft & Htake & _).
  rewrite (zlen_after_chunks a a_shape _ _ _ Hall) in *. set (logical := Z.min _ _) in *.
  pose proof (aq_bounds a a_shape) as (_ & _ & _ & _ & _ & Hpos).
  rewrite fit_eq by lia. by apply ztake_app_le.
Qed.

Lemma blocks_intact l1 l2 :
  aq_chunks a = l1 ++ l2 -> Forall (chunk_ok (aq_chunk_size a)) (aq_chunks a) ->
  concat (map (block (pl_segments written_recovery) (aq_chunk_size a) (aq_total a)) (range 0 (zlen l1)))
  = after_chunks a l1.
Proof.
  intros Hall Hok. revert l2 Hall. induction l1 as [|c l1 IH] using rev_ind; intros l2 Hall.
  { unfold after_chunks, ztake. cbn. by rewrite take_nil. }
  rewrite <-app_assoc in Hall. cbn [app] in Hall. rewrite zlen_app. change (zlen [c]) with 1.
  rewrite range_snoc by apply zlen_nonneg. rewrite map_app, concat_app, (IH _ Hall). cbn [map concat].
  assert (chunk_ok (aq_chunk_size a) c) as Hc.
  { rewrite Hall in Hok. apply Forall_app in Hok as [_ Hok]. by apply Forall_cons in Hok as [Hok _]. }
  rewrite (block_intact _ _ _ Hall Hc), app_nil_r. destruct (chunk_step a a_shape _ _ _ Hall) as (_ & _ & -> & _).
  by rewrite (zlen_after_chunks a a_shape _ _ _ Hall).
Qed.

Lemma visited_written :
  pl_image_size written_recovery = aq_total a /\ pl_visited written_recovery = zlen (aq_chunks a) /\
  aq_total a <= zlen (aq_chunks a) * aq_chunk_size a.
Proof.
  pose proof (aq_bounds a a_shape) as (_ & Htot & Hpos & _ & _ & Hcs). pose proof (aq_covered a a_shape) as [Hlo Hhi].
  pose proof (zlen_pages_le a _ (aq_shaped a a_shape)) as Hle. pose proof (zlen_nonneg (aq_chunks a)).
  assert (pl_image_size written_recovery = aq_total a) as Himg.
  { unfold pl_image_size, sat_mul. cbn. unfold aq_total in *. lia. }
  split; [done|]. split; [|lia]. unfold pl_visited. rewrite Himg. cbn [written_recovery rr_total pl_geometry geo_chunk_count pl_chunk_size].
  symmetry. apply visited_eq; lia.
Qed.

(** A chunk that recovery gave up or found wrong is damaged. *)
Lemma listed_damaged f idx :
  (forall page via, decoded (pl_segments written_recovery) (aq_chunk_size a) idx = Some (page, via, true) -> f idx = false) ->
  idx ∈ List.filter f (range 0 (zlen (aq_chunks a))) ->
  exists c, get (aq_chunks a) idx = Some c /\ ~ chunk_ok (aq_chunk_size a) c.
Proof.
  intros Hf Hin. rewrite list_elem_of_In, filter_In, <-list_elem_of_In in Hin. destruct Hin as [Hr Hidx].
  unfold range in Hr. apply elem_of_seqZ in Hr. destruct (get_some (aq_chunks a) idx ltac:(lia)) as [c Hc].
  exists c. split; [done|]. intros Hok. apply get_spec in Hc as [Hpos Hc].
  apply list_elem_of_split_length in Hc as (done_ & rest & Hall & Hlen).
  destruct (decoded_intact _ _ _ Hall Hok) as [via Hd].
  replace (zlen done_) with idx in Hd by (unfold zlen; lia). by rewrite (Hf _ _ Hd) in Hidx.
Qed.
End Whole.

(** C25: recovery brings back what is still there.  Write the segment files of any
    media and let any of the stored chunks be overwritten with anything: unless the
    operating system gives an error, recovery writes an output as long as the media
    in which every chunk that is still intact is in its place, byte for byte; it
    reports no truncation and every declared chunk, and each chunk it lists as lost
    or as failing its checksum is indeed damaged.  When nothing is damaged, the
    output is the media. *)
Theorem written_image_recovers `{SafeReadLaws} `{AdlerLaws} `{Zlib} `{Digests} device create flush a :
  acquisition_shape a ->
  match recover_segments device create flush (write_image a) [] with
  | (Ok r, out) =>
    zlen out = aq_total a /\ rr_truncation_offset r = None /\
    rr_recovered_primary r + rr_recovered_table2 r + rr_zero_filled r = zlen (aq_chunks a) /\
    (forall k c, get (aq_chunks a) k = Some c -> chunk_ok (aq_chunk_size a) c ->
       let here bs := slice bs (k * aq_chunk_size a) (Z.min (aq_total a) ((k + 1) * aq_chunk_size a)) in
       here out = here (aq_media a) /\ is_Some (here out)) /\
    (forall k, k ∈ rr_lost_chunks r ++ rr_crc_flagged_chunks r ->
       exists c, get (aq_chunks a) k = Some c /\ ~ chunk_ok (aq_chunk_size a) c) /\
    (acquisition_ok a -> out = aq_media a)
  | (Err (RecoverIo e), _) => os_fault device create flush e
  | _ => False
  end.
Proof.
  intros Ha. destruct (visited_written a Ha) as (Himg & Hvis & Hcov).
  pose proof (plan_recovery_written a Ha) as Hplan.
  pose proof (plan_recovery_returns (write_image a) (written_small a Ha)) as Hp. rewrite Hplan in Hp. cbn in Hp.
  pose proof (recover_writes device create flush (write_image a) _ Hp Hplan []) as Hw.
  destruct (recover_segments _ _ _ (write_image a) []) as [[r|e|] out]; [|done|done].
  destruct Hw as (bs & Hout & Hac). rewrite app_nil_l in Hout. subst bs.
  destruct (ac_lost _ _ _ Hac) as [Hlost _]. destruct (ac_flagged _ _ _ Hac) as [Hflag _]. rewrite Hvis in Hlost, Hflag.
  split_and!.
  - rewrite (ac_length _ _ _ Hac), (ac_image_size _ _ _ Hac). exact Himg.
  - exact (ac_truncation _ _ _ Hac).
  - rewrite (ac_chunks _ _ _ Hac). exact Hvis.
  - intros k c Hk Hc here. apply get_spec in Hk as Hk'. destruct Hk' as [Hpos Hl].
    apply list_elem_of_split_length in Hl as (done_ & rest & Hall & Hlen).
    assert (k = zlen done_) as -> by (unfold zlen; lia). apply get_bounds in Hk.
    destruct (output_block _ _ _ (zlen done_) Hp Hac ltac:(lia)) as [_ Hb]. rewrite Himg in Hb.
    cbn [written_recovery pl_chunk_size] in Hb. fold (written_recovery a) in Hb.
    rewrite (block_intact a Ha _ _ _ Hall Hc) in Hb. unfold here. rewrite Hb, (media_at a Ha _ _ _ Hall). by split.
  - intros k Hk. apply elem_of_app in Hk as [Hk|Hk]; [rewrite Hlost in Hk|rewrite Hflag in Hk];
      eapply (listed_damaged a Ha); try exact Hk; intros page via Hd; unfold lost, flagged; cbn [written_recovery pl_chunk_size];
      fold (written_recovery a); by rewrite Hd.
  - intros Hok. rewrite (ac_output _ _ _ Hac), Hvis, Himg. cbn [written_recovery pl_chunk_size]. fold (written_recovery a).
    rewrite Z.min_l, Z.sub_diag, app_nil_r by lia.
    by rewrite (blocks_intact a Ha (aq_chunks a) []) by (rewrite ?app_nil_r; done || apply Hok).
Qed.
