(* ===== verification/AcquireV2.v ===== *)
(** A writer of well-formed EWF v2 images, which no source defines: what an
    acquisition tool lays out, as the reference of the end-to-end theorem of that
    format.

    A segment is a file header and its sections, each body followed by its descriptor,
    which holds the offset of the descriptor before it; the first segment has the
    geometry, each its chunks in [sector_data] and their places in [sector_table], and
    the last one the digests of the media. *)

From S2P Require Import Prelude Text Extern Types Sections Ewf2 ReaderOpen Acquire Stored.

(** A section before it is placed. *)
Abbreviation part2 := (Ewf2SectionType * list byte)%type.

(** * Section chains *)

Section Chains2.
Context `{Digests}.

Definition descriptor2 (t : Ewf2SectionType) (body : list byte) (pos prev : Z) : Ewf2SectionDescriptor :=
  {| v2_section_type := t; data_flags := DATA_FLAG_MD5HASHED; previous_offset := prev;
     data_size := zlen body; descriptor_size := EWF2_SECTION_DESCRIPTOR_SIZE; padding_size := 0;
     data_integrity_hash := md5 body; v2_offset := pos + zlen body |}.

Definition span2 (ps : list part2) : Z := foldr (fun p n => zlen p.2 + 64 + n) 0 ps.

(** The sections from [pos], the descriptor before them being at [prev]. *)
Fixpoint chain_bytes2 (pos prev : Z) (ps : list part2) : list byte :=
  match ps with
  | [] => []
  | (t, b) :: ps =>
    b ++ ewf2_descriptor_bytes (descriptor2 t b pos prev)
    ++ chain_bytes2 (pos + (zlen b + 64)) (pos + zlen b) ps
  end.

Fixpoint chain2 (pos prev : Z) (ps : list part2) : list Ewf2SectionDescriptor :=
  match ps with
  | [] => []
  | (t, b) :: ps => descriptor2 t b pos prev :: chain2 (pos + (zlen b + 64)) (pos + zlen b) ps
  end.

(** The descriptor before what follows [ps]. *)
Fixpoint prev_after (pos prev : Z) (ps : list part2) : Z :=
  match ps with
  | [] => prev
  | (_, b) :: ps => prev_after (pos + (zlen b + 64)) (pos + zlen b) ps
  end.

Definition header_bytes2 (num : Z) (set_id : list byte) : list byte :=
  EVF2_SIGNATURE ++ [byte_of_Z 2; byte_of_Z 1] ++ le_bytes 2 1 ++ le_bytes 4 num ++ set_id.

Definition segment_bytes2 (num : Z) (set_id : list byte) (ps : list part2) : list byte :=
  header_bytes2 num set_id ++ chain_bytes2 EWF2_FILE_HEADER_SIZE 0 ps.

(** ** Lemmas *)

(** A section type that is stored under its own number. *)
Definition good_type (t : Ewf2SectionType) : Prop :=
  0 <= section_type_id t <= u32_max /\ Ewf2SectionType_from_u32 (section_type_id t) = t.

Definition good_parts2 (ps : list part2) : Prop := Forall (fun p => good_type p.1) ps.

Lemma span2_cons t b ps : span2 ((t, b) :: ps) = zlen b + 64 + span2 ps.
Proof. done. Qed.

Lemma span2_nonneg ps : 0 <= span2 ps.
Proof. induction ps as [|[t b] ps IH]; [done|]. rewrite span2_cons. pose proof (zlen_nonneg b). lia. Qed.

Lemma span2_app ps qs : span2 (ps ++ qs) = span2 ps + span2 qs.
Proof.
  induction ps as [|[t b] ps IH]; [done|]. rewrite <-app_comm_cons, !span2_cons, IH. lia.
Qed.

Lemma chain2_app ps qs : forall pos prev,
  chain2 pos prev (ps ++ qs) = chain2 pos prev ps ++ chain2 (pos + span2 ps) (prev_after pos prev ps) qs.
Proof.
  induction ps as [|[t b] ps IH]; intros pos prev; [by rewrite Z.add_0_r|].
  cbn [app chain2 prev_after]. rewrite IH, span2_cons. do 3 f_equal. lia.
Qed.

Lemma chain_bytes2_app ps qs : forall pos prev,
  chain_bytes2 pos prev (ps ++ qs)
  = chain_bytes2 pos prev ps ++ chain_bytes2 (pos + span2 ps) (prev_after pos prev ps) qs.
Proof.
  induction ps as [|[t b] ps IH]; intros pos prev; [by rewrite Z.add_0_r|].
  cbn [app chain_bytes2 prev_after]. rewrite IH, span2_cons, <-!app_assoc. do 4 f_equal. lia.
Qed.

Lemma prev_after_bounds ps : forall pos prev, 0 <= prev <= pos -> 0 <= prev_after pos prev ps <= pos + span2 ps.
Proof.
  induction ps as [|[t b] ps IH]; intros pos prev Hp; [cbn; lia|]. cbn [prev_after]. rewrite span2_cons.
  pose proof (zlen_nonneg b). specialize (IH (pos + (zlen b + 64)) (pos + zlen b)). lia.
Qed.

Lemma prev_after_snoc t b ps : forall pos prev, prev_after pos prev (ps ++ [(t, b)]) = pos + span2 ps + zlen b.
Proof.
  induction ps as [|[t' b'] ps IH]; intros pos prev; [cbn; lia|]. cbn [app prev_after]. rewrite IH, span2_cons. lia.
Qed.

(** The descriptor before is the last 64 bytes. *)
Lemma prev_after_last ps pos prev : ps <> [] -> prev_after pos prev ps = pos + span2 ps - 64.
Proof.
  destruct ps as [|[t b] ps _] using rev_ind; [done|]. intros _. rewrite prev_after_snoc, span2_app, span2_cons.
  cbn. lia.
Qed.

Context `{!DigestsLaws}.

Lemma zlen_descriptor2 t b pos prev : zlen (ewf2_descriptor_bytes (descriptor2 t b pos prev)) = 64.
Proof.
  unfold ewf2_descriptor_bytes. autorewrite with ewf. cbn [data_integrity_hash descriptor2]. rewrite length_md5. lia.
Qed.

Lemma zlen_chain_bytes2 ps : forall pos prev, zlen (chain_bytes2 pos prev ps) = span2 ps.
Proof.
  induction ps as [|[t b] ps IH]; intros pos prev; [done|]. cbn [chain_bytes2].
  rewrite !zlen_app, zlen_descriptor2, IH, span2_cons. lia.
Qed.

Lemma zlen_header_bytes2 num set_id : zlen set_id = 16 -> zlen (header_bytes2 num set_id) = EWF2_FILE_HEADER_SIZE.
Proof. intros Hs. unfold header_bytes2. autorewrite with ewf. rewrite Hs. done. Qed.

Lemma zlen_segment_bytes2 num set_id ps :
  zlen set_id = 16 -> zlen (segment_bytes2 num set_id ps) = EWF2_FILE_HEADER_SIZE + span2 ps.
Proof. intros Hs. unfold segment_bytes2. by rewrite zlen_app, zlen_header_bytes2, zlen_chain_bytes2. Qed.

(** Where the body and the descriptor of a section are. *)
Lemma section_at2 num set_id l1 t b l2 :
  zlen set_id = 16 ->
  let bytes := segment_bytes2 num set_id (l1 ++ (t, b) :: l2) in
  let pos := EWF2_FILE_HEADER_SIZE + span2 l1 in
  slice bytes pos (pos + zlen b) = Some b /\
  slice bytes (pos + zlen b) (pos + zlen b + 64)
  = Some (ewf2_descriptor_bytes (descriptor2 t b pos (prev_after EWF2_FILE_HEADER_SIZE 0 l1))).
Proof.
  intros Hs bytes pos. pose proof (zlen_nonneg b).
  assert (bytes = (header_bytes2 num set_id ++ chain_bytes2 EWF2_FILE_HEADER_SIZE 0 l1) ++ b
    ++ ewf2_descriptor_bytes (descriptor2 t b pos (prev_after EWF2_FILE_HEADER_SIZE 0 l1))
    ++ chain_bytes2 (pos + (zlen b + 64)) (pos + zlen b) l2) as ->.
  { unfold bytes, segment_bytes2. by rewrite chain_bytes2_app, <-app_assoc. }
  assert (zlen (header_bytes2 num set_id ++ chain_bytes2 EWF2_FILE_HEADER_SIZE 0 l1) = pos) as Hpos.
  { by rewrite zlen_app, zlen_header_bytes2, zlen_chain_bytes2. }
  split; [by eapply (slice_at _ b)|].
  rewrite app_assoc. eapply slice_at; [done| |by rewrite zlen_descriptor2]. by rewrite zlen_app, Hpos.
Qed.

(** The descriptor is read back. *)
Lemma descriptor2_read `{SafeReadLaws} t b pos prev :
  good_type t -> 0 <= prev <= u64_max -> zlen b <= u64_max ->
  Ewf2SectionDescriptor_parse (ewf2_descriptor_bytes (descriptor2 t b pos prev)) (pos + zlen b)
  = Ok (descriptor2 t b pos prev).
Proof.
  intros [Hid Ht] Hp Hb. pose proof (zlen_nonneg b).
  pose proof (ewf2_descriptor_roundtrip (descriptor2 t b pos prev) []) as Hr. rewrite app_nil_r in Hr. apply Hr.
  unfold ewf2_descriptor_wf. cbn. split_and!; try done; try lia. apply length_md5.
Qed.
End Chains2.

(** * Images *)

Section Image2.
Context `{Adler} `{Digests}.

(** An acquisition: the geometry, and for each segment its leading sections and its
    chunks. *)
Record acquisition2 := {
  a2_sectors_per_chunk : Z;
  a2_bytes_per_sector : Z;
  a2_sector_count : Z;
  a2_set_identifier : list byte;
  a2_segments : list (list part2 * list stored_chunk);
}.

Definition a2_chunk_size (a : acquisition2) : Z := a2_bytes_per_sector a * a2_sectors_per_chunk a.
Definition a2_total (a : acquisition2) : Z := a2_bytes_per_sector a * a2_sector_count a.
Definition a2_chunks (a : acquisition2) : list stored_chunk := concat (map snd (a2_segments a)).
Definition a2_media (a : acquisition2) : list byte := stored_media (a2_total a) (a2_chunks a).

(** The table of values: one table with one row. *)
Definition device_rows (a : acquisition2) : list text :=
  [str "1"; str "main"; join tab [str "b"; str "sc"; str "ts"];
   join tab [print_dec (a2_bytes_per_sector a); print_dec (a2_sectors_per_chunk a); print_dec (a2_sector_count a)]].

Definition device_part (a : acquisition2) : part2 :=
  (DeviceInfo, utf16_bytes (concat (map (fun l => l ++ [newline]) (device_rows a)))).

Definition entry_bytes2 (off : Z) (c : stored_chunk) : list byte :=
  le_bytes 8 off ++ le_bytes 4 (zlen (ck_raw c))
  ++ le_bytes 4 (if ck_compressed c then CHUNK_FLAG_COMPRESSED else CHUNK_FLAG_CHECKSUMED).

(** The entries of chunks stored one after the other from [off]. *)
Fixpoint entries_bytes2 (off : Z) (cks : list stored_chunk) : list byte :=
  match cks with
  | [] => []
  | c :: cks => entry_bytes2 off c ++ entries_bytes2 (off + zlen (ck_raw c)) cks
  end.

Definition table_body2 (first base : Z) (cks : list stored_chunk) : list byte :=
  let entries := entries_bytes2 base cks in
  le_bytes 8 first ++ le_bytes 4 (zlen cks) ++ zeros 20 ++ entries ++ le_bytes 4 (adler32 entries).

Definition front_parts2 (a : acquisition2) (first : bool) (prologue : list part2) : list part2 :=
  prologue ++ if first then [device_part a] else [].

(** Where the chunks of a segment start. *)
Definition base2 (a : acquisition2) (first : bool) (prologue : list part2) : Z :=
  EWF2_FILE_HEADER_SIZE + span2 (front_parts2 a first prologue).

Definition chunk_parts2 (number base : Z) (cks : list stored_chunk) : list part2 :=
  [(SectorData, concat (map ck_raw cks)); (SectorTable, table_body2 number base cks)].

Definition back_parts2 (a : acquisition2) (last_ : bool) : list part2 :=
  if last_ then [(Md5Hash, md5 (a2_media a) ++ zeros 16); (Sha1Hash, sha1 (a2_media a) ++ zeros 12); (Done, [])]
  else [(Next, [])].

(** [number] is the number of the first chunk of the segment. *)
Definition segment_parts2 (a : acquisition2) (first last_ : bool) (number : Z) (seg : list part2 * list stored_chunk)
    : list part2 :=
  front_parts2 a first seg.1 ++ chunk_parts2 number (base2 a first seg.1) seg.2 ++ back_parts2 a last_.

(** The segments from the [i]-th of [n]. *)
Fixpoint write_segments2 (a : acquisition2) (n i number : Z) (segs : list (list part2 * list stored_chunk))
    : list (list byte) :=
  match segs with
  | [] => []
  | seg :: segs =>
    segment_bytes2 (i + 1) (a2_set_identifier a) (segment_parts2 a (i =? 0) (i =? n - 1) number seg)
    :: write_segments2 a n (i + 1) (number + zlen seg.2) segs
  end.

Definition write_image2 (a : acquisition2) : list (list byte) :=
  write_segments2 a (zlen (a2_segments a)) 0 0 (a2_segments a).

(** What a tool puts before the chunks: no section that the reader takes for the
    geometry, a table or a digest, and case data that is plain or inflates. *)
Definition prologue_part2 `{Zlib} (p : part2) : Prop :=
  good_type p.1 /\
  match p.1 with
  | DeviceInfo | SectorTable | Md5Hash | Sha1Hash => False
  | CaseData => exists plain, maybe_zlib_decompress p.2 = Ok plain
  | _ => True
  end.

(** The acquisitions of the theorem: whole chunks except the last, which covers the end
    of the media; what is stored for a chunk is a zlib stream of its page, with or
    without a checksum behind it, or starts with the page. *)
Record acquisition2_ok `{Zlib} (a : acquisition2) : Prop := {
  o2_geometry : 0 < a2_bytes_per_sector a <= u64_max /\ 0 < a2_sectors_per_chunk a <= u64_max /\
                0 < a2_sector_count a <= u64_max /\ a2_chunk_size a <= u32_max;
  o2_set : zlen (a2_set_identifier a) = 16;
  o2_covered : a2_total a <= zlen (concat (map ck_page (a2_chunks a)));
  o2_chunks : Forall (fun c => chunk_holds (a2_chunk_size a) c (zlen (ck_raw c))) (a2_chunks a);
  o2_full : Forall (fun c => zlen (ck_page c) = a2_chunk_size a) (removelast (a2_chunks a));
  o2_fits : a2_chunk_size a * zlen (a2_chunks a) <= i64_max;
  o2_numbers : 0 < zlen (a2_segments a) <= u32_max;
  o2_prologues : Forall (fun seg => Forall prologue_part2 seg.1) (a2_segments a);
  o2_counts : Forall (fun seg => zlen seg.2 <= 4000000) (a2_segments a);
  o2_lengths : Forall (fun bs => zlen bs <= i64_max) (write_image2 a);
}.
End Image2.

(** * Where the parts of a written segment are *)

Lemma length_write_segments2 `{Adler} `{Digests} a n segs : forall i number,
  length (write_segments2 a n i number segs) = length segs.
Proof. induction segs as [|seg segs IH]; intros i number; [done|]. cbn. by rewrite IH. Qed.

Lemma zlen_entries_bytes2 cks : forall off, zlen (entries_bytes2 off cks) = 16 * zlen cks.
Proof.
  induction cks as [|c cks IH]; intros off; [done|]. cbn [entries_bytes2]. unfold entry_bytes2.
  rewrite !zlen_app, !zlen_le_bytes, IH, zlen_cons. lia.
Qed.

Lemma entries_bytes2_app base cks1 cks2 :
  entries_bytes2 base (cks1 ++ cks2)
  = entries_bytes2 base cks1 ++ entries_bytes2 (base + raw_span cks1) cks2.
Proof.
  revert base. induction cks1 as [|c cks1 IH]; intros base; cbn [app entries_bytes2].
  - change (raw_span []) with 0. by rewrite Z.add_0_r.
  - rewrite IH, raw_span_cons, <-app_assoc. do 3 f_equal. lia.
Qed.

Lemma raw_span_slices bytes base cks1 cks2 :
  slice bytes base (base + raw_span (cks1 ++ cks2)) = Some (concat (map ck_raw (cks1 ++ cks2))) ->
  forall c rest, cks2 = c :: rest ->
  slice bytes (base + raw_span cks1) (base + raw_span cks1 + zlen (ck_raw c)) = Some (ck_raw c).
Proof.
  intros Hs c rest ->. rewrite raw_span_app, raw_span_cons in Hs. pose proof (raw_span_nonneg cks1).
  pose proof (raw_span_nonneg rest). pose proof (zlen_nonneg (ck_raw c)).
  pose proof (slice_slice _ _ _ (raw_span cks1) (raw_span cks1 + zlen (ck_raw c)) _ Hs ltac:(lia) ltac:(lia)) as Hss.
  rewrite <-Z.add_assoc, <-Hss. rewrite map_app, concat_app. cbn [map concat].
  by apply (slice_at (concat (map ck_raw cks1)) (ck_raw c) (concat (map ck_raw rest))).
Qed.

Section Layout2.
Context `{Adler} `{Zlib} `{Digests} `{!DigestsLaws}.
Variable a : acquisition2.
Hypothesis a_ok : acquisition2_ok a.

Lemma a2_bounds : 0 < a2_chunk_size a <= u32_max /\ 0 < a2_total a <= u64_max.
Proof.
  destruct a_ok as [(Hb & Hs & Hn & Hcs) _ Hcov Hch _ Hfit _ _ _ _].
  assert (0 < a2_chunk_size a) by (unfold a2_chunk_size; nia). assert (0 < a2_total a) by (unfold a2_total; nia).
  assert (zlen (concat (map ck_page (a2_chunks a))) <= a2_chunk_size a * zlen (a2_chunks a)); [|lia].
  clear -Hch. induction Hch as [|c cks [Hc _] _ IH]; [change (0 <= a2_chunk_size a * 0); lia|].
  cbn [map concat]. rewrite zlen_app, zlen_cons. lia.
Qed.

Section OneSegment2.
Variables (i number : Z) (first last_ : bool) (seg : list part2 * list stored_chunk).
Hypothesis Hin : seg ∈ a2_segments a.
Notation parts := (segment_parts2 a first last_ number seg).
Notation base := (base2 a first seg.1).
Notation data := (segment_bytes2 (i + 1) (a2_set_identifier a) parts).

Lemma segment2_parts_good : good_parts2 parts.
Proof.
  pose proof (o2_prologues a a_ok) as Hp. rewrite Forall_forall in Hp. specialize (Hp seg Hin).
  unfold good_parts2, segment_parts2, front_parts2, chunk_parts2, back_parts2. repeat apply Forall_app_2.
  - eapply Forall_impl; [exact Hp|]. by intros p [Hg _].
  - destruct first; [|constructor]. constructor; [by split|constructor].
  - constructor; [by split|]. constructor; [by split|constructor].
  - destruct last_; repeat (apply Forall_cons_2; [by split|]); apply Forall_nil_2.
Qed.

Lemma segment2_chunks :
  Forall (fun c => chunk_holds (a2_chunk_size a) c (zlen (ck_raw c))) seg.2 /\ zlen seg.2 <= 4000000.
Proof.
  split.
  - pose proof (o2_chunks a a_ok) as Hc. unfold a2_chunks in Hc. rewrite Forall_concat in Hc.
    rewrite Forall_forall in Hc. apply Hc. by apply list_elem_of_fmap_2.
  - pose proof (o2_counts a a_ok) as Hc. rewrite Forall_forall in Hc. by apply Hc.
Qed.

Lemma chunk_holds_sizes : Forall (fun c => zlen (ck_raw c) <= u32_max) seg.2.
Proof.
  eapply Forall_impl; [apply segment2_chunks|]. intros c [_ Hc]. destruct (ck_compressed c); lia.
Qed.

Hypothesis Hfits : zlen data <= i64_max.

Lemma segment2_fit : EWF2_FILE_HEADER_SIZE + span2 parts <= i64_max.
Proof. pose proof (zlen_segment_bytes2 (i + 1) _ parts (o2_set a a_ok)). lia. Qed.

(** Where the chunks of the segment are. *)
Lemma base2_bounds : 32 <= base /\ base + raw_span seg.2 <= i64_max.
Proof.
  pose proof segment2_fit as Hf. unfold segment_parts2, chunk_parts2, base2 in *. rewrite !span2_app in Hf.
  pose proof (span2_nonneg (front_parts2 a first seg.1)). pose proof (span2_nonneg (back_parts2 a last_)).
  rewrite span2_cons in Hf. fold (raw_span seg.2) in Hf.
  pose proof (span2_nonneg [(SectorTable, table_body2 number (EWF2_FILE_HEADER_SIZE + span2 (front_parts2 a first seg.1)) seg.2)]).
  unfold EWF2_FILE_HEADER_SIZE in *. lia.
Qed.

Lemma chunks_stored2 :
  slice data base (base + raw_span seg.2) = Some (concat (map ck_raw seg.2)).
Proof.
  unfold base2.
  by destruct (section_at2 (i + 1) (a2_set_identifier a) (front_parts2 a first seg.1) SectorData (concat (map ck_raw seg.2))
    ([(SectorTable, table_body2 number base seg.2)] ++ back_parts2 a last_) (o2_set a a_ok)) as [Hs _].
Qed.
End OneSegment2.
End Layout2.
