(* ===== verification/AcquireV2Read.v ===== *)
(** From the writer of AcquireV2 to the reader: a written EWF v2 image opens and
    presents exactly the media it was written from. *)

From stdpp Require Import gmap.
From S2P Require Import Prelude Text Extern Types Sections Ewf2 Parse Source ChunkTable ReaderOpen Reader.
From S2P Require Import Acquire Stored AcquireRead AcquireV2.

(** * The list of sections *)

Section Collect.
Context `{SafeReadLaws} `{Digests} `{!DigestsLaws}.

Lemma chain2_back bytes ps : forall pos prev acc,
  (acc = [] /\ prev = 0 \/ prev <> 0 /\ back_chain bytes prev acc) -> 0 < pos ->
  Forall (parsed_at bytes) (chain2 pos prev ps) -> ps <> [] ->
  back_chain bytes (pos + span2 ps - 64) (rev (chain2 pos prev ps) ++ acc).
Proof.
  induction ps as [|[t b] ps IH]; intros pos prev acc Hacc Hpos Hps Hne; [done|].
  cbn [chain2 rev] in *. apply Forall_cons in Hps as [Hd Hps]. rewrite <-app_assoc. cbn [app].
  set (d := descriptor2 t b pos prev) in *. pose proof (zlen_nonneg b).
  assert (back_chain bytes (pos + zlen b) (d :: acc)) as Hb.
  { change (pos + zlen b) with (v2_offset d). destruct Hacc as [[-> Hz]|[Hz Hc]]; [by constructor|by constructor]. }
  rewrite span2_cons. destruct (decide (ps = [])) as [->|Hps0].
  - cbn. replace (pos + (zlen b + 64 + 0) - 64) with (pos + zlen b) by lia. done.
  - replace (pos + (zlen b + 64 + span2 ps) - 64) with (pos + (zlen b + 64) + span2 ps - 64) by lia.
    apply IH; [right; split; [lia|done]|lia|done|done].
Qed.

Lemma chain2_offsets ps : forall pos prev,
  Forall (fun d => pos <= v2_offset d) (chain2 pos prev ps) /\ NoDup (v2_offset <$> chain2 pos prev ps).
Proof.
  induction ps as [|[t b] ps IH]; intros pos prev; [split; constructor|]. cbn [chain2]. rewrite fmap_cons.
  destruct (IH (pos + (zlen b + 64)) (pos + zlen b)) as [Hge Hnd]. pose proof (zlen_nonneg b). split.
  - constructor; [cbn; lia|]. eapply Forall_impl; [exact Hge|]. cbn beta. lia.
  - apply NoDup_cons. split; [|done]. intros (d & Hd & Hin)%list_elem_of_fmap.
    rewrite Forall_forall in Hge. specialize (Hge d Hin). cbn in Hd. lia.
Qed.

Section Segment.
Variables (num : Z) (set_id : list byte) (parts : list part2).
Hypothesis Hset : zlen set_id = 16.
Hypothesis Hgood : good_parts2 parts.
Definition bytes2 : list byte := segment_bytes2 num set_id parts.
Hypothesis Hfits : zlen bytes2 <= i64_max.

Lemma parts2_fit : EWF2_FILE_HEADER_SIZE + span2 parts <= i64_max.
Proof. unfold bytes2 in Hfits. by rewrite zlen_segment_bytes2 in Hfits. Qed.

Lemma parsed_written l1 l2 :
  parts = l1 ++ l2 ->
  Forall (parsed_at bytes2) (chain2 (EWF2_FILE_HEADER_SIZE + span2 l1) (prev_after EWF2_FILE_HEADER_SIZE 0 l1) l2).
Proof.
  revert l1. induction l2 as [|[t b] l2 IH]; intros l1 Hp; [constructor|]. cbn [chain2].
  pose proof parts2_fit as Hf. rewrite Hp, span2_app, span2_cons in Hf. pose proof (span2_nonneg l2). pose proof (span2_nonneg l1).
  pose proof (zlen_nonneg b). constructor.
  - destruct (section_at2 num set_id l1 t b l2 Hset) as [_ Hd]. rewrite <-Hp in Hd.
    eexists. split; [exact Hd|]. apply descriptor2_read.
    + rewrite Hp in Hgood. apply Forall_app in Hgood as [_ Hg]. by apply Forall_cons in Hg as [Hg _].
    + pose proof (prev_after_bounds l1 EWF2_FILE_HEADER_SIZE 0). unfold EWF2_FILE_HEADER_SIZE in *. lia.
    + unfold EWF2_FILE_HEADER_SIZE in *. lia.
  - specialize (IH (l1 ++ [(t, b)])). rewrite <-app_assoc in IH. specialize (IH Hp).
    assert (span2 (l1 ++ [(t, b)]) = span2 l1 + (zlen b + 64)) as Hs by (rewrite span2_app, span2_cons; cbn; lia).
    rewrite Hs, prev_after_snoc, Z.add_assoc in IH. exact IH.
Qed.

Lemma collect_written f :
  file_reliable f -> file_bytes f = bytes2 -> parts <> [] ->
  collect_ewf2_descriptors f (zlen (file_bytes f)) = Ok (chain2 EWF2_FILE_HEADER_SIZE 0 parts).
Proof.
  intros Hf Hb Hne. pose proof (zlen_segment_bytes2 num set_id parts Hset) as Hl. fold bytes2 in Hl.
  assert (64 <= span2 parts) as Hspan.
  { destruct parts as [|[t b] ps]; [done|]. rewrite span2_cons. pose proof (zlen_nonneg b). pose proof (span2_nonneg ps). lia. }
  assert (parts = [] ++ parts) as Hp by done. pose proof (parsed_written [] parts Hp) as Hparsed.
  change (span2 []) with 0 in Hparsed. rewrite Z.add_0_r in Hparsed. cbn [prev_after] in Hparsed.
  pose proof (collect_ewf2_exact f (chain2 EWF2_FILE_HEADER_SIZE 0 parts) Hf) as Hc. cbv zeta in Hc. rewrite Hb, Hl in *.
  destruct Hc as [[_ Hc] _]; [lia|unfold EWF2_FILE_HEADER_SIZE, EWF2_SECTION_DESCRIPTOR_SIZE; lia|].
  apply Hc. split; [|apply chain2_offsets].
  rewrite <-(app_nil_r (rev _)). unfold EWF2_SECTION_DESCRIPTOR_SIZE. apply chain2_back; [by left|done|exact Hparsed|done].
Qed.
End Segment.
End Collect.

(** * The handlers on written sections *)

Lemma length_print_digits fuel radix n acc : (length (print_digits fuel radix n acc) <= fuel + length acc)%nat.
Proof.
  revert n acc. induction fuel as [|fuel IH]; intros n acc; [done|]. cbn [print_digits].
  destruct (_ =? 0); cbn; [lia|]. specialize (IH (n / radix) (digit_char (n mod radix) :: acc)). cbn in IH. lia.
Qed.

Lemma zlen_print_dec n : zlen (print_dec n) <= 64.
Proof. unfold zlen, print_dec. pose proof (length_print_digits 64 10 n []). cbn in *. lia. Qed.

Lemma zlen_utf16_bytes t : zlen (utf16_bytes t) <= 4 * zlen t.
Proof.
  unfold utf16_bytes. induction t as [|c t IH]; [done|]. cbn [map concat]. rewrite map_app, concat_app, zlen_app, zlen_cons.
  assert (zlen (concat (map (le_bytes 2) (encode_utf16 c))) <= 4); [|lia]. unfold encode_utf16. by destruct (c <? 65536).
Qed.

Lemma concat_lines_scalar ts : Forall (Forall is_scalar) ts -> Forall is_scalar (concat (map (fun l => l ++ [newline]) ts)).
Proof.
  intros Ht. apply Forall_concat, Forall_map. eapply Forall_impl; [exact Ht|]. intros l Hl.
  apply Forall_app_2; [done|]. constructor; [|constructor]. left. split; done.
Qed.

Lemma print_dec_digits n : 0 <= n -> Forall (fun c => 48 <= c <= 57) (print_dec n).
Proof.
  unfold print_dec. assert (forall fuel n acc, 0 <= n -> Forall (fun c => 48 <= c <= 57) acc ->
    Forall (fun c => 48 <= c <= 57) (print_digits fuel 10 n acc)) as Hgen.
  { induction fuel as [|fuel IH]; intros m acc Hm Ha; [done|]. cbn [print_digits].
    pose proof (Z.mod_pos_bound m 10 ltac:(lia)).
    assert (Forall (fun c => 48 <= c <= 57) (digit_char (m mod 10) :: acc)) as Ha'.
    { constructor; [|done]. unfold digit_char. rewrite (proj2 (Z.ltb_lt _ 10)) by lia. lia. }
    destruct (_ =? 0); [done|]. apply IH; [|done]. apply Z.div_pos; lia. }
  intros Hn. by apply Hgen.
Qed.

(** ** The geometry *)

(** A tab or a printable character of ASCII. *)
Definition field_char (c : Z) : Prop := c = tab \/ 32 <= c <= 126.

Lemma field_line t : Forall field_char t -> newline ∉ t /\ strip_cr t = t.
Proof.
  intros Ht. split.
  - intros Hin. rewrite Forall_forall in Ht. specialize (Ht _ Hin). unfold field_char, newline, tab in Ht. lia.
  - apply Forall_rev in Ht. unfold strip_cr. destruct (rev t) as [|x r]; [done|].
    apply Forall_cons in Ht as [Hx _]. rewrite (proj2 (Z.eqb_neq _ _)); [done|]. unfold field_char, carriage_return, tab in *. lia.
Qed.

Lemma field_scalar t : Forall field_char t -> Forall is_scalar t.
Proof. intros Ht. eapply Forall_impl; [exact Ht|]. intros c. unfold field_char, tab, is_scalar. lia. Qed.

Lemma join_field ps : Forall (Forall field_char) ps -> Forall field_char (join tab ps).
Proof.
  induction 1 as [|p ps Hp Hps IH]; [constructor|]. cbn [join]. destruct ps; [done|].
  apply Forall_app_2; [done|]. constructor; [by left|done].
Qed.

Section Device.
Context `{Profile}.
Variable a : acquisition2.
Hypothesis geometry : 0 < a2_bytes_per_sector a <= u64_max /\ 0 < a2_sectors_per_chunk a <= u64_max /\
                      0 < a2_sector_count a <= u64_max.

Lemma number_fields n : 0 <= n -> Forall field_char (print_dec n).
Proof. intros Hn. eapply Forall_impl; [by apply print_dec_digits|]. cbn. unfold field_char. lia. Qed.

Lemma device_rows_fields : Forall (Forall field_char) (device_rows a).
Proof.
  assert (forall t, forallb (fun c => (32 <=? c) && (c <=? 126)) t = true -> Forall field_char t) as Hb.
  { intros t Ht. apply Forall_forall. intros c Hc. rewrite forallb_forall in Ht.
    specialize (Ht c ltac:(by apply list_elem_of_In)). bool_hyps. right. lia. }
  unfold device_rows. constructor; [by apply Hb|]. constructor; [by apply Hb|]. constructor.
  - apply join_field. repeat (constructor; [by apply Hb|]). constructor.
  - constructor; [|constructor]. apply join_field. repeat (constructor; [apply number_fields; lia|]). constructor.
Qed.

Lemma device_rows_read : lines (utf16_text_skipping (device_part a).2) = device_rows a.
Proof.
  pose proof device_rows_fields as Hf. unfold device_part. cbn [snd]. rewrite utf16_text_written.
  - apply lines_written. eapply Forall_impl; [exact Hf|]. apply field_line.
  - apply concat_lines_scalar. eapply Forall_impl; [exact Hf|]. apply field_scalar.
Qed.

Lemma no_tab_digits n : 0 <= n -> tab ∉ print_dec n.
Proof.
  intros Hn Hin. pose proof (print_dec_digits n Hn) as Hd. rewrite Forall_forall in Hd. specialize (Hd _ Hin).
  unfold tab in Hd. lia.
Qed.

Lemma device_head : exists rest, (device_part a).2 = Byte.x31 :: Byte.x00 :: rest.
Proof. by eexists. Qed.

Lemma device_not_compressed : (device_part a).2 !! 0%nat <> Some Byte.x78.
Proof. by destruct device_head as [rest ->]. Qed.

Lemma device_size : 0 < zlen (device_part a).2 < MAX_SECTION_DATA_SIZE.
Proof.
  destruct device_head as [rest Hh]. split.
  { rewrite Hh, zlen_cons. pose proof (zlen_nonneg (Byte.x00 :: rest)). lia. }
  pose proof (zlen_print_dec (a2_bytes_per_sector a)). pose proof (zlen_print_dec (a2_sectors_per_chunk a)).
  pose proof (zlen_print_dec (a2_sector_count a)). unfold device_part. cbn [snd].
  eapply Z.le_lt_trans; [apply zlen_utf16_bytes|].
  assert (zlen (concat (map (fun l => l ++ [newline]) (device_rows a)))
          = 18 + zlen (print_dec (a2_bytes_per_sector a)) + zlen (print_dec (a2_sectors_per_chunk a))
            + zlen (print_dec (a2_sector_count a))) as ->; [|unfold MAX_SECTION_DATA_SIZE; lia].
  unfold device_rows. cbn [map concat join]. unfold zlen. repeat first [rewrite length_app | progress (cbn [length])].
  repeat match goal with |- context [length (str ?t)] => let n := eval cbv in (length (str t)) in change (length (str t)) with n end.
  lia.
Qed.

Lemma device_steps v0 v1 v2 :
  fold_left (device_info_step [v0; v1; v2]) (enumerate [str "b"; str "sc"; str "ts"]) (512, 64, 0)
  = (default 512 (parse_u64 v0), default 64 (parse_u64 v1), default 0 (parse_u64 v2)).
Proof. reflexivity. Qed.

Lemma device_parsed cs ts :
  a2_chunk_size a <= u64_max -> a2_total a <= u64_max ->
  parse_ewf2_device_info (E:=ewf_error) (device_part a).2 cs ts = Ok (a2_chunk_size a, a2_total a).
Proof.
  intros Hcs Hts. unfold parse_ewf2_device_info, ewf2_table_rows. rewrite device_rows_read.
  assert (zlen (device_part a).2 <? 2 = false) as ->.
  { destruct device_head as [rest ->]. rewrite !zlen_cons. pose proof (zlen_nonneg rest). apply Z.ltb_ge. lia. }
  unfold device_rows. rewrite (split_join tab [str "b"; str "sc"; str "ts"]); [|done|apply (bool_decide_unpack _); vm_compute; exact I].
  rewrite split_join; [|done|repeat (apply Forall_cons_2; [apply no_tab_digits; lia|]); apply Forall_nil_2].
  rewrite device_steps, !parse_u64_print_dec by lia. cbn [default from_option id]. fold (a2_chunk_size a).
  assert (0 < a2_chunk_size a) by (unfold a2_chunk_size; nia). assert (0 < a2_total a) by (unfold a2_total; nia).
  rewrite (mul64_ok _ (a2_sectors_per_chunk a)) by (fold (a2_chunk_size a); lia). cbn [mbind outcome_bind].
  fold (a2_chunk_size a). rewrite (proj2 (Z.ltb_lt 0 (a2_chunk_size a))), (proj2 (Z.ltb_lt 0 (a2_sector_count a))),
    (proj2 (Z.ltb_lt 0 (a2_bytes_per_sector a))) by lia. cbn [andb].
  rewrite (mul64_ok (a2_bytes_per_sector a)) by (fold (a2_total a); lia). done.
Qed.
End Device.

(** ** The chunk table *)

(** The records a reader keeps for chunks stored one after the other from [off]. *)
Fixpoint records2 (seg off : Z) (cks : list stored_chunk) : list Chunk :=
  match cks with
  | [] => []
  | c :: cks => Chunk_new seg (ck_compressed c) off (zlen (ck_raw c)) :: records2 seg (off + zlen (ck_raw c)) cks
  end.

Section TableEntries.
Context `{SafeReadLaws}.

Lemma entry2_read off c rest :
  0 <= off <= u64_max -> zlen (ck_raw c) <= u32_max ->
  exists e, Ewf2TableEntry_parse (entry_bytes2 off c ++ rest) = Ok e /\ v2_is_compressed e = ck_compressed c /\
            chunk_data_offset e = off /\ chunk_data_size e = zlen (ck_raw c).
Proof.
  intros Ho Hs. pose proof (zlen_nonneg (ck_raw c)). pose proof (zlen_nonneg rest). unfold Ewf2TableEntry_parse, EWF2_TABLE_ENTRY_SIZE.
  unfold entry_bytes2. rewrite <-!app_assoc. set (flags := if ck_compressed c then _ else _).
  assert (0 <= flags <= u32_max) as Hf by (unfold flags, CHUNK_FLAG_COMPRESSED, CHUNK_FLAG_CHECKSUMED; destruct (ck_compressed c); lia).
  rewrite (proj2 (Z.ltb_ge _ _)) by (rewrite !zlen_app, !zlen_le_bytes; lia).
  eexists. split; [reflexivity|]. cbn [chunk_data_offset chunk_data_size]. split; [|split].
  - unfold v2_is_compressed. cbn [v2_flags].
    rewrite (le_u32_field _ (le_bytes 8 off ++ le_bytes 4 (zlen (ck_raw c))) rest 12 flags);
      [|by rewrite <-app_assoc|by rewrite zlen_app, !zlen_le_bytes|done].
    unfold flags. by destruct (ck_compressed c).
  - by apply (le_u64_field _ [] (le_bytes 4 (zlen (ck_raw c)) ++ le_bytes 4 flags ++ rest)).
  - apply (le_u32_field _ (le_bytes 8 off) (le_bytes 4 flags ++ rest)); [done|by rewrite zlen_le_bytes|lia].
Qed.

Lemma v2_table_entries_written seg base cks2 : forall cks1 chunks,
  0 <= base -> base + raw_span (cks1 ++ cks2) <= u64_max ->
  Forall (fun c => zlen (ck_raw c) <= u32_max) (cks1 ++ cks2) ->
  v2_table_entries (length cks2) (zlen cks1) (entries_bytes2 base (cks1 ++ cks2)) seg chunks
  = Ok (chunks ++ records2 seg (base + raw_span cks1) cks2).
Proof.
  induction cks2 as [|c cks2 IH]; intros cks1 chunks Hb Hfit Hsz; [cbn; by rewrite app_nil_r|].
  cbn [length v2_table_entries records2].
  pose proof (entries_bytes2_app base cks1 (c :: cks2)) as Heq. cbn [entries_bytes2] in Heq.
  pose proof (zlen_entries_bytes2 cks1 base) as Hl1. pose proof (raw_span_nonneg cks1).
  rewrite raw_span_app, raw_span_cons in Hfit. pose proof (raw_span_nonneg cks2). pose proof (zlen_nonneg (ck_raw c)).
  apply Forall_app in Hsz as Hsz'. destruct Hsz' as [_ Hc]. apply Forall_cons in Hc as [Hc _].
  unfold index_range, EWF2_TABLE_ENTRY_SIZE.
  rewrite (slice_at (entries_bytes2 base cks1) (entry_bytes2 (base + raw_span cks1) c)
             (entries_bytes2 (base + raw_span cks1 + zlen (ck_raw c)) cks2)); [|exact Heq|lia|].
  2: { unfold entry_bytes2. rewrite !zlen_app, !zlen_le_bytes. lia. }
  cbn [or_panic mbind outcome_bind].
  destruct (entry2_read (base + raw_span cks1) c []) as (e & He & Hcomp & Hoff & Hsize); [lia|done|].
  rewrite app_nil_r in He. rewrite He. cbn [mbind outcome_bind]. rewrite Hcomp, Hoff, Hsize.
  replace (cks1 ++ c :: cks2) with ((cks1 ++ [c]) ++ cks2) in * by by rewrite <-app_assoc.
  replace (zlen cks1 + 1) with (zlen (cks1 ++ [c])) by by rewrite zlen_app.
  rewrite IH; [|done| |done].
  - rewrite raw_span_app, raw_span_cons. change (raw_span []) with 0. rewrite <-app_assoc. cbn [app].
    do 4 f_equal. lia.
  - rewrite !raw_span_app, raw_span_cons. change (raw_span []) with 0. lia.
Qed.
End TableEntries.

(** ** One section *)

Section Handlers2.
Context `{SafeReadLaws} `{AdlerLaws} `{Zlib} `{Digests} `{!DigestsLaws} `{Profile}.
Variables (num : Z) (set_id : list byte) (parts : list part2) (f : File) (seg : Z).
Hypothesis Hset : zlen set_id = 16.
Hypothesis Hfile : file_reliable f.
Hypothesis Hbytes : file_bytes f = bytes2 num set_id parts.
Hypothesis Hfits : zlen (file_bytes f) <= i64_max.

(** A read inside the body of a section. *)
Lemma read_body2 l1 t b l2 off n :
  parts = l1 ++ (t, b) :: l2 -> 0 <= off -> 0 <= n -> off + n <= zlen b ->
  file_read_exact_at f (EWF2_FILE_HEADER_SIZE + span2 l1 + off) n = Ok (ztake n (zdrop off b)).
Proof.
  intros Hp Ho Hn Hb. destruct (section_at2 num set_id l1 t b l2 Hset) as [Hbody _]. cbv zeta in Hbody.
  rewrite <-Hp in Hbody. fold (bytes2 num set_id parts) in Hbody. rewrite <-Hbytes in Hbody.
  pose proof (span2_nonneg l1). pose proof (slice_bounds _ _ _ _ Hbody) as Hbd. unfold EWF2_FILE_HEADER_SIZE in *.
  assert (slice (file_bytes f) (32 + span2 l1 + off) (32 + span2 l1 + off + n) = Some (ztake n (zdrop off b))) as Hsl.
  { pose proof (slice_slice _ _ _ off (off + n) b Hbody ltac:(lia) ltac:(lia)) as Hss.
    rewrite slice_some in Hss by lia. rewrite <-!Z.add_assoc. rewrite <-!Z.add_assoc in Hss. rewrite <-Hss. do 2 f_equal. lia. }
  destruct (decide (n = 0)) as [->|Hne].
  - unfold file_read_exact_at. rewrite (proj2 (Z.ltb_ge _ _)) by lia. rewrite pread_spec by (done || lia).
    cbn [from_io mbind outcome_bind]. by rewrite !ztake_0.
  - pose proof (file_read_spec f (32 + span2 l1 + off) n Hfile Hfits ltac:(lia) ltac:(lia)) as Hr. by rewrite Hsl in Hr.
Qed.

Lemma read_whole2 l1 t b l2 :
  parts = l1 ++ (t, b) :: l2 -> file_read_exact_at f (EWF2_FILE_HEADER_SIZE + span2 l1) (zlen b) = Ok b.
Proof.
  intros Hp. pose proof (read_body2 l1 t b l2 0 (zlen b) Hp) as Hr. rewrite Z.add_0_r in Hr.
  pose proof (zlen_nonneg b). rewrite Hr by lia. by rewrite zdrop_0, ztake_all.
Qed.

Lemma data_offset2 what t b pos prev : 0 <= pos -> v2_data_offset what (descriptor2 t b pos prev) = Ok pos.
Proof.
  intros Hp. unfold v2_data_offset, checked_sub. cbn [v2_offset data_size descriptor2]. pose proof (zlen_nonneg b).
  rewrite (proj2 (Z.leb_le _ _)) by lia. cbn. f_equal. lia.
Qed.

Lemma plain_body raw : raw !! 0%nat <> Some Byte.x78 -> maybe_zlib_decompress raw = Ok raw.
Proof.
  intros Hr. unfold maybe_zlib_decompress. rewrite bool_decide_eq_false_2 by done. by rewrite andb_false_r.
Qed.

Variables (l1 : list part2) (t : Ewf2SectionType) (b : list byte) (l2 : list part2) (prev : Z).
Hypothesis Hparts : parts = l1 ++ (t, b) :: l2.

Notation pos := (EWF2_FILE_HEADER_SIZE + span2 l1).
Notation desc := (descriptor2 t b pos prev).

Lemma pos_nonneg : 0 <= pos.
Proof. pose proof (span2_nonneg l1). unfold EWF2_FILE_HEADER_SIZE. lia. Qed.

Lemma open_v2_device_written a o :
  (0 < a2_bytes_per_sector a <= u64_max /\ 0 < a2_sectors_per_chunk a <= u64_max /\
   0 < a2_sector_count a <= u64_max) ->
  a2_chunk_size a <= u64_max -> a2_total a <= u64_max ->
  (t, b) = device_part a -> o_chunk_size o = 0 ->
  open_v2_section f seg desc o = Ok (set_geometry (a2_chunk_size a) (a2_total a) o).
Proof.
  intros Hg Hcs Hts Hd Hz. pose proof (device_size a) as Hsz. pose proof (device_not_compressed a) as Hnc.
  pose proof (device_parsed a Hg (o_chunk_size o) (o_total_size o) Hcs Hts) as Hp.
  rewrite <-Hd in Hsz, Hnc, Hp. cbn [snd] in *. unfold device_part in Hd. injection Hd as Ht _.
  unfold open_v2_section. change (is_encrypted desc) with false. cbn [v2_section_type data_size descriptor2]. rewrite Ht.
  rewrite Hz. unfold small_section. rewrite !(proj2 (Z.ltb_lt _ _)) by lia. cbn [andb].
  change (0 =? 0) with true. cbn iota. unfold open_v2_device_info, read_v2_text. rewrite data_offset2 by apply pos_nonneg.
  cbn [mbind outcome_bind data_size descriptor2]. rewrite (read_whole2 l1 t b l2) by done. cbn [mbind outcome_bind].
  rewrite plain_body by done. cbn [mbind outcome_bind]. by rewrite Hp.
Qed.

Lemma open_v2_hash_written o hash fill :
  b = hash ++ fill ->
  (t = Md5Hash -> zlen hash = 16 -> open_v2_section f seg desc o = Ok (set_hashes (Some hash) (o_sha1 o) o)) /\
  (t = Sha1Hash -> zlen hash = 20 -> open_v2_section f seg desc o = Ok (set_hashes (o_md5 o) (Some hash) o)).
Proof.
  intros Hb. pose proof (zlen_nonneg fill). assert (zlen b = zlen hash + zlen fill) as Hl by (by rewrite Hb, zlen_app).
  assert (forall n, zlen hash = n -> file_read_exact_at f pos n = Ok hash) as Hread.
  { intros n Hn. pose proof (read_body2 l1 t b l2 0 n Hparts) as Hr. rewrite Z.add_0_r in Hr.
    pose proof (zlen_nonneg hash). rewrite Hr by lia. rewrite zdrop_0, Hb. f_equal. by apply ztake_app_len. }
  unfold open_v2_section. change (is_encrypted desc) with false. cbn [v2_section_type data_size descriptor2].
  split; intros -> Hn; rewrite (proj2 (Z.leb_le _ _)) by lia.
  - unfold open_v2_md5. rewrite data_offset2 by apply pos_nonneg. cbn [mbind outcome_bind]. by rewrite (Hread 16 Hn).
  - unfold open_v2_sha1. rewrite data_offset2 by apply pos_nonneg. cbn [mbind outcome_bind]. by rewrite (Hread 20 Hn).
Qed.

(** The sections of a prologue leave all but the metadata alone. *)
Lemma open_v2_prologue_written o :
  prologue_part2 (t, b) ->
  exists o', open_v2_section f seg desc o = Ok o' /\ same_core o o'.
Proof.
  intros [_ Ht]. cbn [fst snd] in Ht. unfold open_v2_section. change (is_encrypted desc) with false.
  cbn [v2_section_type data_size descriptor2].
  destruct t; try done; try (exists o; by repeat split).
  destruct (_ && _); [|exists o; by repeat split].
  unfold open_v2_case_data, read_v2_text. rewrite data_offset2 by apply pos_nonneg.
  cbn [mbind outcome_bind data_size descriptor2]. rewrite (read_whole2 l1 CaseData b l2) by done. cbn [mbind outcome_bind].
  destruct Ht as [plain ->]. eexists. split; [reflexivity|]. by repeat split.
Qed.

Lemma open_v2_table_written number base cks o :
  (t, b) = (SectorTable, table_body2 number base cks) ->
  0 <= base -> base + raw_span cks <= u64_max -> zlen cks <= 4000000 ->
  Forall (fun c => zlen (ck_raw c) <= u32_max) cks -> pos + zlen b <= i64_max ->
  open_v2_section f seg desc o = Ok (set_chunks (o_chunks o ++ records2 seg base cks) o).
Proof.
  intros Htb Hb Hspan Hcount Hsz Hpos. pose proof (zlen_nonneg cks). pose proof (zlen_entries_bytes2 cks base) as Hel.
  assert (b = le_bytes 8 number ++ le_bytes 4 (zlen cks) ++ zeros 20 ++ entries_bytes2 base cks
          ++ le_bytes 4 (adler32 (entries_bytes2 base cks))) as Hbody by by injection Htb.
  assert (t = SectorTable) as Ht by by injection Htb. clear Htb.
  assert (zlen b = 36 + 16 * zlen cks) as Hl.
  { rewrite Hbody, !zlen_app, !zlen_le_bytes, Hel. change (zlen (zeros 20)) with 20. lia. }
  unfold open_v2_section. change (is_encrypted desc) with false. cbn [v2_section_type descriptor2]. rewrite Ht.
  unfold open_v2_sector_table. rewrite data_offset2 by apply pos_nonneg. cbn [mbind outcome_bind].
  pose proof (read_body2 l1 t b l2 0 32 Hparts) as Hr. rewrite Z.add_0_r in Hr. rewrite Hr by lia. clear Hr.
  cbn [mbind outcome_bind]. rewrite zdrop_0.
  assert (ztake 32 b = le_bytes 8 number ++ le_bytes 4 (zlen cks) ++ zeros 20) as Hhdr.
  { rewrite Hbody, !app_assoc. rewrite <-app_assoc. apply ztake_app_len. by rewrite !zlen_app, !zlen_le_bytes. }
  assert (zdrop 32 b = entries_bytes2 base cks ++ le_bytes 4 (adler32 (entries_bytes2 base cks))) as Hrest.
  { rewrite Hbody, !app_assoc. rewrite <-app_assoc. apply zdrop_app_len. by rewrite !zlen_app, !zlen_le_bytes. }
  rewrite Hhdr. unfold Ewf2TableHeader_parse.
  rewrite (proj2 (Z.ltb_ge _ 32)) by (rewrite !zlen_app, !zlen_le_bytes; done).
  rewrite (le_u32_field _ (le_bytes 8 number) (zeros 20) 8 (zlen cks)); [|done|by rewrite zlen_le_bytes|lia].
  cbn [mbind outcome_bind v2_entry_count]. unfold MAX_TABLE_ENTRIES, EWF2_TABLE_ENTRY_SIZE.
  rewrite (proj2 (Z.ltb_ge _ _)) by lia. pose proof pos_nonneg.
  rewrite add64_ok by lia. cbn [mbind outcome_bind]. rewrite mul64_ok by lia. cbn [mbind outcome_bind].
  rewrite (read_body2 l1 t b l2 32 (zlen cks * 16) Hparts) by lia. cbn [mbind outcome_bind]. rewrite Hrest.
  rewrite ztake_app_len by lia.
  replace (Z.to_nat (zlen cks)) with (length cks) by (unfold zlen; lia).
  pose proof (v2_table_entries_written seg base cks [] (o_chunks o) Hb Hspan Hsz) as Ht'.
  change (zlen []) with 0 in Ht'. change (raw_span []) with 0 in Ht'. cbn [app] in Ht'. rewrite Z.add_0_r in Ht'.
  by rewrite Ht'.
Qed.
End Handlers2.

(** * Whole segments *)

Section Segments2.
Context `{SafeReadLaws} `{AdlerLaws} `{Zlib} `{Digests} `{!DigestsLaws} `{Profile}.
Variable a : acquisition2.
Hypothesis a_ok : acquisition2_ok a.

(** The geometry is known, with the given chunks and digests. *)
Definition opened2 (known : bool) (chunks : list Chunk) (hashes : option (list byte) * option (list byte)) (o : open_state) : Prop :=
  (if known then o_chunk_size o = a2_chunk_size a /\ o_total_size o = a2_total a else o_chunk_size o = 0) /\
  o_chunks o = chunks /\ (o_md5 o, o_sha1 o) = hashes.

Lemma opened2_same known chunks hashes o o' :
  opened2 known chunks hashes o -> same_core o o' -> opened2 known chunks hashes o'.
Proof. unfold opened2, same_core. destruct known; intuition congruence. Qed.

Section OneSegment2.
Variables (f : File) (i number : Z) (first last_ : bool) (seg : list part2 * list stored_chunk).
Hypothesis Hin : seg ∈ a2_segments a.
Notation parts := (segment_parts2 a first last_ number seg).
Hypothesis Hfile : file_reliable f.
Hypothesis Hbytes : file_bytes f = segment_bytes2 (i + 1) (a2_set_identifier a) parts.
Hypothesis Hfits : zlen (file_bytes f) <= i64_max.
Notation base := (base2 a first seg.1).

Lemma data_fits : zlen (segment_bytes2 (i + 1) (a2_set_identifier a) parts) <= i64_max.
Proof. by rewrite <-Hbytes. Qed.

Definition runs2 (l1 ps : list part2) (o o' : open_state) : Prop :=
  forall prev, fold_res (open_v2_section f i) (chain2 (EWF2_FILE_HEADER_SIZE + span2 l1) prev ps) o = Ok o'.

Lemma runs2_nil l1 o : runs2 l1 [] o o.
Proof. done. Qed.

Lemma runs2_cons l1 t b ps o o1 o' :
  (forall prev, open_v2_section f i (descriptor2 t b (EWF2_FILE_HEADER_SIZE + span2 l1) prev) o = Ok o1) ->
  runs2 (l1 ++ [(t, b)]) ps o1 o' -> runs2 l1 ((t, b) :: ps) o o'.
Proof.
  intros Hone Hrest prev. cbn [chain2 fold_res]. rewrite Hone. cbn [mbind outcome_bind].
  unfold runs2 in Hrest. rewrite span2_app, span2_cons in Hrest. change (span2 []) with 0 in Hrest.
  rewrite Z.add_0_r, Z.add_assoc in Hrest. apply Hrest.
Qed.

Lemma runs2_app l1 ps qs o o1 o' : runs2 l1 ps o o1 -> runs2 (l1 ++ ps) qs o1 o' -> runs2 l1 (ps ++ qs) o o'.
Proof.
  intros Hp Hq prev. rewrite chain2_app, fold_res_app, Hp. cbn [mbind outcome_bind].
  unfold runs2 in Hq. rewrite span2_app, Z.add_assoc in Hq. apply Hq.
Qed.

Lemma runs2_prologue ps : forall l1 l2 o,
  parts = l1 ++ ps ++ l2 -> Forall prologue_part2 ps -> exists o', runs2 l1 ps o o' /\ same_core o o'.
Proof.
  induction ps as [|[t b] ps IH]; intros l1 l2 o Hp Hps; [exists o; split; [apply runs2_nil|by repeat split]|].
  apply Forall_cons in Hps as [Ht Hps].
  assert (exists o1, (forall prev, open_v2_section f i (descriptor2 t b (EWF2_FILE_HEADER_SIZE + span2 l1) prev) o = Ok o1)
            /\ same_core o o1) as (o1 & Hone & Hsame).
  { destruct (open_v2_prologue_written (i + 1) _ parts f i (o2_set a a_ok) Hfile Hbytes Hfits l1 t b (ps ++ l2) 0 Hp o Ht)
      as (o1 & Ho1 & Hs). exists o1. split; [|done]. intros prev. rewrite <-Ho1. reflexivity. }
  destruct (IH (l1 ++ [(t, b)]) l2 o1) as (o' & Hrun & Hsame'); [by rewrite <-app_assoc|done|].
  exists o'. split; [by eapply runs2_cons|]. unfold same_core in *. intuition congruence.
Qed.

Lemma runs2_device l1 l2 o :
  parts = l1 ++ device_part a :: l2 -> o_chunk_size o = 0 ->
  runs2 l1 [device_part a] o (set_geometry (a2_chunk_size a) (a2_total a) o).
Proof.
  intros Hp Hz. destruct a_ok as [(Hb & Hs & Hn & _) _ _ _ _ _ _ _ _ _]. pose proof (a2_bounds a a_ok) as [Hcs Hts].
  apply (runs2_cons l1 _ _ [] _ (set_geometry (a2_chunk_size a) (a2_total a) o)); [|apply runs2_nil].
  intros prev. eapply (open_v2_device_written (i + 1) _ parts f i (o2_set a a_ok) Hfile Hbytes Hfits l1 _ _ l2 prev Hp a o); try done; lia.
Qed.

Lemma runs2_front known chunks hashes o :
  opened2 known chunks hashes o -> (first = true -> known = false) ->
  exists o', runs2 [] (front_parts2 a first seg.1) o o' /\ opened2 (first || known) chunks hashes o'.
Proof.
  intros Ho Hk. pose proof (o2_prologues a a_ok) as Hps. rewrite Forall_forall in Hps. specialize (Hps seg Hin).
  destruct (runs2_prologue seg.1 [] ((if first then [device_part a] else [])
              ++ chunk_parts2 number base seg.2 ++ back_parts2 a last_) o) as (o1 & Hrun & Hsame).
  { unfold segment_parts2, front_parts2. by rewrite <-app_assoc. }
  { done. }
  pose proof (opened2_same _ _ _ _ _ Ho Hsame) as Ho1. unfold front_parts2.
  assert (first = true /\ (if first then [device_part a] else []) = [device_part a] \/
          first = false /\ (if first then [device_part a] else []) = []) as [[Hf Hd]|[Hf Hd]] by (destruct first; auto);
    rewrite Hd.
  2: { exists o1. rewrite app_nil_r, Hf. by split. }
  specialize (Hk Hf). rewrite Hk in Ho1. destruct Ho1 as (Hz & Hc & Hh).
  exists (set_geometry (a2_chunk_size a) (a2_total a) o1). split; [|rewrite Hf; by split].
  eapply runs2_app; [exact Hrun|]. eapply runs2_device; [|done].
  unfold segment_parts2, front_parts2. rewrite Hd, <-!app_assoc. cbn [app]. reflexivity.
Qed.

Lemma runs2_chunks known chunks hashes o :
  opened2 known chunks hashes o ->
  exists o', runs2 (front_parts2 a first seg.1) (chunk_parts2 number base seg.2) o o' /\
    opened2 known (chunks ++ records2 i base seg.2) hashes o'.
Proof.
  intros Ho. exists (set_chunks (o_chunks o ++ records2 i base seg.2) o). split.
  2: { destruct Ho as (Hk & <- & Hh). by split. }
  eapply runs2_cons; [intros prev; reflexivity|]. eapply runs2_cons; [|apply runs2_nil].
  pose proof (base2_bounds a a_ok i number first last_ seg data_fits) as [Hb1 Hb2]. pose proof (segment2_fit a a_ok i number first last_ seg data_fits) as Hf.
  assert (parts = (front_parts2 a first seg.1 ++ [(SectorData, concat (map ck_raw seg.2))])
                  ++ (SectorTable, table_body2 number base seg.2) :: back_parts2 a last_) as Hp.
  { unfold segment_parts2, chunk_parts2. by rewrite <-app_assoc. }
  intros prev. eapply (open_v2_table_written (i + 1) _ parts f i (o2_set a a_ok) Hfile Hbytes Hfits _ _ _ _ prev Hp); try done.
  - lia.
  - lia.
  - by apply (segment2_chunks a a_ok).
  - by apply (chunk_holds_sizes a a_ok).
  - rewrite Hp, span2_app, span2_cons in Hf. pose proof (span2_nonneg (back_parts2 a last_)). lia.
Qed.

Definition hashes2 : option (list byte) * option (list byte) :=
  (Some (md5 (a2_media a)), Some (sha1 (a2_media a))).

Lemma runs2_back known chunks hashes o :
  opened2 known chunks hashes o ->
  exists o', runs2 (front_parts2 a first seg.1 ++ chunk_parts2 number base seg.2) (back_parts2 a last_) o o' /\
    opened2 known chunks (if last_ then hashes2 else hashes) o'.
Proof.
  intros Ho. set (l1 := front_parts2 a first seg.1 ++ chunk_parts2 number base seg.2).
  assert (parts = l1 ++ back_parts2 a last_) as Hp by (unfold l1, segment_parts2; by rewrite <-app_assoc).
  set (m := md5 (a2_media a)) in *. set (s := sha1 (a2_media a)) in *.
  assert (last_ = true /\ back_parts2 a last_ = [(Md5Hash, m ++ zeros 16); (Sha1Hash, s ++ zeros 12); (Done, [])] \/
          last_ = false /\ back_parts2 a last_ = [(Next, [])]) as [[Hl Hb]|[Hl Hb]] by (destruct last_; auto); rewrite Hb in Hp |- *.
  2: { rewrite Hl. exists o. split; [|done]. eapply runs2_cons; [intros prev; reflexivity|apply runs2_nil]. }
  set (o1 := set_hashes (Some m) (o_sha1 o) o). set (o2 := set_hashes (o_md5 o1) (Some s) o1).
  exists o2. split.
  - apply (runs2_cons l1 Md5Hash _ _ o o1).
    { intros prev. destruct (open_v2_hash_written (i + 1) _ parts f i (o2_set a a_ok) Hfile Hbytes Hfits l1 Md5Hash _ _ prev Hp o m (zeros 16) eq_refl) as [Hm _].
      apply Hm; [done|apply length_md5]. }
    apply (runs2_cons (l1 ++ [(Md5Hash, m ++ zeros 16)]) Sha1Hash _ _ o1 o2).
    { intros prev. rewrite (cons_middle (Md5Hash, _)) in Hp. rewrite app_assoc in Hp.
      destruct (open_v2_hash_written (i + 1) _ parts f i (o2_set a a_ok) Hfile Hbytes Hfits _ Sha1Hash _ _ prev Hp o1 s (zeros 12) eq_refl) as [_ Hs].
      apply Hs; [done|apply length_sha1]. }
    eapply runs2_cons; [intros prev; reflexivity|apply runs2_nil].
  - rewrite Hl. destruct Ho as (Hk & Hc & Hh). by split.
Qed.

Lemma open_segment2_written known chunks hashes o :
  opened2 known chunks hashes o -> (first = true -> known = false) ->
  exists o', open_v2_segment (i, f) o = Ok o' /\
    opened2 (first || known) (chunks ++ records2 i base seg.2) (if last_ then hashes2 else hashes) o'.
Proof.
  intros Ho Hk. destruct (runs2_front _ _ _ _ Ho Hk) as (o1 & Hr1 & Ho1).
  destruct (runs2_chunks _ _ _ _ Ho1) as (o2 & Hr2 & Ho2). destruct (runs2_back _ _ _ _ Ho2) as (o3 & Hr3 & Ho3).
  exists o3. split; [|done]. unfold open_v2_segment.
  rewrite (collect_written (i + 1) (a2_set_identifier a) parts (o2_set a a_ok) (segment2_parts_good a a_ok number first last_ seg Hin)); [|unfold bytes2; by rewrite <-Hbytes|done|done|].
  2: { unfold segment_parts2, chunk_parts2. intros Hn. apply app_eq_nil in Hn as [_ Hn]. done. }
  cbn [mbind outcome_bind].
  assert (runs2 [] parts o o3) as Hrun.
  { unfold segment_parts2. eapply runs2_app; [exact Hr1|]. eapply runs2_app; [exact Hr2|exact Hr3]. }
  specialize (Hrun 0). change (span2 []) with 0 in Hrun. by rewrite Z.add_0_r in Hrun.
Qed.
End OneSegment2.
(** ** All the segments *)

(** A file that holds the bytes. *)
Definition stores (f : File) (bs : list byte) : Prop :=
  file_reliable f /\ file_bytes f = bs /\ file_metadata_len f = Some (zlen bs).

Definition segments_from (k number : Z) (segs : list (list part2 * list stored_chunk)) : list (list byte) :=
  write_segments2 a (zlen (a2_segments a)) k number segs.

Fixpoint all_records2 (k : Z) (segs : list (list part2 * list stored_chunk)) : list Chunk :=
  match segs with
  | [] => []
  | seg :: segs => records2 k (base2 a (k =? 0) seg.1) seg.2 ++ all_records2 (k + 1) segs
  end.

Lemma open_segments2_written segs2 : forall segs1 fs number chunks o,
  a2_segments a = segs1 ++ segs2 -> segs2 <> [] ->
  Forall2 stores fs (segments_from (zlen segs1) number segs2) ->
  Forall (fun bs => zlen bs <= i64_max) (segments_from (zlen segs1) number segs2) ->
  opened2 (negb (zlen segs1 =? 0)) chunks (None, None) o ->
  exists o', fold_res open_v2_segment (enumerate_from (zlen segs1) fs) o = Ok o' /\
    opened2 true (chunks ++ all_records2 (zlen segs1) segs2) hashes2 o'.
Proof.
  induction segs2 as [|seg segs2 IH]; intros segs1 fs number chunks o Hsegs Hne Hfs Hlens Ho; [done|].
  unfold segments_from in Hfs, Hlens. cbn [write_segments2] in Hfs, Hlens. apply Forall_cons in Hlens as [Hlen Hlens].
  inversion Hfs as [|f ? fs' ? (Hrel & Hb & Hmeta) Hfs']; subst. rewrite <-Hb in Hlen.
  assert (seg ∈ a2_segments a) as Hin by (rewrite Hsegs; set_solver).
  destruct (open_segment2_written f (zlen segs1) number _ _ seg Hin Hrel Hb Hlen _ _ _ o Ho) as (o1 & Hrun & Ho1).
  { intros ->. done. }
  cbn [enumerate_from fold_res all_records2]. rewrite Hrun. cbn [mbind outcome_bind]. rewrite app_assoc.
  rewrite orb_negb_r in Ho1. pose proof (zlen_nonneg segs1) as Hn1. pose proof (zlen_nonneg segs2) as Hn2.
  assert (zlen (a2_segments a) = zlen segs1 + 1 + zlen segs2) as Htot by (rewrite Hsegs, zlen_app, zlen_cons; lia).
  destruct segs2 as [|seg2 segs2].
  - inversion Hfs'; subst. cbn [enumerate_from fold_res all_records2]. rewrite app_nil_r. exists o1. split; [done|].
    change (zlen []) with 0 in Htot. by rewrite (proj2 (Z.eqb_eq (zlen segs1) (zlen (a2_segments a) - 1))) in Ho1 by lia.
  - rewrite zlen_cons in Htot. pose proof (zlen_nonneg segs2). rewrite (proj2 (Z.eqb_neq (zlen segs1) (zlen (a2_segments a) - 1))) in Ho1 by lia.
    assert (zlen (segs1 ++ [seg]) = zlen segs1 + 1) as Hs1 by by rewrite zlen_app.
    specialize (IH (segs1 ++ [seg]) fs' (number + zlen seg.2)). rewrite Hs1 in IH.
    apply IH; try done; [by rewrite <-app_assoc|]. by rewrite (proj2 (Z.eqb_neq _ _)) by lia.
Qed.

(** ** The headers *)

Lemma header2_read num set_id parts f :
  0 <= num <= u32_max -> zlen set_id = 16 -> zlen (file_bytes f) <= i64_max ->
  stores f (segment_bytes2 num set_id parts) ->
  (exists h, open_v2_header f = Ok h /\ v2_segment_number h = num) /\
  file_read_exact_at f 0 8 = Ok EVF2_SIGNATURE.
Proof.
  intros Hn Hset Hlen (Hrel & Hb & _). set (rest := chain_bytes2 EWF2_FILE_HEADER_SIZE 0 parts).
  assert (file_bytes f = header_bytes2 num set_id ++ rest) as Hfb by done.
  pose proof (zlen_header_bytes2 num set_id Hset) as Hhl. unfold EWF2_FILE_HEADER_SIZE in Hhl.
  assert (forall m l, slice (file_bytes f) 0 m = Some l -> 0 < m -> file_read_exact_at f 0 m = Ok l) as Hread.
  { intros m l Hs Hm. pose proof (file_read_spec f 0 m Hrel Hlen ltac:(lia) Hm) as Hr. rewrite Z.add_0_l in Hr. by rewrite Hs in Hr. }
  split.
  - unfold open_v2_header, EWF2_FILE_HEADER_SIZE.
    rewrite (Hread 32 (header_bytes2 num set_id)); [|by eapply (slice_at [] _ rest); [|done|]|done].
    cbn [mbind outcome_bind]. unfold Ewf2FileHeader_parse, EWF2_FILE_HEADER_SIZE.
    rewrite (proj2 (Z.ltb_ge _ 32)) by lia. set (h := header_bytes2 num set_id) in *.
    assert (forall k x l1 l2, h = l1 ++ x :: l2 -> k = zlen l1 -> index (E:=ewf_error) h k = Ok x) as Hi.
    { intros k x l1 l2 Hh Hk. unfold index. by rewrite (get_at l1 x l2 h k). }
    unfold index_range. rewrite (slice_at [] EVF2_SIGNATURE ([byte_of_Z 2; byte_of_Z 1] ++ le_bytes 2 1 ++ le_bytes 4 num ++ set_id) h 0 8) by done.
    cbn [or_panic mbind outcome_bind]. rewrite bool_decide_eq_true_2 by done. cbn [mbind outcome_bind].
    rewrite (Hi 8 (byte_of_Z 2) EVF2_SIGNATURE ([byte_of_Z 1] ++ le_bytes 2 1 ++ le_bytes 4 num ++ set_id)) by done.
    rewrite (Hi 9 (byte_of_Z 1) (EVF2_SIGNATURE ++ [byte_of_Z 2]) (le_bytes 2 1 ++ le_bytes 4 num ++ set_id)) by done.
    rewrite (Hi 10 Byte.x01 (EVF2_SIGNATURE ++ [byte_of_Z 2; byte_of_Z 1]) ([Byte.x00] ++ le_bytes 4 num ++ set_id)) by done.
    rewrite (Hi 11 Byte.x00 (EVF2_SIGNATURE ++ [byte_of_Z 2; byte_of_Z 1; Byte.x01]) (le_bytes 4 num ++ set_id)) by done.
    cbn [mbind outcome_bind]. change (CompressionMethod_from_u16 (le_combine [Byte.x01; Byte.x00])) with (Ok (E:=ewf_error) CmZlib).
    cbn [mbind outcome_bind].
    rewrite (slice_at (EVF2_SIGNATURE ++ [byte_of_Z 2; byte_of_Z 1] ++ le_bytes 2 1 ++ le_bytes 4 num) set_id [] h 16 32);
      [|unfold h, header_bytes2; by rewrite app_nil_r, <-!app_assoc|by rewrite !zlen_app, !zlen_le_bytes|lia].
    cbn [or_panic mbind outcome_bind]. eexists. split; [reflexivity|]. cbn [v2_segment_number].
    apply (le_u32_field _ (EVF2_SIGNATURE ++ [byte_of_Z 2; byte_of_Z 1] ++ le_bytes 2 1) set_id); [|done|done].
    unfold h, header_bytes2. by rewrite <-!app_assoc.
  - apply Hread; [|done]. rewrite Hfb. unfold header_bytes2. rewrite <-app_assoc. by eapply (slice_at [] EVF2_SIGNATURE).
Qed.
(** ** The records *)

Lemma records2_decode segments f i first seg cks1 cks2 :
  seg ∈ a2_segments a -> get segments i = Some (SrcFile f) -> 0 <= i <= u32_max ->
  serves (SrcFile f) (file_bytes f) ->
  slice (file_bytes f) (base2 a first seg.1) (base2 a first seg.1 + raw_span seg.2) = Some (concat (map ck_raw seg.2)) ->
  0 <= base2 a first seg.1 -> seg.2 = cks1 ++ cks2 ->
  Forall2 (decodes (a2_chunk_size a) segments) (records2 i (base2 a first seg.1 + raw_span cks1) cks2) cks2.
Proof.
  intros Hin Hget Hi Hserves Hsl Hb. pose proof (a2_bounds a a_ok) as [Hcs _].
  pose proof (segment2_chunks a a_ok seg Hin) as [Hall _].
  pose proof (slice_bounds _ _ _ _ Hsl) as Hbd. revert cks1. induction cks2 as [|c cks2 IH]; intros cks1 Heq; [constructor|].
  rewrite Heq in Hall. apply Forall_app in Hall as [_ Hc]. apply Forall_cons in Hc as [Hc _].
  pose proof (raw_span_slices (file_bytes f) (base2 a first seg.1) cks1 (c :: cks2)) as Hraw. rewrite <-Heq in Hraw.
  specialize (Hraw Hsl c cks2 eq_refl). pose proof (slice_bounds _ _ _ _ Hraw) as Hrb. cbn [records2]. constructor.
  - intros id. apply (decode_page_stored (a2_chunk_size a) Hcs segments i (SrcFile f) (file_bytes f) _ c _ id Hget); try done.
    pose proof (raw_span_nonneg cks1). pose proof (serves_fits (s:=SrcFile f) (bs:=file_bytes f)). lia.
  - replace (base2 a first seg.1 + raw_span cks1 + zlen (ck_raw c))
      with (base2 a first seg.1 + raw_span (cks1 ++ [c])).
    + apply IH. by rewrite <-app_assoc.
    + rewrite raw_span_app, raw_span_cons. change (raw_span []) with 0. lia.
Qed.

Lemma all_records2_decode segments segs2 : forall segs1 fs number,
  a2_segments a = segs1 ++ segs2 ->
  Forall2 stores fs (segments_from (zlen segs1) number segs2) ->
  Forall (fun bs => zlen bs <= i64_max) (segments_from (zlen segs1) number segs2) ->
  (forall j f, fs !! j = Some f -> get segments (zlen segs1 + Z.of_nat j) = Some (SrcFile f)) ->
  Forall2 (decodes (a2_chunk_size a) segments) (all_records2 (zlen segs1) segs2) (concat (map snd segs2)).
Proof.
  induction segs2 as [|seg segs2 IH]; intros segs1 fs number Hsegs Hfs Hlens Hget; [constructor|].
  unfold segments_from in Hfs, Hlens. cbn [write_segments2] in Hfs, Hlens. apply Forall_cons in Hlens as [Hlen Hlens].
  inversion Hfs as [|f ? fs' ? (Hrel & Hb & Hmeta) Hfs']; subst. rewrite <-Hb in Hlen.
  assert (seg ∈ a2_segments a) as Hin by (rewrite Hsegs; set_solver).
  cbn [all_records2 map concat]. apply Forall2_app.
  - pose proof (Hget 0%nat f eq_refl) as Hg. rewrite Z.add_0_r in Hg.
    pose proof Hlen as Hlen'. rewrite Hb in Hlen'.
    pose proof (base2_bounds a a_ok _ _ _ _ seg Hlen') as [Hb1 Hb2]. pose proof (o2_numbers a a_ok) as Hnum.
    rewrite Hsegs, zlen_app, zlen_cons in Hnum. pose proof (zlen_nonneg segs1). pose proof (zlen_nonneg segs2).
    rewrite <-(Z.add_0_r (base2 a (zlen segs1 =? 0) seg.1)). change 0 with (raw_span []) at 2.
    rewrite <-Hb in Hmeta. eapply (records2_decode segments f); try done; [lia|by apply serves_file|rewrite Hb; by eapply (chunks_stored2 a a_ok)|lia].
  - assert (zlen (segs1 ++ [seg]) = zlen segs1 + 1) as Hs1 by by rewrite zlen_app.
    specialize (IH (segs1 ++ [seg]) fs' (number + zlen seg.2)). rewrite Hs1 in IH. apply IH; try done.
    + by rewrite <-app_assoc.
    + intros j g Hj. rewrite <-Z.add_assoc. replace (1 + Z.of_nat j) with (Z.of_nat (S j)) by lia. by apply Hget.
Qed.

Lemma all_records2_wf segs : forall k, Forall chunk_wf (all_records2 k segs).
Proof.
  induction segs as [|seg segs IH]; intros k; [constructor|]. cbn [all_records2]. apply Forall_app_2; [|done].
  generalize (base2 a (k =? 0) seg.1) as off. induction (seg.2) as [|c cks IHc]; intros off; constructor; [apply chunk_new_wf|done].
Qed.
(** ** Opening the set *)

Section Whole2.
Variables (fs files : list File).
Hypothesis stored : Forall2 stores fs (write_image2 a).
Hypothesis shuffled : files ≡ₚ fs.

(** The number a file carries, as the reader sees it. *)
Definition number_of2 (f : File) : Z := match open_v2_header f with Ok h => v2_segment_number h | _ => 0 end.

Lemma headers2 segs : forall k number gs,
  0 <= k -> k + zlen segs <= u32_max ->
  Forall2 stores gs (segments_from k number segs) ->
  Forall (fun bs => zlen bs <= i64_max) (segments_from k number segs) ->
  map number_of2 gs = seqZ (k + 1) (zlen segs) /\
  Forall (fun f => (exists h, open_v2_header f = Ok h /\ v2_segment_number h = number_of2 f) /\
                   file_read_exact_at f 0 8 = Ok EVF2_SIGNATURE /\ served (SrcFile f)) gs.
Proof.
  induction segs as [|seg segs IH]; intros k number gs Hk Hmax Hgs Hlens; unfold segments_from in *; cbn [write_segments2] in *.
  { inversion Hgs; subst. split; [done|constructor]. }
  rewrite zlen_cons in *. pose proof (zlen_nonneg segs).
  apply Forall_cons in Hlens as [Hlen Hlens]. inversion Hgs as [|f ? gs' ? Hf Hgs']; subst.
  destruct (IH (k + 1) (number + zlen seg.2) gs') as [Hnum Hall]; [lia|lia|done|done|].
  pose proof Hf as (Hrel & Hb & Hmeta). rewrite <-Hb in Hmeta, Hlen.
  destruct (header2_read (k + 1) _ _ f ltac:(lia) (o2_set a a_ok) Hlen Hf) as [(h & Hh & Hn) Hsig].
  assert (number_of2 f = k + 1) as Hnf by (unfold number_of2; by rewrite Hh).
  split.
  - cbn [map]. rewrite Hnf, Hnum. rewrite (seqZ_cons (k + 1)) by lia. f_equal. f_equal; lia.
  - constructor; [|done]. split; [|split; [done|]].
    + exists h. by rewrite Hnf.
    + exists (file_bytes f). by apply serves_file.
Qed.

Lemma length_write2 : length fs = length (a2_segments a).
Proof. rewrite (Forall2_length _ _ _ stored). unfold write_image2. by rewrite length_write_segments2. Qed.

Lemma headers_all :
  map number_of2 fs = seqZ 1 (zlen fs) /\
  Forall (fun f => (exists h, open_v2_header f = Ok h /\ v2_segment_number h = number_of2 f) /\
                   file_read_exact_at f 0 8 = Ok EVF2_SIGNATURE /\ served (SrcFile f)) fs.
Proof.
  pose proof (o2_numbers a a_ok). destruct (headers2 (a2_segments a) 0 0 fs) as [Hn Hall]; try done; [lia|apply (o2_lengths a a_ok)|].
  split; [|done]. rewrite Hn. unfold zlen. by rewrite length_write2.
Qed.

Lemma reorder2 : validate_and_reorder_segments files (map number_of2 files) = Ok fs.
Proof.
  pose proof (o2_numbers a a_ok) as Hn. pose proof length_write2 as Hl. pose proof (Permutation_length shuffled) as Hperm.
  apply (reorder_accepts files (map number_of2 files)); [by rewrite length_map| |].
  { unfold zlen in *. rewrite length_map. lia. }
  rewrite length_map. split; [done|].
  assert (zlen (map number_of2 files) = zlen fs) as -> by (unfold zlen; rewrite length_map; lia).
  rewrite <-(proj1 headers_all), !zip_map_self. by apply Permutation_map.
Qed.

Context `{Lru Z (list Chunk)} `{!LruLaws Z (list Chunk)} `{Lru Z (list byte)} `{!LruLaws Z (list byte)}.
Context {path : Type} (file_open : path -> outcome io_error File) (paths : list path).
Hypothesis opens : Forall2 (fun p f => file_open p = Ok f) paths files.

Lemma open_segments_v2_written cache_size :
  exists r, open_segments_v2 path file_open paths cache_size = Ok r /\ r_segments r = map SrcFile fs /\
    r_chunks r = Eager (all_records2 0 (a2_segments a)) /\ r_chunk_size r = a2_chunk_size a /\
    r_total_size r = a2_total a /\ (r_stored_md5 r, r_stored_sha1 r) = hashes2 /\ r_position r = 0 /\
    r_cache r = lru_new (Z.max cache_size 1).
Proof.
  pose proof (a2_bounds a a_ok) as [Hcs Hts]. pose proof (o2_numbers a a_ok) as Hn.
  destruct headers_all as [_ Hh]. rewrite <-shuffled in Hh. unfold open_segments_v2.
  set (read_ := fun p => f ← from_io (file_open p); h ← open_v2_header f; Ok (h, f)).
  assert (exists l, mapM read_ paths = Ok l /\ map snd l = files /\ map (fun hf => v2_segment_number hf.1) l = map number_of2 files)
    as (l & -> & Hl1 & Hl2).
  { pose proof opens as Hop. clear -Hop Hh. induction Hop as [|p f ps gs Hp _ IH]; [by exists []|].
    apply Forall_cons in Hh as [((h & Hh & Hnum) & _) Hrest]. destruct (IH Hrest) as (l & Hrun & E1 & E2).
    assert (read_ p = Ok (h, f)) as Hone by (unfold read_; rewrite Hp; cbn [from_io mbind outcome_bind]; by rewrite Hh).
    exists ((h, f) :: l). cbn. rewrite Hone. cbn [mbind outcome_bind]. rewrite Hrun. cbn. by rewrite E1, E2, Hnum. }
  cbn [mbind outcome_bind]. rewrite Hl1, Hl2, reorder2. cbn [mbind outcome_bind].
  destruct (open_segments2_written (a2_segments a) [] fs 0 [] open_start eq_refl) as (o & Hrun & [Hg1 Hg2] & Hch & Hhash).
  { intros Hnil. rewrite Hnil in Hn. change (zlen []) with 0 in Hn. lia. }
  { exact stored. }
  { apply (o2_lengths a a_ok). }
  { by split. }
  change (zlen []) with 0 in Hrun. unfold enumerate. rewrite Hrun. cbn [mbind outcome_bind].
  rewrite Hg1, Hg2. rewrite (proj2 (Z.eqb_neq (a2_chunk_size a) 0)), (proj2 (Z.eqb_neq (a2_total a) 0)) by lia.
  cbn [mbind outcome_bind]. eexists. split; [reflexivity|]. cbn. rewrite Hch. by split_and!.
Qed.

Lemma open_paths2_written cache_size section_cache :
  exists r im, open_paths path file_open paths cache_size section_cache = Ok r /\ image_ok im /\ presents im 0 r /\
    holds (a2_media a) hashes2 im.
Proof.
  destruct headers_all as [_ Hh]. pose proof (a2_bounds a a_ok) as [Hcs Hts].
  destruct (open_segments_v2_written cache_size) as (r & Hopen & Hseg & Hch & Hrcs & Hrts & Hhash & Hpos & Hcache).
  exists r, (image_of r (all_records2 0 (a2_segments a))). split; [|split; [|split]].
  - unfold open_paths. destruct paths as [|p ps] eqn:Ep.
    { pose proof (o2_numbers a a_ok) as Hn. pose proof (Permutation_length shuffled) as Hl.
      pose proof (Forall2_length _ _ _ opens) as Hl2. rewrite Hl, length_write2 in Hl2. unfold zlen in Hn. cbn in Hl2. lia. }
    inversion opens as [|? f ? gs Hp _ Eg]. subst. rewrite Hp. cbn [from_io mbind outcome_bind].
    rewrite <-shuffled in Hh. apply Forall_cons in Hh as [(_ & Hsig & _) _]. rewrite Hsig. cbn [mbind outcome_bind].
    change (is_ewf2_signature EVF2_SIGNATURE) with true. cbn iota. exact Hopen.
  - split; [split; cbn; lia| |apply all_records2_wf]. cbn. rewrite Hseg. apply Forall_map.
    eapply Forall_impl; [exact Hh|]. by intros f (_ & _ & Hs).
  - constructor; try done; [cbn; rewrite Hch; constructor|]. intros id page. by rewrite Hcache, lru_get_new.
  - rewrite <-Hhash. apply (records_hold (a2_chunk_size a) (a2_total a) (a2_chunks a)); [|done|done|].
    + pose proof (o2_covered a a_ok). constructor; [lia| |apply (o2_full a a_ok)|lia|apply (o2_fits a a_ok)].
      eapply Forall_impl; [apply (o2_chunks a a_ok)|]. by intros c [Hc _].
    + rewrite Hseg. apply (all_records2_decode _ (a2_segments a) [] fs 0 eq_refl); [exact stored|apply (o2_lengths a a_ok)|].
      intros j f Hj. apply get_spec. change (zlen []) with 0. split; [lia|].
      replace (Z.to_nat (0 + Z.of_nat j)) with j by lia. change (map SrcFile fs) with (SrcFile <$> fs).
      by rewrite list_lookup_fmap, Hj.
Qed.
End Whole2.
End Segments2.

(** C3: from an EWF v2 acquisition to reading.  Take any media, cut it into chunks stored as
    zlib streams or as pages, with or without a checksum behind them, spread over any
    number of Ex01 files with any other sections before the chunks, and give the files in
    any order, to either open: the backward walks find the geometry, the tables and the
    digests, the reader has the size of the media, and from then on every read at any
    offset returns the bytes of the media there and a verification finds the stored
    digests to be those of the media. *)
Theorem written_ex01_reads `{SafeReadLaws} `{AdlerLaws} `{ZlibLaws} `{DigestsLaws} `{Profile}
    `{LruLaws Z (list Chunk)} `{LruLaws Z (list byte)} `{RayonLaws}
    {path : Type} (file_open : path -> outcome io_error File) a fs files paths cache_size section_cache :
  acquisition2_ok a -> Forall2 stores fs (write_image2 a) -> files ≡ₚ fs ->
  Forall2 (fun p f => file_open p = Ok f) paths files ->
  exists r im, open_paths path file_open paths cache_size section_cache = Ok r /\ presents im 0 r /\
    r_total_size r = zlen (a2_media a) /\ answers (a2_media a) im.
Proof.
  intros Ha Hs Hp Ho.
  destruct (open_paths2_written a Ha fs files Hs Hp file_open paths Ho cache_size section_cache) as (r & im & Hopen & Hok & Hr & Hm).
  exists r, im. split; [done|]. split; [done|]. split.
  - rewrite (pr_total_size _ _ _ Hr). by destruct Hm as (pages & _ & _ & Hts & _).
  - apply (holds_answers _ _ (Some (sha1 (a2_media a)))); [done|exact Hm|by right].
Qed.
