(* ===== verification/AcquireV2Check.v ===== *)
(** From the writer of AcquireV2 to the analyser: a written EWF v2 image whose chunks
    end in their checksums and whose case data is compressed text is analysed without
    an anomaly, and its hashes are those of the media it was written from. *)

From S2P Require Import Prelude Text Extern Types Sections Ewf2 ReaderOpen Anomaly IntegrityV1 IntegrityV1Props.
From S2P Require Import IntegrityV2 Integrity IntegrityProps IntegrityApi Acquire Stored AcquireCheck AcquireV2.

(** * Fields *)

Lemma array_at_field n data l1 s l2 off :
  data = l1 ++ s ++ l2 -> off = zlen l1 -> n = zlen s -> zlen data <= u64_max -> array_at n data off = s.
Proof.
  intros Hd Ho Hn Hl. assert (zlen l1 + zlen s <= u64_max) as Hfit.
  { rewrite Hd, !zlen_app in Hl. pose proof (zlen_nonneg l2). lia. }
  unfold array_at, sat_add. rewrite Z.min_r by lia. by rewrite (slice_at l1 s l2 data) by (done || lia).
Qed.

Lemma le_u32_at_field data l1 l2 off z :
  data = l1 ++ le_bytes 4 z ++ l2 -> off = zlen l1 -> 0 <= z <= u32_max -> zlen data <= u64_max ->
  le_u32_at data off = z.
Proof.
  intros Hd Ho Hz Hl. unfold le_u32_at. rewrite (array_at_field 4 data l1 (le_bytes 4 z) l2) by done.
  apply le_combine_le_bytes_small. cbn. lia.
Qed.

Lemma le_u64_at_field data l1 l2 off z :
  data = l1 ++ le_bytes 8 z ++ l2 -> off = zlen l1 -> 0 <= z <= u64_max -> zlen data <= u64_max ->
  le_u64_at data off = z.
Proof.
  intros Hd Ho Hz Hl. unfold le_u64_at. rewrite (array_at_field 8 data l1 (le_bytes 8 z) l2) by done.
  apply le_combine_le_bytes_small. cbn. lia.
Qed.

(** A field of four bytes and four zeroes are a field of eight bytes. *)
Lemma le_bytes_split n m z : le_bytes (n + m) z = le_bytes n z ++ le_bytes m (z / 256 ^ Z.of_nat n).
Proof.
  revert z. induction n as [|n IH]; intros z; [by rewrite Z.div_1_r|].
  change (byte_of_Z z :: le_bytes (n + m) (z / 256)
          = (byte_of_Z z :: le_bytes n (z / 256)) ++ le_bytes m (z / 256 ^ Z.of_nat (S n))).
  rewrite IH. cbn [app].
  do 2 f_equal. rewrite Nat2Z.inj_succ, Z.pow_succ_r, Z.div_div by lia. done.
Qed.

Lemma le_bytes_wider z : 0 <= z <= u32_max -> le_bytes 4 z ++ zeros 4 = le_bytes 8 z.
Proof.
  intros Hz. rewrite (le_bytes_split 4 4). f_equal.
  rewrite Z.div_small by (change (256 ^ Z.of_nat 4) with 4294967296; lia). done.
Qed.

(** * The walk over the sections *)

Section Walk2.
Context `{SafeReadLaws} `{AdlerLaws} `{Zlib} `{Digests} `{!DigestsLaws}.

(** A section the analyser has nothing to say about. *)
Definition quiet_part (p : part2) : Prop :=
  good_type p.1 /\
  match p.1 with
  | RestartData => False
  | CaseData => parse_media_info_body p.2 = true
  | Md5Hash => 16 <= zlen p.2
  | Sha1Hash => 20 <= zlen p.2
  | _ => True
  end.

(** What it keeps of a section whose body is at [pos]. *)
Definition scanned (pos : Z) (p : part2) (s : v2_scan) : v2_scan :=
  {| has_hash := match p.1 with Md5Hash | Sha1Hash => true | _ => has_hash s end;
     has_media_info := match p.1 with CaseData => true | _ => has_media_info s end;
     chunk_table_body := match p.1 with SectorTable => Some (pos, pos + zlen p.2) | _ => chunk_table_body s end;
     stored_sector_md5 := match p.1 with Md5Hash => Some (ztake 16 p.2) | _ => stored_sector_md5 s end;
     stored_sector_sha1 := match p.1 with Sha1Hash => Some (ztake 20 p.2) | _ => stored_sector_sha1 s end;
     stored_sector_sha256 := stored_sector_sha256 s |}.

(** The sections from [pos], the last one first. *)
Fixpoint scanned_all (pos : Z) (ps : list part2) (s : v2_scan) : v2_scan :=
  match ps with
  | [] => s
  | p :: ps => scanned pos p (scanned_all (pos + (zlen p.2 + 64)) ps s)
  end.

Lemma scanned_all_app ps qs s : forall pos,
  scanned_all pos (ps ++ qs) s = scanned_all pos ps (scanned_all (pos + span2 ps) qs s).
Proof.
  induction ps as [|[t b] ps IH]; intros pos; [cbn; by rewrite Z.add_0_r|].
  cbn [app scanned_all snd]. rewrite IH, span2_cons. do 3 f_equal. lia.
Qed.

Lemma descriptor2_fields t b pos prev :
  0 <= section_type_id t <= u32_max -> 0 <= prev <= u64_max -> zlen b <= u64_max ->
  read_v2_descriptor (ewf2_descriptor_bytes (descriptor2 t b pos prev))
  = {| d_section_type := section_type_id t; d_data_flags := DATA_FLAG_MD5HASHED; d_prev_offset := prev;
       d_data_size := zlen b; d_stored_hash := md5 b |}.
Proof.
  intros Ht Hp Hb. pose proof (zlen_descriptor2 t b pos prev) as Hl. pose proof (zlen_nonneg b).
  unfold read_v2_descriptor. set (buf := ewf2_descriptor_bytes _) in *.
  assert (buf = le_bytes 4 (section_type_id t) ++ le_bytes 4 1 ++ le_bytes 8 prev ++ le_bytes 8 (zlen b)
          ++ le_bytes 4 64 ++ le_bytes 4 0 ++ md5 b ++ zeros 16) as Hbuf by done.
  clearbody buf. rewrite (le_u32_at_field buf [] _ 0 (section_type_id t) Hbuf) by (done || lia).
  rewrite (le_u32_at_field buf (le_bytes 4 (section_type_id t)) _ 4 1 Hbuf) by (done || lia).
  rewrite (le_u64_at_field buf (le_bytes 4 (section_type_id t) ++ le_bytes 4 1)
             (le_bytes 8 (zlen b) ++ le_bytes 4 64 ++ le_bytes 4 0 ++ md5 b ++ zeros 16) 8 prev)
    by (lia || done || by rewrite Hbuf, <-?app_assoc).
  rewrite (le_u64_at_field buf (le_bytes 4 (section_type_id t) ++ le_bytes 4 1 ++ le_bytes 8 prev)
             (le_bytes 4 64 ++ le_bytes 4 0 ++ md5 b ++ zeros 16) 16 (zlen b))
    by (lia || done || by rewrite Hbuf, <-?app_assoc).
  f_equal.
  apply (array_at_field 16 buf (le_bytes 4 (section_type_id t) ++ le_bytes 4 1 ++ le_bytes 8 prev
           ++ le_bytes 8 (zlen b) ++ le_bytes 4 64 ++ le_bytes 4 0) (md5 b) (zeros 16)).
  - by rewrite Hbuf, <-!app_assoc.
  - done.
  - by rewrite length_md5.
  - lia.
Qed.

Lemma stored_prefix_quiet n data pos b old :
  0 <= n <= zlen b -> slice data pos (pos + zlen b) = Some b ->
  quiet (Some (ztake n b)) (stored_prefix n data (zlen b) pos (pos + zlen b) old).
Proof.
  intros Hn Hs. unfold stored_prefix. rewrite (proj2 (Z.leb_le _ _)), Hs by lia.
  eapply quiet_bind; [|apply quiet_ret]. apply quiet_index. rewrite slice_some by lia.
  by rewrite Z.sub_0_r, zdrop_0.
Qed.

Lemma check_section_quiet data pos t b prev s :
  quiet_part (t, b) -> 0 <= pos -> slice data pos (pos + zlen b) = Some b ->
  quiet (scanned pos (t, b) s)
    (check_v2_section data (pos + zlen b)
       {| d_section_type := section_type_id t; d_data_flags := DATA_FLAG_MD5HASHED; d_prev_offset := prev;
          d_data_size := zlen b; d_stored_hash := md5 b |} s).
Proof.
  intros [[Hid Ht] Hq] Hpos Hs. pose proof (zlen_nonneg b). unfold check_v2_section.
  change (d_encrypted _) with false. cbn [d_data_size d_section_type d_stored_hash].
  assert (sat_sub (pos + zlen b) (zlen b) = pos) as -> by (unfold sat_sub; lia).
  eapply (quiet_bind _ _ tt).
  { unfold check_data_hash. cbn [d_stored_hash d_section_type]. case_bool_decide; [apply quiet_ret|]. rewrite Hs.
    apply quiet_push_if. by rewrite bool_decide_true. }
  cbn beta. unfold scan_section. cbn [d_section_type d_data_size]. rewrite Hs.
  unfold EVF2_TYPE_MEDIA_INFO, EVF2_TYPE_CHUNK_TABLE, EVF2_TYPE_MD5_HASH, EVF2_TYPE_SHA1_HASH, EVF2_TYPE_SHA256_HASH.
  cbn [fst snd] in Hq. destruct t as [| | | | | | | | | | | | | | | | |v]; try done;
    try (cbn [section_type_id Z.eqb Pos.eqb]; destruct s; apply quiet_ret).
  - cbn [section_type_id Z.eqb Pos.eqb]. eapply (quiet_bind _ _ tt); [apply quiet_push_if; by rewrite Hq|apply quiet_ret].
  - cbn [section_type_id Z.eqb Pos.eqb]. eapply quiet_bind; [by apply stored_prefix_quiet; [lia|]|apply quiet_ret].
  - cbn [section_type_id Z.eqb Pos.eqb]. eapply quiet_bind; [by apply stored_prefix_quiet; [lia|]|apply quiet_ret].
  - cbn [section_type_id] in *.
    rewrite !(proj2 (Z.eqb_neq v _)) by (intros ->; discriminate Ht). destruct s; apply quiet_ret.
Qed.

Section Segment.
Variables (num : Z) (set_id : list byte) (parts : list part2).
Hypothesis Hset : zlen set_id = 16.
Hypothesis Hquiet : Forall quiet_part parts.
Abbreviation data := (segment_bytes2 num set_id parts).
Hypothesis Hfits : zlen data <= i64_max.

Lemma walk_v2_written l1 : forall l2 fuel s,
  parts = l1 ++ l2 -> l1 <> [] -> EWF2_FILE_HEADER_SIZE + span2 l1 - 64 < Z.of_nat fuel ->
  quiet (scanned_all EWF2_FILE_HEADER_SIZE l1 s) (walk_v2 fuel data (EWF2_FILE_HEADER_SIZE + span2 l1 - 64) s).
Proof.
  induction l1 as [|[t b] l1 IH] using rev_ind; intros l2 fuel s Hp Hne Hfuel; [done|].
  pose proof (zlen_segment_bytes2 num set_id parts Hset) as Hl. rewrite Hl in Hfits.
  rewrite <-app_assoc in Hp. cbn [app] in Hp. assert (span2 parts = span2 l1 + (zlen b + 64 + span2 l2)) as Hspan by (by rewrite Hp, span2_app, span2_cons).
  pose proof (span2_nonneg l1). pose proof (span2_nonneg l2). pose proof (zlen_nonneg b).
  assert (span2 (l1 ++ [(t, b)]) = span2 l1 + zlen b + 64) as Hsp by (rewrite span2_app, span2_cons; cbn; lia).
  rewrite Hsp in *. replace (EWF2_FILE_HEADER_SIZE + (span2 l1 + zlen b + 64) - 64)
    with (EWF2_FILE_HEADER_SIZE + span2 l1 + zlen b) in * by lia.
  unfold EWF2_FILE_HEADER_SIZE in *. destruct fuel as [|fuel]; [lia|]. cbn [walk_v2].
  unfold EVF2_SECTION_DESCRIPTOR_SIZE, EVF2_FILE_HEADER_SIZE, sat_add. rewrite !Z.min_r by lia.
  rewrite (proj2 (Z.ltb_ge _ _)), (proj2 (Z.ltb_ge _ 32)) by lia. cbn [orb].
  destruct (section_at2 num set_id l1 t b l2 Hset) as [Hb Hd]. rewrite <-Hp in Hb, Hd. unfold EWF2_FILE_HEADER_SIZE in Hb, Hd.
  eapply quiet_bind; [by apply quiet_index|]. cbn beta.
  pose proof Hquiet as Hq. rewrite Hp in Hq. apply Forall_app in Hq as [_ Hq]. apply Forall_cons in Hq as [Hq _].
  pose proof (prev_after_bounds l1 32 0 ltac:(lia)) as Hprev.
  rewrite descriptor2_fields by (apply Hq || lia).
  eapply quiet_bind; [apply check_section_quiet; [done|lia|done]|]. cbn [d_prev_offset].
  rewrite scanned_all_app. cbn [scanned_all snd].
  destruct (decide (l1 = [])) as [->|Hl1]; [apply quiet_ret|].
  rewrite (prev_after_last l1) by done. assert (64 <= span2 l1).
  { destruct l1 as [|[t' b'] l1']; [done|]. rewrite span2_cons. pose proof (zlen_nonneg b'). pose proof (span2_nonneg l1'). lia. }
  rewrite (proj2 (Z.eqb_neq _ 0)), (proj2 (Z.leb_gt _ _)) by lia. cbn [orb].
  eapply IH; [exact Hp|done|lia].
Qed.
End Segment.
End Walk2.

(** * A written segment *)

Definition is_case (p : part2) : bool := match p.1 with CaseData => true | _ => false end.

Definition has_chunk (cks : list stored_chunk) : bool := match cks with [] => false | _ => true end.

(** What the analyser asks of a chunk: a checksum behind the page or behind a stream
    of the page. *)
Definition trailed `{Adler} `{Zlib} (c : stored_chunk) : Prop :=
  exists body, ck_raw c = body ++ le_bytes 4 (adler32 body) /\
    if ck_compressed c then inflates body (ck_page c) else body = ck_page c.

(** What it asks of an acquisition beyond what the reader does: the pages are together
    exactly as long as the media, so that the last one is not padded; every chunk is
    stored with a checksum behind it; no segment has a section of restart data, whose
    number it takes for that of a SHA-256 digest; and the first segment has case data,
    which wherever it is stored is a compressed UTF-16 text. *)
Record acquisition2_checked `{Adler} `{Zlib} (a : acquisition2) : Prop := {
  c2_whole : zlen (concat (map ck_page (a2_chunks a))) = a2_total a;
  c2_chunks : Forall trailed (a2_chunks a);
  c2_sections : Forall (fun seg => Forall (fun p : part2 =>
      match p.1 with
      | RestartData => False
      | CaseData => parse_media_info_body p.2 = true
      | _ => True
      end) seg.1) (a2_segments a);
  c2_media_info : match a2_segments a with seg :: _ => existsb is_case seg.1 = true | [] => True end;
}.

Lemma scanned_prologue `{Zlib} ps s : forall pos,
  Forall prologue_part2 ps ->
  scanned_all pos ps s =
  {| has_hash := has_hash s; has_media_info := existsb is_case ps || has_media_info s;
     chunk_table_body := chunk_table_body s; stored_sector_md5 := stored_sector_md5 s;
     stored_sector_sha1 := stored_sector_sha1 s; stored_sector_sha256 := stored_sector_sha256 s |}.
Proof.
  induction ps as [|[t b] ps IH]; intros pos Hps; [by destruct s|]. apply Forall_cons in Hps as [[_ Hp] Hps].
  cbn [scanned_all existsb snd]. rewrite (IH _ Hps). unfold scanned, is_case at 2. cbn [fst snd] in *.
  destruct t; done.
Qed.

Section Segment2.
Context `{SafeReadLaws} `{AdlerLaws} `{Zlib} `{Digests} `{!DigestsLaws}.
Variable a : acquisition2.
Hypothesis a_ok : acquisition2_ok a.
Hypothesis checked_a : acquisition2_checked a.
Variables (i number : Z) (first last_ : bool) (seg : list part2 * list stored_chunk).
Hypothesis Hin : seg ∈ a2_segments a.
Abbreviation parts := (segment_parts2 a first last_ number seg).
Abbreviation base := (base2 a first seg.1).
Abbreviation data := (segment_bytes2 (i + 1) (a2_set_identifier a) parts).
Hypothesis Hfits : zlen data <= i64_max.

Lemma parts_quiet : Forall quiet_part parts.
Proof.
  pose proof (segment2_parts_good a a_ok number first last_ seg Hin) as Hg.
  pose proof (c2_sections a checked_a) as Hs. rewrite Forall_forall in Hs. specialize (Hs seg Hin). cbn beta in Hs.
  pose proof (o2_prologues a a_ok) as Hp. rewrite Forall_forall in Hp. specialize (Hp seg Hin). cbn beta in Hp.
  unfold good_parts2, segment_parts2, front_parts2, chunk_parts2 in *. rewrite !Forall_app in *.
  destruct Hg as [[Hg1 Hg2] [Hg3 Hg4]]. split_and!.
  - rewrite Forall_forall in Hs, Hp, Hg1 |- *. intros p Hin'. specialize (Hs p Hin'). specialize (Hp p Hin') as [_ Hp].
    split; [by apply Hg1|]. by destruct p.1.
  - destruct first; [|constructor]. apply Forall_cons in Hg2 as [Hg2 _]. repeat (apply Forall_cons_2; [by split|]). apply Forall_nil_2.
  - apply Forall_cons in Hg3 as [Hg3 Hg3']. apply Forall_cons in Hg3' as [Hg3' _].
    repeat (apply Forall_cons_2; [by split|]). apply Forall_nil_2.
  - unfold back_parts2 in *. destruct last_.
    + apply Forall_cons in Hg4 as [Hg4 Hg5]. apply Forall_cons in Hg5 as [Hg5 Hg6]. apply Forall_cons in Hg6 as [Hg6 _].
      pose proof (zlen_nonneg (zeros 16)). assert (zlen (zeros 12) = 12) by done.
      apply Forall_cons_2; [split; [done|cbn [fst snd]; rewrite zlen_app, length_md5; lia]|].
      apply Forall_cons_2; [split; [done|cbn [fst snd]; rewrite zlen_app, length_sha1; lia]|].
      apply Forall_cons_2; [by split|apply Forall_nil_2].
    + apply Forall_cons in Hg4 as [Hg4 _]. apply Forall_cons_2; [by split|apply Forall_nil_2].
Qed.

(** Where the table of the segment is. *)
Definition table_place : Z := base + (raw_span seg.2 + 64).
Definition table_bytes : list byte := table_body2 number base seg.2.

Definition segment_scan : v2_scan :=
  {| has_hash := last_; has_media_info := existsb is_case seg.1;
     chunk_table_body := Some (table_place, table_place + zlen table_bytes);
     stored_sector_md5 := if last_ then Some (md5 (a2_media a)) else None;
     stored_sector_sha1 := if last_ then Some (sha1 (a2_media a)) else None;
     stored_sector_sha256 := None |}.

Lemma scan_written : scanned_all EWF2_FILE_HEADER_SIZE parts v2_scan_start = segment_scan.
Proof.
  pose proof (o2_prologues a a_ok) as Hp. rewrite Forall_forall in Hp. specialize (Hp seg Hin). cbn beta in Hp.
  unfold segment_parts2, front_parts2. rewrite <-app_assoc, scanned_all_app, (scanned_prologue seg.1 _ _ Hp).
  set (pos := EWF2_FILE_HEADER_SIZE + span2 seg.1). rewrite scanned_all_app.
  assert (pos + span2 (if first then [device_part a] else []) = base) as ->.
  { unfold pos, base2, front_parts2. rewrite span2_app. lia. }
  set (rest := scanned_all base _ _).
  assert (scanned_all pos (if first then [device_part a] else []) rest = rest) as ->.
  { destruct first; [|done]. cbn [scanned_all]. unfold device_part, scanned. cbn [fst]. by destruct rest. }
  unfold rest, chunk_parts2. cbn [app scanned_all snd]. fold (raw_span seg.2). fold table_bytes table_place.
  set (past := _ + _ : Z). unfold back_parts2, segment_scan, v2_scan_start. destruct last_; cbn [scanned_all].
  - cbn [scanned fst snd has_hash has_media_info chunk_table_body stored_sector_md5 stored_sector_sha1 stored_sector_sha256]. rewrite orb_false_r.
    rewrite (ztake_app_len 16 (md5 _)), (ztake_app_len 20 (sha1 _)) by (by rewrite ?length_md5, ?length_sha1). done.
  - cbn [scanned fst snd has_hash has_media_info chunk_table_body stored_sector_md5 stored_sector_sha1 stored_sector_sha256]. by rewrite orb_false_r.
Qed.

Lemma walk_written2 :
  quiet segment_scan
    (walk_v2 (S (length data)) data (sat_sub (zlen data) EVF2_SECTION_DESCRIPTOR_SIZE) v2_scan_start).
Proof.
  pose proof (zlen_segment_bytes2 (i + 1) _ parts (o2_set a a_ok)) as Hl. rewrite <-scan_written.
  assert (parts <> []) as Hne.
  { unfold segment_parts2, chunk_parts2. intros Hn. by apply app_eq_nil in Hn as [_ Hn]. }
  assert (64 <= span2 parts) as Hspan.
  { unfold segment_parts2, chunk_parts2. rewrite !span2_app, !span2_cons. pose proof (span2_nonneg (front_parts2 a first seg.1)).
    pose proof (span2_nonneg (back_parts2 a last_)). pose proof (zlen_nonneg (concat (map ck_raw seg.2))).
    pose proof (zlen_nonneg (table_body2 number base seg.2)). cbn [span2 foldr]. lia. }
  assert (sat_sub (zlen data) EVF2_SECTION_DESCRIPTOR_SIZE = EWF2_FILE_HEADER_SIZE + span2 parts - 64) as ->.
  { unfold sat_sub, EVF2_SECTION_DESCRIPTOR_SIZE, EWF2_FILE_HEADER_SIZE in *. lia. }
  apply (walk_v2_written (i + 1) _ parts (o2_set a a_ok) parts_quiet Hfits parts []).
  - by rewrite app_nil_r.
  - done.
  - unfold zlen in Hl. lia.
Qed.

(** ** Its chunks *)

Lemma zlen_table_bytes : zlen table_bytes = 36 + 16 * zlen seg.2.
Proof.
  unfold table_bytes, table_body2. rewrite !zlen_app, !zlen_le_bytes, zlen_entries_bytes2.
  change (zlen (zeros 20)) with 20. lia.
Qed.

Lemma table_at : slice data table_place (table_place + zlen table_bytes) = Some table_bytes.
Proof.
  destruct (section_at2 (i + 1) (a2_set_identifier a) (front_parts2 a first seg.1 ++ [(SectorData, concat (map ck_raw seg.2))])
    SectorTable table_bytes (back_parts2 a last_) (o2_set a a_ok)) as [Hs _].
  unfold segment_parts2, chunk_parts2. rewrite <-app_assoc in Hs. cbn [app] in Hs. fold table_bytes.
  rewrite <-Hs. unfold table_place. rewrite span2_app, span2_cons. fold (raw_span seg.2). cbn [span2 foldr].
  unfold base2. f_equal; lia.
Qed.

Lemma table_fields :
  le_u64_at table_bytes 8 = zlen seg.2 /\ zlen seg.2 <= 4000000 /\
  (forall cks1 c cks2, seg.2 = cks1 ++ c :: cks2 ->
     v2_table_entry table_bytes (zlen cks1)
     = Some (base + raw_span cks1, zlen (ck_raw c),
             if ck_compressed c then CHUNK_FLAG_COMPRESSED else CHUNK_FLAG_CHECKSUMED)).
Proof.
  pose proof (segment2_chunks a a_ok seg Hin) as [_ Hcount]. pose proof (zlen_nonneg seg.2).
  pose proof zlen_table_bytes as Hl. pose proof (zlen_entries_bytes2 seg.2 base) as Hel.
  set (entries := entries_bytes2 base seg.2) in *. set (crc := le_bytes 4 (adler32 entries)).
  assert (table_bytes = le_bytes 8 number ++ le_bytes 4 (zlen seg.2) ++ zeros 20 ++ entries ++ crc) as Htbl by done.
  set (tbl := table_bytes) in *. clearbody tbl. split; [|split; [done|]].
  - unfold le_u64_at.
    rewrite (array_at_field 8 tbl (le_bytes 8 number) (le_bytes 8 (zlen seg.2)) (zeros 16 ++ entries ++ crc)).
    + apply le_combine_le_bytes_small. cbn. lia.
    + rewrite Htbl. f_equal. change (zeros 20) with (zeros 4 ++ zeros 16). rewrite <-!app_assoc.
      rewrite (app_assoc (le_bytes 4 _) (zeros 4)). f_equal. apply le_bytes_wider. lia.
    + done.
    + done.
    + lia.
  - intros cks1 c cks2 Heq. pose proof (chunk_holds_sizes a a_ok seg Hin) as Hsz. rewrite Heq in Hsz.
    apply Forall_app in Hsz as [_ Hsz]. apply Forall_cons in Hsz as [Hsz _]. pose proof (zlen_nonneg (ck_raw c)).
    pose proof (base2_bounds a a_ok i number first last_ seg Hfits) as [Hb1 Hb2]. pose proof (raw_span_nonneg cks1).
    rewrite Heq, raw_span_app, raw_span_cons in Hb2. pose proof (raw_span_nonneg cks2). pose proof (zlen_nonneg cks1).
    pose proof (zlen_nonneg cks2). assert (zlen seg.2 = zlen cks1 + 1 + zlen cks2) as Hn by (rewrite Heq, zlen_app, zlen_cons; lia).
    assert (tbl = (le_bytes 8 number ++ le_bytes 4 (zlen seg.2) ++ zeros 20 ++ entries_bytes2 base cks1)
              ++ entry_bytes2 (base + raw_span cks1) c
              ++ entries_bytes2 (base + raw_span cks1 + zlen (ck_raw c)) cks2 ++ crc) as Hat.
    { rewrite Htbl. unfold entries. rewrite Heq, entries_bytes2_app. cbn [entries_bytes2]. by rewrite <-!app_assoc. }
    set (before := le_bytes 8 number ++ _) in Hat. set (after := entries_bytes2 _ cks2 ++ crc) in Hat.
    assert (zlen before = 32 + 16 * zlen cks1) as Hbl.
    { unfold before. rewrite !zlen_app, !zlen_le_bytes, zlen_entries_bytes2. change (zlen (zeros 20)) with 20. lia. }
    unfold entry_bytes2 in Hat. set (flags := if ck_compressed c then _ else _) in *.
    assert (0 <= flags <= u32_max) as Hfl by (unfold flags, CHUNK_FLAG_COMPRESSED, CHUNK_FLAG_CHECKSUMED; destruct (ck_compressed c); lia).
    clearbody before after flags. rewrite <-!app_assoc in Hat.
    unfold v2_table_entry, EVF2_CHUNK_TABLE_HEADER_SIZE, EVF2_CHUNK_TABLE_ENTRY_SIZE, sat_add, sat_mul.
    rewrite (Z.min_r _ (zlen cks1 * 16)), (Z.min_r _ (32 + zlen cks1 * 16)) by lia.
    rewrite !(Z.min_r u64_max (32 + zlen cks1 * 16 + _)) by lia. rewrite (proj2 (Z.ltb_ge _ _)) by lia.
    rewrite (le_u64_at_field tbl before _ _ (base + raw_span cks1) Hat) by lia.
    rewrite (le_u32_at_field tbl (before ++ le_bytes 8 (base + raw_span cks1)) (le_bytes 4 flags ++ after) _ (zlen (ck_raw c)));
      [|by rewrite <-app_assoc|rewrite zlen_app, zlen_le_bytes; lia|lia|lia].
    rewrite (le_u32_at_field tbl (before ++ le_bytes 8 (base + raw_span cks1) ++ le_bytes 4 (zlen (ck_raw c))) after _ flags);
      [done|by rewrite <-!app_assoc|rewrite !zlen_app, !zlen_le_bytes; lia|lia|lia].
Qed.

(** The analyser reads the body of a chunk, its checksum and its page. *)
Lemma chunk_at2 cks1 c cks2 :
  seg.2 = cks1 ++ c :: cks2 ->
  exists body, slice data (base + raw_span cks1) (base + raw_span cks1 + zlen body) = Some body /\
    slice data (base + raw_span cks1 + zlen body) (base + raw_span cks1 + zlen body + 4) = Some (le_bytes 4 (adler32 body)) /\
    zlen (ck_raw c) = zlen body + 4 /\ base + raw_span cks1 + zlen (ck_raw c) <= i64_max /\
    v2_chunk_data (if ck_compressed c then CHUNK_FLAG_COMPRESSED else CHUNK_FLAG_CHECKSUMED) body = Some (ck_page c).
Proof.
  intros Heq. pose proof (chunks_stored2 a a_ok i number first last_ seg) as Hs.
  pose proof (raw_span_slices data base cks1 (c :: cks2)) as Hraw. rewrite <-Heq in Hraw. specialize (Hraw Hs c cks2 eq_refl).
  pose proof (c2_chunks a checked_a) as Hall. unfold a2_chunks in Hall. rewrite Forall_concat, Forall_map, Forall_forall in Hall.
  specialize (Hall seg Hin). cbn beta in Hall. rewrite Heq in Hall. apply Forall_app in Hall as [_ Hall].
  apply Forall_cons in Hall as [(body & Hbody & Hpage) _]. exists body.
  assert (zlen (ck_raw c) = zlen body + 4) as Hl by (rewrite Hbody, zlen_app, zlen_le_bytes; lia).
  pose proof (slice_bounds _ _ _ _ Hraw) as Hbd. pose proof (zlen_nonneg body). rewrite Hl in Hraw, Hbd |- *.
  pose proof (slice_slice _ _ _ 0 (zlen body) _ Hraw ltac:(lia) ltac:(lia)) as Hfst. rewrite Z.add_0_r in Hfst.
  pose proof (slice_slice _ _ _ (zlen body) (zlen body + 4) _ Hraw ltac:(lia) ltac:(lia)) as Hsnd.
  rewrite Hbody in Hfst, Hsnd. rewrite Z.add_assoc in Hsnd.
  split_and!; [rewrite <-Hfst; by apply (slice_at [] body (le_bytes 4 (adler32 body)))
    |rewrite <-Hsnd; by apply (slice_at body (le_bytes 4 (adler32 body)) []); rewrite ?app_nil_r, ?zlen_le_bytes|done|lia|].
  unfold v2_chunk_data. destruct (ck_compressed c); cbn.
  - by rewrite (inflates_all _ _ Hpage None).
  - by rewrite Hpage.
Qed.

Lemma verify_chunks_quiet cks2 : forall cks1 fuel fed,
  seg.2 = cks1 ++ cks2 -> (length cks2 < fuel)%nat ->
  quiet (fed ++ concat (map ck_page cks2)) (verify_v2_chunks fuel data table_bytes (zlen seg.2) (zlen cks1) fed).
Proof.
  induction cks2 as [|c cks2 IH]; intros cks1 fuel fed Heq Hfuel; (destruct fuel as [|fuel]; [cbn in Hfuel; lia|]);
    cbn [verify_v2_chunks].
  { rewrite app_nil_r in Heq. rewrite Heq, Z.leb_refl. cbn. rewrite app_nil_r. apply quiet_ret. }
  destruct table_fields as (_ & _ & Hentry). rewrite (Hentry cks1 c cks2 Heq).
  destruct (chunk_at2 cks1 c cks2 Heq) as (body & Hb & Hcrc & Hl & Hmax & Hdata).
  pose proof (zlen_nonneg body). pose proof (zlen_nonneg cks2). pose proof (zlen_nonneg cks1).
  rewrite (proj2 (Z.leb_gt _ _)) by (rewrite Heq, zlen_app, zlen_cons; lia).
  assert (sat_sub (zlen (ck_raw c)) 4 = zlen body) as -> by (unfold sat_sub; lia).
  pose proof (slice_bounds _ _ _ _ Hb) as Hbd.
  assert (sat_add (base + raw_span cks1) (zlen body) = base + raw_span cks1 + zlen body) as Hadd by (unfold sat_add; lia).
  rewrite Hadd, Hb. eapply (quiet_bind _ _ tt).
  { unfold check_v2_chunk_checksum. rewrite (proj2 (Z.leb_le _ _)) by lia. rewrite Hadd.
    assert (sat_add (base + raw_span cks1 + zlen body) 4 = base + raw_span cks1 + zlen body + 4) as -> by (unfold sat_add; lia).
    rewrite Hcrc. apply quiet_push_if. rewrite le_combine_le_bytes_small by (pose proof (adler32_range body); unfold adler32; cbn; lia).
    by rewrite Z.eqb_refl. }
  cbn beta. rewrite Hdata. eapply quiet_bind; [apply quiet_progress|]. cbn beta.
  replace (zlen cks1 + 1) with (zlen (cks1 ++ [c])) by by rewrite zlen_app.
  cbn [map concat]. rewrite app_assoc. apply IH; [by rewrite <-app_assoc|cbn in Hfuel; lia].
Qed.

Lemma compute_chunks_written cks2 : forall cks1 fuel fed found,
  seg.2 = cks1 ++ cks2 -> (length cks2 < fuel)%nat ->
  compute_v2_chunks fuel data table_bytes (zlen seg.2) (zlen cks1) fed found
  = Ok (fed ++ concat (map ck_page cks2), found || has_chunk cks2).
Proof.
  induction cks2 as [|c cks2 IH]; intros cks1 fuel fed found Heq Hfuel; (destruct fuel as [|fuel]; [cbn in Hfuel; lia|]);
    cbn [compute_v2_chunks].
  { rewrite app_nil_r in Heq. rewrite Heq, Z.leb_refl. cbn. by rewrite app_nil_r, orb_false_r. }
  destruct table_fields as (_ & _ & Hentry). rewrite (Hentry cks1 c cks2 Heq).
  destruct (chunk_at2 cks1 c cks2 Heq) as (body & Hb & _ & Hl & Hmax & Hdata).
  pose proof (zlen_nonneg body). pose proof (zlen_nonneg cks2). pose proof (zlen_nonneg cks1).
  rewrite (proj2 (Z.leb_gt _ _)) by (rewrite Heq, zlen_app, zlen_cons; lia).
  assert (sat_sub (zlen (ck_raw c)) 4 = zlen body) as -> by (unfold sat_sub; lia).
  assert (sat_add (base + raw_span cks1) (zlen body) = base + raw_span cks1 + zlen body) as Hadd by (unfold sat_add; lia).
  rewrite Hadd, Hb, Hdata. replace (zlen cks1 + 1) with (zlen (cks1 ++ [c])) by by rewrite zlen_app.
  rewrite IH by (rewrite <-?app_assoc; done || cbn in Hfuel; lia).
  cbn [map concat]. by rewrite app_assoc, orb_true_r.
Qed.

(** The table is usable when it has an entry. *)
Lemma usable_written :
  usable_table data (table_place, table_place + zlen table_bytes)
  = if bool_decide (seg.2 = []) then None else Some table_bytes.
Proof.
  unfold usable_table. cbn [fst snd]. rewrite table_at, zlen_table_bytes.
  unfold EVF2_CHUNK_TABLE_HEADER_SIZE, EVF2_CHUNK_TABLE_ENTRY_SIZE. case_bool_decide as E.
  - by rewrite E.
  - destruct seg.2 as [|c cks]; [done|]. rewrite zlen_cons. pose proof (zlen_nonneg cks).
    by rewrite (proj2 (Z.ltb_ge _ _)) by lia.
Qed.

Lemma table_fuel : (length seg.2 < S (length table_bytes))%nat.
Proof. pose proof zlen_table_bytes. unfold zlen in *. lia. Qed.

Lemma verify_data_quiet :
  exists r, quiet r (verify_ewf2_sector_data data table_place (table_place + zlen table_bytes) None None None).
Proof.
  pose proof usable_written as Hu. unfold usable_table in Hu. cbn [fst snd] in Hu. rewrite table_at in Hu.
  unfold verify_ewf2_sector_data. rewrite table_at. destruct (_ <? _); [eexists; apply quiet_ret|].
  destruct table_fields as (-> & Hcount & _). pose proof zlen_table_bytes as Hl. pose proof (zlen_nonneg seg.2).
  exists (Some (digests_of (concat (map ck_page seg.2)))). eapply (quiet_bind _ _ tt).
  { unfold check_chunk_table_checksum, EVF2_CHUNK_TABLE_HEADER_SIZE, EVF2_CHUNK_TABLE_ENTRY_SIZE, sat_add, sat_mul.
    rewrite !Z.min_r by lia. rewrite (proj2 (Z.leb_le _ _)) by lia. set (entries := entries_bytes2 base seg.2).
    pose proof (zlen_entries_bytes2 seg.2 base) as Hel. fold entries in Hel.
    set (before := le_bytes 8 number ++ le_bytes 4 (zlen seg.2) ++ zeros 20).
    assert (table_bytes = before ++ entries ++ le_bytes 4 (adler32 entries)) as Hat.
    { unfold before. by rewrite <-!app_assoc. }
    assert (zlen before = 32) as Hbl by (unfold before; by rewrite !zlen_app, !zlen_le_bytes).
    eapply quiet_bind.
    { apply quiet_index. apply (slice_at before entries (le_bytes 4 (adler32 entries)) table_bytes); [done|lia|lia]. }
    cbn beta zeta. apply quiet_push_if. rewrite (le_u32_at_field table_bytes (before ++ entries) [] _ (adler32 entries)).
    - by rewrite Z.eqb_refl.
    - by rewrite Hat, app_nil_r, <-app_assoc.
    - rewrite zlen_app. lia.
    - apply adler32_range.
    - lia. }
  cbn beta. eapply quiet_bind; [apply (verify_chunks_quiet seg.2 [] _ [] eq_refl table_fuel)|]. cbn beta zeta.
  do 3 (eapply (quiet_bind _ _ tt); [apply quiet_ret|]; cbn beta). apply quiet_ret.
Qed.

Lemma zlen_data2 : EVF2_FILE_HEADER_SIZE + EVF2_SECTION_DESCRIPTOR_SIZE <= zlen data.
Proof.
  rewrite (zlen_segment_bytes2 _ _ _ (o2_set a a_ok)). unfold segment_parts2, chunk_parts2.
  rewrite !span2_app, !span2_cons. pose proof (span2_nonneg (front_parts2 a first seg.1)).
  pose proof (span2_nonneg (back_parts2 a last_)). pose proof (zlen_nonneg (concat (map ck_raw seg.2))).
  pose proof (zlen_nonneg (table_body2 number base seg.2)).
  unfold EVF2_FILE_HEADER_SIZE, EVF2_SECTION_DESCRIPTOR_SIZE, EWF2_FILE_HEADER_SIZE. cbn [span2 foldr]. lia.
Qed.

(** What [compute_hashes_ewf2] takes from the segment. *)
Lemma compute_segment_written fed found :
  compute_v2_segment data fed found
  = Ok (fed ++ concat (map ck_page seg.2), found || has_chunk seg.2).
Proof.
  destruct (compute_segment_spec data fed found Hfits) as (place & Hfind & ->).
  destruct (walk_v2_found data Hfits) as (s & es & Hs & _ & Hrun). destruct walk_written2 as [ps Hquiet].
  specialize (Hrun []). specialize (Hquiet []). rewrite Hquiet in Hrun. injection Hrun as <- _.
  rewrite Hfind in Hs. injection Hs as ->. rewrite (proj2 (Z.ltb_ge _ _)) by apply zlen_data2.
  cbn [segment_scan chunk_table_body mbind option_bind]. rewrite usable_written. case_bool_decide as E.
  - rewrite E. cbn. by rewrite app_nil_r, orb_false_r.
  - unfold table_chunks. destruct table_fields as (-> & _ & _).
    pose proof (compute_chunks_written seg.2 [] _ fed found eq_refl table_fuel) as Hc. change (zlen []) with 0 in Hc.
    rewrite Hc. by destruct seg.2.
Qed.

Lemma header_quiet2 : 0 <= i < u32_max -> quiet tt (check_v2_header data i).
Proof.
  intros Hi. pose proof (zlen_nonneg data). unfold check_v2_header, sat_add, wrap32. rewrite Z.min_r, Z.mod_small by lia.
  set (rest := chain_bytes2 EWF2_FILE_HEADER_SIZE 0 parts).
  assert (data = EVF2_SIGNATURE ++ [byte_of_Z 2; byte_of_Z 1] ++ le_bytes 2 1 ++ le_bytes 4 (i + 1) ++ a2_set_identifier a ++ rest) as Hd.
  { unfold segment_bytes2, header_bytes2. by rewrite <-!app_assoc. }
  revert Hfits Hd. generalize data. intros d Hfit Hd.
  eapply quiet_bind; [apply quiet_index; by apply (slice_at [] EVF2_SIGNATURE _ d 0 8 Hd)|]. cbn beta.
  eapply (quiet_bind _ _ tt); [apply quiet_push_if; by rewrite (bool_decide_true (EVF2_SIGNATURE = EVF2_SIGNATURE))|]. cbn beta zeta.
  rewrite (le_u32_at_field d (EVF2_SIGNATURE ++ [byte_of_Z 2; byte_of_Z 1] ++ le_bytes 2 1) (a2_set_identifier a ++ rest) 12 (i + 1));
    [|by rewrite Hd, <-!app_assoc|done|lia|lia].
  rewrite (proj2 (Z.eqb_neq (i + 1) 0)), Z.eqb_refl by lia.
  eapply (quiet_bind _ _ tt); [by apply quiet_push_if|]. cbn beta zeta. apply quiet_push_if.
  unfold le_u16_at. rewrite (array_at_field 2 d (EVF2_SIGNATURE ++ [byte_of_Z 2; byte_of_Z 1]) (le_bytes 2 1)
    (le_bytes 4 (i + 1) ++ a2_set_identifier a ++ rest)); [done|by rewrite Hd, <-!app_assoc|done|done|lia].
Qed.

(** The digests stored in the image. *)
Definition written_stored2 : v2_stored :=
  {| final_stored_md5 := Some (md5 (a2_media a)); final_stored_sha1 := Some (sha1 (a2_media a));
     final_stored_sha256 := None |}.

Lemma analyse_segment_quiet2 n final :
  0 <= i < u32_max -> first = (i =? 0) -> last_ = (i =? n - 1) -> 0 < n -> (i = 0 -> existsb is_case seg.1 = true) ->
  quiet (if last_ then written_stored2 else final) (analyse_segment_v2 n i data final).
Proof.
  intros Hi Hf Hl Hn Hcase. unfold analyse_segment_v2. rewrite (proj2 (Z.ltb_ge _ _)) by apply zlen_data2.
  eapply quiet_bind; [by apply header_quiet2|]. cbn beta. eapply quiet_bind; [apply walk_written2|]. cbn beta zeta.
  assert ((i =? sat_sub n 1) = last_) as ->.
  { rewrite Hl. f_equal. unfold sat_sub. lia. }
  cbn [segment_scan has_hash has_media_info chunk_table_body stored_sector_md5 stored_sector_sha1 stored_sector_sha256].
  eapply (quiet_bind _ _ tt); [apply quiet_push_if; by destruct last_|]. cbn beta.
  eapply (quiet_bind _ _ tt).
  { apply quiet_push_if. destruct (Z.eqb_spec i 0) as [Hz|]; [|done]. by rewrite Hcase. }
  cbn beta. destruct verify_data_quiet as [r Hr]. eapply quiet_bind; [exact Hr|]. cbn beta.
  assert (last_ = true \/ last_ = false) as [El|El] by (destruct last_; auto); rewrite El; apply quiet_ret.
Qed.
End Segment2.

(** * The whole image *)

Section Whole2.
Context `{SafeReadLaws} `{AdlerLaws} `{Zlib} `{Digests} `{!DigestsLaws}.
Variable a : acquisition2.
Hypothesis a_ok : acquisition2_ok a.
Hypothesis checked_a : acquisition2_checked a.

Let n := zlen (a2_segments a).

Lemma analyse_segments_quiet2 segs2 : forall segs1 number final,
  a2_segments a = segs1 ++ segs2 ->
  Forall (fun bs => zlen bs <= i64_max) (write_segments2 a n (zlen segs1) number segs2) ->
  quiet (if bool_decide (segs2 = []) then final else written_stored2 a)
    (analyse_segments_v2 n (enumerate_from (zlen segs1) (write_segments2 a n (zlen segs1) number segs2)) final).
Proof.
  induction segs2 as [|seg segs2 IH]; intros segs1 number final Heq Hlens; [apply quiet_ret|].
  cbn [write_segments2 enumerate_from analyse_segments_v2] in *. apply Forall_cons in Hlens as [Hlen Hlens].
  pose proof (o2_numbers a a_ok) as Hn. pose proof (zlen_nonneg segs1). pose proof (zlen_nonneg segs2).
  assert (n = zlen segs1 + 1 + zlen segs2) as Htot by (unfold n; rewrite Heq, zlen_app, zlen_cons; lia).
  assert (seg ∈ a2_segments a) as Hin by (rewrite Heq; apply elem_of_app; right; constructor). fold n in Hn.
  eapply quiet_bind.
  { apply (analyse_segment_quiet2 a a_ok checked_a _ _ _ _ seg Hin Hlen n final); [lia|done|done|lia|].
    intros Hz. pose proof (c2_media_info a checked_a) as Hc. rewrite Heq in Hc.
    assert (segs1 = []) as -> by (apply nil_length_inv; unfold zlen in *; lia). exact Hc. }
  cbn beta. specialize (IH (segs1 ++ [seg]) (number + zlen seg.2) (if zlen segs1 =? n - 1 then written_stored2 a else final)).
  rewrite zlen_app in IH. change (zlen [seg]) with 1 in IH.
  destruct segs2 as [|seg2 segs2].
  - change (zlen []) with 0 in Htot. rewrite (proj2 (Z.eqb_eq _ _)) in IH by lia.
    rewrite bool_decide_true in IH by done. rewrite (proj2 (Z.eqb_eq _ _)) by lia. apply IH; [by rewrite <-app_assoc|done].
  - rewrite bool_decide_false in IH by done. apply IH; [by rewrite <-app_assoc|done].
Qed.

Lemma compute_segments_written segs2 : forall segs1 number fed found,
  a2_segments a = segs1 ++ segs2 ->
  Forall (fun bs => zlen bs <= i64_max) (write_segments2 a n (zlen segs1) number segs2) ->
  compute_v2_segments (write_segments2 a n (zlen segs1) number segs2) fed found
  = Ok (fed ++ concat (map ck_page (concat (map snd segs2))), found || has_chunk (concat (map snd segs2))).
Proof.
  induction segs2 as [|seg segs2 IH]; intros segs1 number fed found Heq Hlens.
  { cbn. by rewrite app_nil_r, orb_false_r. }
  cbn [write_segments2 compute_v2_segments map concat] in *. apply Forall_cons in Hlens as [Hlen Hlens].
  assert (seg ∈ a2_segments a) as Hin by (rewrite Heq; apply elem_of_app; right; constructor).
  rewrite (compute_segment_written a a_ok checked_a _ _ _ _ seg Hin Hlen). cbn [mbind outcome_bind].
  specialize (IH (segs1 ++ [seg]) (number + zlen seg.2)). rewrite zlen_app in IH. change (zlen [seg]) with 1 in IH.
  rewrite IH by (rewrite <-?app_assoc; done). rewrite map_app, concat_app, app_assoc, <-orb_assoc.
  by destruct seg.2.
Qed.

Lemma hashed_media : concat (map ck_page (a2_chunks a)) = a2_media a.
Proof.
  unfold a2_media, stored_media. pose proof (c2_whole a checked_a) as Hw. symmetry. apply ztake_all. lia.
Qed.

Lemma compute_written2 : compute_hashes_ewf2 (write_image2 a) = Ok (Some (digests_of (a2_media a))).
Proof.
  unfold compute_hashes_ewf2. pose proof (compute_segments_written (a2_segments a) [] 0 [] false eq_refl) as Hrun.
  change (zlen []) with 0 in Hrun. unfold write_image2. fold n. rewrite (Hrun (o2_lengths a a_ok)). clear Hrun.
  cbn [mbind outcome_bind app orb]. fold (a2_chunks a). rewrite hashed_media.
  destruct (a2_chunks a) eqn:E; [|done]. exfalso. pose proof (a2_bounds a a_ok). pose proof (c2_whole a checked_a) as Hw.
  rewrite E in Hw. change (zlen (concat (map ck_page []))) with 0 in Hw. lia.
Qed.

Lemma analyse_written_run2 ex :
  exists ps, forall log, analyse_all_ewf2_impl (write_image2 a) ex log
    = (Ok tt, log ++ map Progress ps ++ external_events (digests_of (a2_media a)) ex).
Proof.
  pose proof (analyse_segments_quiet2 (a2_segments a) [] 0 no_stored eq_refl) as Hq. change (zlen []) with 0 in Hq.
  destruct (Hq (o2_lengths a a_ok)) as [ps Hrun]. clear Hq. exists ps. intros log.
  assert (zlen (write_image2 a) = n) as Hl by (unfold write_image2, zlen; by rewrite length_write_segments2).
  unfold analyse_all_ewf2_impl. fold no_stored. rewrite stateful_bind_run, Hl. unfold write_image2 at 1. fold n.
  unfold enumerate. rewrite Hrun. pose proof (o2_numbers a a_ok) as Hn.
  rewrite bool_decide_false by (intros Hnil; rewrite Hnil in Hn; change (zlen []) with 0 in Hn; lia).
  unfold finish_v2. rewrite compute_written2, stateful_lift_run. cbn [final_stored_md5 final_stored_sha1 final_stored_sha256 written_stored2].
  do 3 rewrite stateful_bind_run, check_stored_run. rewrite check_external_run.
  unfold mismatch_if. cbn [digests_of hash_md5 hash_sha1]. rewrite !bool_decide_true by done. by rewrite !app_nil_r, <-app_assoc.
Qed.

Lemma is_ewf2 : first_is_ewf2 (write_image2 a) = Ok true.
Proof.
  pose proof (o2_numbers a a_ok) as Hn. unfold first_is_ewf2, write_image2.
  destruct (a2_segments a) as [|seg segs]; [change (zlen []) with 0 in Hn; lia|]. cbn [write_segments2 head default from_option].
  unfold segment_bytes2, header_bytes2. rewrite <-!app_assoc. set (t := [byte_of_Z 2; byte_of_Z 1] ++ _). pose proof (zlen_nonneg t).
  cbn [id]. rewrite zlen_app. change (zlen EVF2_SIGNATURE) with 8. rewrite (proj2 (Z.leb_le _ _)) by lia.
  unfold index_range. rewrite (slice_at [] EVF2_SIGNATURE t) by done. cbn [or_panic mbind outcome_bind].
  by rewrite (bool_decide_true (EVF2_SIGNATURE = EVF2_SIGNATURE)).
Qed.
End Whole2.

Lemma written_ex01_analysed `{SafeReadLaws} `{AdlerLaws} `{Zlib} `{DigestsLaws} a ex :
  acquisition2_ok a -> acquisition2_checked a ->
  let image := {| segments := write_image2 a; expected := ex |} in
  let mismatches := external_issues (digests_of (a2_media a)) ex in
  analyse image = Ok mismatches /\
  (exists ps, analyse_with_progress image = Ok (mismatches, ps)) /\
  compute_hashes image = Ok (Some (digests_of (a2_media a))).
Proof.
  intros Hok Hchk image mismatches. destruct (analyse_written_run2 a Hok Hchk ex) as [ps Hrun].
  assert (logged (analyse_all_ewf2_impl (write_image2 a) ex)
          = Ok (map Progress ps ++ external_events (digests_of (a2_media a)) ex)) as Hlog.
  { unfold logged. by rewrite Hrun. }
  unfold analyse, analyse_with_progress, compute_hashes. cbn [segments expected image].
  rewrite (is_ewf2 a Hok). cbn [mbind outcome_bind]. rewrite Hlog. cbn [mbind outcome_bind].
  rewrite issues_of_progress. split; [done|]. split; [by eexists|]. by apply compute_written2.
Qed.

(** C13: an EWF v2 acquisition as the analyser wants it is found intact.  Take any media
    and cut it into chunks, spread over any number of Ex01 files, such that
    - every chunk, zlib stream or page, is stored with its Adler-32 checksum behind it,
    - the pages are together exactly as long as the media: the last one is not padded,
    - the first file has case data, and case data anywhere is a compressed UTF-16 text,
    - no file has a section of restart data.
    The backward walks and the checks of either pass then report no anomaly of their
    own - no section digest, no checksum of a table or a chunk, no segment number and no
    stored hash is at fault - and of the references the caller gives exactly those that
    are not the digests of the media; the copy with progress reports the same, and
    [compute_hashes] returns the digests of the media.  The conditions are
    [acquisition2_checked].  The reader asks for none of them, and without them a set it
    reads is reported: v2_unchecksummed_reported, v2_padding_reported and
    v2_section_numbers_reported of Witnesses. *)
Theorem written_ex01_clean `{SafeReadLaws} `{AdlerLaws} `{Zlib} `{DigestsLaws} a ex :
  acquisition2_ok a -> acquisition2_checked a ->
  let image := {| segments := write_image2 a; expected := ex |} in
  let mismatches := external_issues (digests_of (a2_media a)) ex in
  analyse image = Ok mismatches /\
  (exists ps, analyse_with_progress image = Ok (mismatches, ps)) /\
  compute_hashes image = Ok (Some (digests_of (a2_media a))).
Proof. apply written_ex01_analysed. Qed.
