(* ===== verification/FuzzTargets.v ===== *)
(** The fuzz targets of [core/fuzz] and [forensic/fuzz], and the example
    [forensic/examples/validate.rs].

    A target is what libFuzzer runs on an input; it fails when it panics.  The
    scratch directory, the write into it and the file system that results are
    outside the program. *)

From S2P Require Import Prelude Text Extern Types Sections Ewf2 Parse Source ChunkTable Path ReaderOpen Reader.
From S2P Require Import Discover OpenSafe Anomaly Messages IntegrityV1 IntegrityV1Props IntegrityV2 Integrity IntegrityProps.
From S2P Require Import IntegrityApi Recover RecoverProps.

(** [let _ = result;] *)
Definition ignored {E A} (m : outcome E A) : outcome Empty_set unit :=
  match m with Panic => Panic | _ => Ok tt end.

(** What a file system answers: the entries of a pattern, files opened or mapped by
    path, and whether a path exists. *)
Record filesystem := {
  fs_glob : text -> option (list (option text));
  fs_open : text -> outcome io_error File;
  fs_map : text -> outcome io_error (list byte);
  fs_exists : text -> bool;
}.

Section Targets.
Context `{SafeRead} `{Adler} `{Zlib} `{Digests} `{Profile} `{Lru Z (list Chunk)} `{Lru Z (list byte)}.
Variable glob_escape : text -> text.

(** [tempdir()]; the file system after [data] was written to a path of it, [None]
    when the file could not be created or written. *)
Variable tempdir : option text.
Variable write : text -> list byte -> option filesystem.

Definition parse_header (data : list byte) : outcome Empty_set unit :=
  ignored (EwfFileHeader_parse data).

Definition parse_segment (data : list byte) : outcome Empty_set unit :=
  match tempdir with
  | None => Ok tt
  | Some dir =>
    let path := path_join dir (str "fuzz.E01") in
    match write path data with
    | None => Ok tt
    | Some fs => ignored (open glob_escape (fs_glob fs) (fs_open fs) path)
    end
  end.

Definition fuzz_integrity (data : list byte) : outcome Empty_set unit :=
  ignored (analyse (EwfIntegrity_new data)).

Definition fuzz_multisegment (data : list byte) : outcome Empty_set unit :=
  let mid := zlen data / 2 in
  let integrity := EwfIntegrity_from_segments [ztake mid data; zdrop mid data] in
  _ ← ignored (analyse integrity);
  _ ← ignored (compute_hashes integrity);
  ignored (header_metadata integrity).

Section Recovery.
(** The output file: creating it, writing to it, flushing it. *)
Variable device : list byte -> list byte -> option io_error.
Variables create flush : option io_error.
(** The number of files there are bounds the search for siblings. *)
Variable files : nat.

Definition fuzz_recover (data : list byte) : outcome Empty_set unit :=
  match tempdir with
  | None => Ok tt
  | Some dir =>
    let src := path_join dir (str "fuzz.E01") in
    match write src data with
    | None => Ok tt
    | Some fs =>
      match Recover.discover_segments (fs_exists fs) files src with
      | None => Panic
      | Some paths => ignored (fst (recover_to_raw device create flush (fs_map fs) paths []))
      end
    end
  end.
End Recovery.
End Targets.

(** * The targets do not panic *)

Section Safe.
Context `{SafeReadLaws} `{Adler} `{ZlibLaws} `{Digests} `{Profile} `{LruLaws Z (list Chunk)} `{LruLaws Z (list byte)}.
Variable glob_escape : text -> text.
Variable tempdir : option text.
Variable write : text -> list byte -> option filesystem.

(** A file system in which [path] is the only file of its directory, without a
    sibling segment, and holds [data]. *)
Record scratch (fs : filesystem) (path : text) (data : list byte) : Prop := {
  sc_glob pattern : default [] (fs_glob fs pattern) = [] \/ fs_glob fs pattern = Some [Some path];
  sc_open p f : fs_open fs p = Ok f -> file_ok f /\ file_bytes f = data;
  sc_open_safe p : no_panic (fs_open fs p);
  sc_map p : match fs_map fs p with Ok d => d = data | Err _ => True | Panic => False end;
  sc_alone upper n : 2 <= n -> fs_exists fs (with_extension path (segment_extension upper n)) = false;
}.

Hypothesis fresh : forall path data fs, write path data = Some fs -> scratch fs path data.

Lemma ignored_ok {E A} (m : outcome E A) : no_panic m -> ignored m = Ok tt.
Proof. by destruct m. Qed.

Lemma short_halves data :
  zlen data <= i64_max -> short_enough [ztake (zlen data / 2) data; zdrop (zlen data / 2) data].
Proof.
  intros Hd. pose proof (zlen_nonneg data). unfold short_enough.
  repeat (apply Forall_cons; split); [| |apply Forall_nil_2]; rewrite ?zlen_ztake, ?zlen_zdrop; lia.
Qed.

Lemma analyse_ok segs : short_enough segs -> ignored (analyse (EwfIntegrity_from_segments segs)) = Ok tt /\
  ignored (compute_hashes (EwfIntegrity_from_segments segs)) = Ok tt.
Proof.
  intros Hs. destruct (api_run segs no_expected Hs) as (v2 & es & o & Hv2 & Hc & Ha & _).
  unfold analyse. cbn [segments expected EwfIntegrity_from_segments]. rewrite Hv2, Hc. cbn [mbind outcome_bind].
  by rewrite Ha.
Qed.

Lemma header_section_ok data : zlen data <= i64_max -> no_panic (parse_header_section data).
Proof.
  intros Hd. unfold parse_header_section, FILE_HEADER_SIZE, SECTION_DESCRIPTOR_SIZE.
  destruct (_ <? _) eqn:El; [done|]. bool_hyps. unfold index_range.
  rewrite (slice_some data 13 (zlen data)) by lia. cbn [or_panic mbind outcome_bind].
  pose proof (descriptor_parse_returns (ztake (zlen data - 13) (zdrop 13 data)) 13) as Hret.
  destruct (SectionDescriptor_parse _ 13) as [d|e|]; [|done|done]. destruct Hret as (_ & _ & Hsz).
  destruct (negb _); [done|]. destruct (_ <=? _) eqn:Ele; [done|]. bool_hyps. unfold sat_add in *.
  rewrite slice_some by lia. cbn [or_panic mbind outcome_bind].
  destruct (zlib_read_to_end _ _); [|done]. by destruct (from_utf8 _).
Qed.

Lemma header_metadata_ok segs :
  short_enough segs -> ignored (header_metadata (EwfIntegrity_from_segments segs)) = Ok tt.
Proof.
  intros Hs. apply ignored_ok. unfold header_metadata. cbn [segments EwfIntegrity_from_segments].
  induction Hs as [|d segs Hd _ IH]; [done|]. cbn [first_metadata].
  pose proof (header_section_ok d Hd). by destruct (parse_header_section d) as [[m|]|[]|].
Qed.

Hypothesis wraps : overflow_checks = false.

Lemma glob_ok_short fs path data pattern : scratch fs path data -> zlen (glob_ok (fs_glob fs) pattern) <= 1.
Proof.
  intros [Hg _ _ _ _]. unfold glob_ok. specialize (Hg pattern).
  destruct (fs_glob fs pattern) as [es|]; [|done].
  destruct Hg as [Hg|Hg]; [cbn in Hg; by subst|by injection Hg as ->].
Qed.

Lemma discover_short fs path data paths :
  scratch fs path data -> Discover.discover_segments glob_escape (fs_glob fs) path = Ok paths -> zlen paths <= 2.
Proof.
  intros Hs. unfold Discover.discover_segments. destruct (file_stem path) as [stem|]; [|done].
  set (ps := concat _). assert (zlen ps <= 2) as Hps.
  { unfold ps, segment_patterns. cbn [map concat]. rewrite !zlen_app. change (zlen []) with 0.
    match goal with |- zlen (glob_ok _ ?a) + (zlen (glob_ok _ ?b) + 0) <= 2 =>
      pose proof (glob_ok_short fs path data a Hs); pose proof (glob_ok_short fs path data b Hs) end. lia. }
  destruct ps as [|p ps'] eqn:Eps; [done|]. rewrite <-Eps in *. intros <-%Ok_inj.
  unfold zlen in *. by rewrite (Permutation_length (sort_by_perm upper_extension ps)).
Qed.

Lemma open_ok fs path data :
  zlen data <= 274877906944 -> scratch fs path data ->
  no_panic (Discover.open glob_escape (fs_glob fs) (fs_open fs) path).
Proof.
  intros Hd Hs. unfold Discover.open, open_with_cache_size.
  pose proof (discover_short fs path data) as Hshort.
  destruct (Discover.discover_segments _ _ path) as [paths|e|] eqn:E; [|done|].
  2: { unfold Discover.discover_segments in E. by repeat (case_match; try discriminate E). }
  specialize (Hshort paths Hs eq_refl). cbn [mbind outcome_bind]. unfold open_segments_with_cache_size.
  pose proof (zlen_nonneg data). pose proof (zlen_nonneg paths).
  eapply returns_no_panic, (open_paths_returns wraps text (fs_open fs)); [| |intros p f Hf|].
  - intros p f Hf. by apply (sc_open fs path data Hs) in Hf as [? _].
  - apply (sc_open_safe fs path data Hs).
  - apply (sc_open fs path data Hs) in Hf as [_ ->]. apply Z.le_refl.
  - unfold MAX_TABLE_ENTRIES. nia.
Qed.

Section Recovery.
Variable device : list byte -> list byte -> option io_error.
Variables create flush : option io_error.

Lemma recover_ok data :
  zlen data <= i64_max -> no_panic (fst (recover_segments device create flush [data] [])).
Proof.
  intros Hd. assert (mappable [data]) as Hm by (apply Forall_cons; split; [done|apply Forall_nil_2]).
  pose proof (plan_recovery_returns [data] Hm) as Hp.
  destruct (plan_recovery [data]) as [p|e|] eqn:Hplan; [|unfold recover_segments; by rewrite Hplan|done].
  pose proof (recover_writes device create flush [data] p Hp Hplan []) as Hw.
  by destruct (recover_segments _ _ _ [data] []) as [[r|[]|] out].
Qed.

Lemma siblings_none files fs path data :
  scratch fs path data -> Recover.discover_segments (fs_exists fs) (S files) path = Some [path].
Proof.
  intros Hs. unfold Recover.discover_segments. destruct (extension path) as [ext|]; [|done].
  assert (forall upper, sibling_loop (fs_exists fs) (S files) path upper 2 = Some []) as Hloop.
  { intros upper. cbn [sibling_loop]. by rewrite (sc_alone fs path data Hs). }
  destruct (map to_ascii_lower ext) as [|c [|a [|b [|]]]]; try done.
  destruct (_ || _); [done|]. rewrite Hloop. by destruct ext.
Qed.

(** The fuzz targets have nothing to find.  On every input - up to 256 GiB, in a
    build whose plain arithmetic wraps - each of the five targets returns: the parser
    of file headers, the open of an image of either format, the analysis of one
    segment and of an input cut in two with its digests and its header, and the
    recovery, whether the scratch directory, the files in it and the output can be
    written or not. *)
Theorem fuzz_targets_return files data :
  zlen data <= 274877906944 ->
  parse_header data = Ok tt /\
  parse_segment glob_escape tempdir write data = Ok tt /\
  fuzz_integrity data = Ok tt /\
  fuzz_multisegment data = Ok tt /\
  fuzz_recover tempdir write device create flush (S files) data = Ok tt.
Proof.
  intros Hd. assert (zlen data <= i64_max) as Hd' by lia. split; [|split; [|split; [|split]]].
  - apply ignored_ok. eapply returns_no_panic, file_header_parse_returns.
  - unfold parse_segment. destruct tempdir as [dir|]; [|done].
    destruct (write _ data) as [fs|] eqn:Ew; [|done]. apply ignored_ok. by eapply open_ok, fresh.
  - apply analyse_ok. apply Forall_cons; split; [done|apply Forall_nil_2].
  - unfold fuzz_multisegment. pose proof (short_halves data Hd') as Hs.
    destruct (analyse_ok _ Hs) as [-> ->]. cbn [mbind outcome_bind]. by apply header_metadata_ok.
  - unfold fuzz_recover. destruct tempdir as [dir|]; [|done].
    destruct (write _ data) as [fs|] eqn:Ew; [|done]. pose proof (fresh _ _ _ Ew) as Hs.
    rewrite (siblings_none files fs _ data Hs). apply ignored_ok. unfold recover_to_raw.
    cbn [mapM]. pose proof (sc_map fs _ data Hs (path_join dir (str "fuzz.E01"))) as Hmap.
    destruct (fs_map fs _) as [d|e|]; [|done|done]. subst d. rewrite stateful_bind_run. by apply recover_ok.
Qed.
End Recovery.
End Safe.

(** * The example [validate] *)

Section Validate.
Context `{SafeRead} `{Adler} `{Zlib} `{Digests}.

(** [std::fs::read], the text of its error, and the derived [Debug] of an anomaly. *)
Variable fs_read : text -> outcome io_error (list byte).
Variable io_text : io_error -> text.
Variable debug_anomaly : EwfIntegrityAnomaly -> text.

Definition severity_tag (s : Severity) : text :=
  match s with
  | Critical => str "[CRIT ]"
  | High => str "[HIGH ]"
  | Medium => str "[MED  ]"
  | Low => str "[LOW  ]"
  | Info => str "[INFO ]"
  end.

(** What a run has printed, line by line, and whether it saw an error. *)
Record validation := {
  va_out : list text;
  va_err : list text;
  va_any_error : bool;
}.

Definition size_label (path : text) (size_kb : Z) : text :=
  path ++ str "  (" ++ print_dec size_kb ++ str " KB)".

Definition is_error (a : EwfIntegrityAnomaly) : bool :=
  match severity a with Critical | High => true | _ => false end.

(** One round of the loop over the paths. *)
Definition validate_path (path : text) (v : validation) : outcome Empty_set validation :=
  match fs_read path with
  | Panic => Panic
  | Err e =>
    Ok {| va_out := va_out v;
          va_err := va_err v ++ [str "[SKIP] " ++ path ++ str ": " ++ io_text e];
          va_any_error := va_any_error v |}
  | Ok data =>
    findings ← analyse (EwfIntegrity_new data);
    let size_kb := zlen data / 1024 in
    match findings with
    | [] =>
      Ok {| va_out := va_out v ++ [str "[CLEAN]  " ++ size_label path size_kb ++ str " " ++ em_dash ++ str " no anomalies"];
            va_err := va_err v; va_any_error := va_any_error v |}
    | _ =>
      Ok {| va_out := va_out v ++ map (fun a => severity_tag (severity a) ++ str "  "
                        ++ size_label path size_kb ++ str "  " ++ debug_anomaly a) findings;
            va_err := va_err v;
            va_any_error := if existsb is_error findings then true else va_any_error v |}
    end
  end.

Fixpoint validate_paths (paths : list text) (v : validation) : outcome Empty_set validation :=
  match paths with
  | [] => Ok v
  | path :: paths => v ← validate_path path v; validate_paths paths v
  end.

(** [main]: what it prints and the exit code. *)
Definition validate_main (paths : list text) : outcome Empty_set (list text * list text * Z) :=
  match paths with
  | [] => Ok ([], [str "usage: validate <image.E01> [image2.E01 ...]"], 1)
  | _ =>
    v ← validate_paths paths {| va_out := []; va_err := []; va_any_error := false |};
    Ok (va_out v, va_err v, if va_any_error v then 1 else 0)
  end.
End Validate.

Section ValidateProps.
Context `{SafeReadLaws} `{Adler} `{Zlib} `{Digests}.
Variable fs_read : text -> outcome io_error (list byte).
Variable io_text : io_error -> text.
Variable debug_anomaly : EwfIntegrityAnomaly -> text.
Hypothesis reads_safely : forall p, no_panic (fs_read p).
Hypothesis reads_short : forall p d, fs_read p = Ok d -> zlen d <= i64_max.

(** What the analyser finds in a file; nothing in one that cannot be read. *)
Definition findings_of (path : text) : list EwfIntegrityAnomaly :=
  match fs_read path with
  | Ok data => match analyse (EwfIntegrity_new data) with Ok issues => issues | _ => [] end
  | _ => []
  end.

Definition readable (path : text) : bool := match fs_read path with Ok _ => true | _ => false end.

(** The lines a path puts on the standard output. *)
Definition lines_for (path : text) : Z :=
  if readable path then Z.max 1 (zlen (findings_of path)) else 0.

Lemma validate_path_run path v :
  exists v', validate_path fs_read io_text debug_anomaly path v = Ok v' /\
    zlen (va_out v') = zlen (va_out v) + lines_for path /\
    zlen (va_err v') = zlen (va_err v) + (if readable path then 0 else 1) /\
    va_any_error v' = (existsb is_error (findings_of path) || va_any_error v).
Proof.
  unfold validate_path, lines_for, readable, findings_of.
  pose proof (reads_safely path) as Hp. destruct (fs_read path) as [data|e|] eqn:E; [| |done].
  - assert (short_enough [data]) as Hs.
    { apply Forall_cons; split; [by eapply reads_short|apply Forall_nil_2]. }
    destruct (api_run [data] no_expected Hs) as (v2 & es & o & Hv2 & _ & Ha & _).
    assert (analyse (EwfIntegrity_new data) = Ok (issues_of es)) as ->.
    { unfold analyse. cbn [segments expected EwfIntegrity_new]. rewrite Hv2. cbn [mbind outcome_bind]. by rewrite Ha. }
    cbn [mbind outcome_bind]. destruct (issues_of es) as [|a as_] eqn:Ei; eexists; split; try reflexivity; cbn [va_out va_err va_any_error].
    + rewrite zlen_app, zlen_cons. change (zlen []) with 0. split; [lia|]. split; [lia|done].
    + rewrite zlen_app. unfold zlen at 2. rewrite length_map. fold (zlen (a :: as_)).
      rewrite zlen_cons. pose proof (zlen_nonneg as_). split; [lia|]. split; [lia|].
      by destruct (existsb is_error (a :: as_)).
  - eexists. split; [reflexivity|]. cbn [va_out va_err va_any_error]. rewrite zlen_app, zlen_cons.
    change (zlen []) with 0. split; [lia|]. split; [lia|done].
Qed.

Lemma validate_paths_run paths v :
  exists v', validate_paths fs_read io_text debug_anomaly paths v = Ok v' /\
    zlen (va_out v') = zlen (va_out v) + foldr (fun p n => lines_for p + n) 0 paths /\
    zlen (va_err v') = zlen (va_err v) + foldr (fun p n => (if readable p then 0 else 1) + n) 0 paths /\
    va_any_error v' = (existsb (fun p => existsb is_error (findings_of p)) paths || va_any_error v).
Proof.
  revert v. induction paths as [|p paths IH]; intros v; cbn [validate_paths foldr existsb].
  { exists v. split; [done|]. split; [lia|]. split; [lia|done]. }
  destruct (validate_path_run p v) as (v1 & -> & Ho & He & Ha). cbn [mbind outcome_bind].
  destruct (IH v1) as (v2 & -> & Ho' & He' & Ha'). exists v2. split; [done|]. split; [lia|]. split; [lia|].
  rewrite Ha', Ha. by destruct (existsb is_error _), (existsb _ paths).
Qed.

(** C32: the verdict of [validate].  On any list of paths it ends without a panic;
    its exit code is 1 exactly when it was given no path or some file it could read
    has a finding that is high or critical; it prints one line for each finding or
    for a clean file, and one on the error output for each file it skipped. *)
Theorem validate_verdict paths :
  exists out err code, validate_main fs_read io_text debug_anomaly paths = Ok (out, err, code) /\
    (code = 1 <-> paths = [] \/ exists p a, p ∈ paths /\ a ∈ findings_of p /\
                   (severity a = High \/ severity a = Critical)) /\
    (code = 0 \/ code = 1) /\
    (paths <> [] -> zlen out = foldr (fun p n => lines_for p + n) 0 paths /\
                    zlen err = zlen (List.filter (fun p => negb (readable p)) paths)).
Proof.
  unfold validate_main. destruct paths as [|p0 paths0] eqn:Ep.
  { eexists _, _, 1. split; [done|]. split; [split; [by left|done]|]. split; [by right|done]. }
  rewrite <-Ep. assert (paths <> []) as Hne by by rewrite Ep.
  destruct (validate_paths_run paths {| va_out := []; va_err := []; va_any_error := false |})
    as (v & -> & Ho & He & Ha). cbn [va_out va_err va_any_error] in *. rewrite orb_false_r in Ha.
  eexists _, _, _. split; [reflexivity|]. split; [|split].
  - rewrite Ha. destruct (existsb _ paths) eqn:Ex; (split; [intros Hc|intros Hex]); try done.
    + right. apply existsb_exists in Ex as (p & Hp & (a & Ha' & Hsev)%existsb_exists).
      exists p, a. split; [by apply list_elem_of_In|]. split; [by apply list_elem_of_In|].
      unfold is_error in Hsev. destruct (severity a); try done; auto.
    + destruct Hex as [?|(p & a & Hp & Hain & Hsev)]; [done|]. exfalso.
      apply list_elem_of_In in Hp, Hain.
      assert (existsb (fun p => existsb is_error (findings_of p)) paths = true) as Ht; [|congruence].
      apply existsb_exists. exists p. split; [done|]. apply existsb_exists. exists a. split; [done|].
      unfold is_error. by destruct Hsev as [->| ->].
  - destruct (va_any_error v); auto.
  - intros _. change (zlen []) with 0 in Ho, He. split; [lia|]. rewrite He. clear.
    induction paths as [|p paths IH]; [done|]. cbn. destruct (readable p); cbn [negb]; rewrite ?zlen_cons; lia.
Qed.
End ValidateProps.
