(* ===== verification/Bench.v ===== *)
(** The benchmark [core/examples/bench_table.rs]: the writer of a single-segment
    EWF v1 image of zero chunks spread over many [table] sections, the two read
    loops, and [main] on the eager and the lazy reader.  Clocks, throughputs in MB/s
    and the printed table are left out. *)

From S2P Require Import Prelude Text Extern Types Sections Source ChunkTable Path ReaderOpen Resident Reader.
From S2P Require Import Discover FuzzTargets.

Definition CHUNK_SIZE : Z := 32768.
Definition SECTORS_PER_CHUNK : Z := 64.
Definition BYTES_PER_SECTOR : Z := 512.

(** [buf[off..off + bs.len()].copy_from_slice(&bs)] *)
Definition put (off : Z) (bs buf : list byte) : list byte :=
  ztake off buf ++ bs ++ zdrop (off + zlen bs) buf.

(** A descriptor without a checksum: its type, [next] and size in 76 zero bytes. *)
Definition bench_descriptor (name : text) (nxt size : Z) : list byte :=
  put 24 (le_bytes 8 size) (put 16 (le_bytes 8 nxt) (put 0 (ascii_bytes name) (zeros SECTION_DESCRIPTOR_SIZE))).

Definition bench_volume (total_chunks sector_count : Z) : list byte :=
  put 16 (le_bytes 8 sector_count)
    (put 12 (le_bytes 4 BYTES_PER_SECTOR)
      (put 8 (le_bytes 4 SECTORS_PER_CHUNK)
        (put 4 (le_bytes 4 (wrap32 total_chunks))
          (put 0 (le_bytes 4 1) (zeros 94))))).

Definition bench_table_header (n base_offset : Z) : list byte :=
  put 8 (le_bytes 8 base_offset) (put 0 (le_bytes 4 (wrap32 n)) (zeros 24)).

(** The entries of one section: every one is the shared blob. *)
Definition bench_entries (n : Z) : list byte :=
  concat (replicate (Z.to_nat n) (le_bytes 4 2147483648)).

(** The sizes of the table sections: [n_sections] rounds of the loop. *)
Fixpoint section_sizes (n_sections : nat) (remaining entries_per_section : Z) : list Z :=
  match n_sections with
  | O => []
  | S n_sections =>
    let n := Z.min remaining entries_per_section in
    n :: section_sizes n_sections (remaining - n) entries_per_section
  end.

Definition this_section_bytes (n : Z) : Z := SECTION_DESCRIPTOR_SIZE + 24 + n * 4.

Definition tables_bytes (sizes : list Z) : Z := foldr (fun n b => this_section_bytes n + b) 0 sizes.

(** The table sections from [cursor] on: each names the next one, the last one the
    [sectors] section. *)
Fixpoint emit_tables (sizes : list Z) (cursor sectors_desc_off sectors_data_off : Z) : list byte :=
  match sizes with
  | [] => []
  | n :: sizes =>
    let next_off := match sizes with
                    | _ :: _ => cursor + this_section_bytes n
                    | [] => sectors_desc_off
                    end in
    bench_descriptor (str "table") next_off (this_section_bytes n)
    ++ bench_table_header n sectors_data_off ++ bench_entries n
    ++ emit_tables sizes (cursor + this_section_bytes n) sectors_desc_off sectors_data_off
  end.

Section Build.
(** [flate2::write::ZlibEncoder] at the default level, on a whole input. *)
Variable zlib_encode : list byte -> list byte.

Definition blob : list byte := zlib_encode (zeros CHUNK_SIZE).

(** The bytes of the image once the sizes of the sections are known. *)
Definition bench_file (total_chunks sector_count : Z) (sizes : list Z) : list byte :=
  let blob_len := zlen blob in
  let first_tbl_desc_off := FILE_HEADER_SIZE + SECTION_DESCRIPTOR_SIZE + 94 in
  let sectors_desc_off := first_tbl_desc_off + tables_bytes sizes in
  let sectors_data_off := sectors_desc_off + SECTION_DESCRIPTOR_SIZE in
  let done_desc_off := sectors_data_off + blob_len in
  EVF_SIGNATURE ++ [byte_of_Z 1] ++ le_bytes 2 1 ++ le_bytes 2 0
  ++ bench_descriptor (str "volume") first_tbl_desc_off (SECTION_DESCRIPTOR_SIZE + 94)
  ++ bench_volume total_chunks sector_count
  ++ emit_tables sizes first_tbl_desc_off sectors_desc_off sectors_data_off
  ++ bench_descriptor (str "sectors") done_desc_off (SECTION_DESCRIPTOR_SIZE + blob_len) ++ blob
  ++ bench_descriptor (str "done") 0 SECTION_DESCRIPTOR_SIZE.

(** [usize::div_ceil], which panics on a zero divisor. *)
Definition div_ceil {E} (a b : Z) : outcome E Z :=
  if b =? 0 then Panic else Ok ((a + b - 1) / b).

(** The offsets are positions in the vector that is built and cannot overflow; the
    number of sectors is a product of its own. *)
Definition build_many_chunk_e01 `{Profile} (total_chunks entries_per_section : Z) : res (list byte) :=
  sector_count ← mul64 (CHUNK_SIZE / BYTES_PER_SECTOR) total_chunks;
  n_sections ← div_ceil total_chunks entries_per_section;
  Ok (bench_file total_chunks sector_count
        (section_sizes (Z.to_nat n_sections) total_chunks entries_per_section)).

(** ** The random numbers: xorshift on 64 bits *)
Definition next_u64 (x : Z) : Z :=
  let x := Z.lxor x (wrap64 (Z.shiftl x 13)) in
  let x := Z.lxor x (Z.shiftr x 7) in
  Z.lxor x (wrap64 (Z.shiftl x 17)).

Definition RNG_SEED : Z := 1311768467463790320.

Section Run.
Context `{SafeRead} `{Zlib} `{Profile} `{LruIter Z (list Chunk)} `{Lru Z (list byte)} `{Layout}.

(** [unwrap()] *)
Definition unwrap {A} (m : res A) : res A := match m with Ok a => Ok a | _ => Panic end.
Definition unwrapped {A} (c : stateful EwfReader ewf_error A) : stateful EwfReader ewf_error A :=
  fun r => let '(a, r) := c r in (unwrap a, r).

Definition SEQ_STEP : Z := 1024 * 1024.

(** The loop of [seq_throughput]: the bytes read.  [fuel] bounds the rounds. *)
Fixpoint seq_loop (fuel : nat) (size off total : Z) : stateful EwfReader ewf_error Z :=
  match fuel with
  | O => lift Panic
  | S fuel =>
    if off <? size then
      bs ← unwrapped (read_at (Z.min SEQ_STEP (size - off)) off);
      if zlen bs =? 0 then mret total
      else
        total ← lift (add64 total (zlen bs));
        off ← lift (add64 off (zlen bs));
        seq_loop fuel size off total
    else mret total
  end.

Definition seq_throughput : stateful EwfReader ewf_error Z := fun r =>
  seq_loop (S (Z.to_nat (r_total_size r))) (r_total_size r) 0 0 r.

(** The loop of [random_throughput]: [n_reads] reads of [read_len] bytes. *)
Fixpoint random_loop (n_reads : nat) (size read_len rng total : Z) : stateful EwfReader ewf_error Z :=
  match n_reads with
  | O => mret total
  | S n_reads =>
    let '(off, rng) := if read_len <? size
                       then (next_u64 rng mod (size - read_len), next_u64 rng) else (0, rng) in
    bs ← unwrapped (read_at read_len off);
    total ← lift (add64 total (zlen bs));
    random_loop n_reads size read_len rng total
  end.

Definition random_throughput (n_reads read_len : Z) : stateful EwfReader ewf_error Z := fun r =>
  random_loop (Z.to_nat n_reads) (r_total_size r) read_len RNG_SEED 0 r.

(** What [main] measures, clocks apart. *)
Record measures := {
  bm_logical_mib : Z;
  bm_sections : Z;
  bm_on_disk : Z;
  bm_chunk_count : Z;
  bm_eager_resident : Z;
  bm_lazy_resident_cold : Z;
  bm_lazy_resident_warm : Z;
  bm_eager_seq : Z;
  bm_lazy_seq : Z;
  bm_eager_rnd : Z;
  bm_lazy_rnd : Z;
}.

(** [assert_eq!] *)
Definition assert_eq (a b : Z) : res unit := if a =? b then Ok tt else Panic.

(** The two arguments, each with a default for one that is missing or is no number. *)
Definition bench_args (args : list text) : Z * Z :=
  (default 1000000 (s ← args !! 0%nat; parse_usize s), default 16384 (s ← args !! 1%nat; parse_usize s)).

(** [main] behind its arguments: [write] is the named temporary file, with the file
    system that has it. *)
Definition bench_run (glob_escape : text -> text) (write : list byte -> text * filesystem)
    (total_chunks entries_per_section : Z) : res measures :=
  logical ← mul64 total_chunks CHUNK_SIZE;
  n_sections ← div_ceil (E:=ewf_error) total_chunks entries_per_section;
  file ← build_many_chunk_e01 total_chunks entries_per_section;
  let '(path, fs) := write file in
  eager ← unwrap (open glob_escape (fs_glob fs) (fs_open fs) path);
  lazy_ ← unwrap (open_lazy glob_escape (fs_glob fs) (fs_open fs) path);
  _ ← assert_eq (chunk_count_of eager) (chunk_count_of lazy_);
  _ ← assert_eq (chunk_count_of eager) total_chunks;
  eager_resident ← EwfReader_resident_table_bytes eager;
  lazy_resident_cold ← EwfReader_resident_table_bytes lazy_;
  let '(eager_seq, eager) := seq_throughput eager in
  eager_seq ← eager_seq;
  let '(lazy_seq, lazy_) := seq_throughput lazy_ in
  lazy_seq ← lazy_seq;
  lazy_resident_warm ← EwfReader_resident_table_bytes lazy_;
  let '(eager_rnd, eager) := random_throughput 10000 (64 * 1024) eager in
  eager_rnd ← eager_rnd;
  let '(lazy_rnd, lazy_) := random_throughput 10000 (64 * 1024) lazy_ in
  lazy_rnd ← lazy_rnd;
  Ok {| bm_logical_mib := logical / (1024 * 1024); bm_sections := n_sections; bm_on_disk := zlen file; bm_chunk_count := chunk_count_of eager;
        bm_eager_resident := eager_resident; bm_lazy_resident_cold := lazy_resident_cold;
        bm_lazy_resident_warm := lazy_resident_warm;
        bm_eager_seq := eager_seq; bm_lazy_seq := lazy_seq;
        bm_eager_rnd := eager_rnd; bm_lazy_rnd := lazy_rnd |}.

Definition bench_main (glob_escape : text -> text) (write : list byte -> text * filesystem)
    (args : list text) : res measures :=
  let '(total_chunks, entries_per_section) := bench_args args in
  bench_run glob_escape write total_chunks entries_per_section.
End Run.
End Build.
