(* ===== verification/BenchProps.v ===== *)
(** The image the benchmark writes is an image: it opens, eagerly and lazily, with a
    record for every chunk, its media is zeros, and [main] runs to its end. *)

From S2P Require Import Prelude Text Extern Types Sections Source ChunkTable Path ReaderOpen Resident Reader LazyOpen.
From S2P Require Import Discover OpenSafe Acquire Stored AcquireRead FuzzTargets Bench.

(** * The bytes *)

Lemma zeros_split a n : 0 <= a <= n -> zeros n = zeros a ++ zeros (n - a).
Proof. intros Ha. unfold zeros. rewrite <-replicate_add. f_equal. lia. Qed.

Lemma put_mid off bs l1 mid l2 :
  off = zlen l1 -> zlen mid = zlen bs -> put off bs (l1 ++ mid ++ l2) = l1 ++ bs ++ l2.
Proof.
  intros -> Hm. unfold put. rewrite ztake_app_len by done. do 2 f_equal.
  rewrite app_assoc. apply zdrop_app_len. rewrite zlen_app. lia.
Qed.

Lemma put_front bs mid l2 : zlen mid = zlen bs -> put 0 bs (mid ++ l2) = bs ++ l2.
Proof. by apply (put_mid 0 bs []). Qed.

Lemma bench_descriptor_eq name nxt size :
  zlen name <= 16 -> bench_descriptor name nxt size = descriptor_bytes (ascii_bytes name) nxt size 0.
Proof.
  intros Hn. pose proof (zlen_nonneg name). pose proof (zlen_ascii name) as Ha.
  unfold bench_descriptor, SECTION_DESCRIPTOR_SIZE.
  assert (zeros 76 = zeros (zlen name) ++ zeros (16 - zlen name) ++ zeros 8 ++ zeros 8 ++ zeros 40 ++ zeros 4) as ->.
  { rewrite (zeros_split (zlen name)) by lia. f_equal.
    rewrite (zeros_split (16 - zlen name)) by lia. do 2 f_equal.
    replace (76 - zlen name - (16 - zlen name)) with 60 by lia. done. }
  rewrite put_front by (rewrite zlen_zeros; lia).
  set (pre := ascii_bytes name). set (gap := zeros (16 - zlen name)).
  assert (zlen (pre ++ gap) = 16) as H16 by (unfold pre, gap; rewrite zlen_app, zlen_zeros; lia).
  rewrite (app_assoc pre gap).
  rewrite (put_mid 16 _ (pre ++ gap)) by (by rewrite ?H16, ?zlen_le_bytes).
  rewrite (app_assoc (pre ++ gap)).
  rewrite (put_mid 24 _ ((pre ++ gap) ++ le_bytes 8 nxt)) by (rewrite ?(zlen_app (pre ++ gap)), ?H16, ?zlen_le_bytes; done).
  unfold descriptor_bytes, descriptor_prefix. fold pre. replace (zlen pre) with (zlen name) by (unfold pre; lia).
  fold gap. by rewrite <-!app_assoc.
Qed.

Lemma bench_volume_eq total sectors :
  bench_volume total sectors =
  ztake 94 (le_bytes 4 1 ++ le_bytes 4 (wrap32 total) ++ le_bytes 4 64 ++ le_bytes 4 512
            ++ le_bytes 8 sectors ++ zeros 70).
Proof.
  unfold bench_volume, BYTES_PER_SECTOR, SECTORS_PER_CHUNK.
  change (zeros 94) with (zeros 4 ++ zeros 4 ++ zeros 4 ++ zeros 4 ++ zeros 8 ++ zeros 70).
  rewrite put_front by done.
  rewrite (put_mid 4 _ (le_bytes 4 1)) by (by rewrite ?zlen_le_bytes).
  rewrite (app_assoc (le_bytes 4 1)).
  rewrite (put_mid 8 _ (le_bytes 4 1 ++ le_bytes 4 (wrap32 total))) by (by rewrite ?zlen_app, ?zlen_le_bytes).
  rewrite (app_assoc (_ ++ le_bytes 4 (wrap32 total))).
  rewrite (put_mid 12 _ (_ ++ le_bytes 4 64)) by (by rewrite ?zlen_app, ?zlen_le_bytes).
  rewrite (app_assoc (_ ++ le_bytes 4 64)).
  rewrite (put_mid 16 _ (_ ++ le_bytes 4 512)) by (by rewrite ?zlen_app, ?zlen_le_bytes).
  rewrite <-!app_assoc. symmetry. apply ztake_all.
  by rewrite !zlen_app, !zlen_le_bytes, zlen_zeros.
Qed.

Lemma bench_volume_full `{Adler} total sectors :
  bench_volume total sectors = ztake 94 (full_volume_body (wrap32 total) 64 512 sectors).
Proof.
  rewrite bench_volume_eq. unfold full_volume_body. cbv zeta.
  change (zeros 1024) with (zeros 70 ++ zeros 954).
  set (fields := le_bytes 4 1 ++ le_bytes 4 (wrap32 total) ++ le_bytes 4 64 ++ le_bytes 4 512 ++ le_bytes 8 sectors).
  assert (zlen (fields ++ zeros 70) = 94) as Hl by (unfold fields; by autorewrite with ewf).
  assert (forall tl : list byte, le_bytes 4 1 ++ le_bytes 4 (wrap32 total) ++ le_bytes 4 64 ++ le_bytes 4 512
            ++ le_bytes 8 sectors ++ tl = fields ++ tl) as Hf by (intros; unfold fields; by rewrite <-!app_assoc).
  rewrite !Hf. set (crc := le_bytes 4 _).
  rewrite (ztake_all 94) by lia. symmetry.
  replace ((fields ++ zeros 70 ++ zeros 954) ++ crc) with ((fields ++ zeros 70) ++ zeros 954 ++ crc)
    by by rewrite <-!app_assoc.
  by apply ztake_app_len.
Qed.

Lemma bench_table_header_eq n base :
  bench_table_header n base = le_bytes 4 (wrap32 n) ++ zeros 4 ++ le_bytes 8 base ++ zeros 8.
Proof.
  unfold bench_table_header. change (zeros 24) with (zeros 4 ++ zeros 4 ++ zeros 8 ++ zeros 8).
  rewrite put_front by done. rewrite (app_assoc (le_bytes 4 _)).
  rewrite (put_mid 8 _ (le_bytes 4 (wrap32 n) ++ zeros 4)) by (by rewrite ?zlen_app, ?zlen_le_bytes).
  by rewrite <-!app_assoc.
Qed.

Lemma zlen_bench_entries n : 0 <= n -> zlen (bench_entries n) = 4 * n.
Proof.
  intros Hn. unfold bench_entries. rewrite <-(Z2Nat.id n Hn) at 2. generalize (Z.to_nat n) as k.
  induction k as [|k IH]; [done|]. cbn [replicate concat]. rewrite zlen_app, zlen_le_bytes, IH. lia.
Qed.

(** ** The file as a chain of sections *)

Definition bench_section (name : text) (pos : Z) (body : list byte) : list byte :=
  bench_descriptor name (pos + (76 + zlen body)) (76 + zlen body) ++ body.

Fixpoint bench_chain (pos : Z) (ps : list part) : list byte :=
  match ps with
  | [] => []
  | (n, b) :: ps => bench_section n pos b ++ bench_chain (pos + (76 + zlen b)) ps
  end.

Definition bench_desc (name : text) (pos nxt size : Z) : SectionDescriptor :=
  {| section_type := name; next := nxt; Sections.section_size := size; offset := pos; stored_crc := 0 |}.

Fixpoint bench_descs (pos : Z) (ps : list part) : list SectionDescriptor :=
  match ps with
  | [] => []
  | (n, b) :: ps =>
    bench_desc n pos (pos + (76 + zlen b)) (76 + zlen b) :: bench_descs (pos + (76 + zlen b)) ps
  end.

Definition table_part (base n : Z) : part := (str "table", bench_table_header n base ++ bench_entries n).

Lemma zlen_table_part base n : 0 <= n -> zlen (table_part base n).2 = 24 + 4 * n.
Proof.
  intros Hn. unfold table_part. cbn [snd]. rewrite zlen_app, zlen_bench_entries, bench_table_header_eq by done.
  by rewrite !zlen_app, !zlen_le_bytes, !zlen_zeros.
Qed.

Lemma tables_bytes_cons n sizes : tables_bytes (n :: sizes) = 76 + (24 + 4 * n) + tables_bytes sizes.
Proof.
  change (tables_bytes (n :: sizes)) with (this_section_bytes n + tables_bytes sizes).
  unfold this_section_bytes, SECTION_DESCRIPTOR_SIZE. lia.
Qed.

Lemma span_table_parts base sizes :
  Forall (Z.le 0) sizes -> span (map (table_part base) sizes) = tables_bytes sizes.
Proof.
  induction 1 as [|n sizes Hn _ IH]; [done|]. cbn [map]. unfold table_part at 1. rewrite span_cons, IH.
  pose proof (zlen_table_part base n Hn) as Hz. cbn [snd table_part] in Hz. rewrite Hz, tables_bytes_cons. lia.
Qed.

Lemma emit_tables_chain sizes cursor base :
  Forall (Z.le 0) sizes ->
  emit_tables sizes cursor (cursor + tables_bytes sizes) base = bench_chain cursor (map (table_part base) sizes).
Proof.
  intros Hs. revert cursor. induction Hs as [|n sizes Hn Hs IH]; intros cursor; [done|].
  cbn [emit_tables map]. unfold table_part at 1. cbn [bench_chain]. unfold bench_section.
  pose proof (zlen_table_part base n Hn) as Hz. cbn [snd table_part] in Hz. rewrite Hz.
  assert (this_section_bytes n = 76 + (24 + 4 * n)) as -> by (unfold this_section_bytes, SECTION_DESCRIPTOR_SIZE; lia).
  rewrite tables_bytes_cons. set (len := 76 + (24 + 4 * n)).
  replace (cursor + (len + tables_bytes sizes)) with (cursor + len + tables_bytes sizes) by lia.
  rewrite IH, <-!app_assoc. destruct sizes as [|m sizes]; [|done].
  change (tables_bytes []) with 0. by rewrite Z.add_0_r.
Qed.

Lemma zlen_bench_descriptor n nxt size : good_name n -> zlen (bench_descriptor n nxt size) = 76.
Proof. intros [Hl _]. rewrite bench_descriptor_eq by done. apply zlen_descriptor_bytes. by rewrite zlen_ascii. Qed.

Lemma zlen_bench_chain pos ps : good_parts ps -> zlen (bench_chain pos ps) = span ps.
Proof.
  intros Hg. revert pos. induction Hg as [|[n b] ps Hn _ IH]; intros pos; [done|].
  cbn [bench_chain]. unfold bench_section. rewrite !zlen_app, zlen_bench_descriptor, IH, span_cons by done. lia.
Qed.

Lemma bench_chain_app pos ps qs :
  bench_chain pos (ps ++ qs) = bench_chain pos ps ++ bench_chain (pos + span ps) qs.
Proof.
  revert pos. induction ps as [|[n b] ps IH]; intros pos; [by rewrite Z.add_0_r|].
  cbn [app bench_chain]. rewrite IH, span_cons, <-app_assoc. do 3 f_equal. lia.
Qed.

Lemma bench_descs_app pos ps qs :
  bench_descs pos (ps ++ qs) = bench_descs pos ps ++ bench_descs (pos + span ps) qs.
Proof.
  revert pos. induction ps as [|[n b] ps IH]; intros pos; [by rewrite Z.add_0_r|].
  cbn [app bench_descs]. rewrite IH, span_cons. do 3 f_equal. lia.
Qed.

Lemma good_table : good_name (str "table"). Proof. by repeat constructor. Qed.
Lemma good_volume : good_name (str "volume"). Proof. by repeat constructor. Qed.
Lemma good_sectors : good_name (str "sectors"). Proof. by repeat constructor. Qed.
Lemma good_done : good_name (str "done"). Proof. by repeat constructor. Qed.

Section Chain.
Context `{SafeReadLaws} `{Profile}.
Variables (s : SegmentSource) (ps : list part).
Hypothesis names : good_parts ps.

(** A file of such sections: the header, the chain, an empty [done]. *)
Definition chain_file : list byte :=
  file_header_bytes Physical 1 ++ bench_chain FILE_HEADER_SIZE ps ++ bench_descriptor (str "done") 0 76.

Hypothesis served_by : serves s chain_file.

Lemma chain_fits : FILE_HEADER_SIZE + span ps + 76 <= i64_max /\ zlen chain_file = FILE_HEADER_SIZE + span ps + 76.
Proof.
  assert (zlen chain_file = FILE_HEADER_SIZE + span ps + 76) as Hl.
  { unfold chain_file. rewrite !zlen_app, zlen_file_header_bytes, zlen_bench_chain, zlen_bench_descriptor
      by (done || apply good_done). lia. }
  split; [|done]. rewrite <-Hl. apply (serves_fits (s:=s) (bs:=chain_file)).
Qed.

(** What is at the place of a part: its descriptor and its body. *)
Lemma part_at l1 n b l2 :
  ps = l1 ++ (n, b) :: l2 -> let pos := FILE_HEADER_SIZE + span l1 in
  slice chain_file pos (pos + 76) = Some (bench_descriptor n (pos + (76 + zlen b)) (76 + zlen b)) /\
  slice chain_file (pos + 76) (pos + 76 + zlen b) = Some b.
Proof.
  intros Hps pos. unfold good_parts in names. rewrite Hps in names. apply Forall_app in names as [Hn1 Hn2].
  apply Forall_cons in Hn2 as [Hn _]. cbn [fst] in Hn.
  set (pre := file_header_bytes Physical 1 ++ bench_chain FILE_HEADER_SIZE l1).
  set (d := bench_descriptor n _ _).
  set (rest := bench_chain (pos + (76 + zlen b)) l2 ++ bench_descriptor (str "done") 0 76).
  assert (chain_file = pre ++ d ++ b ++ rest) as Hf.
  { unfold chain_file, pre, rest. rewrite Hps, bench_chain_app. cbn [bench_chain]. unfold bench_section.
    by rewrite <-!app_assoc. }
  assert (zlen pre = pos) as Hpos by by unfold pre; rewrite zlen_app, zlen_file_header_bytes, zlen_bench_chain.
  assert (zlen d = 76) as Hd by by apply zlen_bench_descriptor.
  split.
  - apply (slice_at pre d (b ++ rest)); [done|done|by rewrite Hd].
  - apply (slice_at (pre ++ d) b rest); [by rewrite <-app_assoc|by rewrite zlen_app, Hd, Hpos|done].
Qed.

Lemma done_at : let pos := FILE_HEADER_SIZE + span ps in
  slice chain_file pos (pos + 76) = Some (bench_descriptor (str "done") 0 76).
Proof.
  intros pos. apply (slice_at (file_header_bytes Physical 1 ++ bench_chain FILE_HEADER_SIZE ps) _ []).
  - unfold chain_file. by rewrite app_nil_r, app_assoc.
  - by rewrite zlen_app, zlen_file_header_bytes, zlen_bench_chain.
  - by rewrite zlen_bench_descriptor by apply good_done.
Qed.

Lemma parse_bench n nxt size off :
  good_name n -> 0 <= nxt <= u64_max -> 0 <= size <= u64_max ->
  SectionDescriptor_parse (bench_descriptor n nxt size) off = Ok (bench_desc n off nxt size).
Proof.
  intros Hn Hx Hs. rewrite bench_descriptor_eq by apply Hn.
  rewrite <-(app_nil_r (descriptor_bytes _ _ _ _)).
  rewrite descriptor_parse_bytes by (done || lia || by apply good_name_valid).
  by rewrite good_name_lossy.
Qed.

(** Reading inside a body, with both of the calls that the handlers use. *)
Lemma bench_body_at l1 n b l2 off m :
  ps = l1 ++ (n, b) :: l2 -> 0 <= off -> 0 <= m -> off + m <= zlen b ->
  let pos := FILE_HEADER_SIZE + span l1 + 76 + off in
  slice chain_file pos (pos + m) = Some (ztake m (zdrop off b)) /\ 13 <= pos /\ pos + m <= i64_max.
Proof.
  intros Hps Ho Hm Hl pos. pose proof chain_fits as [Hfit _]. destruct (part_at l1 n b l2 Hps) as [_ Hb].
  assert (span ps = span l1 + (76 + zlen b + span l2)) as Hsp by (by rewrite Hps, span_app, span_cons).
  pose proof (span_nonneg l1). pose proof (span_nonneg l2). unfold pos. unfold FILE_HEADER_SIZE in *.
  split; [|lia]. pose proof (slice_slice _ _ _ off (off + m) _ Hb ltac:(lia) ltac:(lia)) as Hss.
  replace (13 + span l1 + 76 + (off + m)) with (13 + span l1 + 76 + off + m) in Hss by lia.
  rewrite <-Hss, slice_some by lia. do 2 f_equal. lia.
Qed.

Lemma bench_body_read l1 n b l2 off m :
  ps = l1 ++ (n, b) :: l2 -> 0 <= off -> 0 <= m -> off + m <= zlen b ->
  read_exact_at s (FILE_HEADER_SIZE + span l1 + 76 + off) m = Ok (ztake m (zdrop off b)).
Proof.
  intros Hps Ho Hm Hl. destruct (bench_body_at l1 n b l2 off m Hps Ho Hm Hl) as (Hs & Hp & Hmax).
  rewrite (read_exact_at_serves s _ _ m (Hs:=served_by)) by lia. rewrite (proj2 (Z.ltb_ge i64_max _)) by lia.
  destruct (m =? 0) eqn:E; bool_hyps; [subst m; by rewrite ztake_0|]. by rewrite Hs.
Qed.

Lemma bench_body_load l1 n b l2 off m :
  ps = l1 ++ (n, b) :: l2 -> 0 <= off -> 0 <= m -> off + m <= zlen b ->
  SegmentSource_read_at s m (FILE_HEADER_SIZE + span l1 + 76 + off) = Ok (ztake m (zdrop off b)).
Proof.
  intros Hps Ho Hm Hl. destruct (bench_body_at l1 n b l2 off m Hps Ho Hm Hl) as (Hs & Hp & Hmax).
  rewrite (serves_read (s:=s) (bs:=chain_file)) by lia. apply slice_spec in Hs as (_ & _ & ->). do 2 f_equal. lia.
Qed.

Lemma walk_chain l1 l2 fuel acc :
  ps = l1 ++ l2 -> (S (length l2) < fuel)%nat ->
  walk_descriptors fuel s (zlen chain_file) (FILE_HEADER_SIZE + span l1) acc
  = Ok (acc ++ bench_descs (FILE_HEADER_SIZE + span l1) l2
            ++ [bench_desc (str "done") (FILE_HEADER_SIZE + span ps) 0 76]).
Proof.
  pose proof chain_fits as [Hfit Hlen]. rewrite Hlen. pose proof (span_nonneg ps) as Hsf.
  revert l1 fuel acc. induction l2 as [|[n b] l2 IH]; intros l1 fuel acc Hf Hfuel;
    destruct fuel as [|fuel]; try lia; cbn [walk_descriptors]; unfold SECTION_DESCRIPTOR_SIZE.
  - rewrite app_nil_r in Hf. subst l1. pose proof done_at as Hd. cbv zeta in Hd. unfold FILE_HEADER_SIZE in *.
    unfold checked_add. rewrite (proj2 (Z.leb_le _ _)), (proj2 (Z.ltb_ge _ _)) by lia.
    rewrite (read_exact_at_serves s _ _ 76 (Hs:=served_by)) by lia.
    rewrite (proj2 (Z.ltb_ge i64_max _)) by lia. change (76 =? 0) with false. cbn iota.
    rewrite Hd. cbn [ok_or mbind outcome_bind].
    by rewrite parse_bench by (apply good_done || lia).
  - destruct (part_at l1 n b l2 Hf) as [Hd _]. pose proof (span_nonneg l1). pose proof (span_nonneg l2).
    assert (span ps = span l1 + (76 + zlen b + span l2)) as Hsp by (by rewrite Hf, span_app, span_cons).
    pose proof (zlen_nonneg b). assert (good_name n) as Hn.
    { unfold good_parts in names. rewrite Hf in names. apply Forall_app in names as [_ Hn2].
      by apply Forall_cons in Hn2 as [Hn _]. }
    unfold FILE_HEADER_SIZE in *. unfold checked_add. rewrite (proj2 (Z.leb_le _ _)), (proj2 (Z.ltb_ge _ _)) by lia.
    rewrite (read_exact_at_serves s _ _ 76 (Hs:=served_by)) by lia.
    rewrite (proj2 (Z.ltb_ge i64_max _)) by lia. change (76 =? 0) with false. cbn iota.
    rewrite Hd. cbn [ok_or mbind outcome_bind]. rewrite parse_bench by (done || lia).
    cbn [mbind outcome_bind bench_desc next].
    rewrite (proj2 (Z.leb_gt _ _)), (proj2 (Z.eqb_neq _ _)) by lia. cbn [orb].
    specialize (IH (l1 ++ [(n, b)]) fuel (acc ++ [bench_desc n (13 + span l1) (13 + span l1 + (76 + zlen b)) (76 + zlen b)])).
    rewrite span_app in IH. change (span [(n, b)]) with (76 + zlen b + 0) in IH.
    replace (13 + (span l1 + (76 + zlen b + 0))) with (13 + span l1 + (76 + zlen b)) in IH by lia.
    rewrite IH; [|by rewrite <-app_assoc|cbn in Hfuel; lia]. cbn [bench_descs]. by rewrite <-!app_assoc.
Qed.

Lemma chain_descriptors :
  segment_descriptors s = Ok (bench_descs FILE_HEADER_SIZE ps
                              ++ [bench_desc (str "done") (FILE_HEADER_SIZE + span ps) 0 76]).
Proof.
  pose proof chain_fits as [Hfit Hlen]. pose proof (length_le_span ps) as Hsp. pose proof (zlen_nonneg ps).
  unfold FILE_HEADER_SIZE in Hlen, Hfit.
  unfold segment_descriptors, SegmentCursor_seek, segment_len, SegmentCursor_new. cbn [cursor_src].
  rewrite (serves_len (s:=s) (bs:=chain_file)).
  unfold as_i64. rewrite (proj2 (Z.leb_le _ _)) by lia.
  unfold add_i64. rewrite plain_ok by lia. rewrite Z.add_0_r. cbn [mbind outcome_bind].
  rewrite (proj2 (Z.ltb_ge _ _)) by lia. cbn [from_io mbind outcome_bind].
  rewrite <-(Z.add_0_r FILE_HEADER_SIZE) at 1. change 0 with (span []) at 1.
  rewrite (walk_chain [] ps); [|done|unfold zlen in *; lia]. change (span []) with 0. by rewrite Z.add_0_r.
Qed.
End Chain.

Lemma find_bench name pos l1 b l2 rest :
  Forall (fun p : part => text_eqb p.1 name = false) l1 -> text_eqb name name = true ->
  List.find (is_type name) (bench_descs pos (l1 ++ (name, b) :: l2) ++ rest)
  = Some (bench_desc name (pos + span l1) (pos + span l1 + (76 + zlen b)) (76 + zlen b)).
Proof.
  intros Hl1 Hn. revert pos. induction Hl1 as [|[n' b'] l1 Hn' _ IH]; intros pos;
    cbn [app bench_descs List.find]; unfold is_type at 1; cbn [section_type bench_desc].
  - rewrite Hn. by rewrite Z.add_0_r.
  - cbn [fst] in Hn'. rewrite Hn', IH, span_cons. f_equal. f_equal; lia.
Qed.

(** * The entries of a table section *)

Section Entries.
Context `{SafeReadLaws}.

Lemma bench_entry_address k n base :
  0 <= k < n -> 0 <= base <= u64_max -> entry_address (bench_entries n) base k = Some (true, base).
Proof.
  intros Hk Hb. unfold entry_address.
  assert (slice (bench_entries n) (k * 4) ((k + 1) * 4) = Some (le_bytes 4 2147483648)) as ->.
  { apply (slice_at (bench_entries k) _ (bench_entries (n - k - 1))).
    - unfold bench_entries. replace (Z.to_nat n) with (Z.to_nat k + S (Z.to_nat (n - k - 1)))%nat by lia.
      rewrite replicate_add, concat_app. done.
    - rewrite zlen_bench_entries by lia. lia.
    - rewrite zlen_le_bytes. lia. }
  cbn [mbind option_bind]. unfold TableEntry_parse. rewrite zlen_le_bytes. change (Z.of_nat 4 <? 4) with false. cbn iota.
  rewrite (le_u32_field (le_bytes 4 2147483648) [] [] 0 2147483648) by (done || lia). cbn [chunk_offset compressed].
  change (Z.land 2147483648 2147483647) with 0. unfold checked_add. rewrite (proj2 (Z.leb_le _ _)) by lia. done.
Qed.

Lemma bench_entry_addresses n base :
  0 <= n -> 0 <= base <= u64_max ->
  entry_addresses (bench_entries n) base (Z.to_nat n) = replicate (Z.to_nat n) (true, base).
Proof.
  intros Hn Hb. unfold entry_addresses. rewrite Z2Nat.id by done.
  assert (forall i m, 0 <= i -> i + Z.of_nat m <= n ->
    omap (entry_address (bench_entries n) base) (seqZ i (Z.of_nat m)) = replicate m (true, base)) as Hgen.
  { intros i m. revert i. induction m as [|m IH]; intros i Hi Him; [done|].
    rewrite seqZ_cons by lia. cbn [omap list_omap]. rewrite bench_entry_address by lia. cbn [replicate].
    f_equal. replace (Z.pred (Z.of_nat (S m))) with (Z.of_nat m) by lia. apply IH; lia. }
  rewrite <-(Z2Nat.id n Hn) at 2. apply Hgen; lia.
Qed.

(** A record of the shared blob: a whole chunk, or for the last of a section the
    blob itself. *)
Definition blob_record (base len : Z) (c : Chunk) : Prop :=
  c = Chunk_new 0 true base CHUNK_SIZE \/ c = Chunk_new 0 true base len.

Lemma spec_blob_records base len k :
  0 <= base < 2 ^ 63 -> 0 < len <= CHUNK_SIZE ->
  Forall (blob_record base len) (spec_chunks 0 CHUNK_SIZE (Some (base + len)) (replicate k (true, base))).
Proof.
  intros Hb Hl. induction k as [|k IH]; [constructor|].
  cbn [replicate spec_chunks]. constructor; [|exact IH]. destruct k as [|k]; cbn [replicate].
  - rewrite Z.mod_small by lia. change (wrap32 CHUNK_SIZE =? CHUNK_SIZE) with true. cbn [andb].
    replace (base + len - base) with len by lia. rewrite (proj2 (Z.ltb_lt 0 _)) by lia.
    destruct (len <? CHUNK_SIZE); [by right|by left].
  - rewrite Z.ltb_irrefl. by left.
Qed.

Lemma parse_blob_section n base len :
  0 <= n -> 0 <= base -> base + len <= i64_max -> 0 < len <= CHUNK_SIZE ->
  exists cs, parse_table_section (bench_entries n) n base 0 CHUNK_SIZE (Some (base + len)) = Ok cs /\
    zlen cs = n /\ Forall (blob_record base len) cs.
Proof.
  intros Hn Hb Hfit Hl. rewrite parse_table_section_eq by done.
  replace (Z.min n (zlen (bench_entries n) / 4)) with n by (rewrite zlen_bench_entries by done; Z.to_euclidean_division_equations; lia).
  rewrite bench_entry_addresses by lia. eexists. split; [done|]. split; [|apply spec_blob_records; lia].
  unfold zlen. rewrite length_spec_chunks, length_replicate. lia.
Qed.
End Entries.

(** * Opening the image *)

Section Open.
Context `{SafeReadLaws} `{Zlib} `{Profile} `{Lru Z (list Chunk)} `{Lru Z (list byte)}.
Variable zlib_encode : list byte -> list byte.
Variables (total : Z) (sizes : list Z) (s : SegmentSource).

Definition sum_sizes (l : list Z) : Z := foldr Z.add 0 l.

Abbreviation len := (zlen (blob zlib_encode)).
Definition bench_base : Z := 259 + tables_bytes sizes.
Definition bench_parts : list part :=
  (str "volume", bench_volume total (64 * total)) :: map (table_part bench_base) sizes
  ++ [(str "sectors", blob zlib_encode)].

Hypothesis sizes_ok : Forall (fun n => 0 < n <= MAX_TABLE_ENTRIES) sizes.
Hypothesis sizes_sum : sum_sizes sizes = total.
Hypothesis total_ok : 0 < total <= u32_max.
Hypothesis blob_ok : 0 < len <= CHUNK_SIZE.

Lemma sizes_nonneg : Forall (Z.le 0) sizes.
Proof. eapply Forall_impl; [exact sizes_ok|]. cbn. lia. Qed.

Lemma zlen_bench_volume a b : zlen (bench_volume a b) = 94.
Proof. rewrite bench_volume_eq, zlen_ztake, !zlen_app, !zlen_le_bytes, zlen_zeros. lia. Qed.

Lemma bench_parts_good : good_parts bench_parts.
Proof.
  unfold good_parts, bench_parts. apply Forall_cons; split; [apply good_volume|]. apply Forall_app. split.
  - apply List.Forall_map, Forall_true. intros n. apply good_table.
  - apply Forall_cons; split; [apply good_sectors|apply Forall_nil_2].
Qed.

Lemma bench_span : span bench_parts = 170 + tables_bytes sizes + 76 + len.
Proof.
  unfold bench_parts. rewrite span_cons, span_app, span_table_parts, zlen_bench_volume by apply sizes_nonneg.
  change (span [(str "sectors", blob zlib_encode)]) with (76 + len + 0). lia.
Qed.

Lemma bench_file_chain : bench_file zlib_encode total (64 * total) sizes = chain_file bench_parts.
Proof.
  unfold bench_file, chain_file, bench_parts, file_header_bytes. cbn [bench_chain]. unfold bench_section at 1.
  rewrite zlen_bench_volume, bench_chain_app, span_table_parts by apply sizes_nonneg.
  unfold FILE_HEADER_SIZE, SECTION_DESCRIPTOR_SIZE.
  change (13 + 76 + 94) with 183. change (13 + (76 + 94)) with 183. change (76 + 94) with 170.
  rewrite emit_tables_chain by apply sizes_nonneg.
  replace (183 + tables_bytes sizes + 76) with bench_base by (unfold bench_base; lia).
  cbn [bench_chain]. unfold bench_section. rewrite app_nil_r, <-!app_assoc.
  by replace (183 + tables_bytes sizes + (76 + len)) with (bench_base + len) by (unfold bench_base; lia).
Qed.

Hypothesis served_by : serves s (bench_file zlib_encode total (64 * total) sizes).

Lemma chain_served : serves s (chain_file bench_parts).
Proof. rewrite <-bench_file_chain. exact served_by. Qed.

Lemma bench_fits : bench_base + len + 76 <= i64_max /\ 259 <= bench_base.
Proof.
  destruct (chain_fits s bench_parts bench_parts_good chain_served) as [Hfit _]. rewrite bench_span in Hfit.
  unfold FILE_HEADER_SIZE, bench_base in *. split; [lia|].
  rewrite <-(span_table_parts 0) by apply sizes_nonneg. pose proof (span_nonneg (map (table_part 0) sizes)). lia.
Qed.

Definition bench_ctx : segment_ctx :=
  make_segment_ctx s 0 (bench_descs FILE_HEADER_SIZE bench_parts
                        ++ [bench_desc (str "done") (FILE_HEADER_SIZE + span bench_parts) 0 76]).

Lemma sizes_nonempty : exists n l, sizes = n :: l.
Proof.
  destruct sizes as [|n l] eqn:E; [|by exists n, l]. clear -sizes_sum total_ok. cbn in sizes_sum. lia.
Qed.

Lemma bench_ctx_fields :
  sc_table_type bench_ctx = str "table" /\ sc_sectors_end bench_ctx = Some (bench_base + len).
Proof.
  unfold bench_ctx, make_segment_ctx. cbn [sc_table_type sc_sectors_end]. split.
  - destruct sizes_nonempty as (n & l & Hs). unfold bench_parts. rewrite Hs. cbn [map]. unfold table_part at 1.
    cbn [bench_descs app existsb]. unfold is_type at 2. cbn [section_type bench_desc].
    by rewrite (eq_refl : text_eqb (str "table") (str "table") = true), orb_true_r.
  - unfold bench_parts. change ((str "volume", ?v) :: ?l ++ [?x]) with (((str "volume", v) :: l) ++ [x]).
    rewrite find_bench; [| |done].
    2: { apply Forall_cons; split; [done|]. apply List.Forall_map, Forall_true. by intros n. }
    cbn [mbind option_bind bench_desc offset Sections.section_size]. f_equal.
    rewrite span_cons, zlen_bench_volume, span_table_parts by apply sizes_nonneg.
    destruct bench_fits as [Hfit Hb]. unfold sat_add, FILE_HEADER_SIZE, bench_base in *. lia.
Qed.

Lemma bench_body l1 n b l2 off m :
  bench_parts = l1 ++ (n, b) :: l2 -> 0 <= off -> 0 <= m -> off + m <= zlen b ->
  read_exact_at s (FILE_HEADER_SIZE + span l1 + 76 + off) m = Ok (ztake m (zdrop off b)).
Proof. apply (bench_body_read s bench_parts bench_parts_good chain_served). Qed.

Lemma bench_section_data l1 n b l2 nxt size :
  bench_parts = l1 ++ (n, b) :: l2 ->
  section_data (bench_desc n (FILE_HEADER_SIZE + span l1) nxt size) = Ok (FILE_HEADER_SIZE + span l1 + 76).
Proof.
  intros Hf. destruct (chain_fits s bench_parts bench_parts_good chain_served) as [Hfit _].
  assert (span bench_parts = span l1 + (76 + zlen b + span l2)) as Hsp by (by rewrite Hf, span_app, span_cons).
  pose proof (span_nonneg l1). pose proof (span_nonneg l2). pose proof (zlen_nonneg b).
  unfold section_data, FILE_HEADER_SIZE, SECTION_DESCRIPTOR_SIZE in *. cbn [bench_desc offset]. apply add64_ok. lia.
Qed.

Lemma open_bench_volume nxt size o :
  open_volume bench_ctx (bench_desc (str "volume") FILE_HEADER_SIZE nxt size) o
  = Ok (set_geometry CHUNK_SIZE (CHUNK_SIZE * total) o).
Proof.
  unfold open_volume. assert (bench_parts = [] ++ (str "volume", bench_volume total (64 * total))
    :: map (table_part bench_base) sizes ++ [(str "sectors", blob zlib_encode)]) as Hf by done.
  pose proof (bench_section_data _ _ _ _ nxt size Hf) as Hd. change (span []) with 0 in Hd.
  rewrite Z.add_0_r in Hd. rewrite Hd. cbn [mbind outcome_bind bench_ctx sc_source make_segment_ctx].
  pose proof (bench_body _ _ _ _ 0 94 Hf ltac:(lia) ltac:(lia) ltac:(rewrite zlen_bench_volume; lia)) as Hr.
  change (span []) with 0 in Hr. rewrite !Z.add_0_r in Hr. rewrite Hr. cbn [mbind outcome_bind].
  rewrite zdrop_0, ztake_all by (rewrite zlen_bench_volume; lia).
  rewrite bench_volume_full. unfold wrap32. rewrite (Z.mod_small total) by lia.
  destruct (full_volume_read total 64 512 (64 * total) 94) as (v & -> & Hv1 & Hv2 & Hv3 & Hv4 & _); [lia..|].
  cbn [mbind outcome_bind]. unfold EwfVolume_chunk_size, EwfVolume_total_size, sat_mul.
  rewrite Hv1, Hv2, Hv3, Hv4, (mul64_ok 64 512) by lia.
  cbn [mbind outcome_bind]. change (64 * 512) with CHUNK_SIZE. change (MAX_CHUNK_SIZE <? CHUNK_SIZE) with false.
  replace (512 * (64 * total)) with (CHUNK_SIZE * total) by (unfold CHUNK_SIZE; lia).
  rewrite Z.min_r by (unfold CHUNK_SIZE; lia).
  by rewrite (proj2 (Z.eqb_neq (CHUNK_SIZE * total) 0)) by (unfold CHUNK_SIZE; lia).
Qed.

(** The handlers of a table section: what they read. *)
Lemma bench_header_read n :
  0 < n <= MAX_TABLE_ENTRIES -> exists hdr, zlen hdr = 24 /\ bench_table_header n bench_base = hdr /\
    (exists c, slice hdr 0 4 = Some c /\ le_combine c = n) /\
    (exists b, slice hdr 8 16 = Some b /\ le_combine b = bench_base).
Proof.
  intros Hn. destruct bench_fits as [Hfit Hb]. unfold MAX_TABLE_ENTRIES in Hn. exists (bench_table_header n bench_base).
  rewrite bench_table_header_eq. unfold wrap32. rewrite Z.mod_small by lia.
  split; [by rewrite !zlen_app, !zlen_le_bytes, !zlen_zeros|]. split; [done|]. split.
  - exists (le_bytes 4 n). split; [by apply (slice_at [] _ (zeros 4 ++ le_bytes 8 bench_base ++ zeros 8))|].
    rewrite le_combine_le_bytes. apply Z.mod_small. change (256 ^ Z.of_nat 4) with 4294967296. lia.
  - exists (le_bytes 8 bench_base).
    split; [apply (slice_at (le_bytes 4 n ++ zeros 4) _ (zeros 8)); [by rewrite <-!app_assoc|done|done]|].
    rewrite le_combine_le_bytes. apply Z.mod_small. change (256 ^ Z.of_nat 8) with 18446744073709551616. lia.
Qed.

Lemma open_bench_table l1 n l2 nxt size o :
  bench_parts = l1 ++ table_part bench_base n :: l2 -> 0 < n <= MAX_TABLE_ENTRIES ->
  o_chunk_size o = CHUNK_SIZE ->
  exists cs, open_table_eager bench_ctx (bench_desc (str "table") (FILE_HEADER_SIZE + span l1) nxt size) o
             = Ok (set_chunks (o_chunks o ++ cs) o) /\
    zlen cs = n /\ Forall (blob_record bench_base len) cs.
Proof.
  intros Hf Hn Ho. destruct bench_fits as [Hfit Hb]. destruct bench_ctx_fields as [_ Hend].
  destruct (bench_header_read n Hn) as (hdr & Hh & Ehdr & (c & Hc & Ec) & (b & Hbase & Eb)).
  unfold MAX_TABLE_ENTRIES in Hn. pose proof (zlen_table_part bench_base n ltac:(lia)) as Hz.
  destruct (parse_blob_section n bench_base len) as (cs & Hparse & Hcs); [lia|lia|lia|done|].
  unfold table_part in Hf, Hz. cbn [snd] in Hz. exists cs. split; [|done].
  pose proof (span_nonneg l1) as Hs1.
  assert (FILE_HEADER_SIZE + span l1 + 76 + 24 <= i64_max) as Hroom.
  { destruct (chain_fits s bench_parts bench_parts_good chain_served) as [Hall _].
    rewrite Hf, span_app, span_cons in Hall. pose proof (span_nonneg l2). lia. }
  unfold FILE_HEADER_SIZE in Hroom.
  unfold open_table_eager. rewrite (bench_section_data _ _ _ _ nxt size Hf). cbn [mbind outcome_bind].
  change (sc_source bench_ctx) with s. change (sc_seg_idx bench_ctx) with 0. rewrite Hend, Ho.
  pose proof (bench_body _ _ _ _ 0 24 Hf ltac:(lia) ltac:(lia) ltac:(lia)) as Hr. rewrite Z.add_0_r, zdrop_0 in Hr.
  pose proof (bench_body _ _ _ _ 24 (n * 4) Hf ltac:(lia) ltac:(lia) ltac:(lia)) as Hr2.
  rewrite Ehdr in *. rewrite ztake_app_len in Hr by done. rewrite zdrop_app_len in Hr2 by done.
  rewrite ztake_all in Hr2 by (rewrite zlen_bench_entries; lia).
  rewrite Hr. cbn [mbind outcome_bind].
  rewrite (le_u32_in hdr 0 _ Hc), (le_u64_in hdr 8 _ Hbase), Ec, Eb.
  unfold MAX_TABLE_ENTRIES. rewrite (proj2 (Z.ltb_ge 4000000 n)) by lia.
  rewrite add64_ok by (unfold FILE_HEADER_SIZE; lia). cbn [mbind outcome_bind].
  rewrite mul64_ok by lia. cbn [mbind outcome_bind]. rewrite Hr2. cbn [mbind outcome_bind].
  by rewrite Hparse.
Qed.

Lemma open_bench_table_lazy l1 n l2 nxt size o :
  bench_parts = l1 ++ table_part bench_base n :: l2 -> 0 < n <= MAX_TABLE_ENTRIES ->
  0 <= o_next_chunk_id o -> o_next_chunk_id o + n <= u64_max ->
  exists m, open_table_lazy bench_ctx (bench_desc (str "table") (FILE_HEADER_SIZE + span l1) nxt size) o
            = Ok (set_index (o_index o ++ [m]) (o_next_chunk_id o + n) o) /\ meta_entry_count m = n.
Proof.
  intros Hf Hn Ho Hmax. destruct bench_ctx_fields as [_ Hend].
  destruct (bench_header_read n Hn) as (hdr & Hh & Ehdr & (c & Hc & Ec) & (b & Hbase & Eb)).
  unfold MAX_TABLE_ENTRIES in Hn. pose proof (zlen_table_part bench_base n ltac:(lia)) as Hz.
  unfold table_part in Hf, Hz. cbn [snd] in Hz. pose proof (span_nonneg l1) as Hs1.
  assert (FILE_HEADER_SIZE + span l1 + 76 + 24 <= i64_max) as Hroom.
  { destruct (chain_fits s bench_parts bench_parts_good chain_served) as [Hall _].
    rewrite Hf, span_app, span_cons in Hall. pose proof (span_nonneg l2). lia. }
  unfold FILE_HEADER_SIZE in Hroom.
  pose proof (bench_body_load s bench_parts bench_parts_good chain_served _ _ _ _ 0 24 Hf ltac:(lia) ltac:(lia) ltac:(lia)) as Hr.
  rewrite Z.add_0_r, zdrop_0, Ehdr, ztake_app_len in Hr by done.
  unfold open_table_lazy, read_header, SECTION_DESCRIPTOR_SIZE, FILE_HEADER_SIZE in *.
  cbn [ref_desc_offset ref_sectors_data_end bench_desc offset].
  rewrite (add64_ok (13 + span l1)) by lia. cbn [mbind outcome_bind].
  change (sc_source bench_ctx) with s. rewrite Hr. cbn [from_io mbind outcome_bind].
  rewrite (proj2 (Z.ltb_ge (zlen hdr) 24)) by lia. unfold index_range. rewrite Hc, Hbase.
  cbn [or_panic mbind outcome_bind]. rewrite Ec. unfold MAX_TABLE_ENTRIES.
  rewrite (proj2 (Z.ltb_ge 4000000 n)) by lia. rewrite add64_ok by lia. cbn [mbind outcome_bind meta_entry_count].
  rewrite add64_ok by lia. cbn [mbind outcome_bind]. by eexists.
Qed.

(** The sections of the file in order, in both modes. *)
Lemma open_section_table lazy_ pos nxt size o :
  open_section lazy_ bench_ctx (bench_desc (str "table") pos nxt size) o
  = (if lazy_ then open_table_lazy else open_table_eager) bench_ctx (bench_desc (str "table") pos nxt size) o.
Proof.
  unfold open_section. cbn [section_type bench_desc]. rewrite (proj1 bench_ctx_fields).
  by destruct lazy_.
Qed.

Lemma open_section_volume lazy_ pos nxt size o :
  open_section lazy_ bench_ctx (bench_desc (str "volume") pos nxt size) o
  = open_volume bench_ctx (bench_desc (str "volume") pos nxt size) o.
Proof. done. Qed.

Lemma open_section_skipped lazy_ name pos nxt size o :
  name = str "sectors" \/ name = str "done" ->
  open_section lazy_ bench_ctx (bench_desc name pos nxt size) o = Ok o.
Proof.
  intros Hn. unfold open_section. cbn [section_type bench_desc]. rewrite (proj1 bench_ctx_fields).
  by destruct Hn as [-> | ->].
Qed.

Lemma sum_sizes_nonneg ns : Forall (fun n => 0 < n <= MAX_TABLE_ENTRIES) ns -> 0 <= sum_sizes ns.
Proof. unfold sum_sizes. induction 1; cbn [foldr]; lia. Qed.

Lemma fold_tables_eager l2 ns : forall l1 o,
  bench_parts = l1 ++ map (table_part bench_base) ns ++ l2 -> Forall (fun n => 0 < n <= MAX_TABLE_ENTRIES) ns ->
  o_chunk_size o = CHUNK_SIZE ->
  exists cs, fold_res (open_section false bench_ctx)
               (bench_descs (FILE_HEADER_SIZE + span l1) (map (table_part bench_base) ns)) o
             = Ok (set_chunks (o_chunks o ++ cs) o) /\
    zlen cs = sum_sizes ns /\ Forall (blob_record bench_base len) cs.
Proof.
  induction ns as [|n ns IH]; intros l1 o Hf Hns Ho.
  { exists []. rewrite app_nil_r. by destruct o. }
  apply Forall_cons in Hns as [Hn Hns]. cbn [map app] in Hf.
  destruct (open_bench_table l1 n (map (table_part bench_base) ns ++ l2)
    (FILE_HEADER_SIZE + span l1 + (76 + zlen (table_part bench_base n).2)) (76 + zlen (table_part bench_base n).2) o Hf Hn Ho)
    as (cs & Hrun & Hz & Hcs).
  destruct (IH (l1 ++ [table_part bench_base n]) (set_chunks (o_chunks o ++ cs) o)) as (cs' & Hrun' & Hz' & Hcs');
    [by rewrite <-app_assoc|done|done|].
  exists (cs ++ cs'). split; [|split; [by rewrite zlen_app, Hz, Hz'|by apply Forall_app]].
  cbn [map bench_descs fold_res]. unfold table_part at 1. cbn [bench_descs fold_res].
  rewrite open_section_table. cbn [snd table_part] in Hrun. rewrite Hrun. cbn [mbind outcome_bind].
  rewrite span_app in Hrun'. unfold table_part at 1 in Hrun'. rewrite span_cons in Hrun'. change (span []) with 0 in Hrun'.
  rewrite Z.add_0_r, Z.add_assoc in Hrun'. rewrite Hrun'. cbn [o_chunks set_chunks]. by rewrite app_assoc.
Qed.

Lemma fold_tables_lazy l2 ns : forall l1 o,
  bench_parts = l1 ++ map (table_part bench_base) ns ++ l2 -> Forall (fun n => 0 < n <= MAX_TABLE_ENTRIES) ns ->
  0 <= o_next_chunk_id o -> o_next_chunk_id o + sum_sizes ns <= u64_max ->
  exists ms, fold_res (open_section true bench_ctx)
               (bench_descs (FILE_HEADER_SIZE + span l1) (map (table_part bench_base) ns)) o
             = Ok (set_index (o_index o ++ ms) (o_next_chunk_id o + sum_sizes ns) o) /\
    map meta_entry_count ms = ns.
Proof.
  induction ns as [|n ns IH]; intros l1 o Hf Hns Ho Hmax.
  { exists []. rewrite app_nil_r. cbn [sum_sizes foldr]. rewrite Z.add_0_r. by destruct o. }
  apply Forall_cons in Hns as [Hn Hns]. cbn [map app] in Hf. change (sum_sizes (n :: ns)) with (n + sum_sizes ns) in *.
  pose proof (sum_sizes_nonneg ns Hns) as Hnn.
  destruct (open_bench_table_lazy l1 n (map (table_part bench_base) ns ++ l2)
    (FILE_HEADER_SIZE + span l1 + (76 + zlen (table_part bench_base n).2)) (76 + zlen (table_part bench_base n).2) o Hf Hn Ho)
    as (m & Hrun & Hm); [lia|].
  destruct (IH (l1 ++ [table_part bench_base n]) (set_index (o_index o ++ [m]) (o_next_chunk_id o + n) o)) as (ms & Hrun' & Hz');
    [by rewrite <-app_assoc|done|cbn; lia|cbn; lia|].
  exists (m :: ms). split; [|cbn [map]; by rewrite Hm, Hz'].
  cbn [map bench_descs fold_res]. unfold table_part at 1. cbn [bench_descs fold_res].
  rewrite open_section_table. cbn [snd table_part] in Hrun. rewrite Hrun. cbn [mbind outcome_bind].
  rewrite span_app in Hrun'. unfold table_part at 1 in Hrun'. rewrite span_cons in Hrun'. change (span []) with 0 in Hrun'.
  rewrite Z.add_0_r, Z.add_assoc in Hrun'. rewrite Hrun'. cbn [o_index o_next_chunk_id set_index].
  by rewrite <-app_assoc, <-Z.add_assoc.
Qed.

Definition bench_opened : open_state := set_geometry CHUNK_SIZE (CHUNK_SIZE * total) open_start.

(** The descriptors of the whole file. *)
Definition bench_all : list SectionDescriptor :=
  bench_descs FILE_HEADER_SIZE bench_parts ++ [bench_desc (str "done") (FILE_HEADER_SIZE + span bench_parts) 0 76].

Lemma fold_bench lazy_ (o : open_state) :
  (let tables := bench_descs (FILE_HEADER_SIZE + 170) (map (table_part bench_base) sizes) in
   fold_res (open_section lazy_ bench_ctx) tables bench_opened = Ok o) ->
  fold_res (open_section lazy_ bench_ctx) bench_all open_start = Ok o.
Proof.
  cbv zeta. intros Ht. unfold bench_all, bench_parts. cbn [bench_descs app fold_res].
  rewrite open_section_volume, open_bench_volume. cbn [mbind outcome_bind]. rewrite zlen_bench_volume.
  rewrite bench_descs_app, <-app_assoc, fold_res_app. change (76 + 94) with 170. unfold bench_opened in Ht. rewrite Ht.
  cbn [mbind outcome_bind bench_descs app fold_res]. rewrite open_section_skipped by by left. cbn [mbind outcome_bind].
  rewrite open_section_skipped by by right. done.
Qed.

Lemma fold_bench_eager : exists cs,
  fold_res (open_section false bench_ctx) bench_all open_start = Ok (set_chunks cs bench_opened) /\
  zlen cs = total /\ Forall (blob_record bench_base len) cs.
Proof.
  destruct (fold_tables_eager [(str "sectors", blob zlib_encode)] sizes
    [(str "volume", bench_volume total (64 * total))] bench_opened eq_refl sizes_ok eq_refl) as (cs & Hrun & Hz & Hcs).
  rewrite span_cons, zlen_bench_volume in Hrun. change (76 + 94 + span []) with 170 in Hrun.
  exists cs. split; [by apply fold_bench|]. by rewrite Hz.
Qed.

Lemma fold_bench_lazy : exists ms,
  fold_res (open_section true bench_ctx) bench_all open_start = Ok (set_index ms total bench_opened) /\
  map meta_entry_count ms = sizes.
Proof.
  destruct (fold_tables_lazy [(str "sectors", blob zlib_encode)] sizes
    [(str "volume", bench_volume total (64 * total))] bench_opened eq_refl sizes_ok) as (ms & Hrun & Hz).
  { done. } { cbn [bench_opened o_next_chunk_id set_geometry open_start]. rewrite sizes_sum. lia. }
  rewrite span_cons, zlen_bench_volume in Hrun. change (76 + 94 + span []) with 170 in Hrun.
  exists ms. split; [|done]. apply fold_bench. cbv zeta. rewrite Hrun, sizes_sum. done.
Qed.

(** ** The two opens *)
Lemma bench_header :
  read_file_header s = Ok {| segment_number := 1; kind := Physical |} /\
  SegmentSource_read_at s 8 0 = Ok EVF_SIGNATURE.
Proof.
  pose proof chain_served as Hs. unfold chain_file in Hs. set (rest := bench_chain _ _ ++ _) in Hs.
  unfold read_file_header, FILE_HEADER_SIZE. rewrite !(serves_read (s:=s)) by lia. rewrite zdrop_0.
  cbn [from_io mbind outcome_bind]. rewrite (ztake_app_len 13) by done. rewrite (ztake_app_le 8) by done.
  split; [|done]. unfold zero_filled. rewrite file_header_parse_bytes by lia. done.
Qed.

Lemma bench_segment : segment_descriptors s = Ok bench_all /\ make_segment_ctx s 0 bench_all = bench_ctx.
Proof. split; [|done]. apply (chain_descriptors s bench_parts bench_parts_good chain_served). Qed.

Lemma reorder_one : validate_and_reorder_segments [s] [1] = Ok [s].
Proof. done. Qed.

Lemma open_bench_eager cache_size :
  exists r cs, open_v1 [s] cache_size None = Ok r /\ r_segments r = [s] /\ r_chunks r = Eager cs /\
    zlen cs = total /\ Forall (blob_record bench_base len) cs /\
    r_chunk_size r = CHUNK_SIZE /\ r_total_size r = CHUNK_SIZE * total /\
    (r_stored_md5 r, r_stored_sha1 r) = (None, None).
Proof.
  destruct bench_header as [Hh Hsig]. destruct bench_segment as [Hseg Hctx].
  destruct fold_bench_eager as (cs & Hrun & Hz & Hcs).
  unfold open_v1. rewrite Hsig. cbn [from_io mbind outcome_bind].
  change (is_ewf2_signature (zero_filled 8 EVF_SIGNATURE)) with false. cbn iota.
  cbn [mapM]. rewrite Hh. cbn [mbind outcome_bind mret outcome_ret map segment_number].
  rewrite reorder_one. cbn [mbind outcome_bind is_none negb enumerate enumerate_from fold_res open_segment].
  rewrite Hseg. cbn [mbind outcome_bind]. rewrite Hctx, Hrun. cbn [mbind outcome_bind o_chunk_size set_chunks bench_opened set_geometry].
  change (CHUNK_SIZE =? 0) with false. cbn iota. eexists _, cs. split; [reflexivity|]. cbn.
  by rewrite (proj2 (Z.eqb_neq (CHUNK_SIZE * total) 0)) by (unfold CHUNK_SIZE; lia).
Qed.

(** ** Small enough for the counts *)
Lemma tables_small ns :
  Forall (fun n => 0 < n <= MAX_TABLE_ENTRIES) ns -> tables_bytes ns <= 104 * sum_sizes ns /\ zlen ns <= sum_sizes ns.
Proof.
  induction 1 as [|n ns Hn _ IH]; [done|]. rewrite tables_bytes_cons, zlen_cons.
  change (sum_sizes (n :: ns)) with (n + sum_sizes ns). lia.
Qed.

Lemma bench_small : SegmentSource_len s <= 500000000000 /\ served s.
Proof.
  split; [|by eexists]. rewrite (serves_len (s:=s) (bs:=chain_file bench_parts) (serves:=chain_served)).
  destruct (chain_fits s bench_parts bench_parts_good chain_served) as [_ ->]. rewrite bench_span.
  destruct (tables_small sizes sizes_ok) as [Ht _]. rewrite sizes_sum in Ht. unfold FILE_HEADER_SIZE, CHUNK_SIZE in *. lia.
Qed.

Lemma bench_total_len : Forall served [s] /\ MAX_TABLE_ENTRIES * total_len [s] <= u64_max.
Proof.
  destruct bench_small as [Hl Hs]. split; [by apply Forall_cons; split; [|apply Forall_nil_2]|].
  unfold total_len. cbn. unfold MAX_TABLE_ENTRIES. lia.
Qed.

(** The index that the lazy open keeps: an entry per section, with its count. *)
Lemma open_bench_lazy cache_size cap r' :
  open_v1 [s] cache_size (Some cap) = Ok r' ->
  exists ms t, LazyChunkTable_new ms CHUNK_SIZE cap = Ok t /\ r_chunks r' = Lazy t /\ map meta_entry_count ms = sizes /\
    lazy_len t = total /\ lazy_index t = ms.
Proof.
  destruct bench_header as [Hh Hsig]. destruct bench_segment as [Hseg Hctx].
  destruct fold_bench_lazy as (ms & Hrun & Hms). destruct bench_small as [Hl Hs].
  assert (open_wf (0 + SegmentSource_len s) (set_index ms total bench_opened)) as [_ _ _ _ [Hi He]].
  { apply (returns_Ok _ (open_segment true (0, s) open_start));
      [apply open_segment_returns; [done|by constructor|unfold MAX_TABLE_ENTRIES; lia]|].
    unfold open_segment. rewrite Hseg. cbn [mbind outcome_bind]. by rewrite Hctx. }
  cbn [o_index set_index o_next_chunk_id] in Hi, He.
  unfold open_v1. rewrite Hsig. cbn [from_io mbind outcome_bind].
  change (is_ewf2_signature (zero_filled 8 EVF_SIGNATURE)) with false. cbn iota.
  cbn [mapM]. rewrite Hh. cbn [mbind outcome_bind mret outcome_ret map segment_number].
  rewrite reorder_one. cbn [mbind outcome_bind is_none negb enumerate enumerate_from fold_res open_segment].
  rewrite Hseg. cbn [mbind outcome_bind]. rewrite Hctx, Hrun.
  cbn [mbind outcome_bind o_chunk_size set_index bench_opened set_geometry o_index].
  change (CHUNK_SIZE =? 0) with false. cbn iota.
  destruct (lazy_new_ok ms CHUNK_SIZE cap total Hi He) as (t & Et & Hlen); [lia|]. rewrite Et. cbn [mbind outcome_bind].
  intros <-%Ok_inj. exists ms, t. split_and!; [done..|].
  revert Et. unfold LazyChunkTable_new. match goal with |- (?n ≫= _) = _ -> _ => destruct n; [|done|done] end.
  by intros <-%Ok_inj.
Qed.

(** ** No volume behind a table *)
Lemma order_tables base ns rest : forall pos seen,
  exists seen', order_sections (str "table") seen (bench_descs pos (map (table_part base) ns) ++ rest)
                = order_sections (str "table") seen' rest.
Proof.
  induction ns as [|n ns IH]; intros pos seen; [by exists seen|]. cbn [map]. unfold table_part at 1.
  cbn [bench_descs app order_sections]. change (order_step (str "table") seen (bench_desc (str "table") ?p ?q ?z)) with (Some true).
  cbn [mbind option_bind]. apply IH.
Qed.

Lemma bench_ordered : volume_first [s] = true.
Proof.
  destruct bench_segment as [Hseg Hctx]. unfold volume_first. cbn [order_segments]. rewrite Hseg, Hctx, (proj1 bench_ctx_fields).
  unfold bench_all, bench_parts. cbn [bench_descs app order_sections].
  change (order_step (str "table") false (bench_desc (str "volume") ?p ?q ?z)) with (Some false). cbn [mbind option_bind].
  rewrite bench_descs_app, <-app_assoc. edestruct order_tables as [seen ->]. done.
Qed.

(** ** Decoding *)
Hypothesis inflates_blob : forall rest, inflates (blob zlib_encode ++ rest) (zeros CHUNK_SIZE).

Definition zero_chunk : stored_chunk :=
  {| ck_compressed := true; ck_raw := blob zlib_encode; ck_page := zeros CHUNK_SIZE |}.

Lemma zero_chunk_decodes c : blob_record bench_base len c -> decodes CHUNK_SIZE [s] c zero_chunk.
Proof.
  intros Hc id. destruct bench_fits as [Hfit Hb].
  assert (exists z, c = Chunk_new 0 true bench_base z /\ len <= z <= CHUNK_SIZE) as (z & -> & Hz).
  { destruct Hc as [-> | ->]; eexists; split; try reflexivity; lia. }
  set (l1 := (str "volume", bench_volume total (64 * total)) :: map (table_part bench_base) sizes).
  destruct (part_at bench_parts bench_parts_good l1 (str "sectors") (blob zlib_encode) []) as [_ Hblob]; [done|].
  replace (FILE_HEADER_SIZE + span l1 + 76) with bench_base in Hblob.
  2: { unfold l1, bench_base, FILE_HEADER_SIZE. rewrite span_cons, zlen_bench_volume, span_table_parts by apply sizes_nonneg. lia. }
  apply slice_spec in Hblob as (_ & _ & Hblob). replace (bench_base + len - bench_base) with len in Hblob by lia.
  unfold decode_page. rewrite Chunk_compressed_new, record_offset by lia.
  unfold Chunk_segment_idx, Chunk_size, Chunk_new, wrap32. cbn [chunk_segment chunk_size32].
  rewrite (Z.mod_0_l) by done. change (get [s] 0) with (Some s).
  cbn [ok_or mbind outcome_bind]. rewrite Z.mod_small by (unfold CHUNK_SIZE in *; lia).
  rewrite (serves_read (s:=s) (bs:=chain_file bench_parts) (serves:=chain_served)) by lia. cbn [from_io mbind outcome_bind].
  set (tl := zdrop bench_base (chain_file bench_parts)) in *.
  assert (ztake z tl = blob zlib_encode ++ zdrop len (ztake z tl)) as ->.
  { rewrite <-(ztake_zdrop len (ztake z tl)) at 1. by rewrite ztake_ztake, <-Hblob by lia. }
  destruct (inflates_blob (zdrop len (ztake z tl))) as [(holds & Hnew & Hreads) _].
  rewrite (inflate_loop_written CHUNK_SIZE (zeros CHUNK_SIZE) _ _ [] (zeros CHUNK_SIZE) holds);
    [reflexivity|exact Hreads|exact Hnew|reflexivity|..]; rewrite zlen_zeros by (unfold CHUNK_SIZE; lia).
  - apply Z.le_refl.
  - unfold CHUNK_SIZE. lia.
Qed.

Definition zero_chunks : list stored_chunk := replicate (Z.to_nat total) zero_chunk.

Lemma zero_pages (k : nat) :
  concat (map ck_page (replicate k zero_chunk)) = zeros (CHUNK_SIZE * Z.of_nat k).
Proof.
  induction k as [|k IH]; [done|]. cbn [replicate map concat zero_chunk ck_page]. rewrite IH.
  rewrite (zeros_split CHUNK_SIZE (CHUNK_SIZE * Z.of_nat (S k))) by (unfold CHUNK_SIZE; lia).
  do 2 f_equal. lia.
Qed.

Lemma zero_media : stored_media (CHUNK_SIZE * total) zero_chunks = zeros (CHUNK_SIZE * total).
Proof.
  unfold stored_media, zero_chunks. rewrite zero_pages, Z2Nat.id by lia. apply ztake_all.
  rewrite zlen_zeros; unfold CHUNK_SIZE; lia.
Qed.

Lemma zero_media_stored : media_stored CHUNK_SIZE (CHUNK_SIZE * total) zero_chunks.
Proof.
  assert (forall P : stored_chunk -> Prop, P zero_chunk -> Forall P zero_chunks) as Hall.
  { intros P HP. apply Forall_replicate. done. }
  constructor.
  - unfold CHUNK_SIZE. lia.
  - apply Hall. cbn [ck_page zero_chunk]. rewrite zlen_zeros; unfold CHUNK_SIZE; lia.
  - unfold zero_chunks. destruct (Z.to_nat total) as [|k]; [constructor|].
    rewrite <-Nat.add_1_r, replicate_add. cbn [replicate]. rewrite removelast_last. by apply Forall_replicate.
  - unfold zero_chunks. rewrite zero_pages, Z2Nat.id, zlen_zeros by (unfold CHUNK_SIZE; lia). unfold CHUNK_SIZE. lia.
  - unfold zero_chunks, zlen. rewrite length_replicate. unfold CHUNK_SIZE. lia.
Qed.

Lemma records_decode_zero cs :
  zlen cs = total -> Forall (blob_record bench_base len) cs -> Forall2 (decodes CHUNK_SIZE [s]) cs zero_chunks.
Proof.
  intros Hz Hcs. unfold zero_chunks. rewrite <-Hz. unfold zlen. rewrite Nat2Z.id. clear Hz.
  induction Hcs as [|c cs Hc _ IH]; cbn [length replicate]; constructor; [by apply zero_chunk_decodes|exact IH].
Qed.
End Open.

(** * The image, opened both ways *)

Lemma section_sizes_spec e k : forall rem,
  0 < e -> e * Z.of_nat k < rem <= e * Z.of_nat (S k) ->
  Forall (fun n => 0 < n <= e) (section_sizes (S k) rem e) /\ sum_sizes (section_sizes (S k) rem e) = rem.
Proof.
  induction k as [|k IH]; intros rem He Hr.
  { cbn [section_sizes]. change (sum_sizes [?n]) with (n + 0). split; [|lia].
    apply Forall_cons; split; [lia|apply Forall_nil_2]. }
  destruct (IH (rem - e) He) as [Hf Hsum]; [lia|]. remember (S k) as m. cbn [section_sizes].
  rewrite Z.min_r by nia. split; [apply Forall_cons; split; [lia|done]|].
  change (sum_sizes (?n :: ?l)) with (n + sum_sizes l). lia.
Qed.

Lemma length_section_sizes k rem e : length (section_sizes k rem e) = k.
Proof. revert rem. induction k as [|k IH]; intros rem; [done|]. cbn. by rewrite IH. Qed.

Lemma section_sizes_good total e :
  0 < total -> 0 < e <= MAX_TABLE_ENTRIES ->
  let sizes := section_sizes (Z.to_nat ((total + e - 1) / e)) total e in
  Forall (fun n => 0 < n <= e) sizes /\ sum_sizes sizes = total /\ zlen sizes = (total + e - 1) / e.
Proof.
  intros Ht He sizes. unfold sizes. assert (0 < (total + e - 1) / e) as Hq by (apply Z.div_str_pos; lia).
  destruct (Z.to_nat ((total + e - 1) / e)) as [|k] eqn:Ek; [lia|].
  destruct (section_sizes_spec e k total) as [Hf Hsum]; [lia| |].
  { assert ((total + e - 1) / e = Z.of_nat k + 1) as Hk by lia. Z.to_euclidean_division_equations; nia. }
  split; [done|]. split; [done|]. unfold zlen. rewrite length_section_sizes. lia.
Qed.

Section Image.
Context `{SafeReadLaws} `{ZlibLaws} `{Profile} `{LruLaws Z (list Chunk)} `{LruLaws Z (list byte)}.
Variable zlib_encode : list byte -> list byte.

(** What a compressor promises about its output: the stream of a page is no longer
    than the page, and inflates to it whatever follows. *)
Hypothesis blob_fits : 0 < zlen (blob zlib_encode) <= CHUNK_SIZE.
Hypothesis blob_inflates : forall rest, inflates (blob zlib_encode ++ rest) (zeros CHUNK_SIZE).

(** What the two readers are: flat and paged tables of one image of zeros. *)
Record opened_both (total cap : Z) (sizes : list Z) (r r' : EwfReader) (im : image) : Prop := {
  ob_ok : image_ok im;
  ob_eager : presents im 0 r;
  ob_lazy : presents im 0 r';
  ob_holds : holds (zeros (CHUNK_SIZE * total)) (None, None) im;
  ob_chunks : exists cs, r_chunks r = Eager cs /\ zlen cs = total;
  ob_index : exists ms t, LazyChunkTable_new ms CHUNK_SIZE cap = Ok t /\ r_chunks r' = Lazy t /\
    map meta_entry_count ms = sizes /\ lazy_len t = total /\ lazy_index t = ms;
}.

Lemma bench_opens total sizes s cache_size cap :
  Forall (fun n => 0 < n <= MAX_TABLE_ENTRIES) sizes -> sum_sizes sizes = total -> 0 < total <= u32_max ->
  serves s (bench_file zlib_encode total (64 * total) sizes) ->
  exists r r' im, open_v1 [s] cache_size None = Ok r /\ open_v1 [s] cache_size (Some cap) = Ok r' /\
    opened_both total cap sizes r r' im.
Proof.
  intros Hsizes Hsum Htotal Hs.
  destruct (bench_total_len zlib_encode total sizes s Hsizes Hsum Htotal blob_fits Hs) as [Hsv Hlen].
  destruct (open_bench_eager zlib_encode total sizes s Hsizes Hsum Htotal blob_fits Hs cache_size)
    as (r & cs & Hopen & Hseg & Hch & Hz & Hcs & Hcsz & Hts & Hh).
  assert (volume_first (r_segments r) = true) as Hord by (rewrite Hseg; by eapply bench_ordered).
  destruct (open_presents [s] cache_size r Hsv Hlen Hopen) as (v & Hv & Hok & Hp).
  assert (v = cs) as -> by congruence.
  destruct (open_v1_alike [s] cache_size cap r cs Hsv Hlen Hopen Hord Hv) as (r' & Hopen' & _ & Hp').
  assert (exists ms t, LazyChunkTable_new ms CHUNK_SIZE cap = Ok t /\ r_chunks r' = Lazy t /\
    map meta_entry_count ms = sizes /\ lazy_len t = total /\ lazy_index t = ms) as Hl by by eapply open_bench_lazy.
  exists r, r', (image_of r cs). split; [done|]. split; [done|]. constructor; [done|done| | |by exists cs|exact Hl].
  - apply Hp'. destruct Hl as (ms & t & _ & Ht & _ & Hn & _). unfold chunk_count_of. rewrite Ht. cbn. lia.
  - rewrite <-Hh, <-(zero_media zlib_encode total sizes) by done.
    apply (records_hold CHUNK_SIZE (CHUNK_SIZE * total)); [by apply zero_media_stored|done|done|].
    rewrite Hseg. by eapply records_decode_zero.
Qed.

Lemma build_ok total entries :
  0 < total <= u32_max -> 0 < entries <= MAX_TABLE_ENTRIES ->
  let sizes := section_sizes (Z.to_nat ((total + entries - 1) / entries)) total entries in
  build_many_chunk_e01 zlib_encode total entries = Ok (bench_file zlib_encode total (64 * total) sizes).
Proof.
  intros Ht He sizes. unfold build_many_chunk_e01, CHUNK_SIZE, BYTES_PER_SECTOR, div_ceil.
  change (32768 / 512) with 64. rewrite mul64_ok by lia. cbn [mbind outcome_bind].
  by rewrite (proj2 (Z.eqb_neq entries 0)) by lia.
Qed.

Lemma sizes_accepted e sizes :
  Forall (fun n => 0 < n <= e) sizes -> e <= MAX_TABLE_ENTRIES -> Forall (fun n => 0 < n <= MAX_TABLE_ENTRIES) sizes.
Proof. intros Hf He. eapply Forall_impl; [exact Hf|]. cbn beta. lia. Qed.

(** The image the benchmark writes is the image it measures.  For every number of
    chunks that the 32-bit field of the volume section can hold, and every number of
    entries per table section that the readers accept, the writer returns a file;
    whatever serves it, both opens accept it, eagerly and with pages of any number of
    sections; each has a record for every chunk, and the two present one image: from
    then on a read at any offset returns the zeros of the media that are there. *)
Theorem bench_image_opens total entries :
  0 < total <= u32_max -> 0 < entries <= MAX_TABLE_ENTRIES ->
  exists file, build_many_chunk_e01 zlib_encode total entries = Ok file /\
  forall s cache_size cap, serves s file ->
    exists r r' im, open_v1 [s] cache_size None = Ok r /\ open_v1 [s] cache_size (Some cap) = Ok r' /\
      chunk_count_of r = total /\ chunk_count_of r' = total /\ presents im 0 r /\ presents im 0 r' /\
      forall r1 pos n off, presents im pos r1 -> 0 <= n -> 0 <= off <= u64_max ->
        exists r2, read_at n off r1 = (Ok (ztake n (zdrop off (zeros (CHUNK_SIZE * total)))), r2) /\ presents im pos r2.
Proof.
  intros Ht He. eexists. split; [by apply build_ok|]. intros s cache_size cap Hs.
  destruct (section_sizes_good total entries ltac:(lia) He) as (Hf & Hsum & _).
  destruct (bench_opens total _ s cache_size cap (sizes_accepted _ _ Hf (proj2 He)) Hsum Ht Hs) as (r & r' & im & Hr & Hr' & [Hok Hp Hp' Hh Hc Hl]).
  exists r, r', im. destruct Hc as (cs & Hcs & Hz). destruct Hl as (ms & t & _ & Hts & _ & Hn & _).
  unfold chunk_count_of. rewrite Hcs, Hts. split_and!; [done..|].
  intros r1 pos n off Hr1 Hn1 Hoff. by eapply holds_read.
Qed.
End Image.
