(* ===== verification/BenchMain.v ===== *)
(** [main] of the benchmark [core/examples/bench_table.rs] on the image it writes: both
    readers open it, the assertions hold, the two sweeps read the media whole, and what
    the lazy table keeps stays within its cache. *)

From S2P Require Import Prelude Text Extern Types Sections Source ChunkTable Path ReaderOpen Resident Reader.
From S2P Require Import LazyOpen Discover OpenSafe Acquire Stored FuzzTargets Bench BenchProps.

(** * What a read leaves alone *)

Section Keeps.
Context `{SafeRead} `{Zlib} `{Profile} `{Lru Z (list Chunk)} `{Lru Z (list byte)}.
Variable P : ChunkTable -> Prop.

Definition keeps {E A} (c : stateful EwfReader E A) : Prop :=
  forall r, P (r_chunks r) -> P (r_chunks (snd (c r))).

Lemma keeps_lift {E A} (m : outcome E A) : keeps (lift m).
Proof. by intros r. Qed.

Lemma keeps_bind {E A B} (c : stateful EwfReader E A) (f : A -> stateful EwfReader E B) :
  keeps c -> (forall a, keeps (f a)) -> keeps (c ≫= f).
Proof.
  intros Hc Hf r Hr. rewrite stateful_bind_run. specialize (Hc r Hr).
  destruct (c r) as [[a|e|] r']; [by apply Hf|done|done].
Qed.

Hypothesis get_keeps : forall id segments t, P t -> P (snd (ChunkTable_get id segments t)).

Lemma read_at_keeps n off : keeps (read_at n off).
Proof.
  assert (forall id, keeps (read_chunk id)) as Hread.
  { intros id. unfold read_chunk. apply keeps_bind.
    { intros r Hr. unfold reader_cache_op, with_state. by destruct (lru_get id (r_cache r)). }
    intros [page|]; [apply keeps_lift|]. apply keeps_bind; [|by intros page r Hr].
    intros r Hr. unfold decompress_chunk. revert r Hr.
    assert (forall x y, keeps (_ ← lift (vec_zeroed y); chunk ← reader_get_chunk id;
              lift (decode_page x y id chunk))) as Hk; [|by intros r; apply Hk].
    intros x y. apply keeps_bind; [apply keeps_lift|]. intros _. apply keeps_bind; [|intros; apply keeps_lift].
    intros r Hr. unfold reader_get_chunk. pose proof (get_keeps id (r_segments r) (r_chunks r) Hr) as Hg.
    by destruct (ChunkTable_get id (r_segments r) (r_chunks r)). }
  unfold read_at. generalize (@nil byte) as got. generalize (S (Z.to_nat n)) as fuel. intros fuel. revert off.
  induction fuel as [|fuel IH]; intros off got; [apply keeps_lift|]. cbn [read_at_loop]. intros r Hr.
  destruct (r_chunk_size r =? 0); [done|]. destruct (_ =? 0); [done|]. revert r Hr.
  assert (forall a b c, keeps (page ← read_chunk a; bs ← lift (index_range page b (b + c));
            off' ← lift (add64 off c); read_at_loop fuel n off' (got ++ bs))) as Hk; [|by intros r; apply Hk].
  intros a b c. apply keeps_bind; [apply Hread|]. intros page. apply keeps_bind; [apply keeps_lift|]. intros bs.
  apply keeps_bind; [apply keeps_lift|]. intros off'. apply IH.
Qed.
End Keeps.

(** * The two read loops *)

Section Loops.
Context `{SafeReadLaws} `{ZlibLaws} `{Profile} `{LruIterLaws Z (list Chunk)} `{!LruLaws Z (list Chunk)} `{LruLaws Z (list byte)} `{Layout}.
Variables (im : image) (size : Z) (P : ChunkTable -> Prop).
Hypothesis im_good : image_ok im.
Hypothesis im_zeros : holds (zeros size) (None, None) im.
Hypothesis size_range : 0 <= size <= i64_max.
Hypothesis get_keeps : forall id segments t, P t -> P (snd (ChunkTable_get id segments t)).

(** A reader of the image between two reads. *)
Definition reading (r : EwfReader) : Prop := presents im 0 r /\ P (r_chunks r).

Lemma unwrapped_read n off r :
  reading r -> 0 <= n -> 0 <= off -> off + n <= size ->
  exists bs r', unwrapped (read_at n off) r = (Ok bs, r') /\ zlen bs = n /\ reading r'.
Proof.
  intros [Hr Hk] Hn Ho Hs. destruct (holds_read _ _ im 0 r n off im_good im_zeros Hr Hn ltac:(lia)) as (r' & Hrun & Hr').
  pose proof (read_at_keeps P get_keeps n off r Hk) as Hk'. unfold unwrapped. rewrite Hrun in *. cbn [snd] in Hk'.
  eexists _, r'. split; [done|]. split; [|done]. rewrite zlen_ztake, zlen_zdrop, zlen_zeros by lia. lia.
Qed.

Lemma unwrapped_read_short n r :
  reading r -> size <= n ->
  exists bs r', unwrapped (read_at n 0) r = (Ok bs, r') /\ zlen bs = size /\ reading r'.
Proof.
  intros [Hr Hk] Hn. destruct (holds_read _ _ im 0 r n 0 im_good im_zeros Hr ltac:(lia) ltac:(lia)) as (r' & Hrun & Hr').
  pose proof (read_at_keeps P get_keeps n 0 r Hk) as Hk'. unfold unwrapped. rewrite Hrun in *. cbn [snd] in Hk'.
  eexists _, r'. split; [done|]. split; [|done]. rewrite zdrop_0, zlen_ztake, zlen_zeros by lia. lia.
Qed.

Lemma seq_loop_runs fuel : forall off r,
  reading r -> 0 <= off <= size -> size - off < Z.of_nat fuel ->
  exists r', seq_loop fuel size off off r = (Ok size, r') /\ reading r'.
Proof.
  induction fuel as [|fuel IH]; intros off r Hr Ho Hf; [lia|]. cbn [seq_loop].
  destruct (off <? size) eqn:E; bool_hyps.
  2: { assert (off = size) as -> by lia. by exists r. }
  assert (0 < Z.min SEQ_STEP (size - off) <= size - off) as Hstep by (unfold SEQ_STEP; lia).
  destruct (unwrapped_read (Z.min SEQ_STEP (size - off)) off r Hr ltac:(lia) ltac:(lia) ltac:(lia))
    as (bs & r1 & Hrun & Hz & Hr1).
  rewrite stateful_bind_run, Hrun, Hz, (proj2 (Z.eqb_neq _ 0)) by lia.
  rewrite stateful_lift_run, add64_ok by lia. cbn iota. rewrite stateful_lift_run. cbn iota.
  apply IH; [done|lia|lia].
Qed.

Lemma seq_throughput_runs r :
  reading r -> exists r', seq_throughput r = (Ok size, r') /\ reading r'.
Proof.
  intros Hr. unfold seq_throughput. assert (r_total_size r = size) as ->.
  { rewrite (pr_total_size _ _ _ (proj1 Hr)). destruct im_zeros as (pages & _ & _ & -> & _). rewrite zlen_zeros; lia. }
  apply seq_loop_runs; [done|lia|lia].
Qed.

Lemma random_loop_runs read_len n : forall rng got r,
  reading r -> 0 < read_len -> 0 <= got -> got + Z.of_nat n * Z.min read_len size <= u64_max ->
  exists r', random_loop n size read_len rng got r = (Ok (got + Z.of_nat n * Z.min read_len size), r') /\ reading r'.
Proof.
  induction n as [|n IH]; intros rng got r Hr Hl Hg Hmax.
  { exists r. split; [|done]. change (random_loop 0 size read_len rng got r) with (Ok (E:=ewf_error) got, r).
    by replace (got + Z.of_nat 0 * Z.min read_len size) with got by lia. }
  cbn [random_loop].
  assert (forall off rng', (read_len < size -> 0 <= off <= size - read_len) -> (size <= read_len -> off = 0) ->
    exists r', (bs ← unwrapped (read_at read_len off); total ← lift (add64 got (zlen bs));
                random_loop n size read_len rng' total) r
      = (Ok (got + Z.of_nat (S n) * Z.min read_len size), r') /\ reading r') as Hgo.
  { intros off rng' Hlong Hshort.
    assert (exists bs r1, unwrapped (read_at read_len off) r = (Ok bs, r1) /\ zlen bs = Z.min read_len size /\ reading r1)
      as (bs & r1 & Hrun & Hz & Hr1).
    { destruct (decide (read_len < size)) as [Hlt|Hge].
      - rewrite Z.min_l by lia. specialize (Hlong Hlt). apply unwrapped_read; [done|lia|lia|lia].
      - rewrite Z.min_r by lia. rewrite Hshort by lia. apply unwrapped_read_short; [done|lia]. }
    rewrite stateful_bind_run, Hrun, Hz, stateful_lift_run, add64_ok by nia. cbn iota.
    destruct (IH rng' (got + Z.min read_len size) r1 Hr1 Hl) as (r' & -> & Hr'); [lia|lia|].
    exists r'. split; [|done]. do 2 f_equal. lia. }
  destruct (read_len <? size) eqn:E; bool_hyps; apply Hgo; try lia.
  intros _. pose proof (Z.mod_pos_bound (next_u64 rng) (size - read_len)). lia.
Qed.

Lemma random_throughput_runs n_reads read_len r :
  reading r -> 0 < read_len -> 0 <= n_reads -> n_reads * Z.min read_len size <= u64_max ->
  exists r', random_throughput n_reads read_len r = (Ok (n_reads * Z.min read_len size), r') /\ reading r'.
Proof.
  intros Hr Hl Hn Hmax. unfold random_throughput. assert (r_total_size r = size) as ->.
  { rewrite (pr_total_size _ _ _ (proj1 Hr)). destruct im_zeros as (pages & _ & _ & -> & _). rewrite zlen_zeros; lia. }
  destruct (random_loop_runs read_len (Z.to_nat n_reads) RNG_SEED 0 r Hr Hl) as (r' & Hrun & Hr'); [lia|lia|].
  exists r'. rewrite Hrun. split; [|done]. do 2 f_equal. lia.
Qed.
End Loops.

(** * The run *)

Section Run.
Context `{SafeReadLaws} `{ZlibLaws} `{Profile} `{LruIterLaws Z (list Chunk)} `{!LruLaws Z (list Chunk)} `{LruLaws Z (list byte)} `{Layout}.
Variables (zlib_encode : list byte -> list byte) (glob_escape : text -> text).
Variable write : list byte -> text * filesystem.

Hypothesis blob_fits : 0 < zlen (blob zlib_encode) <= CHUNK_SIZE.
Hypothesis blob_inflates : forall rest, inflates (blob zlib_encode ++ rest) (zeros CHUNK_SIZE).
Hypothesis layout_range : 0 <= size_of_SectionMeta <= 65536 /\ 0 <= size_of_Chunk <= 65536.

(** A temporary file that was written: its name ends a series of segments of its own,
    and the system has its bytes. *)
Definition written_to (p : text * filesystem) (file : list byte) : Prop :=
  discover_segments glob_escape (fs_glob p.2) p.1 = Ok [p.1] /\
  exists f, fs_open p.2 p.1 = Ok f /\ file_ok f /\ file_bytes f = file.

Lemma open_paths_one path fs f section_cache :
  fs_open fs path = Ok f -> file_ok f -> zlen (file_bytes f) >= 8 -> ztake 8 (file_bytes f) = EVF_SIGNATURE ->
  open_paths text (fs_open fs) [path] DEFAULT_LRU_SIZE section_cache = open_v1 [SrcFile f] DEFAULT_LRU_SIZE section_cache.
Proof.
  intros Hopen (Hrel & Hl & Hm) Hlen Hsig. unfold open_paths. rewrite Hopen. cbn [from_io mbind outcome_bind].
  pose proof (file_read_spec f 0 8 Hrel Hl ltac:(lia) ltac:(lia)) as Hr. rewrite slice_some in Hr by lia.
  change (0 + 8 - 0) with 8 in Hr. rewrite zdrop_0, Hsig in Hr. rewrite Hr. cbn [mbind outcome_bind].
  change (is_ewf2_signature EVF_SIGNATURE) with false. cbn iota. cbn [mapM]. rewrite Hopen. done.
Qed.

(** The file begins with the signature of EWF v1. *)
Lemma bench_file_signature total sectors sizes :
  zlen (bench_file zlib_encode total sectors sizes) >= 8 /\
  ztake 8 (bench_file zlib_encode total sectors sizes) = EVF_SIGNATURE.
Proof.
  unfold bench_file. cbv zeta. split; [|by apply ztake_app_len].
  rewrite zlen_app. change (zlen EVF_SIGNATURE) with 8. match goal with |- 8 + zlen ?l >= 8 => pose proof (zlen_nonneg l) end. lia.
Qed.

(** The index keeps the declared counts. *)
Lemma index_counts ms sizes e :
  map meta_entry_count ms = sizes -> Forall (fun n => 0 < n <= e) sizes ->
  Forall (fun m => 0 <= meta_entry_count m <= e) ms /\ zlen ms = zlen sizes.
Proof.
  intros <- Hf. split; [|unfold zlen; by rewrite length_map].
  apply List.Forall_map in Hf. eapply Forall_impl; [exact Hf|]. cbn beta. lia.
Qed.

(** Before the first read the lazy table is its index. *)
Lemma resident_cold ms chunk_size cap t :
  LazyChunkTable_new ms chunk_size cap = Ok t -> 0 <= zlen ms * size_of_SectionMeta <= u64_max ->
  LazyChunkTable_resident_table_bytes t = Ok (zlen ms * size_of_SectionMeta).
Proof.
  intros Hnew Hm. destruct layout_range as [_ Hc].
  assert (lru_iter (lazy_cache t) = [] /\ lazy_index t = ms) as [Hi Hidx].
  { revert Hnew. unfold LazyChunkTable_new. match goal with |- (?n ≫= _) = _ -> _ => destruct n; [|done|done] end.
    intros <-%Ok_inj. split; [|done]. apply lru_new_iter. }
  unfold LazyChunkTable_resident_table_bytes. rewrite Hi, Hidx. rewrite mul64_ok by lia.
  cbn [mbind outcome_bind map sum64]. rewrite mul64_ok by lia. cbn [mbind outcome_bind].
  rewrite add64_ok by lia. f_equal. lia.
Qed.

(** The lazy table between two reads of the run. *)
Definition lazy_table (ms : list SectionMeta) (e : Z) (t : ChunkTable) : Prop :=
  exists l, t = Lazy l /\ cache_within e DEFAULT_SECTION_CACHE l /\ lazy_index l = ms.

Lemma lazy_table_kept ms e id segments t : lazy_table ms e t -> lazy_table ms e (snd (ChunkTable_get id segments t)).
Proof.
  intros (l & -> & Hw & Hi). destruct (lazy_get_within e DEFAULT_SECTION_CACHE id segments l eq_refl Hw) as [Hw' Hi'].
  cbn [ChunkTable_get]. destruct (LazyChunkTable_get id segments l) as [c l']. cbn [snd] in *. exists l'. split; [done|]. split; [done|congruence].
Qed.

(** The statistic is a number or a panic. *)
Lemma resident_no_error t e : ChunkTable_resident_table_bytes t <> Err e.
Proof.
  assert (forall a b, mul64 a b <> Err e) as Hmul by (intros a b; unfold mul64, plain; by destruct (_ && _), overflow_checks).
  assert (forall a b, add64 a b <> Err e) as Hadd by (intros a b; unfold add64, plain; by destruct (_ && _), overflow_checks).
  assert (forall (m : res Z) (g : Z -> res Z), m <> Err e -> (forall a, g a <> Err e) -> m ≫= g <> Err e) as Hbind.
  { intros [a|e'|] g Hm Hg; cbn; [apply Hg|exact Hm|done]. }
  destruct t as [v|l]; [apply Hmul|]. cbn [ChunkTable_resident_table_bytes].
  unfold LazyChunkTable_resident_table_bytes. apply Hbind; [apply Hmul|]. intros a. apply Hbind.
  - induction (map _ _) as [|n ns IH]; [done|]. cbn [sum64]. apply Hbind; [exact IH|]. intros b. apply Hadd.
  - intros b. apply Hbind; [apply Hmul|]. intros c. apply Hadd.
Qed.

Lemma lazy_table_resident ms e t :
  0 <= e <= MAX_TABLE_ENTRIES -> zlen ms <= u32_max -> lazy_table ms e t ->
  exists n, ChunkTable_resident_table_bytes t = Ok n /\
    0 <= n <= zlen ms * size_of_SectionMeta + DEFAULT_SECTION_CACHE * e * size_of_Chunk.
Proof.
  intros He Hms Ht. enough (returns (fun n => 0 <= n <= zlen ms * size_of_SectionMeta + DEFAULT_SECTION_CACHE * e * size_of_Chunk)
    (ChunkTable_resident_table_bytes t)) as Hret.
  { pose proof (resident_no_error t) as Herr. destruct (ChunkTable_resident_table_bytes t) as [n|er|]; [by exists n| |done].
    by destruct (Herr er). }
  destruct Ht as (l & -> & Hw & <-). destruct layout_range as [Hm Hc]. cbn [ChunkTable_resident_table_bytes].
  pose proof (zlen_nonneg (lazy_index l)). unfold DEFAULT_SECTION_CACHE, MAX_TABLE_ENTRIES in *.
  apply resident_within; [done|lia|lia|lia|done|nia|lia].
Qed.

(** C26: the benchmark measures what it says.  For arguments that name a number of
    chunks that the format can count and a number of entries that a section may have,
    or leave them to the defaults, [main] runs to its end, with no [unwrap] or [assert_eq!] that panics and no overflow: both
    readers count every chunk; both sweeps read every byte of the media, and the
    random reads all of their lengths; the eager table keeps every record, the lazy
    one its index, an entry per section, and after the sweep at most the sections of
    its cache more. *)
Theorem bench_main_runs args total entries :
  bench_args args = (total, entries) -> 0 < total <= u32_max -> 0 < entries <= MAX_TABLE_ENTRIES ->
  (forall file, build_many_chunk_e01 zlib_encode total entries = Ok file -> written_to (write file) file) ->
  let sections := (total + entries - 1) / entries in
  exists m, bench_main zlib_encode glob_escape write args = Ok m /\
    bm_chunk_count m = total /\ bm_sections m = sections /\
    bm_eager_seq m = CHUNK_SIZE * total /\ bm_lazy_seq m = CHUNK_SIZE * total /\
    bm_eager_rnd m = 10000 * Z.min 65536 (CHUNK_SIZE * total) /\ bm_lazy_rnd m = bm_eager_rnd m /\
    bm_eager_resident m = total * size_of_Chunk /\
    bm_lazy_resident_cold m = sections * size_of_SectionMeta /\
    0 <= bm_lazy_resident_warm m <= sections * size_of_SectionMeta + DEFAULT_SECTION_CACHE * entries * size_of_Chunk.
Proof.
  intros Hargs Ht He Hw sections. pose proof (build_ok zlib_encode total entries Ht He) as Hbuild. cbv zeta in Hbuild.
  specialize (Hw _ Hbuild). destruct (section_sizes_good total entries ltac:(lia) He) as (Hf & Hsum & Hn).
  unfold bench_main. rewrite Hargs. unfold bench_run. rewrite mul64_ok by (unfold CHUNK_SIZE; lia). unfold div_ceil at 1.
  rewrite (proj2 (Z.eqb_neq entries 0)) by lia. fold sections. cbn [mbind outcome_bind]. rewrite Hbuild. fold sections in Hn. cbn [mbind outcome_bind].
  set (sizes := section_sizes _ _ _) in *. set (file := bench_file _ _ _ _) in *.
  destruct (write file) as [path fs]. destruct Hw as (Hdisc & f & Hopen & Hok & Hbytes). cbn [fst snd] in *.
  assert (serves (SrcFile f) file) as Hserves by (rewrite <-Hbytes; by apply file_ok_serves).
  destruct (bench_file_signature total (64 * total) sizes) as [Hlen Hsig]. fold file in Hlen, Hsig. rewrite <-Hbytes in Hlen, Hsig.
  destruct (bench_opens zlib_encode blob_fits blob_inflates total sizes (SrcFile f) DEFAULT_LRU_SIZE DEFAULT_SECTION_CACHE
    (sizes_accepted _ _ Hf (proj2 He)) Hsum Ht Hserves) as (r & r' & im & Hr & Hr' & [Hgood Hp Hp' Hh Hc Hl]).
  unfold open, open_lazy, open_with_cache_size, open_segments_with_cache_size, open_segments_lazy. rewrite Hdisc.
  cbn [mbind outcome_bind]. rewrite !(open_paths_one path fs f) by done. rewrite Hr, Hr'. cbn [unwrap mbind outcome_bind].
  destruct Hc as (cs & Hcs & Hz). destruct Hl as (ms & t & Hnew & Hts & Hms & Hn' & Hidx).
  assert (chunk_count_of r = total) as Hcr by (unfold chunk_count_of; by rewrite Hcs).
  assert (chunk_count_of r' = total) as Hcr' by (unfold chunk_count_of; by rewrite Hts).
  rewrite Hcr, Hcr'. unfold assert_eq. rewrite Z.eqb_refl. cbn [mbind outcome_bind].
  destruct (index_counts ms sizes entries Hms Hf) as [Hcounts Hlms]. rewrite Hn in Hlms.
  destruct (tables_small sizes (sizes_accepted _ _ Hf (proj2 He))) as [_ Hle]. rewrite Hsum, Hn in Hle.
  pose proof (zlen_nonneg ms) as Hnn. destruct layout_range as [Hlm Hlc].
  unfold EwfReader_resident_table_bytes. rewrite Hcs, Hts. cbn [ChunkTable_resident_table_bytes].
  rewrite Hz, mul64_ok by nia. cbn [mbind outcome_bind].
  rewrite (resident_cold ms CHUNK_SIZE DEFAULT_SECTION_CACHE t Hnew) by nia. cbn [mbind outcome_bind].
  assert (0 <= CHUNK_SIZE * total <= i64_max) as Hsize by (unfold CHUNK_SIZE; lia).
  assert (lazy_table ms entries (r_chunks r')) as Hlt.
  { exists t. split; [done|]. by apply (lazy_new_within entries CHUNK_SIZE DEFAULT_SECTION_CACHE). }
  destruct (seq_throughput_runs im (CHUNK_SIZE * total) (fun t => t = Eager cs) Hgood Hh Hsize ltac:(by intros id segs ? ->) r ltac:(done)) as (r1 & -> & Hr1).
  cbn [mbind outcome_bind].
  destruct (seq_throughput_runs im (CHUNK_SIZE * total) (lazy_table ms entries) Hgood Hh Hsize
    (lazy_table_kept ms entries) r' ltac:(done)) as (r1' & -> & Hr1').
  cbn [mbind outcome_bind].
  destruct (lazy_table_resident ms entries (r_chunks r1') ltac:(lia) ltac:(lia) (proj2 Hr1')) as (warm & Hwarm & Hbound).
  rewrite Hwarm. cbn [mbind outcome_bind].
  assert (forall n, n <= 65536 -> 10000 * n <= u64_max) as Hrnd by (intros; lia).
  destruct (random_throughput_runs im (CHUNK_SIZE * total) (fun t => t = Eager cs) Hgood Hh Hsize ltac:(by intros id segs ? ->) 10000 (64 * 1024) r1 Hr1)
    as (r2 & -> & Hr2); [done|done|lia|].
  cbn [mbind outcome_bind].
  destruct (random_throughput_runs im (CHUNK_SIZE * total) (lazy_table ms entries) Hgood Hh Hsize
    (lazy_table_kept ms entries) 10000 (64 * 1024) r1' Hr1') as (r2' & -> & Hr2'); [done|done|lia|].
  cbn [mbind outcome_bind]. eexists. split; [reflexivity|]. cbn [bm_chunk_count bm_sections bm_eager_seq bm_lazy_seq bm_eager_rnd bm_lazy_rnd
    bm_eager_resident bm_lazy_resident_cold bm_lazy_resident_warm].
  unfold chunk_count_of. rewrite (proj2 Hr2), <-Hlms. repeat split; (done || apply Hbound).
Qed.
End Run.
