(* ===== verification/Evidence.v ===== *)
(** From the files of an acquisition to the commands: what [ewf] and [ewf-check] print
    about an image of either format that lies in a file system. *)

From Stdlib Require Import Permutation.
From S2P Require Import Prelude Text Extern Types Sections Ewf2 Source ChunkTable ReaderOpen Discover Reader Logical.
From S2P Require Import Anomaly IntegrityV1 IntegrityV1Props Integrity IntegrityApi EwfCheck EwfCheckProps LogicalRead Hex.
From S2P Require Import Cli CliProps ErrorText Values Mcp Output OutputProps.
From S2P Require Import Acquire Stored AcquireRead AcquireCheck AcquireV2 AcquireV2Read AcquireV2Check.

(** * The files of an image *)

Section Acquired.
Context `{Adler} `{Zlib} `{Digests}.

(** The segment files of an image of the media, in either format. *)
Inductive acquired (data : list byte) : list (list byte) -> Prop :=
| acquired_v1 a : acquisition_ok a -> aq_media a = data -> acquired data (write_image a)
| acquired_v2 a : acquisition2_ok a -> a2_media a = data -> acquired data (write_image2 a).

(** Those that have what the analysers ask for beyond the reader, fewer than [acquired]:
    in EWF v1 a power of two of sectors per chunk and sectors of 512 or 4096 bytes; in
    EWF v2 a checksum behind every chunk, no padding of the last page, compressed case
    data in the first file and no section of restart data. *)
Inductive acquired_sound (data : list byte) : list (list byte) -> Prop :=
| sound_v1 a : acquisition_ok a -> standard_geometry a -> aq_media a = data -> acquired_sound data (write_image a)
| sound_v2 a : acquisition2_ok a -> acquisition2_checked a -> a2_media a = data -> acquired_sound data (write_image2 a).
End Acquired.

(** * Opening them *)

Section Vouched.
Context `{SafeRead} `{Zlib} `{Profile} `{Digests}.

(** An image whose stored digests are those of its media. *)
Definition vouched (data : list byte) (im : image) : Prop :=
  image_ok im /\ exists sha, holds data (Some (md5 data), sha) im /\ (sha = None \/ sha = Some (sha1 data)).

Lemma vouched_whole data im :
  vouched data im ->
  exists pages, whole im pages /\ media im pages = data /\ sound im pages /\ im_total_size im = zlen data /\
    im_chunk_size im * im_count im <= i64_max.
Proof.
  intros (Hok & sha & (pages & Hp & Hm & Hz & Hc & Hfit & Hh) & Hsha). exists pages. injection Hh as Hmd Hsh.
  split; [by split; try done; lia|]. split_and!; try done. unfold sound. rewrite Hm, Hmd, Hsh. split_and!; [done| |].
  - by intros h [= <-].
  - destruct Hsha as [-> | ->]; [done|]. by intros h [= <-].
Qed.
End Vouched.

Section Opening.
Context `{SafeReadLaws} `{AdlerLaws} `{ZlibLaws} `{Profile} `{LruLaws Z (list Chunk)} `{LruLaws Z (list byte)}.
Context `{DigestsLaws}.
Context {path : Type} (file_open : path -> outcome io_error File).

Lemma signature_v1 a f bs :
  acquisition_ok a -> bs ∈ write_image a -> stores f bs -> file_read_exact_at f 0 8 = Ok EVF_SIGNATURE.
Proof.
  intros Ha Hin (Hrel & Hb & _). pose proof (written_small a Ha) as Hsmall. rewrite Forall_forall in Hsmall.
  specialize (Hsmall bs Hin). cbn beta in Hsmall.
  pose proof (file_read_spec f 0 8 Hrel ltac:(by rewrite Hb) ltac:(done) ltac:(done)) as Hr. rewrite Hb in Hr.
  unfold write_image in Hin. apply list_elem_of_fmap in Hin as ([i seg] & -> & _).
  unfold write_segment, segment_bytes, file_header_bytes in Hr. rewrite <-!app_assoc in Hr.
  match type of Hr with context [EVF_SIGNATURE ++ ?t] => by rewrite (slice_at [] EVF_SIGNATURE t) in Hr by done end.
Qed.

Lemma open_paths_written a fs files paths cache_size :
  acquisition_ok a -> Forall2 stores fs (write_image a) -> files ≡ₚ fs ->
  Forall2 (fun p f => file_open p = Ok f) paths files ->
  exists r im, open_paths path file_open paths cache_size None = Ok r /\ presents im 0 r /\ vouched (aq_media a) im.
Proof.
  intros Ha Hs Hp Hopen.
  assert (Forall2 serves (map SrcFile fs) (write_image a)) as Hserves.
  { pose proof (written_small a Ha) as Hsmall. revert Hsmall. clear -Hs.
    induction Hs as [|f bs fs bss (Hrel & Hb & Hm) _ IH]; intros Hsmall; [constructor|].
    apply Forall_cons in Hsmall as [Hl Hsmall]. constructor; [|by apply IH].
    rewrite <-Hb in Hm, Hl |- *. by apply serves_file. }
  destruct (written_presented a Ha (map SrcFile fs) (map SrcFile files) Hserves (Permutation_map _ Hp) cache_size)
    as (r & im & Hrun & Hok & Hr & Hh).
  exists r, im. split; [|split; [done|]].
  2: { split; [done|]. eexists. split; [exact Hh|]. unfold nonzero_digest. case_bool_decide; auto. }
  assert (mapM (fun p => f ← from_io (file_open p); Ok (SrcFile f)) paths = Ok (E:=ewf_error) (map SrcFile files)) as Hmap.
  { apply mapM_outcome_ok. clear -Hopen. induction Hopen as [|p f ps fs Hf _ IH]; constructor; [by rewrite Hf|done]. }
  unfold open_paths. inversion Hopen as [|p f ps gs Hpf Hrest]; subst.
  { apply Permutation_nil in Hp. subst fs. inversion Hs as [Hn|]. destruct (first_written a Ha) as (? & ? & Hw & _). congruence. }
  rewrite Hpf. cbn [from_io mbind outcome_bind].
  assert (f ∈ fs) as Hin by (rewrite <-Hp; constructor). apply list_elem_of_lookup in Hin as [k Hk].
  destruct (Forall2_lookup_l _ _ _ _ _ Hs Hk) as (bs & Hbs & Hst).
  rewrite (signature_v1 a f bs Ha) by (done || by eapply list_elem_of_lookup_2). cbn [mbind outcome_bind].
  change (is_ewf2_signature EVF_SIGNATURE) with false. cbn iota. rewrite Hmap. exact Hrun.
Qed.

Lemma open_acquired data bss fs files paths cache_size :
  acquired data bss -> Forall2 stores fs bss -> files ≡ₚ fs ->
  Forall2 (fun p f => file_open p = Ok f) paths files ->
  exists r im, open_paths path file_open paths cache_size None = Ok r /\ presents im 0 r /\ vouched data im.
Proof.
  intros [a Ha <-|a Ha <-] Hs Hp Hopen; [by eapply open_paths_written|].
  destruct (open_paths2_written a Ha fs files Hs Hp file_open paths Hopen cache_size None) as (r & im & Hrun & Hok & Hr & Hh).
  exists r, im. split; [done|]. split; [done|]. split; [done|]. eexists. split; [exact Hh|by right].
Qed.
End Opening.

(** * The commands *)

Section Commands.
Context `{SafeReadLaws} `{AdlerLaws} `{ZlibLaws} `{Profile} `{LruLaws Z (list Chunk)} `{LruLaws Z (list byte)}.
Context `{DigestsLaws} `{RayonLaws} `{Texts} `{FileSystem W} `{SerdeJson}.
Variable char_is_uppercase : Z -> bool.

(** The files hold the segments under the given names, and discovery from the path
    finds these names. *)
Definition stored_as (w : W) (names : list text) (bss : list (list byte)) : Prop :=
  exists fs, Forall2 stores fs bss /\ Forall2 (fun n f => fs_open w n = Ok f) names fs.

Definition found_from (w : W) (path : text) (names : list text) : Prop :=
  exists paths, Discover.discover_segments fs_glob_escape (fs_glob w) path = Ok paths /\ paths ≡ₚ names.

Lemma open_evidence w path names data bss :
  acquired data bss -> stored_as w names bss -> found_from w path names ->
  exists r im, open_in w path = Ok r /\ presents im 0 r /\ vouched data im.
Proof.
  intros Hacq (fs & Hs & Hnames) (paths & Hdisc & Hperm).
  destruct (Permutation_Forall2 (Permutation_sym Hperm) Hnames) as (files & Hp & Hopen).
  destruct (open_acquired (fs_open w) data bss fs files paths DEFAULT_LRU_SIZE Hacq Hs (Permutation_sym Hp) Hopen)
    as (r & im & Hrun & Hr & Hv).
  exists r, im. split; [|done]. unfold open_in, Discover.open, open_with_cache_size. rewrite Hdisc. exact Hrun.
Qed.

(** C4: evidence on disk, end to end.  Take the segment files of an image of the media,
    EWF v1 or EWF v2, as an acquisition writes them, under names which discovery from
    the given path finds in any order.  Then [ewf verify] passes with exit code 0;
    [ewf read] prints a dump that reads back as the media; [ewf search] prints the
    occurrences of a pattern in the media; and [ewf extract], when no write fails, leaves
    the window of the media in the output file, which is none of the files of the image,
    and exits with 0. *)
Theorem evidence_commands (w : W) path names data bss stdin :
  acquired data bss -> stored_as w names bss -> found_from w path names ->
  (forall json, exists p, main char_is_uppercase (CmdVerify path json) stdin w = (Ok p, w) /\ p_code p = 0) /\
  (forall off len, 0 <= off < zlen data -> 0 <= len ->
     exists out, main char_is_uppercase (CmdRead path off len) stdin w = (Ok (prints out), w) /\
       concat (map dump_bytes (lines out)) = ztake (Z.min len 4096) (zdrop off data)) /\
  (forall pattern max_results, 0 < zlen pattern <= 65537 -> 0 <= max_results ->
     let found := ztake (Z.min max_results 100) (occurrences data pattern 0 (zlen data)) in
     main char_is_uppercase (CmdSearch path (hex_string pattern) max_results) stdin w =
     (finish (fun ms => Ok (format_search (search_value (hex_string pattern) ms))) (Ok found), w)) /\
  (forall off len output, 0 <= off < zlen data -> 0 <= len ->
     fs_create w output = None -> (forall out bs, fs_write w output out bs = None) ->
     exists p, main char_is_uppercase (CmdExtract path off len output) stdin w =
       (Ok p, fs_put w output (ztake len (zdrop off data))) /\ p_code p = 0).
Proof.
  intros Hacq Hs Hf. destruct (open_evidence w path names data bss Hacq Hs Hf) as (r & im & Hopen & Hr & Hv).
  destruct (vouched_whole data im Hv) as (pages & Hw & Hm & Hsound & Hz & Hfit).
  pose proof (wh_ok _ _ Hw) as Hok. pose proof (wh_fits _ _ Hw) as Htot. split_and!.
  - intros json. unfold main, run_verify.
    destruct (verify_run im 0 r (open_in w) path Hok Hr Hfit Hopen) as [(v & pages' & -> & Hp & Hbad)|(e & _ & Hnone)].
    + eexists. split; [reflexivity|]. cbn [p_code]. rewrite (wh_pages _ _ Hw) in Hp. injection Hp as <-.
      by rewrite (proj2 Hbad Hsound).
    + exfalso. exact (Hnone _ (wh_pages _ _ Hw)).
  - intros off len Ho Hl. unfold main. rewrite (read_sectors_run im pages Hw _ path 0 r) by (done || lia).
    rewrite (proj2 (Z.leb_gt _ _)) by lia. rewrite Hm.
    destruct (format_hex_dump_run off (Z.min (Z.min len 4096) (im_total_size im - off))
                (ztake (Z.min len 4096) (zdrop off data))) as (out & Hrun & Hbytes & _); [lia| |].
    { rewrite zlen_ztake, zlen_zdrop. lia. }
    exists out. split; [|done]. unfold finish. by rewrite Hrun.
  - intros pattern max_results Hp Hmax. cbn zeta. unfold main.
    rewrite (search_run im pages Hw (open_in w) path pattern _ 0 r) by (done || lia). by rewrite Hm.
  - intros off len output Ho Hl Hc Hwr. unfold main. rewrite Hc.
    rewrite (extract_run im pages Hw _ Hwr _ path output 0 r off len) by (done || lia).
    rewrite (proj2 (Z.leb_gt _ _)) by lia. rewrite Hm. cbn [finish mbind outcome_bind].
    eexists. split; [reflexivity|done].
Qed.

(** * ewf-check *)

Lemma stored_bytes w names bss :
  stored_as w names bss -> Forall2 (fun n bs => bytes_in w n = Ok bs) names bss.
Proof.
  intros (fs & Hs & Hn). revert bss Hs. induction Hn as [|n f names fs Hf _ IH]; intros bss Hs;
    inversion Hs as [|? bs ? bss' (_ & Hb & _) Hrest]; subst; [constructor|].
  constructor; [unfold bytes_in; by rewrite Hf|by apply IH].
Qed.

Lemma analysed_sound data bss ex :
  acquired_sound data bss ->
  let image := {| segments := bss; expected := ex |} in
  analyse image = Ok (external_issues (digests_of data) ex) /\
  (exists ps, analyse_with_progress image = Ok (external_issues (digests_of data) ex, ps)) /\
  compute_hashes image = Ok (Some (digests_of data)).
Proof. intros [a Ha Hg <-|a Ha Hc <-]; [by apply written_analysed|by apply written_ex01_analysed]. Qed.

(** The references a run is given, none of which is wrong. *)
Definition matching (data : list byte) (o : options) : Prop :=
  (forall h, hash_md5_opt o = Some h -> h = md5 data) /\
  (forall h, hash_sha1_opt o = Some h -> h = sha1 data) /\
  (forall h, hash_sha256_opt o = Some h -> h = sha256 data).

(** A reference is reported exactly when it is wrong, and at the highest severity. *)
Lemma matching_issues data o :
  let shown := List.filter (fun a => severity_gte (severity a) (min_severity o))
                 (external_issues (digests_of data) (references o)) in
  shown = [] <-> matching data o.
Proof.
  unfold matching, external_issues, external_events, references. cbn [expected_md5 expected_sha1 expected_sha256 digests_of hash_md5 hash_sha1 hash_sha256].
  rewrite !issues_of_app, !List.filter_app.
  assert (forall mk c (e : option (list byte)), (forall s, severity_gte (severity (mk c s)) (min_severity o) = true) ->
    List.filter (fun a => severity_gte (severity a) (min_severity o)) (issues_of (mismatch_if mk c e)) = []
    <-> forall h, e = Some h -> h = c) as Hone.
  { intros mk c [h|] Hsev; [|done]. unfold mismatch_if. case_bool_decide as E; cbn.
    - split; [by intros _ h' [= <-]|done].
    - rewrite Hsev. split; [done|]. intros Hh. by specialize (Hh h eq_refl). }
  rewrite <-(Hone ExternalMd5Mismatch), <-(Hone ExternalSha1Mismatch), <-(Hone ExternalSha256Mismatch)
    by (intros; by destruct (min_severity o)).
  split; [intros [E1 [E2 E3]%app_eq_nil]%app_eq_nil; done|by intros (-> & -> & ->)].
Qed.

(** C5: a check of evidence that is as the analysers want it.  Take the segment files of
    an image of the media that is [acquired_sound], a smaller class than the images the
    other commands read: in EWF v1 with a power of two of sectors per chunk and sectors
    of 512 or 4096 bytes; in EWF v2 with an Adler-32 checksum behind every chunk, pages
    exactly as long as the media (no padding of the last), compressed UTF-16 case data in
    the first file and no section of restart data.  Let [ewf-check] look at them, named
    one by one or found from the first: with any combination of options it ends with a
    report, never a panic or an error; it exits with 0 exactly when every reference
    digest it was given is the digest of the media, and with 1 otherwise; it has nothing
    to report but these references; and the digests it prints are those of the media. *)
Theorem evidence_checked (w : W) names data bss o :
  acquired_sound data bss -> stored_as w names bss ->
  ip_segment_paths (checker_of (fs_is_file w) (paths o)) = names ->
  exists shown, run_options (fs_is_file w) (bytes_in w) o
    = Ok (Report shown (if print_hashes o then Some (digests_of data) else None)) /\
  (exit_code (Report shown None) = 0 <-> matching data o) /\
  (exit_code (Report shown None) = 1 <-> ~ matching data o) /\
  forall a, a ∈ shown -> a ∈ external_issues (digests_of data) (references o).
Proof.
  intros Hacq Hs Hnames. pose proof (stored_bytes w names bss Hs) as Hbytes. rewrite <-Hnames in Hbytes.
  destruct (analysed_sound data bss (references o) Hacq) as (Han & [ps Hanp] & _).
  destruct (analysed_sound data bss no_expected Hacq) as (_ & _ & Hc).
  eexists. split; [exact (run_options_analysed (fs_is_file w) (bytes_in w) o bss _ ps _ Hbytes Han Hanp Hc)|].
  pose proof (matching_issues data o) as Hm. cbv zeta in Hm. set (shown := List.filter _ _) in *.
  assert (forall a, a ∈ shown -> a ∈ external_issues (digests_of data) (references o)) as Hsub.
  { intros a Ha. apply list_elem_of_In in Ha. apply List.filter_In in Ha as [Ha _]. by apply list_elem_of_In. }
  rewrite <-Hm. split; [|split; [|exact Hsub]]; destruct shown; cbn; naive_solver.
Qed.
End Commands.
