(* ===== verification/Fixtures.v ===== *)
(** Concrete instances of the external code and small images, on which the witnesses
    evaluate the definitions.

    The codec of [IdZlib] stores its data; the digests of [ToyDigests] are the first
    bytes of the data and its length: both meet the laws and are computed by the
    kernel in no time.  The images have chunks of four bytes. *)

From S2P Require Import Prelude Text Extern Types Sections Ewf2 Source ChunkTable ReaderOpen.
From S2P Require Import Resident Reader Acquire AcquireV2.

(** ** External code *)
#[export] Instance IdZlib : Zlib := {|
  zdecoder := list byte;
  zlib_new raw := raw;
  zlib_read d n := Some (ztake n d, zdrop n d);
  zlib_read_to_end raw limit :=
    Some (match limit with Some l => ztake l raw | None => raw end);
|}.

#[export] Instance IdZlibLaws : ZlibLaws.
Proof.
  split; cbn; [intros d n bs d' [= <- _]|intros raw limit out [= <-]]; rewrite zlen_ztake; lia.
Qed.

Definition toy_digest (n : Z) (data : list byte) : list byte :=
  ztake n (byte_of_Z (zlen data) :: data ++ zeros n).

#[export] Instance ToyDigests : Digests :=
  {| md5 := toy_digest 16; sha1 := toy_digest 20; sha256 := toy_digest 32 |}.

#[export] Instance ToyDigestsLaws : DigestsLaws.
Proof.
  assert (forall n d, 0 <= n -> zlen (toy_digest n d) = n) as Hlen.
  { intros n d Hn. unfold toy_digest. rewrite zlen_ztake, zlen_cons, zlen_app, zlen_zeros by done.
    pose proof (zlen_nonneg d). lia. }
  split; intros d; by apply Hlen.
Qed.

(** A decoder that is what is left to deliver. *)
Lemma list_reads (d rest : list byte) n :
  d = rest -> 0 <= n ->
  exists k d', Some (ztake n d, zdrop n d) = Some (ztake k rest, d') /\ 0 <= k <= n /\
    (0 < n -> rest <> [] -> 0 < k) /\ d' = zdrop k rest.
Proof.
  intros -> Hn. pose proof (zlen_nonneg rest).
  exists (Z.min n (zlen rest)), (zdrop n rest). split_and!; [|lia|lia| |].
  - f_equal. f_equal. destruct (decide (n <= zlen rest)); [by rewrite Z.min_l by lia|].
    by rewrite Z.min_r, !ztake_all by lia.
  - intros Hpos Hne. destruct rest as [|b rest]; [done|]. rewrite zlen_cons.
    pose proof (zlen_nonneg rest). lia.
  - destruct (decide (n <= zlen rest)); [by rewrite Z.min_l by lia|].
    rewrite Z.min_r by lia. unfold zdrop. rewrite !drop_ge; [done| |]; unfold zlen in *; lia.
Qed.

Lemma id_inflates bs : inflates bs bs.
Proof.
  split; [|by intros [limit|] _]. exists eq. split; [done|]. intros d rest n. apply list_reads.
Qed.

(** A codec that frames its data: a mark, the length, the data; what follows is not
    read. *)
Definition frame (data : list byte) : list byte := Byte.x78 :: le_bytes 4 (zlen data) ++ data.
Definition framed_data (raw : list byte) : list byte :=
  ztake (le_combine (ztake 4 (zdrop 1 raw))) (zdrop 5 raw).

Definition FramedZlib : Zlib := {|
  zdecoder := list byte;
  zlib_new raw := framed_data raw;
  zlib_read d n := Some (ztake n d, zdrop n d);
  zlib_read_to_end raw limit :=
    if bool_decide (head raw = Some Byte.x78)
    then Some (match limit with Some l => ztake l (framed_data raw) | None => framed_data raw end) else None;
|}.

Lemma framed_inflates data rest : zlen data <= u32_max -> @inflates FramedZlib (frame data ++ rest) data.
Proof.
  intros Hd. pose proof (zlen_nonneg data). assert (framed_data (frame data ++ rest) = data) as Hf.
  { unfold framed_data, frame. cbn [app].
    change (zdrop 1 (Byte.x78 :: ?l)) with l. rewrite <-app_assoc.
    change (zdrop 5 (Byte.x78 :: le_bytes 4 (zlen data) ++ data ++ rest)) with (data ++ rest).
    rewrite (ztake_app_len 4 (le_bytes 4 _)) by done. rewrite le_combine_le_bytes_small by (cbn; lia).
    by apply ztake_app_len. }
  split.
  - exists eq. cbn. split; [done|]. intros d l n. apply list_reads.
  - intros limit _. cbn [zlib_read_to_end FramedZlib]. rewrite Hf. done.
Qed.

#[export] Instance SeqRayon : Rayon :=
  {| current_num_threads := 2; par_collect := fun E A ms => mapM id ms |}.

#[export] Instance SeqRayonLaws : RayonLaws.
Proof.
  split; cbn; [lia| |].
  - intros E A rs. apply mapM_outcome_ok. induction rs; constructor; done.
  - intros E A ms. induction ms as [|m ms IH]; [done|]. cbn. destruct m as [a|e|]; cbn; [|left|left].
    destruct (mapM id ms) as [rs|e|]; cbn; [|by right|by right]. by rewrite IH.
Qed.

#[export] Instance Layout64 : Layout := {| size_of_SectionMeta := 56; size_of_Chunk := 16 |}.

(** A build with overflow checks. *)
#[export] Instance Checked : Profile := true.

(** ** An EWF v1 image: two chunks of four bytes, "disk data" cut to eight bytes *)
(** The body of a volume: chunk, sector and byte counts. *)
Definition volume_body (chunks spc bps sectors : Z) : list byte :=
  le_bytes 4 1 ++ le_bytes 4 chunks ++ le_bytes 4 spc ++ le_bytes 4 bps ++ le_bytes 8 sectors.

Definition chunk0 : list byte := ascii_bytes (str "disk").
Definition chunk1 : list byte := ascii_bytes (str "data").

Definition raw_entry (off : Z) : TableEntry := {| compressed := false; chunk_offset := off |}.

(** The sections: volume at 13, sectors at 113, table at 197, hash at 305, done at 413. *)
Definition disk_e01 : list byte :=
  file_header_bytes Physical 1
  ++ section_bytes (str "volume") 13 (volume_body 2 1 4 2) false
  ++ section_bytes (str "sectors") 113 (chunk0 ++ chunk1) false
  ++ section_bytes (str "table") 197 (table_body 189 [raw_entry 0; raw_entry 4]) false
  ++ section_bytes (str "hash") 305 (md5 (chunk0 ++ chunk1) ++ zeros 16) false
  ++ section_bytes (str "done") 413 [] true.

Definition disk_sources : list SegmentSource := [SrcMem disk_e01].

Definition no_reader : EwfReader :=
  {| r_segments := []; r_chunks := Eager []; r_chunk_size := 1; r_total_size := 0; r_position := 0;
     r_cache := lru_new 1; r_stored_md5 := None; r_stored_sha1 := None;
     r_metadata := metadata_default; r_acquisition_errors := [] |}.

Definition disk_reader : EwfReader :=
  match open_v1 disk_sources 2 None with Ok r => r | _ => no_reader end.

Lemma disk_opens : open_v1 disk_sources 2 None = Ok disk_reader.
Proof. vm_compute. reflexivity. Qed.

(** ** The image behind the reader *)
Definition disk_chunks : list Chunk := match r_chunks disk_reader with Eager v => v | _ => [] end.
Definition disk_image : image := image_of disk_reader disk_chunks.
Definition disk_pages : list (list byte) := [chunk0; chunk1].

Lemma disk_served : Forall served disk_sources.
Proof.
  constructor; [|constructor]. exists disk_e01. apply serves_mem. vm_compute. discriminate.
Qed.

Lemma disk_small : MAX_TABLE_ENTRIES * total_len disk_sources <= u64_max.
Proof. vm_compute. discriminate. Qed.

Lemma disk_presented : image_ok disk_image /\ presents disk_image 0 disk_reader.
Proof.
  destruct (open_presents disk_sources 2 disk_reader disk_served disk_small disk_opens)
    as (v & Hv & Hok & Hr).
  assert (v = disk_chunks) as Heq by (unfold disk_chunks; rewrite Hv; reflexivity).
  rewrite Heq in Hok, Hr. exact (conj Hok Hr).
Qed.

Lemma disk_decodes : all_pages disk_image = Ok disk_pages.
Proof. vm_compute. reflexivity. Qed.

(** ** An EWF v2 image: the same media, its metadata, chunk table and stored MD5 *)
Definition v2_descriptor_bytes (type_id prev size : Z) : list byte :=
  le_bytes 4 type_id ++ zeros 4 ++ le_bytes 8 prev ++ le_bytes 8 size ++ zeros 40.

Definition v2_chunk (bs : list byte) : list byte := bs ++ le_bytes 4 (adler32 bs).

Definition v2_table (offsets : list Z) : list byte :=
  let entries := concat (map (fun off => le_bytes 8 off ++ le_bytes 4 8 ++ zeros 4) offsets) in
  zeros 8 ++ le_bytes 8 (zlen offsets) ++ zeros 16 ++ entries ++ le_bytes 4 (adler32 entries).

(** Chunks at 32 and 40, descriptors at 52, 184 and 264. *)
Definition ex01_with (offsets : list Z) (stored : list byte) : list byte :=
  EVF2_SIGNATURE ++ [byte_of_Z 2; byte_of_Z 1] ++ le_bytes 2 1 ++ le_bytes 4 1 ++ zeros 16
  ++ v2_chunk chunk0 ++ v2_chunk chunk1
  ++ map byte_of_Z [255; 254; 97; 0] ++ v2_descriptor_bytes 2 0 4
  ++ v2_table offsets ++ v2_descriptor_bytes 4 52 68
  ++ stored ++ v2_descriptor_bytes 8 184 16.

Definition disk_ex01 : list byte := ex01_with [32; 40] (md5 (chunk0 ++ chunk1)).


(** ** An acquisition: five sectors in chunks of two, in two segments *)
Definition sector (n : Z) : list byte := repeat (byte_of_Z n) 512.

Definition zlib_chunk (page : list byte) : stored_chunk :=
  {| ck_compressed := true; ck_raw := page; ck_page := page |}.
Definition plain_chunk (page : list byte) : stored_chunk :=
  {| ck_compressed := false; ck_raw := page ++ le_bytes 4 (adler32 page); ck_page := page |}.

Definition five_sectors : acquisition := {|
  aq_sectors_per_chunk := 2;
  aq_bytes_per_sector := 512;
  aq_sector_count := 5;
  aq_segments :=
    [([(str "header", ascii_bytes (str "made by hand"))],
      [zlib_chunk (sector 1 ++ sector 2); plain_chunk (sector 3 ++ sector 4)]);
     ([], [zlib_chunk (sector 5)])];
|}.

(** Two images of an unusual geometry. *)
Definition three_sectors : acquisition := {|
  aq_sectors_per_chunk := 3;
  aq_bytes_per_sector := 512;
  aq_sector_count := 3;
  aq_segments := [([], [zlib_chunk (sector 1 ++ sector 2 ++ sector 3)])];
|}.
Definition long_sector : acquisition := {|
  aq_sectors_per_chunk := 1;
  aq_bytes_per_sector := 2048;
  aq_sector_count := 1;
  aq_segments := [([], [zlib_chunk (sector 1 ++ sector 2 ++ sector 3 ++ sector 4)])];
|}.

(** The two files of [five_sectors], handed over the wrong way round. *)
Definition five_sources : list SegmentSource := reverse (map SrcMem (write_image five_sectors)).

(** The same image after its second chunk was wiped. *)
Definition wiped : acquisition := {|
  aq_sectors_per_chunk := 2;
  aq_bytes_per_sector := 512;
  aq_sector_count := 5;
  aq_segments :=
    [([(str "header", ascii_bytes (str "made by hand"))],
      [zlib_chunk (sector 1 ++ sector 2);
       {| ck_compressed := false; ck_raw := zeros 1028; ck_page := sector 3 ++ sector 4 |}]);
     ([], [zlib_chunk (sector 5)])];
|}.

(** A file that is read in pieces, with interruptions. *)
Definition quiet_file (bytes : list byte) : File :=
  {| file_bytes := bytes; file_schedule := fun _ _ => [OsInterrupted; ShortRead 1];
     file_metadata_len := Some (zlen bytes) |}.

(** ** The same five sectors in an EWF v2 image of two files *)
Definition five_sectors2 : acquisition2 := {|
  a2_sectors_per_chunk := 2;
  a2_bytes_per_sector := 512;
  a2_sector_count := 5;
  a2_set_identifier := zeros 16;
  a2_segments :=
    [([(CaseData, ascii_bytes (str "made by hand"))],
      [zlib_chunk (sector 1 ++ sector 2); plain_chunk (sector 3 ++ sector 4)]);
     ([], [zlib_chunk (sector 5)])];
|}.

(** The files by their place in the list, handed over the wrong way round. *)
Definition five_files2 : list File := map quiet_file (write_image2 five_sectors2).
Definition open_five2 (k : nat) : outcome io_error File := ok_or OtherIo (five_files2 !! k).

(** One plain chunk behind a restart section and without case data. *)
Definition bare_sector2 : acquisition2 := {|
  a2_sectors_per_chunk := 1;
  a2_bytes_per_sector := 512;
  a2_sector_count := 1;
  a2_set_identifier := zeros 16;
  a2_segments := [([(RestartData, zeros 32)], [plain_chunk (sector 7)])];
|}.

(** Half a chunk, stored as a whole page. *)
Definition padded_sector2 : acquisition2 := {|
  a2_sectors_per_chunk := 2;
  a2_bytes_per_sector := 100;
  a2_sector_count := 1;
  a2_set_identifier := zeros 16;
  a2_segments := [([(CaseData, utf16_bytes (str "made by hand"))], [plain_chunk (repeat (byte_of_Z 7) 100 ++ zeros 100)])];
|}.

(** Five sectors with a checksum behind every chunk and framed case data. *)
Definition framed_chunk (page : list byte) : stored_chunk :=
  {| ck_compressed := true; ck_raw := frame page ++ le_bytes 4 (adler32 (frame page)); ck_page := page |}.

Definition checked_sectors2 : acquisition2 := {|
  a2_sectors_per_chunk := 2;
  a2_bytes_per_sector := 512;
  a2_sector_count := 5;
  a2_set_identifier := zeros 16;
  a2_segments :=
    [([(CaseData, frame (utf16_bytes (str "made by hand")))],
      [framed_chunk (sector 1 ++ sector 2); plain_chunk (sector 3 ++ sector 4)]);
     ([], [framed_chunk (sector 5)])];
|}.
