(* ===== verification/Shell.v ===== *)
(** A concrete environment of the commands: a directory of files, a printer and a
    reader of JSON values, and the texts of the standard library, on which the
    witnesses run the commands. *)

From S2P Require Import Prelude Text Json Extern Types Sections Source ChunkTable ReaderOpen Discover Reader Logical.
From S2P Require Import Hex EwfCheck ReportProps Cli CliProps ErrorText Values Mcp McpProps OutputProps Fixtures.

(** ** Texts *)
#[export] Instance AsciiTexts : Texts := {|
  io_text e := str "i/o error";
  inflate_text := str "corrupt deflate stream";
  printable c := (32 <=? c) && (c <=? 126);
|}.

(** ** A directory: names and contents *)
Definition directory : Type := list (text * list byte).

Fixpoint file_of (d : directory) (name : text) : option (list byte) :=
  match d with
  | [] => None
  | (n, bytes) :: d => if text_eqb name n then Some bytes else file_of d name
  end.

Definition quiet (bytes : list byte) : File :=
  {| file_bytes := bytes; file_schedule := fun _ _ => []; file_metadata_len := Some (zlen bytes) |}.

Definition ends_with (suffix t : text) : bool :=
  text_eqb (drop (length t - length suffix) t) suffix.

#[export] Instance Directory : FileSystem directory := {|
  fs_open d name := ok_or OtherIo (quiet <$> file_of d name);
  fs_glob_escape t := t;
  fs_glob d pattern :=
    Some (if ends_with (str "[0-9][0-9]") pattern then map (fun f => Some (fst f)) d else []);
  fs_is_file d name := match file_of d name with Some _ => true | None => false end;
  fs_create d name := None;
  fs_write d name out bytes := None;
  fs_put d name bytes := (name, bytes) :: d;
|}.

(** ** serde_json on a part of the values: a float is printed as zero *)
Definition print_number (n : Number) : text :=
  match n with
  | PosInt n => print_dec n
  | NegInt n => str "-" ++ print_dec (- n)
  | Float _ => str "0.0"
  end.

Definition between (open_ close : Z) (ps : list text) : text := open_ :: join 44 ps ++ [close].

Fixpoint print_value (v : Value) : text :=
  match v with
  | VNull => str "null"
  | VBool b => bool_text b
  | VNumber n => print_number n
  | VString s => quoted (json_escape s)
  | VArray vs => between 91 93 (map print_value vs)
  | VObject ms =>
    between 123 125 (map (fun kv => quoted (json_escape (fst kv)) ++ str ":" ++ print_value (snd kv)) ms)
  end.

Fixpoint value_of (j : json) : Value :=
  match j with
  | JNull => VNull
  | JBool b => VBool b
  | JNum n => vnum n
  | JStr s => VString s
  | JArr js => VArray (map value_of js)
  | JObj ms => object (map (fun kv => (fst kv, value_of (snd kv))) ms)
  end.

#[export] Instance RefSerde : SerdeJson := {|
  from_str s := match read_json s with Some j => inr (value_of j) | None => inl (str "not JSON") end;
  to_string := print_value;
  to_string_pretty := print_value;
|}.

Abbreviation plain_text t := (Forall (fun c => 32 <= c) t).

Lemma plain_digits radix fuel n acc : 0 < radix -> plain_text acc -> plain_text (print_digits fuel radix n acc).
Proof.
  intros Hr. revert n acc. induction fuel as [|fuel IH]; intros n acc Ha; [done|]. cbn [print_digits].
  assert (plain_text (digit_char (n mod radix) :: acc)) as Ha'.
  { constructor; [|done]. pose proof (Z.mod_pos_bound n radix Hr). unfold digit_char. destruct (_ <? _); lia. }
  destruct (_ =? 0); [done|by apply IH].
Qed.

Lemma plain_str s : forallb (fun c => 32 <=? c) (str s) = true -> plain_text (str s).
Proof. intros Hs. apply Forall_forall. intros c Hc. rewrite forallb_forall in Hs. apply Z.leb_le, Hs. by apply list_elem_of_In. Qed.

Lemma plain_escape s : plain_text (json_escape s).
Proof.
  unfold json_escape. apply Forall_concat, List.Forall_map, Forall_true. intros c. unfold escape_char.
  repeat match goal with |- context [if c =? ?k then _ else _] => destruct (c =? k); [by repeat constructor|] end.
  destruct (c <? 32) eqn:E; bool_hyps; [|by repeat constructor].
  unfold unicode_escape. constructor; [unfold backslash; lia|]. constructor; [lia|]. apply Forall_app.
  split; [apply Forall_replicate; lia|]. by apply plain_digits.
Qed.

Lemma plain_quoted t : plain_text t -> plain_text (quoted t).
Proof. intros Ht. constructor; [unfold quote; lia|]. apply Forall_app. split; [done|by repeat constructor]. Qed.

Lemma plain_between a b ps : 32 <= a -> 32 <= b -> Forall (fun p => plain_text p) ps -> plain_text (between a b ps).
Proof.
  intros Ha Hb Hps. constructor; [done|]. apply Forall_app. split; [|by repeat constructor].
  induction Hps as [|p ps Hp Hps IH]; [constructor|]. destruct ps as [|q ps]; [done|]. cbn [join].
  apply Forall_app. split; [done|]. constructor; [lia|done].
Qed.

Lemma print_value_plain : forall v, plain_text (print_value v).
Proof.
  fix IH 1. intros [|b|n|s|vs|ms]; cbn [print_value].
  - by apply plain_str.
  - by destruct b; apply plain_str.
  - destruct n as [n|n|bits]; cbn [print_number]; [|apply Forall_app; split; [by apply plain_str|]|by apply plain_str];
      by apply plain_digits.
  - apply plain_quoted, plain_escape.
  - apply plain_between; [done|done|]. induction vs as [|v vs IHv]; constructor; [apply IH|exact IHv].
  - apply plain_between; [done|done|]. induction ms as [|[k v] ms IHm]; constructor; [|exact IHm].
    apply Forall_app. split; [apply plain_quoted, plain_escape|]. apply Forall_app.
    split; [by apply plain_str|apply IH].
Qed.

#[export] Instance RefSerdeLaws : SerdeJsonLaws.
Proof. split. exact print_value_plain. Qed.

(** ** The image of [Fixtures] in the directory *)
Definition home : directory := [(str "./disk.E01", disk_e01)].

Definition home_reader : EwfReader :=
  match open_v1 [SrcFile (quiet disk_e01)] DEFAULT_LRU_SIZE None with Ok r => r | _ => no_reader end.

Lemma home_opens : open_in home (str "disk.E01") = Ok home_reader.
Proof. vm_compute. reflexivity. Qed.

Definition home_image : image := image_of home_reader disk_chunks.

Lemma home_presented : image_ok home_image /\ presents home_image 0 home_reader.
Proof.
  assert (open_v1 [SrcFile (quiet disk_e01)] DEFAULT_LRU_SIZE None = Ok home_reader) as Hopen by (vm_compute; reflexivity).
  destruct (open_presents [SrcFile (quiet disk_e01)] DEFAULT_LRU_SIZE home_reader) as (v & Hv & Hok & Hr).
  - constructor; [|constructor]. exists disk_e01. apply (serves_file (quiet disk_e01)).
    + intros off n. constructor.
    + reflexivity.
    + vm_compute. discriminate.
  - vm_compute. discriminate.
  - exact Hopen.
  - assert (v = disk_chunks) as Heq.
    { assert (r_chunks home_reader = Eager disk_chunks) as Hd by (vm_compute; reflexivity). congruence. }
    rewrite Heq in Hok, Hr. exact (conj Hok Hr).
Qed.

Lemma home_whole : whole home_image disk_pages.
Proof. split; [exact (proj1 home_presented)|vm_compute; reflexivity|vm_compute; discriminate|vm_compute; discriminate]. Qed.
