(* ===== verification/Witnesses.v ===== *)
(** Every property at a concrete input where its hypotheses hold, with the external
    code and the images of [Fixtures]; then the findings at concrete inputs. *)

From stdpp Require Import gmap.
From S2P Require Import Prelude Text Extern Types Sections Ewf2 Parse Source ChunkTable.
From S2P Require Import ReaderOpen Resident Path Discover Reader Concurrent LazyOpen Hex Logical LogicalRead Ltree Anomaly.
From S2P Require Import IntegrityV1 IntegrityV1Props IntegrityV2 Integrity IntegrityProps.
From S2P Require Import IntegrityApi Recover RecoverProps EwfCheck EwfCheckProps Json Report ReportProps Cli CliProps LtreeList.
From S2P Require Import Vfs Acquire Stored AcquireV2 AcquireV2Read AcquireV2Check AcquireRead AcquireCheck AcquireRecover Fixtures.

(** Close a bound or an equation on closed terms by evaluation. *)
Ltac eval_fact := vm_compute; first [reflexivity | discriminate | done].
Ltac eval_range := split; eval_fact.

(** * The on-disk structures *)

Lemma descriptor_roundtrip_witness :
  exists d, SectionDescriptor_parse (descriptor_bytes (ascii_bytes (str "volume")) 113 100 0) 13 = Ok d /\
            next d = 113.
Proof.
  destruct (descriptor_roundtrip (ascii_bytes (str "volume")) 113 100 0 13) as (d & Hd & _ & Hn & _).
  - split; [eval_fact|]. repeat (constructor; [discriminate|]). constructor.
  - eval_range.
  - eval_range.
  - eval_range.
  - exists d. split; [exact Hd|exact Hn].
Defined.

Definition disk_volume : EwfVolume :=
  {| chunk_count := 2; sectors_per_chunk := 1; bytes_per_sector := 4; sector_count := 2;
     media_type := 1; set_identifier := zeros 16; vol_stored_crc := None |}.

Lemma volume_sizes_total_witness :
  EwfVolume_parse (volume_body 2 1 4 2) = Ok disk_volume /\
  EwfVolume_chunk_size (E:=ewf_error) disk_volume = Ok 4.
Proof.
  assert (EwfVolume_parse (volume_body 2 1 4 2) = Ok disk_volume) as Hv by (vm_compute; reflexivity).
  split; [exact Hv|]. exact (proj1 (volume_sizes_total _ _ Hv)).
Defined.

Lemma table_entry_roundtrip_witness :
  TableEntry_parse (table_entry_bytes {| compressed := true; chunk_offset := 189 |} ++ zeros 2)
  = Ok {| compressed := true; chunk_offset := 189 |}.
Proof. apply table_entry_roundtrip. eval_range. Defined.

Lemma chunk_packing_witness : Chunk_offset (Chunk_set_size (Chunk_new 1 true 189 4) 8) = 189.
Proof.
  destruct (chunk_packing 1 true 189 4 8) as (H1 & _ & _ & _ & H2 & _);
    [eval_range|eval_range|eval_range|eval_range|].
  rewrite H2, H1. reflexivity.
Defined.

Definition v2_section : Ewf2SectionDescriptor :=
  {| v2_section_type := SectorTable; data_flags := 1; previous_offset := 0; data_size := 32;
     descriptor_size := 64; padding_size := 0; data_integrity_hash := zeros 16; v2_offset := 32 |}.

Lemma v2_section_wf : ewf2_descriptor_wf v2_section.
Proof. repeat split; eval_fact. Qed.

Lemma ewf2_descriptor_roundtrip_witness :
  Ewf2SectionDescriptor_parse (ewf2_descriptor_bytes v2_section ++ []) 32 = Ok v2_section.
Proof. exact (ewf2_descriptor_roundtrip v2_section [] v2_section_wf). Defined.

Definition case_metadata : EwfMetadata :=
  {| case_number := Some (str "2024-7"); evidence_number := None; description := Some (str "a disk");
     examiner := Some (str "K. O."); notes := None; acquiry_software := None; os_version := None;
     acquiry_date := None; system_date := None |}.

Ltac value_ok :=
  split; [discriminate|]; split_and!; apply (bool_decide_unpack _); vm_compute; exact I.

Lemma header_text_roundtrip_witness :
  Parse.parse_header_text (header_text case_metadata) metadata_default = case_metadata.
Proof.
  apply header_text_roundtrip. unfold metadata_wf.
  repeat (apply Forall_cons_2; [first [exact I | value_ok]|]). apply Forall_nil_2.
Defined.

Lemma error2_parse_spec_witness :
  parse_error2_data (error2_bytes [{| first_sector := 8; sector_count_err := 2 |}] ++ zeros 4)
  = [{| first_sector := 8; sector_count_err := 2 |}].
Proof.
  apply error2_parse_spec; [|eval_fact]. constructor; [split; eval_range|constructor].
Defined.

(** * Segments and chunk tables *)

Lemma quiet_reliable bytes : file_reliable (quiet_file bytes).
Proof. intros off n. repeat (constructor; [exact I|]). constructor. Qed.

Lemma segment_sources_agree_witness :
  SegmentSource_read_at (SrcSub (quiet_file (chunk0 ++ chunk1 ++ chunk0)) 4 4) 3 1
  = Ok (ztake 3 (zdrop 1 chunk1)).
Proof.
  refine (proj1 (proj2 (segment_sources_agree (quiet_file chunk1) (quiet_file (chunk0 ++ chunk1 ++ chunk0))
    chunk0 chunk1 chunk0 3 1 (quiet_reliable _) eq_refl (quiet_reliable _) eq_refl _ _ _))).
  - eval_fact.
  - eval_fact.
  - eval_range.
Defined.

Lemma validate_and_reorder_spec_witness :
  validate_and_reorder_segments [str "b"; str "a"] [2; 1] = Ok [str "a"; str "b"].
Proof.
  destruct (validate_and_reorder_spec [str "b"; str "a"] [2; 1] eq_refl ltac:(eval_fact)
              [str "a"; str "b"]) as [[_ Hok] _].
  apply Hok. split; [reflexivity|]. vm_compute. apply Permutation_swap.
Defined.

Definition disk_entries : list byte := table_entry_bytes (raw_entry 0) ++ table_entry_bytes (raw_entry 4).

Lemma parse_table_section_spec_witness :
  parse_table_section disk_entries 2 189 0 4 (Some 197) = Ok disk_chunks.
Proof.
  etransitivity; [apply parse_table_section_spec; eval_fact|]. vm_compute. reflexivity.
Defined.

Definition disk_meta : SectionMeta :=
  {| first_chunk_id := 0; meta_entry_count := 2; entries_file_offset := 297; meta_base_offset := 189;
     segment_idx := 0; ChunkTable.sectors_data_end := Some 197 |}.

Definition disk_lazy : LazyChunkTable :=
  match LazyChunkTable_new [disk_meta] 4 1 with
  | Ok t => t
  | _ => {| lazy_index := []; lazy_len := 0; lazy_chunk_size := 0; lazy_cache := lru_new 1 |}
  end.

Lemma disk_stored : Forall2 (section_stored [disk_e01] 4) [disk_meta] [disk_chunks].
Proof.
  constructor; [|constructor]. split; [eval_fact|]. split; [eval_fact|].
  exists disk_e01, disk_entries. split_and!; eval_fact.
Qed.

Lemma lazy_refines_eager_witness :
  gets disk_sources [1; 0; 5; 1] (Lazy disk_lazy) = gets disk_sources [1; 0; 5; 1] (Eager (concat [disk_chunks])).
Proof.
  eapply (lazy_refines_eager disk_sources [disk_e01] [disk_meta] [disk_chunks] 4 1).
  - constructor; [|constructor]. apply serves_mem. eval_fact.
  - repeat split; eval_fact.
  - exact disk_stored.
  - vm_compute. reflexivity.
  - repeat (constructor; [eval_fact|]). constructor.
Defined.

Lemma resident_bounded_witness :
  returns (fun n => 0 <= n <= 88)
    (ChunkTable_resident_table_bytes (after_gets disk_sources [1; 0; 5; 1] (Lazy disk_lazy))).
Proof.
  assert (LazyChunkTable_new [disk_meta] 4 1 = Ok disk_lazy) as Hnew by (vm_compute; reflexivity).
  destruct (resident_bounded disk_sources [disk_meta] 4 1 2 [1; 0; 5; 1] disk_lazy Hnew) as [Hlazy _].
  - constructor; [eval_range|constructor].
  - eval_fact.
  - eval_fact.
  - eval_fact.
  - eval_fact.
  - eval_fact.
  - eapply returns_weaken; [exact Hlazy|]. intros n Hn. exact Hn.
Defined.

(** * Opening and reading *)

Lemma open_v1_safe_witness :
  returns (fun r => reader_wf r /\ r_segments r ≡ₚ disk_sources) (open_v1 disk_sources 2 (Some 1)).
Proof. exact (open_v1_safe disk_sources 2 (Some 1) disk_served disk_small). Defined.

Definition v2_file : File := quiet_file (zeros 32 ++ ewf2_descriptor_bytes v2_section).

Lemma collect_ewf2_spec_witness :
  collect_ewf2_descriptors v2_file (zlen (file_bytes v2_file)) = Ok [v2_section].
Proof.
  apply (collect_ewf2_spec v2_file [v2_section] (quiet_reliable _)); [eval_fact|eval_fact|].
  split; [|repeat constructor; apply not_elem_of_nil].
  apply (bc_first _ v2_section); [|reflexivity].
  exists (ewf2_descriptor_bytes v2_section). split; vm_compute; reflexivity.
Defined.

Lemma read_at_spec_witness :
  exists r', read_at 5 2 disk_reader = (read_spec disk_image 5 2, r') /\
             presents disk_image 0 r'.
Proof.
  destruct (read_at_spec disk_image 0 disk_reader 5 2 (proj1 disk_presented) (proj2 disk_presented))
    as (r' & Hr & Hp & _); [eval_fact|eval_range|].
  exists r'. exact (conj Hr Hp).
Defined.

(** Two threads that take turns, each giving way at every lock and access. *)
Definition two_reads : list call := [ReadAt 5 2; ReadAt 4 0].
Definition race : list nat := concat (repeat [0; 1]%nat 40).

Lemma concurrent_reads_witness :
  let m := run_schedule race (spawn disk_reader two_reads) in
  presents disk_image 0 (sh_reader (pl_shared m)) /\
  map returned (pl_threads m) = [Some (Ok (ascii_bytes (str "skdat"))); Some (Ok chunk0)] /\
  call_spec disk_image (ReadAt 5 2) = Ok (ascii_bytes (str "skdat")).
Proof.
  intros m.
  destruct (concurrent_reads disk_image 0 disk_reader two_reads m (proj1 disk_presented) (proj2 disk_presented))
    as (Hr & _ & Hret); [repeat (constructor; [split; [eval_fact|eval_range]|]); constructor| |].
  - exact (run_schedule_steps race _).
  - split; [exact Hr|]. split; [vm_compute; reflexivity|].
    destruct (pl_threads m !! 0%nat) as [p|] eqn:Hp; [|vm_compute in Hp; discriminate Hp].
    destruct (Hret 0%nat p (ReadAt 5 2) (Ok (ascii_bytes (str "skdat"))) Hp eq_refl) as (_ & He & _);
      [|symmetry; exact He].
    vm_compute in Hp. injection Hp as <-. reflexivity.
Defined.

(** A thread waits for the lock the other holds, and both return in the end. *)
Lemma no_deadlock_witness :
  thread_step 1 (call_steps disk_reader (ReadAt 4 0))
    (pl_shared (run_schedule [0%nat] (spawn disk_reader two_reads))) = None /\
  exists m', rtc step (run_schedule [0%nat] (spawn disk_reader two_reads)) m' /\
             Forall (fun p => returned p <> None) (pl_threads m').
Proof.
  split; [vm_compute; reflexivity|].
  assert (exists n, nsteps step n (spawn disk_reader two_reads)
            (run_schedule [0%nat] (spawn disk_reader two_reads))) as [n Hn]
    by (apply rtc_nsteps, run_schedule_steps).
  apply (no_deadlock disk_reader two_reads n).
  - split; eval_fact.
  - repeat (constructor; [split; [eval_fact|eval_range]|]). constructor.
  - exact Hn.
Defined.

Lemma parallel_verify_witness :
  exists m r', verify_threads 3 0 (chunk_count_of disk_reader) 2 [] 0 disk_reader m r' /\
    m = fst (verify_batches 3 0 (chunk_count_of disk_reader) 2 [] 0 disk_reader) /\
    m = Ok (chunk0 ++ chunk1).
Proof.
  destruct (parallel_verify disk_image 0 3 2 disk_reader (proj1 disk_presented) (proj2 disk_presented))
    as [(m & r' & Hm) Heq]; [eval_fact|].
  destruct (Heq m r' Hm) as [He _]. exists m, r'. split; [exact Hm|]. split; [exact He|].
  rewrite He. vm_compute. reflexivity.
Defined.

Lemma verify_spec_witness :
  exists v, fst (verify disk_reader) = Ok v /\ md5_match v = Some true.
Proof.
  destruct (verify_spec disk_image 0 disk_reader (proj1 disk_presented) (proj2 disk_presented))
    as (m & r' & Hv & _ & Hm); [eval_fact|].
  assert (fst (verify disk_reader) = m) as Heq by (rewrite Hv; reflexivity).
  rewrite Heq. destruct m as [v|e|].
  - exists v. split; [reflexivity|]. destruct Hm as (pages & Hp & ->).
    rewrite disk_decodes in Hp. injection Hp as <-. vm_compute. reflexivity.
  - exfalso. destruct Hm as (id_ & [H1 H2] & He).
    assert (all_pages disk_image = Ok disk_pages) as Hd by exact disk_decodes.
    apply mapM_outcome_ok in Hd. destruct (Forall2_in_l _ _ _ id_ Hd) as (page & Hpage).
    { apply elem_of_seqZ. rewrite Z.sub_0_r. split; [exact H1|exact H2]. }
    rewrite He in Hpage. discriminate Hpage.
  - destruct Hm.
Defined.

Lemma disk_whole : whole disk_image disk_pages.
Proof. split; [exact (proj1 disk_presented)|exact disk_decodes|eval_fact|eval_fact]. Qed.

Lemma cursor_reads_media_witness :
  exists r', (_ ← reader_seek (Start 2); read_all [3; 10]) disk_reader
             = (Ok (ztake 13 (zdrop 2 (media disk_image disk_pages))), r').
Proof.
  destruct (cursor_reads_media disk_image disk_pages 0 2 [3; 10] disk_reader) as (r' & Hrun & _).
  - exact (proj1 disk_presented).
  - exact disk_decodes.
  - eval_fact.
  - eval_fact.
  - exact (proj2 disk_presented).
  - eval_fact.
  - eval_fact.
  - repeat (apply Forall_cons_2; [eval_fact|]). apply Forall_nil_2.
  - exists r'. exact Hrun.
Defined.

Lemma read_after_open_witness :
  exists v, r_chunks disk_reader = Eager v /\
            fst (read_at 4 6 disk_reader) = read_spec (image_of disk_reader v) 4 6.
Proof.
  destruct (read_after_open disk_sources 2 disk_reader 4 6 disk_served disk_small disk_opens)
    as (v & Hv & Hr & _); [eval_fact|eval_range|].
  exists v. exact (conj Hv Hr).
Defined.

Lemma open_lazy_agrees_witness :
  exists r', open_v1 disk_sources 2 (Some 1) = Ok r' /\ chunk_count_of disk_reader <= chunk_count_of r'.
Proof.
  destruct (open_lazy_agrees disk_sources 2 1 disk_reader disk_served disk_small disk_opens) as (r' & Hrun & Hle & _);
    [eval_fact|].
  exists r'. exact (conj Hrun Hle).
Defined.

Lemma vfs_presents_media_witness :
  exists r', source_read_at 2 4 disk_reader = (Ok (ascii_bytes (str "skda")), r').
Proof.
  destruct disk_presented as [Hok Hr]. pose proof disk_decodes as Hp.
  destruct (vfs_presents_media disk_image 0 Hok) as [_ Hm].
  assert (im_total_size disk_image <= im_chunk_size disk_image * im_count disk_image) as Hcov by eval_fact.
  destruct (pm_read _ _ (Hm disk_pages Hp Hcov) disk_reader 2 4 Hr) as (r' & Hrun & _); [eval_fact|eval_range|].
  exists r'. rewrite Hrun. apply (f_equal (fun bs => (Ok bs, r'))). vm_compute. reflexivity.
Defined.

(** * Logical containers *)

Lemma segment_ext_spec_witness : segment_ext 76 775 <> segment_ext 76 774.
Proof.
  destruct (segment_ext_spec 76 775 774) as (_ & Hinj & _); [eval_fact|eval_fact|].
  intros Heq. assert (775 = 774) as Hc by (apply Hinj; [exact Heq|eval_range]). discriminate Hc.
Defined.

Definition two_extents : list Extent :=
  [{| ext_offset := 2; ext_size := 4; ext_sparse := false |};
   {| ext_offset := 0; ext_size := 3; ext_sparse := true |}].

Lemma two_extents_wf : Forall extent_wf two_extents.
Proof. repeat (apply Forall_cons_2; [split; eval_range|]). apply Forall_nil_2. Qed.

Lemma extents_roundtrip_witness : parse_binary_extents (extents_text two_extents) = Ok two_extents.
Proof. apply extents_roundtrip; [exact two_extents_wf|eval_fact]. Defined.

(** A directory with one file whose four bytes are at 2 in the media. *)
Definition ltree_text : text :=
  concat (map (fun l => l ++ [newline])
    [str "entry"; str "x"; join tab [str "p"; str "n"; str "ls"; str "be"];
     join tab [str "0"; str "1"]; [];
     join tab [str "0"; str "1"]; join tab [str "1"; str "docs"; str "0"; []];
     join tab [str "0"; str "0"]; join tab [[]; str "a.txt"; str "4"; str "1 2 4"]]).

Definition ltree : LogicalTree :=
  match parse_entry_tree ltree_text with
  | Ok t => t
  | _ => {| entries := []; indicators := []; warnings := [] |}
  end.

Lemma ltree_parsed : parse_entry_tree ltree_text = Ok ltree.
Proof. vm_compute. reflexivity. Qed.

Definition file_entry : LogicalEntry :=
  default (make_entry ∅ None) (get (entries ltree) 1).

Lemma read_entry_spec_witness :
  exists m', read_entry ltree 1 disk_reader = (Ok (ztake 4 (zdrop 2 (chunk0 ++ chunk1))), m').
Proof.
  destruct (@read_entry_spec _ _ _ _ _ _ (reader_media_laws disk_image disk_pages
      (proj1 disk_presented) disk_decodes ltac:(eval_fact) ltac:(eval_fact))
    ltree 1 file_entry [{| ext_offset := 2; ext_size := 4; ext_sparse := false |}] disk_reader)
    as (m' & _ & Hm).
  - vm_compute. reflexivity.
  - vm_compute. reflexivity.
  - vm_compute. reflexivity.
  - apply Forall_cons_2; [split; eval_range|apply Forall_nil_2].
  - eval_fact.
  - eval_range.
  - exists 0. exact (proj2 disk_presented).
  - exists m'. exact Hm.
Defined.

Lemma full_path_spec_witness : full_path (entries ltree) 1 = Ok (str "docs/a.txt").
Proof.
  destruct (full_path_spec ltree_text ltree 1 ltree_parsed) as [Hp _]; [eval_range|].
  etransitivity; [exact Hp|]. vm_compute. reflexivity.
Defined.

Lemma parse_entry_tree_typed_witness : 2 * zlen (entries ltree) <= zlen (tree_lines ltree_text).
Proof. exact (proj2 (proj2 (parse_entry_tree_typed ltree_text ltree ltree_parsed))). Defined.

(** Two trees: a directory with a file and a file beside it, in a text with CR LF. *)
Definition two_trees : document :=
  {| d_eol := [carriage_return]; d_before := [str "1"]; d_count := [str "3"; str "1"];
     d_names := [str "p"; str "n"; str "ls"; str "id"]; d_root := [[]; []; []; []];
     d_forest := [Node [str "1"; str "docs"; str "0"; str "1"] [Node [[]; str "a.txt"; str "4"; str "2"] []];
                  Node [[]; str "b"; str "9"; str "3"] []];
     d_after := [[]] |}.

Ltac eval_decided := apply (bool_decide_unpack _); vm_compute; exact I.

Lemma two_trees_ok : document_ok two_trees.
Proof.
  constructor.
  - right. reflexivity.
  - split; eval_decided.
  - eval_decided.
  - split_and!; eval_decided.
  - discriminate.
  - split; [|eval_fact].
    repeat first [apply Forall_nil_2 | apply Forall_cons_2 | apply node_ok_intro
                 | split_and!; [discriminate|reflexivity|eval_decided|eval_fact] | eval_fact].
  - eval_decided.
Qed.

Lemma ltree_roundtrip_witness :
  parse_entry_tree (document_text two_trees) = Ok (document_tree two_trees).
Proof. exact (proj2 (ltree_roundtrip two_trees two_trees_ok)). Defined.

Definition two_trees_header : LtreeHeader :=
  let body := utf16_bytes (document_text two_trees) in
  {| data_md5 := md5 body; ltree_data_size := zlen body; checksum := 0 |}.

Lemma ltree_listed_witness :
  exists s, list_ltree (Ok (two_trees_header, utf16_bytes (document_text two_trees))) false = Ok s /\
  ls_paths s = [str "docs"; str "docs/a.txt"; str "b"] /\ ls_verified s = true.
Proof.
  eexists. split; [|split].
  - apply (ltree_listed two_trees two_trees_header two_trees_ok). eval_fact.
  - vm_compute. reflexivity.
  - vm_compute. reflexivity.
Defined.

(** * Integrity *)

Lemma disk_short : short_enough [disk_e01].
Proof. apply Forall_cons_2; [eval_fact|apply Forall_nil_2]. Qed.
Lemma ex01_short : short_enough [disk_ex01].
Proof. apply Forall_cons_2; [eval_fact|apply Forall_nil_2]. Qed.

Definition one_reference : expected_hashes :=
  {| expected_md5 := Some (zeros 16); expected_sha1 := None; expected_sha256 := None |}.

Lemma analyse_ewf1_safe_witness :
  exists es, analyse_all_ewf1 [disk_e01] one_reference [] = (Ok tt, es) /\
             analyse_all_ewf1_with_progress [disk_e01] one_reference [] = (Ok tt, es).
Proof. exact (proj1 (analyse_ewf1_safe [disk_e01] one_reference disk_short)). Defined.

Definition disk_hashes : ComputedHashes := digests_of (chunk0 ++ chunk1).

Lemma hash_verdict_v1_witness :
  exists es, Forall internal es /\
    snd (analyse_all_ewf1 [disk_e01] one_reference []) =
    es ++ [Issue (ExternalMd5Mismatch (hash_md5 disk_hashes) (zeros 16))].
Proof.
  destruct (hash_verdict_v1 [disk_e01] disk_hashes disk_short) as (es & Hes & Hrun).
  - vm_compute. reflexivity.
  - exists es. split; [exact Hes|]. etransitivity; [exact (Hrun one_reference)|].
    vm_compute. reflexivity.
Defined.

Lemma analyse_ewf2_spec_witness :
  exists es, Forall internal es /\
    analyse_all_ewf2_impl [disk_ex01] one_reference [] =
    (Ok tt, es ++ [Issue (ExternalMd5Mismatch (hash_md5 disk_hashes) (zeros 16))]).
Proof.
  destruct (analyse_ewf2_spec [disk_ex01] ex01_short) as (es & computed & Hes & Hc & Hrun).
  exists es. split; [exact Hes|]. etransitivity; [exact (Hrun one_reference)|].
  assert (Ok (E:=Empty_set) computed = Ok (Some disk_hashes)) as Heq.
  { etransitivity; [symmetry; exact Hc|]. vm_compute. reflexivity. }
  injection Heq as ->. reflexivity.
Defined.

Lemma ewf2_hashing_agrees_witness :
  value (verify_ewf2_sector_data disk_ex01 116 184 None None None) = Some (Some disk_hashes).
Proof. apply ewf2_hashing_agrees; eval_fact. Defined.

Definition disk_checker : EwfIntegrity := {| segments := [disk_e01]; expected := one_reference |}.

Lemma analyse_contract_witness :
  exists issues, analyse disk_checker = Ok issues /\
    external_of issues = [ExternalMd5Mismatch (hash_md5 disk_hashes) (zeros 16)].
Proof.
  destruct (analyse_contract disk_checker disk_short) as (issues & snaps & o & Ha & _ & Hc & Hex).
  exists issues. split; [exact Ha|].
  assert (Ok (E:=Empty_set) o = Ok (Some disk_hashes)) as Heq.
  { etransitivity; [symmetry; exact Hc|]. vm_compute. reflexivity. }
  injection Heq as ->. etransitivity; [exact (Hex disk_hashes eq_refl)|]. vm_compute. reflexivity.
Defined.

Definition one_disk (p : text) : outcome io_error (list byte) :=
  if text_eqb p (str "disk.E01") then Ok disk_e01 else Err OtherIo.

Definition disk_path_checker : EwfIntegrityPath :=
  {| ip_segment_paths := [str "disk.E01"]; ip_expected := no_expected |}.

Lemma disk_mapped : Forall2 (fun p d => one_disk p = Ok d) [str "disk.E01"] [disk_e01].
Proof. constructor; [reflexivity|constructor]. Qed.

Lemma path_analysis_spec_witness :
  exists issues o, path_analyse one_disk disk_path_checker = Ok issues /\
    analyse_and_compute_hashes one_disk disk_path_checker = Ok (issues, default zero_hashes o).
Proof.
  destruct (path_analysis_spec one_disk disk_path_checker [disk_e01] disk_mapped disk_short)
    as (issues & snaps & o & Ha & _ & _ & Hb & _).
  exists issues, o. exact (conj Ha Hb).
Defined.

(** * Recovery *)

Definition no_fault : list byte -> list byte -> option io_error := fun _ _ => None.

Lemma disk_mappable : mappable [disk_e01].
Proof. apply Forall_cons_2; [eval_fact|apply Forall_nil_2]. Qed.

Lemma no_os_fault e : ~ os_fault no_fault None None e.
Proof. by intros [?|[?|(? & ? & ?)]]. Qed.

Lemma disk_plans : exists p, plan_recovery [disk_e01] = Ok p /\ pl_visited p = 2.
Proof. vm_compute. eexists. split; reflexivity. Qed.

Lemma recover_spec_witness :
  exists p r out, plan_recovery [disk_e01] = Ok p /\
    recover_segments no_fault None None [disk_e01] [] = (Ok r, out) /\ accounted p r out.
Proof.
  destruct disk_plans as (p & Hp & _). exists p.
  pose proof (recover_spec no_fault None None [disk_e01] disk_mappable) as Hrun. rewrite Hp in Hrun.
  destruct (recover_segments no_fault None None [disk_e01] []) as [[r|e|] out].
  - exists r, out. split; [exact Hp|]. split; [reflexivity|exact Hrun].
  - exfalso. destruct e; try contradiction. exact (no_os_fault _ Hrun).
  - contradiction.
Defined.

Lemma disk_recovers p :
  plan_recovery [disk_e01] = Ok p ->
  recovery_plan_ok p /\
  exists r out, recover_segments no_fault None None [disk_e01] [] = (Ok r, out) /\ accounted p r out.
Proof.
  intros Hp. pose proof (plan_recovery_returns [disk_e01] disk_mappable) as Hok. rewrite Hp in Hok.
  split; [exact Hok|].
  pose proof (recover_writes no_fault None None [disk_e01] p Hok Hp []) as Hw.
  destruct (recover_segments no_fault None None [disk_e01] []) as [[r|e|] out].
  - destruct Hw as (bs & -> & Hr). exists r, bs. exact (conj eq_refl Hr).
  - exfalso. destruct e; try contradiction. exact (no_os_fault _ Hw).
  - contradiction.
Qed.

Lemma recovered_block_local_witness :
  exists p r out, accounted p r out /\
    slice out (1 * pl_chunk_size p) (Z.min (pl_image_size p) ((1 + 1) * pl_chunk_size p)) =
    Some (block (pl_segments p) (pl_chunk_size p) (pl_image_size p) 1).
Proof.
  destruct disk_plans as (p & Hp & Hv). destruct (disk_recovers p Hp) as (Hok & r & out & _ & Hac).
  exists p, r, out. split; [exact Hac|].
  apply (recovered_block_local p r out 1 Hok Hac). rewrite Hv. eval_range.
Defined.

(** * Discovery, printing and the commands *)

Definition two_disks : text -> option (list (option text)) := fun pattern =>
  if text_eqb pattern (str "./disk.[Ee][0-9][0-9]")
  then Some [Some (str "./disk.e02"); None; Some (str "./disk.E01")] else Some [].

Lemma discover_segments_sorted_witness :
  exists l, Discover.discover_segments id two_disks (str "disk.E01") = Ok l /\ l <> [].
Proof.
  exists [str "./disk.E01"; str "./disk.e02"].
  assert (Discover.discover_segments id two_disks (str "disk.E01") =
          Ok [str "./disk.E01"; str "./disk.e02"]) as Hrun by (vm_compute; reflexivity).
  split; [exact Hrun|]. exact (proj1 (discover_segments_sorted _ _ _ _ Hrun)).
Defined.

Lemma hex_fixed_roundtrip_witness : parse_hex_fixed 4 (hex_string chunk0) = Ok chunk0.
Proof. apply hex_fixed_roundtrip. reflexivity. Defined.

Lemma pattern_roundtrip_witness : parse_pattern (hex_string chunk0) = Ok chunk0.
Proof. apply pattern_roundtrip. discriminate. Defined.

Lemma json_escape_roundtrip_witness :
  json_unescape (json_escape [34; 92; 7; 8364]) = Some [34; 92; 7; 8364].
Proof. apply json_escape_roundtrip. repeat (constructor; [discriminate|]). constructor. Defined.

Definition disk_options : options :=
  {| min_severity := Info; json_mode := false; print_hashes := true; show_progress := true;
     hash_md5_opt := Some (zeros 16); hash_sha1_opt := None; hash_sha256_opt := None;
     paths := [str "disk.E01"] |}.

Lemma disk_options_mapped :
  Forall2 (fun p d => one_disk p = Ok d)
    (ip_segment_paths (checker_of (fun _ => false) (paths disk_options))) [disk_e01].
Proof. constructor; [reflexivity|constructor]. Qed.

(** An image that calls one of its sections by the name: quote, 1, backslash. *)
Definition odd_report : run_end := Report [UnknownSectionType 13 [34; 1; 92]; HashSectionMissing] None.

Definition json_options : options :=
  {| min_severity := Low; json_mode := true; print_hashes := false; show_progress := false;
     hash_md5_opt := None; hash_sha1_opt := None; hash_sha256_opt := None; paths := [str "disk.E01"] |}.

Lemma json_output_spec_witness :
  exists out, stdout (fun _ => []) json_options odd_report = Some out /\
    read_json out = Some (report_value [UnknownSectionType 13 [34; 1; 92]; HashSectionMissing] None 1).
Proof.
  eexists. split; [reflexivity|].
  apply (json_output_spec (fun _ => []) json_options odd_report _ eq_refl eq_refl).
  - repeat constructor; discriminate.
  - discriminate.
Defined.

Lemma ewf_check_exit_witness :
  exists r, run_options (fun _ => false) one_disk disk_options = Ok r /\
            (exit_code r = 0 \/ exit_code r = 1).
Proof.
  destruct (ewf_check_exit (fun _ => false) one_disk disk_options [disk_e01] disk_options_mapped disk_short)
    as (issues & hashes & _ & Hrun & Hexit).
  eexists. split; [exact Hrun|]. destruct Hexit as [[He _]|[He _]]; [left|right]; exact He.
Defined.

(** * The written image *)

(** An acquisition has its shape, by evaluation. *)
Ltac eval_shape :=
  split;
  [split_and!; eval_fact|split; eval_fact|repeat constructor; eval_fact
  |apply (bool_decide_unpack _); vm_compute; exact I|split; eval_fact|repeat constructor; eval_fact|split; eval_fact
  |repeat constructor; apply (bool_decide_unpack _); vm_compute; exact I|repeat constructor; eval_fact|eval_fact].

Lemma five_sectors_ok : acquisition_ok five_sectors.
Proof.
  split; [eval_shape|]. repeat constructor; try eval_fact; apply id_inflates.
Qed.

Lemma five_served : Forall2 serves (map SrcMem (write_image five_sectors)) (write_image five_sectors).
Proof.
  assert (Forall (fun bs => zlen bs <= i64_max) (write_image five_sectors)) as Hs.
  { apply (bool_decide_unpack _). vm_compute. exact I. }
  induction Hs as [|bs bss Hb _ IH]; constructor; [by apply serves_mem|exact IH].
Qed.

Lemma written_image_reads_witness :
  exists r r', open_v1 five_sources 2 None = Ok r /\ read_at 4 510 r = (Ok (map byte_of_Z [1; 1; 2; 2]), r').
Proof.
  destruct (written_image_reads five_sectors (map SrcMem (write_image five_sectors)) five_sources 2
    five_sectors_ok five_served (reverse_Permutation _)) as (r & im & Hopen & Hr & _ & Hreads).
  destruct (proj1 (Hreads r 0 Hr) 4 510) as (r' & Hrun & _); [eval_fact|eval_range|].
  exists r, r'. split; [exact Hopen|]. rewrite Hrun. apply (f_equal (fun bs => (Ok bs, r'))).
  vm_compute. reflexivity.
Defined.

Lemma five_sectors2_ok : acquisition2_ok five_sectors2.
Proof.
  constructor.
  - split_and!; eval_fact.
  - eval_fact.
  - eval_fact.
  - repeat constructor; try eval_fact; apply id_inflates.
  - apply (bool_decide_unpack _). vm_compute. exact I.
  - eval_fact.
  - split; eval_fact.
  - repeat (split || constructor); try eval_fact. eexists. vm_compute. reflexivity.
  - repeat constructor; eval_fact.
  - apply (bool_decide_unpack _). vm_compute. exact I.
Qed.

Lemma five_stored2 : Forall2 stores five_files2 (write_image2 five_sectors2).
Proof.
  unfold five_files2. induction (write_image2 five_sectors2) as [|bs bss IH]; constructor; [|exact IH].
  split; [apply quiet_reliable|split; reflexivity].
Qed.

Lemma written_ex01_reads_witness :
  exists r r', open_paths nat open_five2 [1; 0]%nat 2 None = Ok r /\
    read_at 4 510 r = (Ok (map byte_of_Z [1; 1; 2; 2]), r').
Proof.
  destruct (written_ex01_reads open_five2 five_sectors2 five_files2 (reverse five_files2) [1; 0]%nat 2 None
    five_sectors2_ok five_stored2 (reverse_Permutation _)) as (r & im & Hopen & Hr & _ & Hreads).
  { unfold five_files2, write_image2. repeat constructor. }
  destruct (proj1 (Hreads r 0 Hr) 4 510) as (r' & Hrun & _); [eval_fact|eval_range|].
  exists r, r'. split; [exact Hopen|]. rewrite Hrun. apply (f_equal (fun bs => (Ok bs, r'))).
  vm_compute. reflexivity.
Defined.

Definition wrong_sha1 : expected_hashes :=
  {| expected_md5 := None; expected_sha1 := Some (zeros 20); expected_sha256 := None |}.

Section Framed.
#[local] Existing Instance FramedZlib.

Lemma framed_whole data : zlen data <= u32_max -> inflates (frame data) data.
Proof. intros Hd. rewrite <-(app_nil_r (frame data)). by apply framed_inflates. Qed.

Lemma checked_sectors2_ok : acquisition2_ok checked_sectors2.
Proof.
  constructor.
  - split_and!; eval_fact.
  - eval_fact.
  - eval_fact.
  - repeat constructor; try eval_fact; apply framed_inflates; eval_fact.
  - apply (bool_decide_unpack _). vm_compute. exact I.
  - eval_fact.
  - split; eval_fact.
  - repeat (split || constructor); try eval_fact. eexists. vm_compute. reflexivity.
  - repeat constructor; eval_fact.
  - apply (bool_decide_unpack _). vm_compute. exact I.
Qed.

Lemma checked_sectors2_checked : acquisition2_checked checked_sectors2.
Proof.
  constructor.
  - vm_compute. reflexivity.
  - repeat constructor; eexists; (split; [reflexivity|]); [apply framed_whole; eval_fact|reflexivity|apply framed_whole; eval_fact].
  - repeat constructor; vm_compute; reflexivity.
  - vm_compute. reflexivity.
Qed.

Lemma written_ex01_clean_witness :
  exists mismatch, analyse {| segments := write_image2 checked_sectors2; expected := wrong_sha1 |} = Ok [mismatch].
Proof.
  eexists. destruct (written_ex01_clean checked_sectors2 wrong_sha1 checked_sectors2_ok checked_sectors2_checked) as [Hrun _].
  rewrite Hrun. vm_compute. reflexivity.
Defined.
End Framed.

Lemma written_image_clean_witness :
  exists mismatch, analyse {| segments := write_image five_sectors; expected := wrong_sha1 |} = Ok [mismatch].
Proof.
  eexists. destruct (written_image_clean five_sectors wrong_sha1 five_sectors_ok) as [Hrun _].
  - split; [reflexivity|left; reflexivity].
  - rewrite Hrun. vm_compute. reflexivity.
Defined.

Lemma wiped_shape : acquisition_shape wiped.
Proof. eval_shape. Qed.

(** The third chunk comes back from behind the wiped one. *)
Lemma written_image_recovers_witness :
  exists r out, recover_segments no_fault None None (write_image wiped) [] = (Ok r, out) /\
    slice out 2048 2560 = Some (sector 5).
Proof.
  pose proof (written_image_recovers no_fault None None wiped wiped_shape) as H.
  destruct (recover_segments no_fault None None (write_image wiped) []) as [[r|[]|] out]; try (exfalso; exact H);
    [|exfalso; apply no_os_fault in H; exact H].
  exists r, out. split; [reflexivity|]. destruct H as (_ & _ & _ & Hintact & _ & _).
  assert (get (aq_chunks wiped) 2 = Some (zlib_chunk (sector 5))) as Hget by (vm_compute; reflexivity).
  destruct (Hintact 2 _ Hget) as [Heq _].
  - repeat constructor; try eval_fact; apply id_inflates.
  - transitivity (slice (aq_media wiped) 2048 2560); [exact Heq|vm_compute; reflexivity].
Defined.

(** * Findings at concrete inputs *)

(** An EWF v2 image whose first chunk entry points past the end of the segment and whose
    stored MD5 is all zeroes: the analysis reports nothing, though a reference hash is
    given; with the entry intact it reports both mismatches. *)
Definition ex01_checker (first_entry : Z) : EwfIntegrity :=
  with_expected_md5 (EwfIntegrity_new (ex01_with [first_entry; 40] (zeros 16))) (zeros 16).

Lemma v2_lost_chunk_unreported : analyse (ex01_checker 10000) = Ok [].
Proof. vm_compute. reflexivity. Qed.

Lemma v2_kept_chunks_reported :
  analyse (ex01_checker 32) =
  Ok [HashMismatch (hash_md5 disk_hashes) (zeros 16);
      ExternalMd5Mismatch (hash_md5 disk_hashes) (zeros 16)].
Proof. vm_compute. reflexivity. Qed.

(** The analyser finds three sectors to a chunk or sectors of 2048 bytes an anomaly,
    though the reader presents the media of such an image like any other. *)
Lemma three_sectors_ok : acquisition_ok three_sectors.
Proof. split; [eval_shape|]. repeat constructor; try eval_fact; apply id_inflates. Qed.

Lemma long_sector_ok : acquisition_ok long_sector.
Proof. split; [eval_shape|]. repeat constructor; try eval_fact; apply id_inflates. Qed.

Lemma v1_geometry_reported :
  analyse (EwfIntegrity_from_segments (write_image three_sectors)) = Ok [ChunkSizeInvalid 3 512] /\
  analyse (EwfIntegrity_from_segments (write_image long_sector)) = Ok [BytesPerSectorInvalid 2048].
Proof. split; vm_compute; reflexivity. Qed.

(** The analyser takes the last four bytes of every chunk for a checksum, also of a
    compressed chunk that has none: the first chunk of an image that the reader reads
    (written_ex01_reads_witness) is reported. *)
Lemma v2_unchecksummed_reported :
  exists others, analyse (EwfIntegrity_from_segments (write_image2 five_sectors2))
                 = Ok (ChunkChecksumMismatch 0 4019127801 33686018 :: others).
Proof. eexists. vm_compute. reflexivity. Qed.

(** It takes section 10, restart data in the reader, for a SHA-256 digest, and asks for
    section 2, case data in the reader, as the media information. *)
Lemma v2_section_numbers_reported :
  exists computed, analyse (EwfIntegrity_from_segments (write_image2 bare_sector2))
                   = Ok [Ewf2MediaInfoMissing; DigestSha256Mismatch computed (zeros 32)].
Proof. eexists. vm_compute. reflexivity. Qed.

(** It hashes whole chunks, whatever the size of the media is: the padding of a last
    chunk that is stored as a page makes the stored digests wrong. *)
Lemma v2_padding_reported :
  exists md5s sha1s, analyse (EwfIntegrity_from_segments (write_image2 padded_sector2))
    = Ok [HashMismatch md5s.1 md5s.2; DigestSha1Mismatch sha1s.1 sha1s.2].
Proof. eexists (_, _), (_, _). vm_compute. reflexivity. Qed.
