(* ===== verification/CommandWitnesses.v ===== *)
(** The properties of the command [ewf] at concrete inputs: in the directory of
    [Shell], with the image of [Fixtures], eight bytes that read diskdata. *)

From stdpp Require Import gmap.
From S2P Require Import Prelude Text Json Extern Types Sections Source ChunkTable ReaderOpen Reader Logical.
From S2P Require Import Discover Anomaly IntegrityV1 Integrity EwfCheck EwfCheckProps Acquire Stored AcquireRead AcquireCheck AcquireV2 AcquireV2Read Evidence.
From S2P Require Import Hex Cli CliProps ErrorText Values Mcp McpProps Output OutputProps Fixtures Shell Witnesses.

Ltac eval_fact := vm_compute; first [reflexivity | discriminate | done].
Ltac eval_range := split; eval_fact.

Definition disk_path : text := str "disk.E01".

Lemma search_complete_witness :
  handle_ewf_search (open_in home) disk_path (hex_string (ascii_bytes (str "kd"))) 10 = Ok [3].
Proof.
  pose proof (search_complete home_image disk_pages home_whole (open_in home) disk_path (ascii_bytes (str "kd"))
    10 0 home_reader home_opens (proj2 home_presented) ltac:(eval_range) ltac:(eval_fact)) as Hrun.
  refine (eq_trans Hrun _). vm_compute. reflexivity.
Defined.

Lemma extract_spec_witness :
  handle_ewf_extract (open_in home) (fun _ _ => None) None disk_path 2 3 (str "out") =
  (Ok {| ej_offset := 2; ej_bytes_written := 3; ej_output := str "out" |}, Some (ascii_bytes (str "skd"))).
Proof.
  pose proof (extract_spec home_image disk_pages home_whole (fun _ _ => None) (fun _ _ => eq_refl) (open_in home)
    disk_path (str "out") 0 home_reader 2 3 home_opens (proj2 home_presented) ltac:(eval_fact) ltac:(eval_fact)) as Hrun.
  rewrite Hrun. vm_compute. reflexivity.
Defined.

Lemma read_shows_media_witness :
  exists out, main (fun _ => true) (CmdRead disk_path 2 5000) [] home = (Ok (prints out), home) /\
    concat (map dump_bytes (lines out)) = ascii_bytes (str "skdata").
Proof.
  pose proof (read_shows_media (fun _ => true) home_image disk_pages home disk_path 0 home_reader 2 5000 []
    home_whole home_opens (proj2 home_presented) ltac:(eval_fact) ltac:(eval_fact)) as Hrun.
  change (im_total_size home_image <=? 2) with false in Hrun. cbn iota in Hrun.
  destruct Hrun as (out & Hrun & Hbytes & _). exists out. split; [exact Hrun|].
  refine (eq_trans Hbytes _). vm_compute. reflexivity.
Defined.

Lemma verify_exit_sound_witness :
  exists p, main (fun _ => true) (CmdVerify disk_path false) [] home = (Ok p, home) /\ p_code p = 0.
Proof.
  destruct (verify_exit_sound (fun _ => true) home_image 0 home_reader home disk_path false []
    (proj1 home_presented) (proj2 home_presented) ltac:(eval_fact) home_opens) as (p & Hrun & Hzero & _).
  exists p. split; [exact Hrun|]. apply Hzero. exists disk_pages. split; [exact (wh_pages _ _ home_whole)|].
  split; [eval_fact|]. split; intros h Hh.
  - vm_compute in Hh. injection Hh as <-. vm_compute. reflexivity.
  - vm_compute in Hh. discriminate Hh.
Defined.

(** ** A session: an initialization, its notification, a call and a line that is not JSON *)
Definition request (id : Z) (method : text) (params : list (text * Value)) : text :=
  print_value (object [(str "jsonrpc", vstr "2.0"); (str "id", vnum id); (str "method", VString method);
                       (str "params", object params)]).

Definition read_args : Value := object [(str "path", VString disk_path); (str "offset", vnum 2); (str "length", vnum 3);
  (str "pattern", vstr "6b64"); (str "output", vstr "out")].

Definition session : list (option text) :=
  map Some [request 1 (str "initialize") []; request 2 (str "notifications/initialized") [];
            request 3 (str "tools/call") [(str "name", vstr "ewf_read_sectors"); (str "arguments", read_args)];
            []; str "hello"].

Definition session_run : (outcome Empty_set unit) * (directory * text) := run session (home, []).

Lemma session_ends : fst session_run = Ok tt.
Proof. vm_compute. reflexivity. Qed.

Lemma mcp_session_witness :
  exists resps, lines (snd (snd session_run)) = map to_string resps /\
    Forall2 answers [request 1 (str "initialize") [];
      request 3 (str "tools/call") [(str "name", vstr "ewf_read_sectors"); (str "arguments", read_args)];
      str "hello"] resps.
Proof.
  pose proof (mcp_session session home) as Hrun. change (run session (home, [])) with session_run in Hrun.
  pose proof session_ends as Hends. destruct session_run as [m [w out]]. cbn [fst] in Hends. subst m.
  destruct Hrun as (served & resps & Hlines & Hanswers & Hserved & _). exists resps. split; [exact Hlines|].
  assert (expected session = [request 1 (str "initialize") [];
    request 3 (str "tools/call") [(str "name", vstr "ewf_read_sectors"); (str "arguments", read_args)];
    str "hello"]) as He by (vm_compute; reflexivity).
  rewrite <-He, <-Hserved. exact Hanswers.
Defined.

Lemma mcp_tools_show_media_witness :
  dispatch_tool (str "ewf_read_sectors") read_args home =
    (Ok (sectors_value {| sj_offset := 2; sj_length := 3; sj_hex := str "736b64" |}), home) /\
  dispatch_tool (str "ewf_search") read_args home = (Ok (search_value (str "6b64") [3]), home) /\
  snd (dispatch_tool (str "ewf_extract") read_args home) = (str "out", ascii_bytes (str "skd")) :: home.
Proof.
  destruct (mcp_tools_show_media home_image disk_pages home_whole home disk_path 0 home_reader read_args
    home_opens (proj2 home_presented) eq_refl) as (Hread & Hsearch & Hextract).
  split; [|split].
  - refine (eq_trans (Hread ltac:(eval_fact) ltac:(eval_fact)) _). vm_compute. reflexivity.
  - refine (eq_trans (Hsearch (ascii_bytes (str "kd")) eq_refl ltac:(eval_range) ltac:(eval_fact)) _).
    vm_compute. reflexivity.
  - rewrite (Hextract 2 3 (str "out") eq_refl eq_refl eq_refl ltac:(eval_fact) ltac:(eval_fact)
      eq_refl (fun _ _ => eq_refl)). vm_compute. reflexivity.
Defined.

(** ** A tree of a directory and a file *)
Definition tree_text : text :=
  concat (map (fun l => l ++ [newline])
    [str "entry"; str "x"; join tab [str "p"; str "n"; str "ls"; str "id"];
     join tab [str "0"; str "1"]; [];
     join tab [str "0"; str "1"]; join tab [str "1"; str "docs"; str "0"; str "1"];
     join tab [str "0"; str "0"]; join tab [[]; str "a.txt"; str "4"; str "2"]]).

Definition tree_found : res (LtreeHeader * list byte) :=
  let body := concat (map (le_bytes 2) tree_text) in
  Ok ({| data_md5 := md5 body; ltree_data_size := zlen body; checksum := 0 |}, body).

Definition tree_summary : ls_summary :=
  match list_ltree tree_found false with
  | Ok s => s
  | _ => {| ls_entries := []; ls_paths := []; ls_files := 0; ls_dirs := 0; ls_bytes := 0; ls_verified := false;
            ls_indicators := 0; ls_replaced := 0; ls_warnings := [] |}
  end.

Lemma tree_listed : list_ltree tree_found false = Ok tree_summary.
Proof. vm_compute. reflexivity. Qed.

Lemma tree_digests : Forall digest_shown (ls_entries tree_summary).
Proof.
  assert (map le_md5 (ls_entries tree_summary) = [None; None]) as Heq by (vm_compute; reflexivity).
  apply (List.Forall_map le_md5 (fun h => Forall shown (default [] h))). rewrite Heq.
  repeat (constructor; [constructor|]). constructor.
Qed.

Lemma shown_text t : forallb (fun c => (32 <=? c) && printable c) t = true -> Forall shown t.
Proof.
  intros Ht. apply Forall_forall. intros c Hc. rewrite forallb_forall in Ht.
  specialize (Ht c ltac:(by apply list_elem_of_In)). bool_hyps. do 5 right. done.
Qed.

Lemma ls_json_spec_witness :
  exists ts rest, handle_ls tree_found true false = Ok (concat (map (fun t => t ++ [newline]) ts) ++ newline :: rest) /\
    map read_json ts =
      [Some (JObj [(str "path", JStr (str "docs")); (str "dir", JBool true); (str "size", JNum 0);
                   (str "md5", JStr []); (str "id", JNum 1)]);
       Some (JObj [(str "path", JStr (str "docs/a.txt")); (str "dir", JBool false); (str "size", JNum 4);
                   (str "md5", JStr []); (str "id", JNum 2)])].
Proof.
  destruct (ls_json_spec tree_found tree_summary tree_listed) as (ts & rest & Hrun & _ & Hread).
  - exact tree_digests.
  - assert (ls_paths tree_summary = [str "docs"; str "docs/a.txt"]) as -> by (vm_compute; reflexivity).
    constructor; [apply shown_text; eval_fact|]. constructor; [apply shown_text; eval_fact|constructor].
  - exists ts, rest. split; [exact Hrun|]. refine (eq_trans Hread _). vm_compute. reflexivity.
Defined.

(** ** The images of [Fixtures] that were written by an acquisition, in a directory *)
Definition five_names : list text := [str "./five.E01"; str "./five.E02"].
Definition shelf (bss : list (list byte)) : directory := zip five_names bss.

Lemma quiet_stores bs : stores (quiet bs) bs.
Proof. split; [intros off n; constructor|split; reflexivity]. Qed.

Lemma shelf_stored b1 b2 : stored_as (shelf [b1; b2]) five_names [b1; b2].
Proof.
  exists [quiet b1; quiet b2]. split.
  - repeat (constructor; [apply quiet_stores|]). constructor.
  - repeat (constructor; [reflexivity|]). constructor.
Qed.

Lemma shelf_found b1 b2 : found_from (shelf [b1; b2]) (str "five.E01") five_names.
Proof. exists five_names. split; reflexivity. Qed.

Definition five_first (bss : list (list byte)) : list byte := default [] (bss !! 0%nat).
Definition five_second (bss : list (list byte)) : list byte := default [] (bss !! 1%nat).

Lemma evidence_commands_witness :
  let files := write_image2 five_sectors2 in
  let here := shelf [five_first files; five_second files] in
  exists p, main (fun _ => true) (CmdExtract (str "five.E01") 510 4 (str "out")) [] here =
    (Ok p, (str "out", map byte_of_Z [1; 1; 2; 2]) :: here) /\ p_code p = 0.
Proof.
  cbv zeta. set (files := write_image2 five_sectors2).
  assert (acquired (a2_media five_sectors2) [five_first files; five_second files]) as Hacq.
  { exact (acquired_v2 _ five_sectors2 five_sectors2_ok eq_refl). }
  destruct (evidence_commands (fun _ => true) (shelf [five_first files; five_second files]) (str "five.E01") five_names
    _ _ [] Hacq (shelf_stored _ _) (shelf_found _ _)) as (_ & _ & _ & Hextract).
  destruct (Hextract 510 4 (str "out")) as (p & Hrun & Hcode); [eval_range|eval_fact|reflexivity|reflexivity|].
  exists p. split; [|exact Hcode]. refine (eq_trans Hrun _).
  apply (f_equal (fun bs => (Ok p, (str "out", bs) :: shelf [five_first files; five_second files]))).
  vm_compute. reflexivity.
Defined.

(** The MD5 is right, the SHA-1 is not. *)
Definition five_options : options :=
  {| min_severity := Critical; json_mode := false; print_hashes := true; show_progress := true;
     hash_md5_opt := Some (md5 (aq_media five_sectors)); hash_sha1_opt := Some (zeros 20); hash_sha256_opt := None;
     paths := five_names |}.

Lemma evidence_checked_witness :
  let files := write_image five_sectors in
  exists shown, run_options (fs_is_file (shelf [five_first files; five_second files])) (bytes_in (shelf [five_first files; five_second files])) five_options
    = Ok (Report shown (Some (digests_of (aq_media five_sectors)))) /\ exit_code (Report shown None) = 1.
Proof.
  cbv zeta. set (files := write_image five_sectors).
  assert (acquired_sound (aq_media five_sectors) [five_first files; five_second files]) as Hacq.
  { refine (sound_v1 _ five_sectors five_sectors_ok _ eq_refl). split; [reflexivity|left; reflexivity]. }
  destruct (evidence_checked (shelf [five_first files; five_second files]) five_names
    _ _ five_options Hacq (shelf_stored _ _) eq_refl) as (shown & Hrun & _ & Hone & _).
  exists shown. split; [exact Hrun|]. apply Hone. intros (_ & Hsha & _). specialize (Hsha _ eq_refl).
  vm_compute in Hsha. discriminate Hsha.
Defined.
