(* ===== verification/ToolWitnesses.v ===== *)
(** The properties of the open entry points and of the tools beside the library - the
    example, the fuzz targets and the benchmark - at concrete inputs. *)

From stdpp Require Import gmap.
From S2P Require Import Prelude Text Extern Types Sections Ewf2 Source ChunkTable Path ReaderOpen Resident Reader.
From S2P Require Import OpenSafe Discover Acquire AcquireV2 Anomaly IntegrityV1 Integrity FuzzTargets Bench BenchProps BenchMain Fixtures Shell Witnesses.

(** A build whose plain arithmetic wraps. *)
Definition Wrapping : Profile := false.

Lemma quiet_ok bytes : zlen bytes <= i64_max -> file_ok (quiet bytes).
Proof. intros Hl. split; [intros off n; constructor|]. split; [exact Hl|reflexivity]. Qed.

(** ** An EWF v2 image whose chunk size has 80 bits *)
Definition vast_size : text := str "1099511627776".
Definition vast_rows : list text :=
  [str "1"; str "main"; join tab [str "b"; str "sc"; str "ts"]; join tab [vast_size; vast_size; str "1"]].
Definition vast_file : list byte :=
  segment_bytes2 1 (zeros 16)
    [(DeviceInfo, utf16_bytes (concat (map (fun l => l ++ [newline]) vast_rows))); (Done, [])].
Definition open_vast (k : nat) : outcome io_error File :=
  match k with O => Ok (quiet vast_file) | _ => Err OtherIo end.

(** With overflow checks the product of its geometry panics in the open. *)
Example vast_panics : open_paths nat open_vast [0%nat] 2 None = Panic.
Proof. vm_compute. reflexivity. Qed.

Section Wrapped.
#[local] Existing Instance Wrapping.

Lemma open_paths_safe_witness :
  returns (fun r => exists v, r_chunks r = Eager v /\
            (r_chunk_size r <= i64_max -> forall n off, 0 <= n -> 0 <= off <= u64_max ->
               no_panic (fst (read_at n off r)) /\ fst (read_at n off r) = read_spec (image_of r v) n off))
    (open_paths nat open_vast [0%nat] 2 None) /\
  (match open_paths nat open_vast [0%nat] 2 None with Ok r => r_chunk_size r = 32768 | _ => False end).
Proof.
  split.
  - apply (open_paths_safe eq_refl nat open_vast) with (limit := 1000).
    + intros [|k] f; [|discriminate]. intros Hf. injection Hf as <-. apply quiet_ok. eval_fact.
    + intros [|k] Hp; discriminate Hp.
    + intros [|k] f; [|discriminate]. intros Hf. injection Hf as <-. eval_fact.
    + eval_fact.
  - vm_compute. reflexivity.
Defined.

(** ** A scratch directory for the fuzz targets *)
Definition scratch_write (path : text) (data : list byte) : option filesystem :=
  if zlen data <=? i64_max then
    Some {| fs_glob pattern := Some (if ends_with (str "[0-9][0-9]") pattern then [Some path] else []);
            fs_open p := if text_eqb p path then Ok (quiet data) else Err OtherIo;
            fs_map p := if text_eqb p path then Ok data else Err OtherIo;
            fs_exists p := false |}
  else None.

Lemma scratch_fresh path data fs : scratch_write path data = Some fs -> scratch fs path data.
Proof.
  unfold scratch_write. destruct (_ <=? _) eqn:E; [|discriminate]. intros Hfs. injection Hfs as <-. bool_hyps.
  constructor; cbn.
  - intros pattern. destruct (ends_with _ pattern); [right|left]; reflexivity.
  - intros p f. destruct (text_eqb p path); [|discriminate]. intros Hf. injection Hf as <-. split; [by apply quiet_ok|reflexivity].
  - intros p. by destruct (text_eqb p path).
  - intros p. by destruct (text_eqb p path).
  - reflexivity.
Qed.

Lemma fuzz_targets_return_witness :
  parse_segment (fun t => t) (Some (str "tmp")) scratch_write vast_file = Ok tt /\
  fuzz_recover (Some (str "tmp")) scratch_write (fun _ _ => None) None None 1 vast_file = Ok tt.
Proof.
  destruct (fuzz_targets_return (fun t => t) (Some (str "tmp")) scratch_write scratch_fresh eq_refl
    (fun _ _ => None) None None 0 vast_file) as (_ & Hs & _ & _ & Hr); [eval_fact|]. exact (conj Hs Hr).
Defined.
End Wrapped.

(** ** The example [validate] on a file of zeros and a path that is not there *)
Definition zero_path : text := str "zeros.E01".
Definition some_files (p : text) : outcome io_error (list byte) :=
  if text_eqb p zero_path then Ok (zeros 20) else Err OtherIo.

Lemma validate_verdict_witness :
  exists out err, validate_main some_files (fun _ => str "not found") (fun _ => str "...") [str "gone"; zero_path] = Ok (out, err, 1) /\
    zlen err = 1.
Proof.
  destruct (validate_verdict some_files (fun _ => str "not found") (fun _ => str "...")) with (paths := [str "gone"; zero_path])
    as (out & err & code & Hrun & Hone & _ & Hlines).
  - intros p Hp. unfold some_files in Hp. destruct (text_eqb p zero_path); discriminate Hp.
  - intros p d. unfold some_files. destruct (text_eqb p zero_path); [|discriminate]. intros Hd. injection Hd as <-. eval_fact.
  - assert (code = 1) as ->; [|exists out, err; split; [exact Hrun|]].
    + apply Hone. right. exists zero_path. eexists. split; [right; left|]. split.
      * vm_compute. left.
      * right. reflexivity.
    + apply Hlines. discriminate.
Defined.

(** ** A codec of runs: a byte and how often it is there; what follows is not read *)
Definition run_data (raw : list byte) : list byte :=
  replicate (Z.to_nat (le_combine (ztake 4 raw))) (default Byte.x00 (raw !! 4%nat)).
Definition run_encode (data : list byte) : list byte := le_bytes 4 (zlen data) ++ [default Byte.x00 (head data)].

Definition RunZlib : Zlib := {|
  zdecoder := list byte;
  zlib_new raw := run_data raw;
  zlib_read d n := Some (ztake n d, zdrop n d);
  zlib_read_to_end raw limit := Some (match limit with Some l => ztake l (run_data raw) | None => run_data raw end);
|}.

Definition RunZlibLaws : @ZlibLaws RunZlib.
Proof.
  split; cbn; [intros d n bs d' [= <- _]|intros raw limit out [= <-]]; rewrite zlen_ztake; lia.
Qed.

Section Runs.
#[local] Existing Instance RunZlib.
#[local] Existing Instance RunZlibLaws.

Lemma run_blob : blob run_encode = le_bytes 4 Bench.CHUNK_SIZE ++ [Byte.x00].
Proof. unfold blob, run_encode. rewrite zlen_zeros by (unfold Bench.CHUNK_SIZE; lia). reflexivity. Qed.

Lemma run_blob_fits : 0 < zlen (blob run_encode) <= Bench.CHUNK_SIZE.
Proof. rewrite run_blob. eval_range. Qed.

Lemma run_blob_inflates rest : inflates (blob run_encode ++ rest) (zeros Bench.CHUNK_SIZE).
Proof.
  assert (run_data (blob run_encode ++ rest) = zeros Bench.CHUNK_SIZE) as Hd.
  { rewrite run_blob. unfold run_data. rewrite <-app_assoc, ztake_app_len by reflexivity. reflexivity. }
  split.
  - exists eq. split; [exact Hd|]. intros d l n. apply list_reads.
  - intros limit _. cbn [zlib_read_to_end RunZlib]. rewrite Hd. reflexivity.
Qed.

(** Three chunks in sections of two entries. *)
Definition three_chunks : list byte := bench_file run_encode 3 192 [2; 1].

Lemma three_chunks_built file : build_many_chunk_e01 run_encode 3 2 = Ok file -> file = three_chunks /\ zlen file = 552.
Proof.
  rewrite build_ok by eval_range. intros Hf. injection Hf as <-. split; [reflexivity|].
  unfold bench_file. rewrite run_blob. vm_compute. reflexivity.
Qed.

Lemma bench_image_opens_witness :
  exists r r', open_v1 [SrcMem three_chunks] 100 None = Ok r /\ open_v1 [SrcMem three_chunks] 100 (Some 1) = Ok r' /\
    chunk_count_of r = 3 /\ chunk_count_of r' = 3 /\ fst (read_at 4 100 r') = Ok (zeros 4).
Proof.
  destruct (bench_image_opens run_encode run_blob_fits run_blob_inflates 3 2) as (file & Hbuild & Hopen); [eval_range|eval_range|].
  destruct (three_chunks_built file Hbuild) as [Hfile Hlen]. rewrite <-Hfile.
  destruct (Hopen (SrcMem file) 100 1) as (r & r' & im & Hr & Hr' & Hc & Hc' & _ & Hp' & Hread).
  - apply serves_mem. rewrite Hlen. eval_fact.
  - exists r, r'. split_and!; try assumption.
    destruct (Hread r' 0 4 100 Hp') as (r2 & Hrun & _); [eval_fact|eval_range|].
    rewrite Hrun. reflexivity.
Defined.

Definition bench_path : text := str "tmp/bench.E01".
Definition bench_write (file : list byte) : text * filesystem :=
  (bench_path,
   {| fs_glob pattern := Some (if ends_with (str "[0-9][0-9]") pattern then [Some bench_path] else []);
      fs_open p := if text_eqb p bench_path then Ok (quiet file) else Err OtherIo;
      fs_map p := if text_eqb p bench_path then Ok file else Err OtherIo;
      fs_exists p := text_eqb p bench_path |}).

Lemma bench_main_runs_witness :
  exists m, bench_main run_encode (fun t => t) bench_write [str "3"; str "2"] = Ok m /\
    bm_chunk_count m = 3 /\ bm_eager_seq m = 98304 /\ bm_lazy_seq m = 98304 /\ bm_lazy_rnd m = 655360000 /\
    bm_eager_resident m = 48 /\ bm_lazy_resident_cold m = 112.
Proof.
  destruct (bench_main_runs run_encode (fun t => t) bench_write run_blob_fits run_blob_inflates) with (args := [str "3"; str "2"]) (total := 3) (entries := 2)
    as (m & Hrun & Hcount & _ & He & Hl & Hre & Hrl & Hr & Hc & _).
  - split; eval_range.
  - vm_compute. reflexivity.
  - eval_range.
  - eval_range.
  - intros file Hbuild. split; [vm_compute; reflexivity|]. exists (quiet file). split; [reflexivity|]. split; [|reflexivity].
    apply quiet_ok. destruct (three_chunks_built file Hbuild) as [_ ->]. eval_fact.
  - exists m. split; [exact Hrun|]. rewrite Hrl, Hcount, He, Hl, Hre, Hr, Hc. split_and!; vm_compute; reflexivity.
Defined.
End Runs.
